(* ===== verification/_CoqProject ===== *)
-Q . S2P
Prelude.v
PhysMem.v
HvError.v
Addr.v
Frame.v
Sim.v
Stable.v
FramePool.v
Region.v
Pte.v
S2pt.v
S1pt.v
PtIface.v
Paging.v
PagingWf.v
PagingSpec.v
PagingLoop.v
PagingWalk.v
PtInstance.v
PtAccount.v
BTreeMap.v
MemorySet.v
MemoryDrop.v
Heap.v
CpuSet.v
Mmio.v
Console.v
Config.v
Platform.v
Sys.v
Asm.v
BootPt.v
ZoneOps.v
Gic.v
Event.v
Virtio.v
Vgic.v
Hypercall.v
Trap.v
El2.v
SysFrame.v
Boot.v
BootInv.v
BootSys.v
RvPte.v
RvS1pt.v
RvS2pt.v
RvPaging.v
RvPagingSpec.v
RvCpu.v
RvAsm.v
RvMm.v
Demo.v
PteProps.v
FrameProps.v
MemoryProps.v
HeapProps.v
ZoneProps.v
DemoSys.v
GicProps.v
RuntimeProps.v
ZoneLife.v
Spaces.v
Robust.v
ZoneInv.v
ExitInv.v
ExitPar.v
ExitTlb.v
Runtime.v
BootPhase.v
BootRun.v
Tlb.v
DemoBoot.v
Shutdown.v
SystemSafe.v
LowProps.v
SystemProps.v
RvCpuProps.v
RvProps.v
BootProps.v
