(* ===== verification/Prelude.v ===== *)
(** * hvisor: a verified model of the hypervisor

    hvisor is a type-1 hypervisor in Rust. It splits a machine into zones: the root
    zone, booted first, and guests the root zone starts and stops with hypercalls.
    Each zone has its own second-stage address space, its own CPUs, interrupts and
    emulated devices. This library models the aarch64 build from the first
    instruction of a CPU to the handlers that run when a guest traps, proves what
    every state of the machine satisfies from reset on, and models the page tables,
    the address space, the trap and the SBI code of the riscv64 port.

    ** The program and the files that model it

    Shared machinery:
    - Prelude: outcomes of Rust code, weakest preconditions. Sim: simulation between
      two computations. Stable: invariants of computations and the values they yield.
      PhysMem: physical memory as bytes.

    Memory:
    - Addr: src/src/memory/addr.rs and src/src/consts.rs. HvError: src/src/error.rs.
    - Frame: src/src/memory/frame.rs, the allocator of physical frames over the bitmap
      of the crate [bitmap_allocator] (a parameter, class [BitAlloc] with the laws
      [BitAllocLaws]; [BitSet] is a first-fit instance). FramePool: what dropping
      frames does to the pool, [Frame::new_16], the self test.
    - Region: the regions and mappers of src/src/memory/{mm,mapper,mod}.rs.
    - Pte: [PageSize], [Page] and the trait [GenericPTE] of
      src/src/arch/aarch64/paging.rs as a class, whose laws speak of an entry format
      (what survives of an address and of flags); S2pt and S1pt: its two aarch64
      implementations, the descriptors of src/src/arch/aarch64/{s2pt,s1pt}.rs.
    - PtIface: the trait [GenericPageTable] as a class, and its contract
      [GenericPageTableLaws]: what [map], [unmap], [query] and the drop promise to a
      client, in terms of a view (a partial map from addresses to translations).
    - Paging: the page tables of src/src/arch/aarch64/paging.rs over raw memory, three
      or four levels. PagingWf defines the hardware's walk of the same memory and the
      well-formedness of a tree of tables; PagingSpec and PagingLoop prove what one
      page operation and the loops over a region do; PagingWalk models [walk] and
      [dump]; PtInstance shows that the code meets the contract, and frames it against
      other tables; PtAccount accounts for the frames a table holds.
    - BTreeMap: the standard library's ordered map. MemorySet: the address spaces of
      src/src/memory/mm.rs, proved against the contract only. MemoryDrop: a set whose
      last insertion failed can still be dropped.
    - Heap: src/src/memory/heap.rs over an allocator with laws (classes [Allocator] and
      [AllocatorLaws], for the crate [buddy_system_allocator]), with [Box] and [Vec].

    Zones and handlers:
    - CpuSet (src/src/percpu.rs), Mmio (src/src/memory/mmio.rs), Config
      (src/src/config.rs), Platform (src/src/platform and the root configuration).
    - Sys: the global state. ZoneOps: src/src/zone.rs and the zone parts of
      src/src/arch/aarch64/{zone,mm}.rs and of vgic.rs.
    - Gic, Vgic: src/src/device/irqchip/gicv3. Event: src/src/event.rs. Virtio:
      src/src/device/virtio_trampoline.rs. Hypercall: src/src/hypercall/mod.rs and
      src/src/arch/aarch64/cpu.rs. Trap: src/src/arch/aarch64/trap.rs. SysFrame: the
      parts of the state that operations leave alone.

    The lowest layer:
    - Asm: [arch_entry] and [shutdown_el2] (src/src/arch/aarch64/entry.rs), the entry of
      a guest exit (trap.S), [vmreturn] and [enable_mmu] as lists of instructions with a
      meaning; where a CPU's stack and saved registers are. BootPt: the table of
      boot_pt.S maps the hypervisor's addresses to themselves. El2: the vector table and
      exits from EL2.
    - Console: src/src/device/uart, src/src/logging.rs, src/src/panic.rs, the text of
      errors.

    Boot (src/src/main.rs):
    - Boot: [rust_main] on all CPUs as a machine; a step takes one CPU from one
      synchronisation point to the next, in any interleaving. BootInv: its invariant,
      termination and progress, for any code between the points. BootSys: the
      hypervisor's own code between them, on CPUs with their own registers.

    The running machine:
    - Spaces: several address spaces over one frame pool. Robust: what an operation on
      one of them keeps whether it returns or fails. ZoneInv: the invariant of the
      zones, and that creating, starting and removing zones keep it. ExitInv, ExitPar:
      that every exit of a guest keeps it. ExitTlb: that an exit which changes or leaves
      a table orders the invalidations it should. Runtime: guests on all CPUs that store
      to their memory and exit, next to devices that change; its invariant. BootPhase and
      BootRun: the boot machine followed by these steps, and that the invariant is
      established by the boot. Tlb: the same machine with a cache of translations on each
      CPU, filled from the tables at any time and emptied by the invalidations the
      hypervisor executes on it; every run without caches is a run of it. DemoBoot, Shutdown: the QEMU board, booted, and a
      sequence of hypercalls on it.

    The riscv64 port (src/src/arch/riscv64, src/src/device/irqchip/plic):
    - RvPte: its trait of entries, seen as an instance of the aarch64 trait; RvS1pt and
      RvS2pt: the two Sv39 formats. RvPaging: its page tables; RvPagingSpec: that they
      simulate the aarch64 code and so meet the same contract.
    - RvCpu: CSRs, CPU structure, SBI calls and traps. RvAsm: trap.S and [arch_entry] as
      instructions with a meaning, and the CPU structure in memory. RvMm:
      [init_hv_page_table].

    Demo, DemoSys: concrete machines. PteProps, FrameProps, MemoryProps, HeapProps,
    ZoneProps, GicProps, RuntimeProps, ZoneLife, Shutdown, SystemSafe, LowProps,
    SystemProps, RvCpuProps, RvProps, BootProps: the properties C1 to C40, and further theorems that are not numbered.

    ** How the code is modelled

    A function that can fail, panic or touch state is a computation [M S E A]: from a
    state to [ROk], [RErr] (Rust's [Err], keeping the changes made so far), [RPanic]
    (with the kind of panic; the build aborts) or [RHang] (an endless loop). Integers
    are in Z at their width; [+], [-], [*] and [<<] panic when they overflow, as in the
    default build ([MODE ?= debug]). [Arc<RwLock<Zone>>] is a pointer into a heap
    shared by the zone list and the CPUs. A handler runs to completion on one CPU. What
    is not under src/ is a parameter: the bitmap allocator, the constant
    [psci::error::INVALID_ADDRESS], device registers (class [Bus]), the guest's
    configuration block, linker addresses, the device tree, the heap allocator, the SBI firmware, the
    undeclared constant [TEMPORARY_MAPPING_BASE] of the riscv64 port. The virtio
    backend that runs while the hypervisor spins is a list of changes to the shared
    memory, one per turn; when the list is used up the loop spins for ever.

    Fuel: [map] and [unmap] loop over a region with [loop_fuel] turns, one per 4K page
    and one more, which the proofs show to be enough for every region inside the
    table's range; [inject_results] has 32 turns, the size of the ring, which C27
    proves to be enough; [Frame::new_16] needs one turn per free frame and one more
    (RvProps.new_16_correct); [wait_waker] and the polling of a UART have the fuel of
    their caller. The boot machine has no fuel: C15 bounds the length of every run.

    ** What the theorems show

    - C1 to C5: every state reachable from reset, in any interleaving of boot steps,
      guest exits (with any registers), guest stores and device activity: the
      machine's invariant, the confinement of guests to their configured memory, what
      two guests can share, that no store of a guest changes a translation, and that
      no frame is lost or used twice. C2 is about the machine with translation caches: a
      guest reaches nothing else by a translation cached earlier either. They assume a
      board whose configurations and parking page stay clear of the frame pool
      ([board_ok]), a machine as it comes out of reset ([cold]), and that a CPU that has
      been told to shut down stores nothing before it takes the interrupt
      ([rstep_store]). C36 shows that the last one is needed: the code itself does not
      wait for the CPU.
    - C6 to C8, C34: [map], [unmap] and [update] do to the hardware's translation
      exactly what they should, and [query] agrees with the hardware. C20: mapping and
      unmapping cancel, for both ports. C18: the tables of the two ports are the same
      function.
    - C9 to C11: a [MemorySet] refines a finite map of disjoint regions; what a guest's
      addresses translate to. C12: an address space's operations change no translation
      of another.
    - C19, C21: frames are allocated fresh and zeroed, a table returns every frame it
      took. C22: descriptors encode and decode. C35: the heap works.
    - C14, C15: the boot: in every interleaving everything is initialised before a guest
      runs, and every CPU gets there. C39, C40: what happens when the firmware starts
      other CPUs than CPU 0.
    - C13, C16, C17: hypercalls, the creation and the shutdown of zones.
    - C23 to C28, C37: interrupt injection, the virtual distributor and redistributors,
      virtio, PSCI, trapped loads.
    - C29, C31: guest registers survive an exit; a log record reaches the UART.
    - C30, C32, C33, C38: the riscv64 port: a guest's call to the SBI from [ecall] to
      [sret], the hypervisor's address space, the trap handler and the table roots.

    ** Not modelled

    Of the hardware: caches and barriers, the caching of intermediate table entries by
    the walk (a TLB holds whole translations here), the intermediate states of an
    assembly sequence as another CPU sees them. Locks: a handler holds them for its whole
    run, or takes and releases them with no interleaving, so handlers of different CPUs
    run one after the other. What compiled code leaves in registers and stack frames (a
    parameter of [arch_entry] and of the riscv64 trap vector). Whether the hypervisor's
    own data fits in its heap. The vendored crate fdt. Code that is commented out or
    [todo!()]: the handlers of the riscv64 port's interrupts and guest page faults, the
    hypervisor's own table on aarch64. *)

From stdpp Require Export base gmap list numbers strings.
From Stdlib Require Export ZArith Lia.
Global Open Scope Z_scope.

(** ** Outcomes of Rust code

    A call either returns [Ok], returns [Err] (the state changes made so far
    stay), panics ([panic = "abort"] in Cargo.toml: the state is gone) or never
    returns ([loop {}], or a spin loop that is out of fuel). *)

Inductive panic : Type :=
| PAssert        (* assert! / assert_eq! / debug_assert! *)
| POverflow      (* + - * << out of range with overflow checks *)
| PUnwrap        (* Option::unwrap, Result::unwrap, expect *)
| PIndex         (* slice or array index out of range *)
| PExplicit      (* panic!, unreachable! *)
| PTodo          (* todo! *)
| PUndef.        (* undefined behaviour: an access outside the object *)

#[global] Instance panic_eq_dec : EqDecision panic.
Proof. solve_decision. Defined.

Inductive res (S E A : Type) : Type :=
| ROk (a : A) (s : S)
| RErr (e : E) (s : S)
| RPanic (why : panic)
| RHang.
Arguments ROk {S E A} a s.
Arguments RErr {S E A} e s.
Arguments RPanic {S E A} why.
Arguments RHang {S E A}.

(** The computation monad: a state that Rust mutates through references,
    early return with [?], panics and non-termination. *)
Definition M (S E A : Type) : Type := S → res S E A.

Definition hret {S E A} (a : A) : M S E A := λ s, ROk a s.

Definition hbind {S E A B} (m : M S E A) (f : A → M S E B) : M S E B :=
  λ s, match m s with
       | ROk a s' => f a s'
       | RErr e s' => RErr e s'
       | RPanic p => RPanic p
       | RHang => RHang
       end.

Definition herr {S E A} (e : E) : M S E A := λ s, RErr e s.
Definition hpanic {S E A} (p : panic) : M S E A := λ _, RPanic p.
Definition hhang {S E A} : M S E A := λ _, RHang.
Definition hget {S E} : M S E S := λ s, ROk s s.
Definition hgets {S E A} (f : S → A) : M S E A := λ s, ROk (f s) s.
Definition hput {S E} (s : S) : M S E unit := λ _, ROk tt s.
Definition hmodify {S E} (f : S → S) : M S E unit := λ s, ROk tt (f s).

(** [Result::map_err]. *)
Definition map_err {S E E' A} (g : E → E') (m : M S E A) : M S E' A :=
  λ s, match m s with
       | ROk a s' => ROk a s'
       | RErr e s' => RErr (g e) s'
       | RPanic p => RPanic p
       | RHang => RHang
       end.

(** [Result::unwrap] and [Result::expect]: an [Err] becomes a panic. *)
Definition hunwrap {S E E' A} (m : M S E A) : M S E' A :=
  λ s, match m s with
       | ROk a s' => ROk a s'
       | RErr _ _ => RPanic PUnwrap
       | RPanic p => RPanic p
       | RHang => RHang
       end.

(** [Option::unwrap]. *)
Definition ounwrap {S E A} (o : option A) : M S E A :=
  match o with Some a => hret a | None => hpanic PUnwrap end.

(** [assert!]. *)
Definition hassert {S E} (b : bool) : M S E unit :=
  if b then hret tt else hpanic PAssert.

(** Running a computation on a component of the state. *)
Definition zoom {S T E A} (get : S → T) (put : T → S → S) (m : M T E A) : M S E A :=
  λ s, match m (get s) with
       | ROk a t => ROk a (put t s)
       | RErr e t => RErr e (put t s)
       | RPanic p => RPanic p
       | RHang => RHang
       end.

Declare Scope hv_scope.
Delimit Scope hv_scope with hv.
Notation "'let*' x := m 'in' k" := (hbind m (λ x, k))
  (at level 10, x name, m at level 200, k at level 200,
   format "'[v' 'let*'  x  :=  m  'in' '/' k ']'") : hv_scope.
Notation "'let*' ' p := m 'in' k" := (hbind m (λ x, match x with p => k end))
  (at level 10, p strict pattern, m at level 200, k at level 200,
   format "'[v' 'let*'  ' p  :=  m  'in' '/' k ']'") : hv_scope.
Notation "m ;;; k" := (hbind m (λ _, k))
  (at level 100, k at level 200, right associativity) : hv_scope.
Global Open Scope hv_scope.

(** ** Machine integers

    [usize] and [u64] are 64-bit: an element of Z in [0, 2^64). The default
    build ([MODE ?= debug] in the Makefile) has overflow checks, so [+], [-]
    and [*] panic when the result does not fit. *)

Definition U64 : Z := 2 ^ 64.
Definition U32 : Z := 2 ^ 32.
Definition is_u64 (x : Z) : Prop := 0 ≤ x < U64.
Definition is_u32 (x : Z) : Prop := 0 ≤ x < U32.

Definition uadd {S E} (a b : Z) : M S E Z :=
  if a + b <? U64 then hret (a + b) else hpanic POverflow.
Definition usub {S E} (a b : Z) : M S E Z :=
  if b <=? a then hret (a - b) else hpanic POverflow.
Definition umul {S E} (a b : Z) : M S E Z :=
  if a * b <? U64 then hret (a * b) else hpanic POverflow.

(** [usize::wrapping_sub]. *)
Definition wrapping_sub (a b : Z) : Z := (a - b) mod U64.
(** [!x] on a 64-bit word. *)
Definition unot64 (x : Z) : Z := U64 - 1 - x.

(** ** Weakest preconditions (no panic, always returns) *)

Definition wp {S E A} (m : M S E A) (Q : A → S → Prop) (R : E → S → Prop) (s : S) : Prop :=
  match m s with
  | ROk a s' => Q a s'
  | RErr e s' => R e s'
  | RPanic _ => False
  | RHang => False
  end.

Section wp.
  Context {S E A B : Type}.
  Implicit Types (s : S).

Lemma wp_ret (a : A) (Q : A → S → Prop) (R : E → S → Prop) s :
  Q a s → wp (hret a) Q R s.
Proof. done. Qed.

Lemma wp_err (e : E) (Q : A → S → Prop) (R : E → S → Prop) s :
  R e s → wp (herr e) Q R s.
Proof. done. Qed.

Lemma wp_bind (m : M S E A) (f : A → M S E B) Q R s :
  wp m (λ a s', wp (f a) Q R s') R s → wp (hbind m f) Q R s.
Proof. unfold wp, hbind. by destruct (m s). Qed.

Lemma wp_mono (m : M S E A) (Q Q' : A → S → Prop) (R R' : E → S → Prop) s :
  wp m Q R s →
  (∀ a s', Q a s' → Q' a s') →
  (∀ e s', R e s' → R' e s') →
  wp m Q' R' s.
Proof. unfold wp. destruct (m s); naive_solver. Qed.

Lemma wp_gets (f : S → A) (Q : A → S → Prop) (R : E → S → Prop) s :
  Q (f s) s → wp (hgets f) Q R s.
Proof. done. Qed.

Lemma wp_modify (f : S → S) (Q : unit → S → Prop) (R : E → S → Prop) s :
  Q tt (f s) → wp (hmodify f) Q R s.
Proof. done. Qed.

Lemma wp_assert b (Q : unit → S → Prop) (R : E → S → Prop) s :
  b = true → Q tt s → wp (hassert b) Q R s.
Proof. by intros ->. Qed.

Lemma wp_uadd a b (Q : Z → S → Prop) (R : E → S → Prop) s :
  a + b < U64 → Q (a + b) s → wp (uadd a b) Q R s.
Proof. intros H ?. unfold uadd. apply Z.ltb_lt in H. by rewrite H. Qed.

Lemma wp_usub a b (Q : Z → S → Prop) (R : E → S → Prop) s :
  b ≤ a → Q (a - b) s → wp (usub a b) Q R s.
Proof. intros H ?. unfold usub. apply Z.leb_le in H. by rewrite H. Qed.

Lemma wp_umul a b (Q : Z → S → Prop) (R : E → S → Prop) s :
  a * b < U64 → Q (a * b) s → wp (umul a b) Q R s.
Proof. intros H ?. unfold umul. apply Z.ltb_lt in H. by rewrite H. Qed.

Lemma wp_ok (m : M S E A) (Q : A → S → Prop) (R : E → S → Prop) s a s' :
  wp m Q R s → m s = ROk a s' → Q a s'.
Proof. unfold wp. intros H Hm. by rewrite Hm in H. Qed.

Lemma wp_err_inv (m : M S E A) (Q : A → S → Prop) (R : E → S → Prop) s e s' :
  wp m Q R s → m s = RErr e s' → R e s'.
Proof. unfold wp. intros H Hm. by rewrite Hm in H. Qed.
End wp.

Lemma wp_zoom {S T E A} (get : S → T) (put : T → S → S) (m : M T E A) Q R s :
  wp m (λ a t, Q a (put t s)) (λ e t, R e (put t s)) (get s) →
  wp (zoom get put m) Q R s.
Proof. unfold wp, zoom. by destruct (m (get s)). Qed.

Lemma wp_map_err {S E E' A} (g : E → E') (m : M S E A) Q R s :
  wp m Q (λ e s', R (g e) s') s → wp (map_err g m) Q R s.
Proof. unfold wp, map_err. by destruct (m s). Qed.

Lemma wp_unwrap {S E E' A} (m : M S E A) Q (R : E' → S → Prop) s :
  wp m Q (λ _ _, False) s → wp (hunwrap m) Q R s.
Proof. unfold wp, hunwrap. by destruct (m s). Qed.

(** ** Computations that may panic but neither fail nor hang *)

Definition wpp {S E A} (m : M S E A) (Q : A → S → Prop) (s : S) : Prop :=
  match m s with
  | ROk a s' => Q a s'
  | RErr _ _ => False
  | RPanic _ => True
  | RHang => False
  end.

Section wpp.
  Context {S E A B : Type}.
  Implicit Types (s : S).

Lemma wpp_ret (a : A) (Q : A → S → Prop) s : Q a s → wpp (E:=E) (hret a) Q s.
Proof. done. Qed.

Lemma wpp_panic p (Q : A → S → Prop) s : wpp (E:=E) (hpanic p) Q s.
Proof. done. Qed.

Lemma wpp_bind (m : M S E A) (f : A → M S E B) Q s :
  wpp m (λ a s', wpp (f a) Q s') s → wpp (hbind m f) Q s.
Proof. unfold wpp, hbind. by destruct (m s). Qed.

Lemma wpp_mono (m : M S E A) (Q Q' : A → S → Prop) s :
  wpp m Q s → (∀ a s', Q a s' → Q' a s') → wpp m Q' s.
Proof. unfold wpp. destruct (m s); naive_solver. Qed.

Lemma wpp_run (m : M S E A) Q s : wpp m Q s → wpp m (λ a s', m s = ROk a s' ∧ Q a s') s.
Proof. unfold wpp. by destruct (m s). Qed.

Lemma wpp_gets (f : S → A) (Q : A → S → Prop) s : Q (f s) s → wpp (E:=E) (hgets f) Q s.
Proof. done. Qed.

Lemma wpp_modify (f : S → S) (Q : unit → S → Prop) s : Q tt (f s) → wpp (E:=E) (hmodify f) Q s.
Proof. done. Qed.

Lemma wpp_unwrap_opt (o : option A) (Q : A → S → Prop) s :
  (∀ a, o = Some a → Q a s) → wpp (E:=E) (ounwrap o) Q s.
Proof. destruct o; [|done]. intros H. by apply H. Qed.

Lemma wpp_assert b (Q : unit → S → Prop) s :
  (b = true → Q tt s) → wpp (E:=E) (hassert b) Q s.
Proof. destruct b; [|done]. intros H. by apply H. Qed.
End wpp.

(** A computation that only reads the state (or panics). *)
Definition reader {S E A} (m : M S E A) : Prop := ∀ s, wpp m (λ _ s', s' = s) s.

Section reader.
  Context {S E A B : Type}.

Lemma reader_ret (a : A) : reader (S:=S) (E:=E) (hret a).
Proof. done. Qed.
Lemma reader_panic p : reader (S:=S) (E:=E) (A:=A) (hpanic p).
Proof. done. Qed.
Lemma reader_gets (f : S → A) : reader (E:=E) (hgets f).
Proof. done. Qed.
Lemma reader_unwrap (o : option A) : reader (S:=S) (E:=E) (ounwrap o).
Proof. intros s. by apply wpp_unwrap_opt. Qed.
Lemma reader_assert b : reader (S:=S) (E:=E) (hassert b).
Proof. intros s. by apply wpp_assert. Qed.
Lemma reader_bind (m : M S E A) (f : A → M S E B) :
  reader m → (∀ a, reader (f a)) → reader (hbind m f).
Proof.
  intros Hm Hf s. apply wpp_bind. eapply wpp_mono; [apply Hm|]. intros a s' ->. apply Hf.
Qed.
Lemma wpp_reader (m : M S E A) Q s : reader m → (∀ a, Q a s) → wpp m Q s.
Proof. intros Hm HQ. eapply wpp_mono; [apply Hm|]. by intros a s' ->. Qed.
End reader.

(** ** Computations that may return, fail or panic, but not hang *)

Definition wpe {S E A} (m : M S E A) (Q : A → S → Prop) (R : E → S → Prop) (s : S) : Prop :=
  match m s with
  | ROk a s' => Q a s'
  | RErr e s' => R e s'
  | RPanic _ => True
  | RHang => False
  end.

Section wpe.
  Context {S E A B : Type}.
  Implicit Types (s : S) (R : E → S → Prop).

Lemma wpe_bind (m : M S E A) (f : A → M S E B) Q R s :
  wpe m (λ a s', wpe (f a) Q R s') R s → wpe (hbind m f) Q R s.
Proof. unfold wpe, hbind. by destruct (m s). Qed.

Lemma wpe_mono (m : M S E A) (Q Q' : A → S → Prop) R R' s :
  wpe m Q R s → (∀ a s', Q a s' → Q' a s') → (∀ e s', R e s' → R' e s') → wpe m Q' R' s.
Proof. unfold wpe. destruct (m s); naive_solver. Qed.

Lemma wpe_wp (m : M S E A) Q R s : wp m Q R s → wpe m Q R s.
Proof. unfold wp, wpe. by destruct (m s). Qed.

Lemma wpe_wpp (m : M S E A) (Q Q' : A → S → Prop) R s :
  wpp m Q s → (∀ a s', Q a s' → Q' a s') → wpe m Q' R s.
Proof. unfold wpp, wpe. destruct (m s); naive_solver. Qed.

Lemma wpe_reader (m : M S E A) Q R s : reader m → (∀ a, m s = ROk a s → Q a s) → wpe m Q R s.
Proof.
  intros Hm HQ. specialize (Hm s). unfold wpp, wpe in *. destruct (m s) as [a s1| | |]; try done.
  subst. by apply HQ.
Qed.
End wpe.

Lemma wpe_zoom {S T E A} (get : S → T) (put : T → S → S) (m : M T E A) Q R s :
  wpe m (λ a t, Q a (put t s)) (λ e t, R e (put t s)) (get s) → wpe (zoom get put m) Q R s.
Proof. unfold wpe, zoom. by destruct (m (get s)). Qed.

Lemma wpe_unwrap {S E E' A} (m : M S E A) Q (R : E' → S → Prop) s :
  wpe m Q (λ _ _, True) s → wpe (hunwrap m) Q R s.
Proof. unfold wpe, hunwrap. by destruct (m s). Qed.

(** Inversion of a monadic computation that returned [Ok]. *)
Lemma hbind_ok_inv {S E A B} (m : M S E A) (f : A → M S E B) s b s' :
  hbind m f s = ROk b s' → ∃ a s1, m s = ROk a s1 ∧ f a s1 = ROk b s'.
Proof. unfold hbind. destruct (m s) eqn:?; try done. intros ?. by eexists _, _. Qed.

Lemma uadd_ok_inv {S E} a b (s s' : S) x :
  uadd (E:=E) a b s = ROk x s' → x = a + b ∧ s' = s ∧ a + b < U64.
Proof. unfold uadd. destruct (Z.ltb_spec (a + b) U64); [|done]. by intros [= <- <-]. Qed.

Lemma hassert_ok_inv {S E} b (s s' : S) x :
  hassert (E:=E) b s = ROk x s' → b = true ∧ s' = s.
Proof. destruct b; [|done]. by intros [= _ <-]. Qed.

(** ** Bits *)

Lemma testbit_small x n i : 0 ≤ x < 2 ^ n → n ≤ i → Z.testbit x i = false.
Proof.
  intros Hx Hi. destruct (decide (n < 0)).
  { rewrite Z.pow_neg_r in Hx; lia. }
  rewrite <- (Z.mod_small x (2 ^ n)); [|done]. apply Z.mod_pow2_bits_high. lia.
Qed.

Lemma land_ones_mod x n : 0 ≤ n → Z.land x (2 ^ n - 1) = x mod 2 ^ n.
Proof.
  intros. rewrite <- Z.land_ones; [|done]. by rewrite Z.ones_equiv, Z.sub_1_r.
Qed.

(** [x & !(2^n - 1)] clears the low bits: rounding down. *)
Lemma land_not_low x n :
  0 ≤ x < U64 → 0 ≤ n ≤ 64 → Z.land x (unot64 (2 ^ n - 1)) = x - x mod 2 ^ n.
Proof.
  intros Hx Hn. unfold unot64.
  assert (x - x mod 2 ^ n = Z.shiftl (Z.shiftr x n) n) as ->.
  { rewrite Z.shiftl_mul_pow2, Z.shiftr_div_pow2 by lia.
    pose proof (Z.div_mod x (2 ^ n)). lia. }
  assert (U64 - 1 - (2 ^ n - 1) = Z.shiftl (Z.ones (64 - n)) n) as ->.
  { rewrite Z.ones_equiv, Z.shiftl_mul_pow2 by lia. unfold U64.
    rewrite Z.mul_pred_l. rewrite <- Z.pow_add_r by lia.
    replace (64 - n + n) with 64 by lia. lia. }
  apply Z.bits_inj'; intros i Hi.
  rewrite Z.land_spec.
  destruct (Z.ltb_spec i n).
  { rewrite (Z.shiftl_spec_low (Z.ones _)), (Z.shiftl_spec_low (Z.shiftr _ _)) by lia.
    by rewrite andb_false_r. }
  rewrite !Z.shiftl_spec_high, Z.shiftr_spec by lia.
  replace (i - n + n) with i by lia.
  destruct (Z.ltb_spec i 64).
  - rewrite Z.ones_spec_low by lia. by rewrite andb_true_r.
  - rewrite (testbit_small x 64) by (unfold U64 in *; lia). done.
Qed.

Lemma is_u64_land x : is_u64 x ↔ Z.land x (Z.ones 64) = x.
Proof.
  rewrite Z.land_ones by done. unfold is_u64, U64. split.
  - apply Z.mod_small.
  - intros <-. by apply Z.mod_pos_bound.
Qed.

Lemma land_u64_r x y : is_u64 y → is_u64 (Z.land x y).
Proof. rewrite !is_u64_land, <- Z.land_assoc. by intros ->. Qed.

Lemma lor_u64 x y : is_u64 x → is_u64 y → is_u64 (Z.lor x y).
Proof. rewrite !is_u64_land, Z.land_lor_distr_l. by intros -> ->. Qed.

Lemma land_bit x i : 0 ≤ i → negb (Z.land x (Z.shiftl 1 i) =? 0) = Z.testbit x i.
Proof.
  intros Hi. rewrite Z.shiftl_1_l.
  destruct (Z.testbit x i) eqn:Hb.
  - apply negb_true_iff, Z.eqb_neq. intros H0.
    assert (Z.testbit (Z.land x (2 ^ i)) i = true) as Ht.
    { rewrite Z.land_spec, Hb, Z.pow2_bits_true; done. }
    rewrite H0, Z.bits_0 in Ht. done.
  - apply negb_false_iff, Z.eqb_eq, Z.bits_inj'. intros j Hj.
    rewrite Z.land_spec, Z.bits_0. destruct (decide (j = i)) as [->|Hne]; [by rewrite Hb|].
    rewrite Z.pow2_bits_false by lia. apply andb_false_r.
Qed.

(** ** Tactics *)

Create HintDb hv.
#[export] Hint Resolve reader_ret reader_panic reader_gets reader_unwrap reader_assert reader_bind : hv.

(** Shows that a computation only reads, by its structure. *)
Ltac solve_reader :=
  repeat first
    [ progress intros
    | apply reader_bind
    | match goal with |- reader (if ?b then _ else _) => destruct b end
    | match goal with |- reader (match ?x with _ => _ end) => destruct x end
    | solve [eauto 2 with hv] ].

(** One step of a [wp] goal through a bind. *)
Ltac wp_step := apply wp_bind.

Ltac inv_ok H :=
  let a := fresh "a" in let s := fresh "s" in let H1 := fresh "Hm" in
  apply hbind_ok_inv in H as (a & s & H1 & H).
