(* ===== verification/PhysMem.v ===== *)
(** * Physical memory

    The hypervisor runs identity mapped and reads and writes physical memory
    through raw pointers ([src/src/memory/frame.rs], [paging.rs],
    [mmio.rs]). Memory is a finite map from byte addresses to bytes; an absent
    byte reads as 0. Multi-byte accesses are little endian. *)

From S2P Require Import Prelude.

Abbreviation mem := (gmap Z Z).

Definition rd8 (m : mem) (a : Z) : Z := default 0 (m !! a).
Definition wr8 (m : mem) (a v : Z) : mem := <[a := v mod 256]> m.

(** [ptr::read_volatile] / a load of [n] bytes. *)
Fixpoint read_le (m : mem) (a : Z) (n : nat) : Z :=
  match n with
  | O => 0
  | S n' => rd8 m a + 256 * read_le m (a + 1) n'
  end.

(** [ptr::write_volatile] / a store of the low [n] bytes of [v]. *)
Fixpoint write_le (m : mem) (a : Z) (n : nat) (v : Z) : mem :=
  match n with
  | O => m
  | S n' => wr8 (write_le m (a + 1) n' (v / 256)) a v
  end.

Definition read64 (m : mem) (a : Z) : Z := read_le m a 8.
Definition write64 (m : mem) (a v : Z) : mem := write_le m a 8 v.

(** [for i in 0..n { *ptr.add(i) = byte }] *)
Fixpoint fill_bytes (m : mem) (a : Z) (n : nat) (b : Z) : mem :=
  match n with
  | O => m
  | S n' => fill_bytes (wr8 m a b) (a + 1) n' b
  end.

(** [slice[..len].copy_from_slice(data)] *)
Fixpoint copy_bytes (m : mem) (a : Z) (data : list Z) : mem :=
  match data with
  | [] => m
  | b :: data' => copy_bytes (wr8 m a b) (a + 1) data'
  end.

Lemma rd8_wr8 m a b v : rd8 (wr8 m a v) b = if decide (a = b) then v mod 256 else rd8 m b.
Proof. unfold rd8, wr8. rewrite lookup_insert. by case_decide. Qed.

Lemma read_le_ext m m' a n :
  (∀ b, a ≤ b < a + Z.of_nat n → rd8 m b = rd8 m' b) → read_le m a n = read_le m' a n.
Proof.
  revert a. induction n as [|n IH]; intros a H; [done|]; simpl.
  rewrite (H a), (IH (a + 1)); [done| |lia]. intros; apply H; lia.
Qed.

Lemma rd8_write_le_out m a n v b :
  b < a ∨ a + Z.of_nat n ≤ b → rd8 (write_le m a n v) b = rd8 m b.
Proof.
  revert a v. induction n as [|n IH]; intros a v H; [done|]; simpl.
  rewrite rd8_wr8. rewrite decide_False by lia. apply IH. lia.
Qed.

Lemma read_write_le m a n v :
  read_le (write_le m a n v) a n = v mod 2 ^ (8 * Z.of_nat n).
Proof.
  revert a v. induction n as [|n IH]; intros a v; simpl read_le; simpl write_le.
  { by rewrite Z.mod_1_r. }
  rewrite rd8_wr8, decide_True by done.
  rewrite (read_le_ext _ (write_le m (a + 1) n (v / 256))).
  2:{ intros b Hb. rewrite rd8_wr8, decide_False by lia. done. }
  rewrite IH. replace (8 * Z.of_nat (S n)) with (8 + 8 * Z.of_nat n) by lia.
  rewrite Z.pow_add_r by lia. change (2 ^ 8) with 256.
  rewrite Z.rem_mul_r; [done|lia|]. apply Z.pow_pos_nonneg; lia.
Qed.

Lemma read_write_le_ne m a b n n' v :
  b + Z.of_nat n' ≤ a ∨ a + Z.of_nat n ≤ b →
  read_le (write_le m a n v) b n' = read_le m b n'.
Proof. intros H. apply read_le_ext. intros c Hc. apply rd8_write_le_out. lia. Qed.

Lemma read_write64 m a v : is_u64 v → read64 (write64 m a v) a = v.
Proof. intros H. unfold read64, write64. rewrite read_write_le. by apply Z.mod_small. Qed.

Lemma read_write64_ne m a b v : b + 8 ≤ a ∨ a + 8 ≤ b → read64 (write64 m a v) b = read64 m b.
Proof. intros H. apply read_write_le_ne. lia. Qed.

Lemma rd8_fill m a n b c :
  rd8 (fill_bytes m a n b) c =
  if decide (a ≤ c < a + Z.of_nat n) then b mod 256 else rd8 m c.
Proof.
  revert m a. induction n as [|n IH]; intros m a; simpl.
  { rewrite decide_False by lia. done. }
  rewrite IH. destruct (decide (a + 1 ≤ c < a + 1 + Z.of_nat n)).
  { rewrite decide_True by lia. done. }
  rewrite rd8_wr8. destruct (decide (a = c)); case_decide; try lia; done.
Qed.

Lemma read64_ext m m' a : (∀ b, a ≤ b < a + 8 → rd8 m b = rd8 m' b) → read64 m a = read64 m' a.
Proof. intros H. apply read_le_ext. intros; apply H; lia. Qed.

Lemma read64_zero m a : (∀ b, a ≤ b < a + 8 → rd8 m b = 0) → read64 m a = 0.
Proof.
  intros H. rewrite (read64_ext m ∅); [done|].
  intros b Hb. rewrite H by done. done.
Qed.

Lemma rd8_copy_out m a data c :
  c < a ∨ a + Z.of_nat (length data) ≤ c → rd8 (copy_bytes m a data) c = rd8 m c.
Proof.
  revert m a. induction data as [|x data IH]; intros m a H; [done|]; simpl in *.
  rewrite IH by lia. rewrite rd8_wr8, decide_False by lia. done.
Qed.

Lemma rd8_copy_in m a data i x :
  data !! i = Some x → rd8 (copy_bytes m a data) (a + Z.of_nat i) = x mod 256.
Proof.
  revert m a i. induction data as [|y data IH]; intros m a i Hi; [done|].
  destruct i as [|i]; simpl in *.
  - simplify_eq. rewrite rd8_copy_out by lia. rewrite rd8_wr8, decide_True by lia. done.
  - replace (a + Z.of_nat (S i)) with (a + 1 + Z.of_nat i) by lia. by apply IH.
Qed.

#[export] Hint Resolve read_write64 : hv.
