(* ===== verification/HvError.v ===== *)
(** * Error values (src/src/error.rs)

    [HvErrorNum] is the POSIX errno enumeration. Of an [HvError] only the
    number reaches a guest ([HvError::code]); its file, line, column and message
    are only printed. *)

From S2P Require Import Prelude.

Inductive HvErrorNum : Type :=
| EPERM | ENOENT | EIO | E2BIG | ENOMEM | EFAULT
| EBUSY | EEXIST | ENODEV | EINVAL | ERANGE | ENOSYS.

#[global] Instance HvErrorNum_eq_dec : EqDecision HvErrorNum.
Proof. solve_decision. Defined.

(** The discriminants of [#[repr(u32)] enum HvErrorNum]. *)
Definition errno (n : HvErrorNum) : Z :=
  match n with
  | EPERM => 1 | ENOENT => 2 | EIO => 5 | E2BIG => 7 | ENOMEM => 12 | EFAULT => 14
  | EBUSY => 16 | EEXIST => 17 | ENODEV => 19 | EINVAL => 22 | ERANGE => 34 | ENOSYS => 38
  end.

Record HvError : Type := mkHvError { num : HvErrorNum }.

(** [hv_err!(num)] *)
Definition hv_err (n : HvErrorNum) : HvError := mkHvError n.

(** [HvError::code]: the negated errno, as an [isize]. *)
Definition code (e : HvError) : Z := - errno (num e).

(** [hv_result_err!(num)] *)
Definition hv_result_err {S A} (n : HvErrorNum) : M S HvError A := herr (hv_err n).

Lemma errno_inj n n' : errno n = errno n' → n = n'.
Proof. destruct n, n'; done. Qed.

Lemma errno_range n : 1 ≤ errno n ≤ 38.
Proof. destruct n; simpl; lia. Qed.
