(* ===== verification/Addr.v ===== *)
(** * Addresses and page rounding (src/src/memory/addr.rs, src/src/consts.rs) *)

From S2P Require Import Prelude.

Definition PAGE_SIZE : Z := 0x1000.

Definition HV_HEAP_SIZE : Z := 1024 * 1024.
Definition HV_MEM_POOL_SIZE : Z := 16 * 1024 * 1024.
Definition PER_CPU_SIZE : Z := 512 * 1024.
Definition INVALID_ADDRESS : Z := U64 - 1.
Definition MAX_CPU_NUM : Z := 4.

(** [__core_end] is a linker symbol: a parameter of the functions below. *)
Definition mem_pool_start {S E} (core_end : Z) : M S E Z :=
  let* o := umul MAX_CPU_NUM PER_CPU_SIZE in uadd core_end o.

Definition hv_end {S E} (core_end : Z) : M S E Z :=
  let* s := mem_pool_start core_end in uadd s HV_MEM_POOL_SIZE.

(** [PHYS_VIRT_OFFSET] is a [static mut], set to 0 and never written. *)
Definition PHYS_VIRT_OFFSET : Z := 0.

Definition virt_to_phys {S E} (vaddr : Z) : M S E Z := usub vaddr PHYS_VIRT_OFFSET.
Definition phys_to_virt {S E} (paddr : Z) : M S E Z := uadd paddr PHYS_VIRT_OFFSET.

Definition align_down (addr : Z) : Z := Z.land addr (unot64 (PAGE_SIZE - 1)).

Definition page_offset (addr : Z) : Z := Z.land addr (PAGE_SIZE - 1).

Definition is_aligned (addr : Z) : bool := page_offset addr =? 0.

(** [addr + PAGE_SIZE - 1] can overflow. *)
Definition align_up {S E} (addr : Z) : M S E Z :=
  let* a := uadd addr PAGE_SIZE in
  let* b := usub a 1 in
  hret (Z.land b (unot64 (PAGE_SIZE - 1))).

Definition page_count {S E} (size : Z) : M S E Z :=
  let* a := align_up size in hret (a / PAGE_SIZE).

(** ** Facts *)

Lemma page_offset_mod a : page_offset a = a mod PAGE_SIZE.
Proof. apply (land_ones_mod a 12). lia. Qed.

Lemma align_down_mod a : is_u64 a → align_down a = a - a mod PAGE_SIZE.
Proof. intros H. apply (land_not_low a 12); [done|lia]. Qed.

Lemma is_aligned_spec a : is_aligned a = true ↔ a mod PAGE_SIZE = 0.
Proof. unfold is_aligned. rewrite page_offset_mod. apply Z.eqb_eq. Qed.

(** The value [align_up] computes when it does not overflow. *)
Definition round_up (a : Z) : Z := (a + PAGE_SIZE - 1) / PAGE_SIZE * PAGE_SIZE.

Lemma align_up_ok {S E} a (s : S) :
  0 ≤ a → a + PAGE_SIZE < U64 → align_up (E:=E) a s = ROk (round_up a) s.
Proof.
  intros H0 H1. unfold align_up, hbind, uadd, usub.
  rewrite (proj2 (Z.ltb_lt _ _)) by done. cbn -[Z.land Z.mul Z.div].
  rewrite (proj2 (Z.leb_le 1 _)) by (unfold PAGE_SIZE in *; lia). cbn -[Z.land Z.mul Z.div].
  unfold hret, round_up. f_equal.
  change (PAGE_SIZE - 1) with (2 ^ 12 - 1).
  rewrite land_not_low by (unfold PAGE_SIZE in *; lia).
  change (2 ^ 12) with PAGE_SIZE.
  pose proof (Z.div_mod (a + PAGE_SIZE - 1) PAGE_SIZE). unfold PAGE_SIZE in *. lia.
Qed.

Lemma round_up_spec a :
  0 ≤ a → round_up a mod PAGE_SIZE = 0 ∧ a ≤ round_up a < a + PAGE_SIZE.
Proof.
  intros H. unfold round_up. split.
  - apply Z.mod_mul. done.
  - pose proof (Z.div_mod (a + PAGE_SIZE - 1) PAGE_SIZE).
    pose proof (Z.mod_pos_bound (a + PAGE_SIZE - 1) PAGE_SIZE). unfold PAGE_SIZE in *. lia.
Qed.

Lemma round_up_aligned a : a mod PAGE_SIZE = 0 → round_up a = a.
Proof.
  intros H. unfold round_up.
  pose proof (Z.div_mod a PAGE_SIZE ltac:(done)) as Hd. rewrite H in Hd.
  rewrite Hd at 1. replace (PAGE_SIZE * (a / PAGE_SIZE) + 0 + PAGE_SIZE - 1)
    with (PAGE_SIZE - 1 + (a / PAGE_SIZE) * PAGE_SIZE) by lia.
  rewrite Z.div_add by done. change ((PAGE_SIZE - 1) / PAGE_SIZE) with 0. lia.
Qed.

