(* ===== verification/Frame.v ===== *)
(** * Physical frame allocation (src/src/memory/frame.rs)

    The bitmap underneath is the third-party crate [bitmap_allocator]
    ([BitAlloc1M]): it is the class [BitAlloc] here, and what its documentation
    says of the operations is the class [BitAllocLaws]. [BitSet] at the end is a
    concrete first-fit instance that satisfies the laws. *)

From stdpp Require Import sorting.
From S2P Require Import Prelude PhysMem HvError Addr.

(** ** The interface of [bitmap_allocator::BitAlloc] *)

Class BitAlloc (T : Type) : Type := {
  ba_default : T;                                (* BitAlloc::DEFAULT *)
  ba_insert : Z → Z → T → T;                     (* insert(lo..hi) *)
  ba_alloc : T → option Z * T;                   (* alloc() *)
  ba_alloc_contiguous : Z → Z → T → option Z * T;(* alloc_contiguous(size, align_log2) *)
  ba_dealloc : Z → T → option T;                 (* dealloc(key); None: it panics *)
  ba_test : T → Z → bool                         (* test(key): the bit is free *)
}.

(** [BitAlloc1M::CAP] *)
Definition BA_CAP : Z := 2 ^ 20.

Class BitAllocLaws (T : Type) `{BitAlloc T} : Prop := {
  ba_default_law j : ba_test ba_default j = false;
  ba_insert_law lo hi s j :
    0 ≤ lo → hi ≤ BA_CAP →
    ba_test (ba_insert lo hi s) j = bool_decide (lo ≤ j < hi) || ba_test s j;
  ba_alloc_some s i s' :
    ba_alloc s = (Some i, s') →
    ba_test s i = true ∧ ∀ j, ba_test s' j = ba_test s j && bool_decide (j ≠ i);
  ba_alloc_none s s' :
    ba_alloc s = (None, s') → (∀ j, ba_test s j = false) ∧ ∀ j, ba_test s' j = ba_test s j;
  ba_contiguous_some n al s i s' :
    0 < n → 0 ≤ al → ba_alloc_contiguous n al s = (Some i, s') →
    i mod 2 ^ al = 0 ∧ (∀ j, i ≤ j < i + n → ba_test s j = true) ∧
    ∀ j, ba_test s' j = ba_test s j && negb (bool_decide (i ≤ j < i + n));
  ba_contiguous_none n al s s' :
    ba_alloc_contiguous n al s = (None, s') → ∀ j, ba_test s' j = ba_test s j;
  ba_dealloc_law i s :
    0 ≤ i < BA_CAP → ba_test s i = false →
    ∃ s', ba_dealloc i s = Some s' ∧ ∀ j, ba_test s' j = ba_test s j || bool_decide (j = i)
}.

(** ** State *)

Record FrameAllocator (T : Type) : Type := mkFA { fa_base : Z; fa_inner : T }.
Arguments mkFA {T} _ _.
Arguments fa_base {T} _.
Arguments fa_inner {T} _.

(** Physical memory and [static FRAME_ALLOCATOR]. *)
Record world (T : Type) : Type := mkW { w_mem : mem; w_fa : FrameAllocator T }.
Arguments mkW {T} _ _.
Arguments w_mem {T} _.
Arguments w_fa {T} _.

Record Frame : Type := mkFrame { start_paddr : Z; frame_count : Z }.

#[global] Instance Frame_eq_dec : EqDecision Frame.
Proof. solve_decision. Defined.

Definition set_mem {T} (m : mem) (w : world T) : world T := mkW m (w_fa w).
Definition set_fa {T} (fa : FrameAllocator T) (w : world T) : world T := mkW (w_mem w) fa.

(** [FRAME_ALLOCATOR.lock()] *)
Definition with_fa {T E A} (m : M (FrameAllocator T) E A) : M (world T) E A :=
  zoom w_fa set_fa m.

Section Frame.
  Context {T : Type} {HB : BitAlloc T}.

(** *** impl FrameAllocator *)

Definition FrameAllocator_empty : FrameAllocator T := mkFA 0 ba_default.

Definition FrameAllocator_init {E} (base size : Z) : M (FrameAllocator T) E unit :=
  let* b := align_up base in
  let* sz := align_up size in
  let page_count := sz / PAGE_SIZE in
  hmodify (λ fa, mkFA b (ba_insert 0 page_count (fa_inner fa))).

(** [.map(|idx| idx * PAGE_SIZE + self.base)] *)
Definition frame_addr {S E} (base : Z) (o : option Z) : M S E (option Z) :=
  match o with
  | Some idx =>
      let* x := umul idx PAGE_SIZE in
      let* a := uadd x base in
      hret (Some a)
  | None => hret None
  end.

Definition FrameAllocator_alloc {E} : M (FrameAllocator T) E (option Z) := λ fa,
  let '(o, inner) := ba_alloc (fa_inner fa) in
  frame_addr (fa_base fa) o (mkFA (fa_base fa) inner).

Definition FrameAllocator_alloc_contiguous {E} (frame_count align_log2 : Z) :
    M (FrameAllocator T) E (option Z) := λ fa,
  let '(o, inner) := ba_alloc_contiguous frame_count align_log2 (fa_inner fa) in
  frame_addr (fa_base fa) o (mkFA (fa_base fa) inner).

(** [self.inner.dealloc(key)] *)
Definition inner_dealloc {E} (key : Z) : M (FrameAllocator T) E unit := λ fa,
  match ba_dealloc key (fa_inner fa) with
  | Some inner => ROk tt (mkFA (fa_base fa) inner)
  | None => RPanic PAssert
  end.

Definition FrameAllocator_dealloc {E} (target : Z) : M (FrameAllocator T) E unit :=
  let* base := hgets fa_base in
  let* d := usub target base in
  inner_dealloc (d / PAGE_SIZE).

(** [for i in start_idx..start_idx + n { self.inner.dealloc(i) }] *)
Fixpoint dealloc_range {E} (start_idx : Z) (n : nat) : M (FrameAllocator T) E unit :=
  match n with
  | O => hret tt
  | S n' => inner_dealloc start_idx ;;; dealloc_range (start_idx + 1) n'
  end.

Definition FrameAllocator_dealloc_contiguous {E} (target frame_count : Z) :
    M (FrameAllocator T) E unit :=
  let* base := hgets fa_base in
  let* d := usub target base in
  let start_idx := d / PAGE_SIZE in
  let* _e := uadd start_idx frame_count in
  dealloc_range start_idx (Z.to_nat frame_count).

(** *** impl Frame *)

Definition frame_new : M (world T) HvError Frame :=
  let* o := with_fa FrameAllocator_alloc in
  match o with
  | Some a => hret (mkFrame a 1)
  | None => hv_result_err ENOMEM
  end.

Definition frame_size {S E} (f : Frame) : M S E Z := umul (frame_count f) PAGE_SIZE.

Definition frame_fill {E} (f : Frame) (byte : Z) : M (world T) E unit :=
  let* sz := frame_size f in
  hmodify (λ w, set_mem (fill_bytes (w_mem w) (start_paddr f) (Z.to_nat sz) byte) w).

Definition frame_clear {E} (f : Frame) : M (world T) E unit := frame_fill f 0.

Definition frame_new_zero : M (world T) HvError Frame :=
  let* f := frame_new in
  frame_clear f ;;; hret f.

Definition frame_new_contiguous (frame_count align_log2 : Z) : M (world T) HvError Frame :=
  let* o := with_fa (FrameAllocator_alloc_contiguous frame_count align_log2) in
  match o with
  | Some a => hret (mkFrame a frame_count)
  | None => hv_result_err ENOMEM
  end.

Definition frame_from_paddr {S E} (start_paddr : Z) : M S E Frame :=
  hassert (is_aligned start_paddr) ;;; hret (mkFrame start_paddr 0).

(** [impl Drop for Frame] *)
Definition frame_drop {E} (f : Frame) : M (world T) E unit :=
  if frame_count f =? 0 then hret tt
  else if frame_count f =? 1 then with_fa (FrameAllocator_dealloc (start_paddr f))
  else with_fa (FrameAllocator_dealloc_contiguous (start_paddr f) (frame_count f)).

(** Dropping a [Vec<Frame>]. *)
Fixpoint drop_frames {E} (v : list Frame) : M (world T) E unit :=
  match v with
  | [] => hret tt
  | f :: v' => frame_drop f ;;; drop_frames v'
  end.

(** A local [Vec<Frame>] is dropped when [?] returns early. *)
Definition dropping {A} (v : list Frame) (m : M (world T) HvError A) : M (world T) HvError A :=
  λ w, match m w with
       | RErr e w' => (drop_frames v ;;; herr e) w'
       | r => r
       end.

(** The [loop] of [Frame::new_16]; [v] is in push order. *)
Fixpoint new_16_loop (fuel : nat) (v : list Frame) : M (world T) HvError (list Frame) :=
  match fuel with
  | O => hhang
  | S fuel' =>
      let* f := dropping v frame_new_zero in
      if Z.land (start_paddr f) 0x3fff =? 0 then hret (v ++ [f])
      else new_16_loop fuel' (v ++ [f])
  end.

Definition frame_new_16 (fuel : nat) : M (world T) HvError Frame :=
  let* v := new_16_loop fuel [] in
  match v !! pred (length v) with
  | None => hpanic PUnwrap
  | Some f_16 =>
      frame_drop f_16 ;;;
      let v' := take (length v - 1) v in
      let* ret := dropping v' (frame_new_contiguous 4 0) in
      drop_frames v' ;;; hret ret
  end.

Definition frame_as_slice {E} (f : Frame) : M (world T) E (list Z) :=
  let* sz := frame_size f in
  hgets (λ w, rd8 (w_mem w) <$> seqZ (start_paddr f) sz).

Definition frame_copy_data_from {E} (f : Frame) (data : list Z) : M (world T) E unit :=
  let* sz := frame_size f in
  hassert (Z.of_nat (length data) <=? sz) ;;;
  hmodify (λ w, set_mem (copy_bytes (w_mem w) (start_paddr f) data) w).

(** [frame::init]: hand the pool between the per-CPU area and the end of the
    hypervisor's memory to the allocator. *)
Definition frame_init {E} (core_end : Z) : M (world T) E unit :=
  let* mem_pool_start := mem_pool_start core_end in
  let* e := hv_end core_end in
  let mem_pool_end := align_down e in
  let* mem_pool_size := usub mem_pool_end mem_pool_start in
  with_fa (FrameAllocator_init mem_pool_start mem_pool_size).

End Frame.

(** ** Invariant of the allocator and the specifications of its operations *)

(** The allocator manages [n] frames from a page-aligned base, all of them below
    2^48 (the output address range of a translation table). *)
Definition fa_inv {T} `{BitAlloc T} (n : Z) (fa : FrameAllocator T) : Prop :=
  fa_base fa mod PAGE_SIZE = 0 ∧ 0 ≤ fa_base fa ∧
  fa_base fa + n * PAGE_SIZE ≤ 2 ^ 48 ∧ n ≤ BA_CAP ∧
  ∀ j, ba_test (fa_inner fa) j = true → 0 ≤ j < n.

(** The frame at address [a] belongs to the pool and is handed out. *)
Definition fa_used {T} `{BitAlloc T} (n : Z) (fa : FrameAllocator T) (a : Z) : Prop :=
  ∃ i, 0 ≤ i < n ∧ a = fa_base fa + i * PAGE_SIZE ∧ ba_test (fa_inner fa) i = false.

(** Same pool, and every frame that was in use still is. *)
Definition fa_ext {T} `{BitAlloc T} (fa fa' : FrameAllocator T) : Prop :=
  fa_base fa' = fa_base fa ∧
  ∀ j, ba_test (fa_inner fa') j = true → ba_test (fa_inner fa) j = true.

Section FrameProofs.
  Context {T : Type} {HB : BitAlloc T} {HL : BitAllocLaws T}.

Lemma fa_ext_refl fa : fa_ext fa fa.
Proof. by split. Qed.

Lemma fa_ext_trans fa1 fa2 fa3 : fa_ext fa1 fa2 → fa_ext fa2 fa3 → fa_ext fa1 fa3.
Proof. intros [Hb H1] [Hb' H2]. split; [congruence|auto]. Qed.

Lemma fa_ext_used n fa fa' a : fa_ext fa fa' → fa_used n fa a → fa_used n fa' a.
Proof.
  intros [Hb Ht] (i & Hi & -> & Hf). exists i. split_and!; [lia..|by rewrite Hb|].
  destruct (ba_test (fa_inner fa') i) eqn:E; [|done]. apply Ht in E. congruence.
Qed.

Lemma fa_used_range n fa a :
  fa_inv n fa → fa_used n fa a → a mod PAGE_SIZE = 0 ∧ 0 ≤ a ∧ a + PAGE_SIZE ≤ 2 ^ 48.
Proof.
  intros (Hb & H0 & Htop & _) (i & Hi & -> & _). unfold PAGE_SIZE in *.
  rewrite Z.mod_add by done. lia.
Qed.

(** A frame the allocator is about to hand out is not one in use. *)
Lemma fa_fresh_ne n fa a i :
  fa_used n fa a → ba_test (fa_inner fa) i = true → a ≠ fa_base fa + i * PAGE_SIZE.
Proof.
  intros (k & _ & -> & Hk) Hi Heq. assert (k = i) as -> by (unfold PAGE_SIZE in *; lia).
  congruence.
Qed.

(** What allocating one frame promises. *)
Definition fresh_frame (n : Z) (w w' : world T) (f : Frame) : Prop :=
  frame_count f = 1 ∧ fa_inv n (w_fa w') ∧ fa_ext (w_fa w) (w_fa w') ∧
  fa_used n (w_fa w') (start_paddr f) ∧ ¬ fa_used n (w_fa w) (start_paddr f).

Lemma fa_alloc_spec {E} n fa :
  fa_inv n fa →
  wp (E:=E) FrameAllocator_alloc
    (λ o fa', fa_inv n fa' ∧ fa_ext fa fa' ∧
       match o with
       | Some a => fa_used n fa' a ∧ ¬ fa_used n fa a ∧
                   ∃ i, a = fa_base fa + i * PAGE_SIZE ∧ ba_test (fa_inner fa) i = true ∧
                        ∀ j, ba_test (fa_inner fa') j =
                             ba_test (fa_inner fa) j && bool_decide (j ≠ i)
       | None => (∀ j, ba_test (fa_inner fa) j = false) ∧
                 (∀ j, ba_test (fa_inner fa') j = ba_test (fa_inner fa) j)
       end)
    (λ _ _, False) fa.
Proof.
  intros Hinv. pose proof Hinv as (Hb & H0 & Htop & Hn & Ht).
  unfold wp, FrameAllocator_alloc. destruct (ba_alloc (fa_inner fa)) as [[i|] s'] eqn:E1.
  - destruct (ba_alloc_some _ _ _ E1) as [Hi Hs']. pose proof (Ht _ Hi) as Hir.
    unfold frame_addr, hbind, umul, uadd. unfold PAGE_SIZE, U64 in *.
    rewrite (proj2 (Z.ltb_lt (i * _) _)) by lia. simpl.
    rewrite (proj2 (Z.ltb_lt (_ + _) _)) by lia. simpl.
    assert (∀ j, ba_test s' j = true → ba_test (fa_inner fa) j = true) as Hsub.
    { intros j Hj. rewrite Hs' in Hj. by apply andb_true_iff in Hj as [? _]. }
    split; [|split; [|split; [|split]]].
    + split_and!; [done..|]. simpl. auto.
    + done.
    + exists i. simpl. unfold PAGE_SIZE. split_and!; [lia..|]. rewrite Hs', bool_decide_false by tauto.
      apply andb_false_r.
    + intros Hu. eapply fa_fresh_ne in Hu; [|done]. unfold PAGE_SIZE in *. lia.
    + exists i. unfold PAGE_SIZE. split_and!; [lia|done..].
  - destruct (ba_alloc_none _ _ E1) as [Hnone Hs']. simpl. split; [|split].
    + split_and!; [done..|]. simpl. intros j. rewrite Hs'. apply Ht.
    + split; [done|]. simpl. intros j. by rewrite Hs'.
    + done.
Qed.

Lemma wp_with_fa {E A} (m : M (FrameAllocator T) E A) Q R (w : world T) :
  wp m (λ a fa, Q a (set_fa fa w)) (λ e fa, R e (set_fa fa w)) (w_fa w) →
  wp (with_fa m) Q R w.
Proof. apply wp_zoom. Qed.

Lemma frame_new_spec n (w : world T) :
  fa_inv n (w_fa w) →
  wp frame_new
    (λ f w', fresh_frame n w w' f ∧ w_mem w' = w_mem w)
    (λ e w', num e = ENOMEM ∧ fa_inv n (w_fa w') ∧ fa_ext (w_fa w) (w_fa w') ∧
             w_mem w' = w_mem w ∧ ∀ j, ba_test (fa_inner (w_fa w)) j = false) w.
Proof.
  intros Hinv. apply wp_bind, wp_with_fa. eapply wp_mono; [by apply fa_alloc_spec| |done].
  intros [a|] fa' (Hinv' & Hext & Hrest).
  - apply wp_ret. destruct Hrest as (Hu & Hnu & _). by split_and!.
  - apply wp_err. destruct Hrest as [Hn _]. by split_and!.
Qed.

(** Allocating a frame with [new_zero] gives a fresh zeroed frame and touches no
    other byte. *)
Lemma frame_new_zero_spec n (w : world T) :
  fa_inv n (w_fa w) →
  wp frame_new_zero
    (λ f w', fresh_frame n w w' f ∧
       ∀ b, rd8 (w_mem w') b =
            if decide (start_paddr f ≤ b < start_paddr f + PAGE_SIZE) then 0
            else rd8 (w_mem w) b)
    (λ e w', num e = ENOMEM ∧ fa_inv n (w_fa w') ∧ fa_ext (w_fa w) (w_fa w') ∧
             w_mem w' = w_mem w ∧ ∀ j, ba_test (fa_inner (w_fa w)) j = false) w.
Proof.
  intros Hinv. apply wp_bind. eapply wp_mono; [by apply frame_new_spec| |done].
  intros f w' [(Hc & Hf) Hm]. apply wp_bind, wp_bind. unfold frame_size. rewrite Hc.
  apply wp_umul; [done|]. apply wp_modify, wp_ret. split; [by split|].
  intros b. unfold set_mem; cbn [w_mem]. rewrite rd8_fill, Hm. done.
Qed.

(** [FrameAllocator::dealloc] of a frame in use frees exactly that frame. *)
Lemma fa_dealloc_spec {E} n fa a :
  fa_inv n fa → fa_used n fa a →
  wp (E:=E) (FrameAllocator_dealloc a)
    (λ _ fa', fa_inv n fa' ∧ fa_base fa' = fa_base fa ∧
       ∃ i, a = fa_base fa + i * PAGE_SIZE ∧
            ∀ j, ba_test (fa_inner fa') j = ba_test (fa_inner fa) j || bool_decide (j = i))
    (λ _ _, False) fa.
Proof.
  intros (Hb & H0 & Htop & Hn & Ht) (i & Hi & -> & Hf).
  apply wp_bind, wp_gets, wp_bind, wp_usub; [unfold PAGE_SIZE in *; lia|].
  replace ((fa_base fa + i * PAGE_SIZE - fa_base fa) / PAGE_SIZE) with i.
  2:{ replace (fa_base fa + i * PAGE_SIZE - fa_base fa) with (i * PAGE_SIZE) by lia.
      by rewrite Z.div_mul. }
  unfold inner_dealloc, wp.
  destruct (ba_dealloc_law i (fa_inner fa)) as (s' & -> & Hs'); [lia|done|]. simpl.
  split; [|split].
  - split_and!; [done..|]. simpl. intros j Hj. rewrite Hs' in Hj. apply orb_true_iff in Hj as [Hj|Hj]; [auto|].
    apply bool_decide_eq_true in Hj. lia.
  - done.
  - exists i. done.
Qed.

(** Dropping frames neither fails nor hangs (it panics on a double free). *)
Lemma wpp_with_fa {E A} (m : M (FrameAllocator T) E A) (w : world T) :
  wpp m (λ _ _, True) (w_fa w) → wpp (with_fa m) (λ _ _, True) w.
Proof. unfold with_fa, zoom, wpp. by destruct (m (w_fa w)). Qed.

Lemma inner_dealloc_total {E} key (fa : FrameAllocator T) :
  wpp (E:=E) (inner_dealloc key) (λ _ _, True) fa.
Proof. unfold wpp, inner_dealloc. by destruct (ba_dealloc key (fa_inner fa)). Qed.

Lemma dealloc_range_total {E} k i (fa : FrameAllocator T) :
  wpp (E:=E) (dealloc_range i k) (λ _ _, True) fa.
Proof.
  revert i fa. induction k as [|k IH]; intros i fa; [done|]. simpl. apply wpp_bind.
  eapply wpp_mono; [apply inner_dealloc_total|]. intros _ fa' _. apply IH.
Qed.

Lemma frame_drop_total {E} f (w : world T) : wpp (E:=E) (frame_drop f) (λ _ _, True) w.
Proof.
  unfold frame_drop. destruct (_ =? 0); [done|]. destruct (_ =? 1); apply wpp_with_fa.
  - apply wpp_bind, wpp_gets, wpp_bind. unfold usub. destruct (_ <=? _); [|done].
    apply wpp_ret, inner_dealloc_total.
  - apply wpp_bind, wpp_gets, wpp_bind. unfold usub. destruct (_ <=? _); [|done].
    apply wpp_ret, wpp_bind. unfold uadd. destruct (_ <? _); [|done].
    apply wpp_ret, dealloc_range_total.
Qed.

Lemma drop_frames_total {E} v (w : world T) : wpp (E:=E) (drop_frames v) (λ _ _, True) w.
Proof.
  revert w. induction v as [|f v IH]; intros w; [done|]. simpl. apply wpp_bind.
  eapply wpp_mono; [apply frame_drop_total|]. intros _ w' _. apply IH.
Qed.

(** Dropping a frame made by [Frame::new] gives the bitmap back unchanged. *)
Lemma frame_new_drop_restores n (w w' : world T) f :
  fa_inv n (w_fa w) → frame_new w = ROk f w' →
  wp (E:=HvError) (frame_drop f)
    (λ _ w'', w_mem w'' = w_mem w' ∧ fa_base (w_fa w'') = fa_base (w_fa w) ∧
       ∀ j, ba_test (fa_inner (w_fa w'')) j = ba_test (fa_inner (w_fa w)) j)
    (λ _ _, False) w'.
Proof.
  intros Hinv. unfold frame_new, hbind, with_fa, zoom.
  pose proof (fa_alloc_spec (E:=HvError) n _ Hinv) as Hs. unfold wp in Hs.
  destruct (FrameAllocator_alloc (w_fa w)) as [[a|] fa'| | |]; try done.
  intros [= <- <-]. destruct Hs as (Hinv' & [Hb _] & Hu & _ & i & -> & Hi & Ht).
  unfold frame_drop; simpl. apply wp_with_fa; simpl.
  eapply wp_mono; [by apply (fa_dealloc_spec n)| |done].
  intros _ fa'' (Hinv'' & Hb' & i' & Hi' & Ht'). simpl. split_and!; [done|congruence|].
  intros j. assert (i' = i) as -> by (rewrite Hb in Hi'; unfold PAGE_SIZE in *; lia).
  rewrite Ht', Ht. destruct (decide (j = i)) as [->|Hne].
  - rewrite Hi, (bool_decide_true (i = i)) by done. apply orb_true_r.
  - rewrite (bool_decide_true (j ≠ i)), (bool_decide_false (j = i)) by done.
    by rewrite andb_true_r, orb_false_r.
Qed.

(** The pool [frame::init] sets up: with a page-aligned [__core_end] (the linker
    script aligns it) the managed frames are exactly the 4096 page frames of
    [mem_pool_start .. hv_end). *)
Lemma frame_init_spec {E} (w : world T) core_end :
  core_end mod PAGE_SIZE = 0 → 0 ≤ core_end →
  core_end + 0x1200000 ≤ 2 ^ 48 →
  w_fa w = FrameAllocator_empty →
  wp (E:=E) (frame_init core_end)
    (λ _ w', w_mem w' = w_mem w ∧ fa_base (w_fa w') = core_end + 0x200000 ∧
       fa_inv 4096 (w_fa w') ∧
       ∀ j, ba_test (fa_inner (w_fa w')) j = bool_decide (0 ≤ j < 4096))
    (λ _ _, False) w.
Proof.
  intros Ha H0 Htop Hw.
  assert ((core_end + 0x200000) mod PAGE_SIZE = 0) as Ha1.
  { unfold PAGE_SIZE in *. rewrite Z.add_mod, Ha by done. done. }
  assert ((core_end + 0x1200000) mod PAGE_SIZE = 0) as Ha2.
  { unfold PAGE_SIZE in *. rewrite Z.add_mod, Ha by done. done. }
  assert (∀ Q R, Q (core_end + 0x200000) w →
            wp (E:=E) (mem_pool_start core_end) Q R w) as Hms.
  { intros Q R HQ. apply wp_bind, wp_umul; [done|]. by apply wp_uadd; [unfold U64, MAX_CPU_NUM, PER_CPU_SIZE; lia|]. }
  apply wp_bind, Hms, wp_bind, wp_bind, Hms.
  apply wp_uadd; [unfold U64, HV_MEM_POOL_SIZE; lia|].
  replace (core_end + 2097152 + HV_MEM_POOL_SIZE) with (core_end + 0x1200000)
    by (unfold HV_MEM_POOL_SIZE; lia).
  rewrite align_down_mod by (unfold is_u64, U64; lia). rewrite Ha2, Z.sub_0_r.
  apply wp_bind, wp_usub; [lia|].
  replace (core_end + 18874368 - (core_end + 2097152)) with 0x1000000 by lia.
  apply wp_with_fa, wp_bind. unfold wp at 1.
  rewrite align_up_ok by (unfold PAGE_SIZE, U64; lia). apply wp_bind. unfold wp at 1.
  rewrite align_up_ok by (unfold PAGE_SIZE, U64; lia).
  rewrite !round_up_aligned by done. apply wp_modify.
  change (16777216 / PAGE_SIZE) with 4096. rewrite Hw. cbn [set_fa w_fa w_mem fa_base fa_inner FrameAllocator_empty].
  assert (∀ j, ba_test (ba_insert 0 4096 (ba_default : T)) j = bool_decide (0 ≤ j < 4096)) as Hj.
  { intros j. rewrite ba_insert_law by (unfold BA_CAP; lia).
    by rewrite ba_default_law, orb_false_r. }
  split; [done|]. split; [done|]. split; [|done].
  unfold fa_inv; simpl. unfold PAGE_SIZE, BA_CAP in *. split_and!; try lia; try done.
  intros j. rewrite Hj. apply bool_decide_eq_true.
Qed.

End FrameProofs.

(** ** A first-fit bitmap: the laws of [BitAlloc] can hold *)

Module BitSet.

Definition min_elt (s : gset Z) : option Z :=
  match elements s with
  | [] => None
  | x :: l => Some (foldr Z.min x l)
  end.

Definition take_bits (bits : list Z) (s : gset Z) : gset Z := s ∖ list_to_set bits.

Definition fits (s : gset Z) (n al i : Z) : bool :=
  (i mod 2 ^ al =? 0) && forallb (λ j, bool_decide (j ∈ s)) (seqZ i n).

#[global] Instance bit_set : BitAlloc (gset Z) := {
  ba_default := ∅;
  ba_insert lo hi s := list_to_set (seqZ lo (hi - lo)) ∪ s;
  ba_alloc s :=
    match min_elt s with
    | Some i => (Some i, s ∖ {[i]})
    | None => (None, s)
    end;
  ba_alloc_contiguous n al s :=
    match find (fits s n al) (merge_sort Z.le (elements s)) with
    | Some i => (Some i, take_bits (seqZ i n) s)
    | None => (None, s)
    end;
  ba_dealloc i s := if bool_decide (i ∈ s) then None else Some ({[i]} ∪ s);
  ba_test s i := bool_decide (i ∈ s)
}.

Lemma foldr_min_in x l : foldr Z.min x l ∈ x :: l.
Proof.
  induction l as [|y l IH]; simpl; [set_solver|].
  destruct (Z.min_spec y (foldr Z.min x l)) as [[_ ->]|[_ ->]]; set_solver.
Qed.

Lemma min_elt_some s i : min_elt s = Some i → i ∈ s.
Proof.
  unfold min_elt. destruct (elements s) as [|x l] eqn:E; [done|]. intros [= <-].
  apply elem_of_elements. rewrite E. apply foldr_min_in.
Qed.

Lemma min_elt_none s : min_elt s = None → s = ∅.
Proof.
  unfold min_elt. destruct (elements s) as [|x l] eqn:E; [|done]. intros _.
  by apply elements_empty_iff, leibniz_equiv in E.
Qed.

Lemma bool_decide_orb P Q `{Decision P, Decision Q} :
  bool_decide (P ∨ Q) = bool_decide P || bool_decide Q.
Proof. repeat case_bool_decide; tauto. Qed.

#[global] Instance bit_set_laws : BitAllocLaws (gset Z).
Proof.
  split; cbn.
  - intros j. by apply bool_decide_false.
  - intros lo hi s j _ _. rewrite <- bool_decide_orb. apply bool_decide_ext.
    rewrite elem_of_union, elem_of_list_to_set, elem_of_seqZ. intuition lia.
  - intros s i s'. destruct (min_elt s) as [k|] eqn:E; [|done]. intros [= <- <-].
    apply min_elt_some in E. split; [by apply bool_decide_true|].
    intros j. repeat case_bool_decide; set_solver.
  - intros s s'. destruct (min_elt s) eqn:E; [done|]. intros [= <-].
    apply min_elt_none in E as ->. done.
  - intros n al s i s' Hn Hal. destruct (find _ _) as [k|] eqn:E; [|done].
    intros [= <- <-]. apply find_some in E as [_ [E1 E2]%andb_true_iff].
    rewrite forallb_forall in E2. split; [lia|]. split.
    + intros j Hj. apply E2. apply list_elem_of_In, elem_of_seqZ. lia.
    + intros j. unfold take_bits. repeat case_bool_decide; simpl; try done;
        rewrite elem_of_difference, elem_of_list_to_set, elem_of_seqZ in *; lia || naive_solver lia.
  - intros n al s s'. destruct (find _ _); [done|]. by intros [= <-].
  - intros i s _ Hi. rewrite Hi. eexists; split; [done|].
    intros j. repeat case_bool_decide; set_solver.
Qed.

End BitSet.
