(* ===== verification/Sim.v ===== *)
(** * Simulation of computations

    [sim f P m m'] says that [m'] is [m] seen through the state abstraction [f]:
    started in [f s] it ends as [m] started in [s] ends, with a related value,
    the same error, panic or divergence, in the abstraction of the final state.
    One lemma per construct of the monad, collected in the hint base [sim]. *)

From S2P Require Import Prelude.

Definition sim_res {S S' E A A'} (f : S → S') (P : A → A' → Prop)
    (r : res S E A) (r' : res S' E A') : Prop :=
  match r, r' with
  | ROk a s, ROk a' s' => P a a' ∧ s' = f s
  | RErr e s, RErr e' s' => e' = e ∧ s' = f s
  | RPanic p, RPanic p' => p' = p
  | RHang, RHang => True
  | _, _ => False
  end.

Definition sim {S S' E A A'} (f : S → S') (P : A → A' → Prop) (m : M S E A) (m' : M S' E A') :
    Prop := ∀ s, sim_res f P (m s) (m' (f s)).

Section sim.
  Context {S S' : Type} (f : S → S').

Lemma sim_ret {E A A'} (P : A → A' → Prop) a a' : P a a' → sim (E:=E) f P (hret a) (hret a').
Proof. by intros H s. Qed.

Lemma sim_err {E A A'} (P : A → A' → Prop) (e : E) : sim f P (herr e) (herr e).
Proof. by intros s. Qed.

Lemma sim_panic {E A A'} (P : A → A' → Prop) p : sim (E:=E) f P (hpanic p) (hpanic p).
Proof. by intros s. Qed.

Lemma sim_hang {E A A'} (P : A → A' → Prop) : sim (E:=E) f P hhang hhang.
Proof. by intros s. Qed.

Lemma sim_bind {E A A' B B'} (P : A → A' → Prop) (Q : B → B' → Prop)
    (m : M S E A) m' (k : A → M S E B) k' :
  sim f P m m' → (∀ a a', P a a' → sim f Q (k a) (k' a')) → sim f Q (hbind m k) (hbind m' k').
Proof.
  intros Hm Hk s. specialize (Hm s). unfold hbind.
  destruct (m s), (m' (f s)); try done. destruct Hm as [HP ->]. by apply Hk.
Qed.

(** The same value on both sides. *)
Lemma sim_bind_eq {E A B B'} (Q : B → B' → Prop) (m : M S E A) m' (k : A → M S E B) k' :
  sim f eq m m' → (∀ a, sim f Q (k a) (k' a)) → sim f Q (hbind m k) (hbind m' k').
Proof. intros Hm Hk. eapply sim_bind; [exact Hm|]. intros a ? <-. apply Hk. Qed.

Lemma sim_mono {E A A'} (P Q : A → A' → Prop) (m : M S E A) m' :
  (∀ a a', P a a' → Q a a') → sim f P m m' → sim f Q m m'.
Proof.
  intros HPQ Hm s. specialize (Hm s). unfold sim_res in *.
  destruct (m s), (m' (f s)); naive_solver.
Qed.

Lemma sim_map_err {E E' A A'} (P : A → A' → Prop) (g : E → E') (m : M S E A) m' :
  sim f P m m' → sim f P (map_err g m) (map_err g m').
Proof.
  intros Hm s. specialize (Hm s). unfold map_err.
  destruct (m s), (m' (f s)); try done. by destruct Hm as [-> ->].
Qed.

Lemma sim_gets {E A A'} (P : A → A' → Prop) g g' :
  (∀ s, P (g s) (g' (f s))) → sim (E:=E) f P (hgets g) (hgets g').
Proof. intros H s. by split. Qed.

Lemma sim_modify {E} (g : S → S) (g' : S' → S') :
  (∀ s, g' (f s) = f (g s)) → sim (E:=E) f eq (hmodify g) (hmodify g').
Proof. intros H s. by split. Qed.

(** The two computations work on the same part of the state. *)
Lemma sim_zoom {T E A} get put get' put' (m : M T E A) :
  (∀ s, get' (f s) = get s) → (∀ t s, put' t (f s) = f (put t s)) →
  sim f eq (zoom get put m) (zoom get' put' m).
Proof. intros Hg Hp s. unfold zoom. rewrite Hg. destruct (m (get s)); simpl; by rewrite ?Hp. Qed.

Lemma sim_uadd {E} a b : sim (E:=E) f eq (uadd a b) (uadd a b).
Proof. intros s. unfold uadd. by destruct (_ <? _). Qed.

Lemma sim_usub {E} a b : sim (E:=E) f eq (usub a b) (usub a b).
Proof. intros s. unfold usub. by destruct (_ <=? _). Qed.

(** The sum and the difference themselves, where the program goes on with them. *)
Lemma sim_uadd_val {E} a b :
  sim (E:=E) f (λ x y, y = x ∧ x = a + b) (uadd a b) (uadd a b).
Proof. intros s. unfold uadd. by destruct (_ <? _). Qed.

Lemma sim_usub_val {E} a b :
  sim (E:=E) f (λ x y, y = x ∧ x = a - b) (usub a b) (usub a b).
Proof. intros s. unfold usub. by destruct (_ <=? _). Qed.

Lemma sim_assert {E} b : sim (E:=E) f eq (hassert b) (hassert b).
Proof. by destruct b. Qed.

(** What holds of the abstract computation holds of the concrete one. *)
Lemma sim_wp {E A} (m : M S E A) m' Q R s :
  sim f eq m m' → wp m' Q R (f s) → wp m (λ a s', Q a (f s')) (λ e s', R e (f s')) s.
Proof.
  intros Hs. specialize (Hs s). unfold wp. destruct (m s), (m' (f s)); try done.
  - by destruct Hs as [-> ->].
  - by destruct Hs as [-> ->].
Qed.

End sim.

Create HintDb sim.
#[export] Hint Resolve sim_err sim_panic sim_hang sim_uadd sim_usub sim_assert : sim.

(** Proves a simulation of two programs of the same shape. *)
Ltac solve_sim :=
  repeat first
    [ progress intros
    | solve [eauto 2 with sim]
    | apply sim_ret; done
    | apply sim_bind_eq
    | apply sim_map_err
    | match goal with |- sim _ _ (if ?b then _ else _) _ => destruct b end
    | match goal with |- sim _ _ (match ?x with _ => _ end) _ => destruct x end ].
