(* ===== verification/Stable.v ===== *)
(** * Invariants of computations

    [stable I m]: whenever [m] returns, with a value or an error, [I] still
    holds. Unlike [wp] it says nothing about panics, so it composes without
    preconditions; [solve_stable] follows the structure of a program. *)

From S2P Require Import Prelude.

Definition stable {S E A} (I : S → Prop) (m : M S E A) : Prop :=
  ∀ s, I s → match m s with
             | ROk _ s' | RErr _ s' => I s'
             | RPanic _ | RHang => True
             end.

Section stable.
  Context {S : Type} (I : S → Prop).

Lemma stable_ret {E A} (a : A) : stable (E:=E) I (hret a).
Proof. by intros s. Qed.

Lemma stable_err {E A} (e : E) : stable (A:=A) I (herr e).
Proof. by intros s. Qed.

Lemma stable_panic {E A} p : stable (E:=E) (A:=A) I (hpanic p).
Proof. by intros s. Qed.

Lemma stable_hang {E A} : stable (E:=E) (A:=A) I hhang.
Proof. by intros s. Qed.

Lemma stable_gets {E A} (g : S → A) : stable (E:=E) I (hgets g).
Proof. by intros s. Qed.

Lemma stable_modify {E} (g : S → S) : (∀ s, I s → I (g s)) → stable (E:=E) I (hmodify g).
Proof. intros H s. apply H. Qed.

Lemma stable_bind {E A B} (m : M S E A) (k : A → M S E B) :
  stable I m → (∀ a, stable I (k a)) → stable I (hbind m k).
Proof.
  intros Hm Hk s Hs. specialize (Hm s Hs). unfold hbind.
  destruct (m s); try done. by apply Hk.
Qed.

Lemma stable_map_err {E E' A} (g : E → E') (m : M S E A) : stable I m → stable I (map_err g m).
Proof. intros Hm s Hs. specialize (Hm s Hs). unfold map_err. by destruct (m s). Qed.

Lemma stable_unwrap {E E' A} (m : M S E A) : stable I m → stable (E:=E') I (hunwrap m).
Proof. intros Hm s Hs. specialize (Hm s Hs). unfold hunwrap. by destruct (m s). Qed.

Lemma stable_uadd {E} a b : stable (E:=E) I (uadd a b).
Proof. unfold uadd. destruct (_ <? _); [apply stable_ret|apply stable_panic]. Qed.

Lemma stable_usub {E} a b : stable (E:=E) I (usub a b).
Proof. unfold usub. destruct (_ <=? _); [apply stable_ret|apply stable_panic]. Qed.

Lemma stable_umul {E} a b : stable (E:=E) I (umul a b).
Proof. unfold umul. destruct (_ <? _); [apply stable_ret|apply stable_panic]. Qed.

Lemma stable_assert {E} b : stable (E:=E) I (hassert b).
Proof. destruct b; [apply stable_ret|apply stable_panic]. Qed.

Lemma stable_ounwrap {E A} (o : option A) : stable (E:=E) I (ounwrap o).
Proof. destruct o; [apply stable_ret|apply stable_panic]. Qed.

(** Only a part of the state changes. *)
Lemma stable_zoom {T E A} (get : S → T) put (m : M T E A) :
  (∀ s, I s → match m (get s) with
              | ROk _ t | RErr _ t => I (put t s)
              | RPanic _ | RHang => True
              end) → stable I (zoom get put m).
Proof. intros H s Hs. specialize (H s Hs). unfold zoom. by destruct (m (get s)). Qed.

(** A computation that only reads. *)
Lemma stable_reader {E A} (m : M S E A) : reader m → stable I m.
Proof.
  intros Hr s Hs. specialize (Hr s). unfold wpp in Hr. destruct (m s); try done. by subst.
Qed.

End stable.

Create HintDb stable.
#[export] Hint Resolve stable_ret stable_err stable_panic stable_hang stable_gets stable_uadd
  stable_usub stable_umul stable_assert stable_ounwrap : stable.

Ltac solve_stable :=
  repeat first
    [ progress intros
    | solve [eauto 2 with stable]
    | apply stable_bind
    | apply stable_map_err
    | apply stable_unwrap
    | match goal with |- stable _ (if ?b then _ else _) => destruct b end
    | match goal with |- stable _ (match ?x with _ => _ end) => destruct x end ].

(** ** The values a computation may return *)

(** Any value [m] returns satisfies [P]. *)
Definition yields {S E A} (P : A → Prop) (m : M S E A) : Prop :=
  ∀ s, match m s with ROk a _ => P a | _ => True end.

(** If [m] returns from [s], then a value and a state in [Q]. *)
Definition wlp {S E A} (m : M S E A) (Q : A → S → Prop) (s : S) : Prop :=
  match m s with ROk a s' => Q a s' | _ => True end.

Section yields.
  Context {S : Type}.

Lemma yields_ret {E A} (P : A → Prop) a : P a → yields (S:=S) (E:=E) P (hret a).
Proof. by intros HP s. Qed.

Lemma yields_any {E A} (m : M S E A) : yields (λ _, True) m.
Proof. intros s. by destruct (m s). Qed.

Lemma yields_bind {E A B} (P : A → Prop) (Q : B → Prop) (m : M S E A) (k : A → M S E B) :
  yields P m → (∀ a, P a → yields Q (k a)) → yields Q (hbind m k).
Proof.
  intros Hm Hk s. specialize (Hm s). unfold hbind. destruct (m s); try done. by apply Hk.
Qed.

Lemma yields_unwrap {E E' A} (P : A → Prop) (m : M S E A) : yields P m → yields (E:=E') P (hunwrap m).
Proof. intros Hm s. specialize (Hm s). unfold hunwrap. by destruct (m s). Qed.

Lemma yields_zoom {T E A} (P : A → Prop) (get : S → T) put (m : M T E A) :
  yields P m → yields P (zoom get put m).
Proof. intros Hm s. specialize (Hm (get s)). unfold zoom. by destruct (m (get s)). Qed.

Lemma wlp_bind {E A B} (m : M S E A) (k : A → M S E B) Q s :
  wlp m (λ a s', wlp (k a) Q s') s → wlp (hbind m k) Q s.
Proof. unfold wlp, hbind. by destruct (m s). Qed.

Lemma wlp_yields {E A} (P : A → Prop) (m : M S E A) (Q : A → S → Prop) s :
  yields P m → (∀ a s', P a → Q a s') → wlp m Q s.
Proof. intros Hm HQ. specialize (Hm s). unfold wlp. destruct (m s); try done. by apply HQ. Qed.

Lemma wlp_stable {E A} (I : S → Prop) (m : M S E A) (Q : A → S → Prop) s :
  stable I m → I s → (∀ a s', I s' → Q a s') → wlp m Q s.
Proof. intros Hm HI HQ. specialize (Hm s HI). unfold wlp. destruct (m s); try done. by apply HQ. Qed.

Lemma wlp_mono {E A} (m : M S E A) (Q Q' : A → S → Prop) s :
  wlp m Q s → (∀ a s', Q a s' → Q' a s') → wlp m Q' s.
Proof. unfold wlp. destruct (m s); naive_solver. Qed.

Lemma wlp_and {E A} (m : M S E A) (Q Q' : A → S → Prop) s :
  wlp m Q s → wlp m Q' s → wlp m (λ a s', Q a s' ∧ Q' a s') s.
Proof. unfold wlp. by destruct (m s). Qed.

Lemma wlp_unwrap {E E' A} (m : M S E A) (Q : A → S → Prop) s : wlp m Q s → wlp (E:=E') (hunwrap m) Q s.
Proof. unfold wlp, hunwrap. by destruct (m s). Qed.

Lemma wlp_zoom {T E A} (get : S → T) put (m : M T E A) (Q : A → S → Prop) s :
  wlp m (λ a t, Q a (put t s)) (get s) → wlp (zoom get put m) Q s.
Proof. unfold wlp, zoom. by destruct (m (get s)). Qed.

End yields.

(** ** Pre- and postconditions

    [triple P m Q R]: from a state in [P], if [m] returns a value then in [Q], if it
    fails then in [R]. Panics and endless loops satisfy every triple. *)

Definition triple {S E A} (P : S → Prop) (m : M S E A) (Q : A → S → Prop) (R : E → S → Prop) : Prop :=
  ∀ s, P s → match m s with
             | ROk a s' => Q a s'
             | RErr e s' => R e s'
             | RPanic _ | RHang => True
             end.

Section triple.
  Context {S E : Type}.
  Implicit Types (P I : S → Prop) (R : E → S → Prop).

Lemma triple_bind {A B} P (Q : A → S → Prop) (Q' : B → S → Prop) R (m : M S E A) (k : A → M S E B) :
  triple P m Q R → (∀ a, triple (Q a) (k a) Q' R) → triple P (hbind m k) Q' R.
Proof.
  intros Hm Hk s Hs. specialize (Hm s Hs). unfold hbind. destruct (m s); try done. by apply Hk.
Qed.

Lemma triple_conseq {A} P P' (Q Q' : A → S → Prop) R R' (m : M S E A) :
  triple P' m Q' R' → (∀ s, P s → P' s) → (∀ a s, Q' a s → Q a s) → (∀ e s, R' e s → R e s) →
  triple P m Q R.
Proof. intros Hm HP HQ HR s Hs. specialize (Hm s (HP s Hs)). destruct (m s); auto. Qed.

Lemma triple_stable {A} I (m : M S E A) : stable I m → triple I m (λ _, I) (λ _, I).
Proof. done. Qed.

Lemma stable_triple {A} I (m : M S E A) : triple I m (λ _, I) (λ _, I) → stable I m.
Proof. done. Qed.

(** A stable step in front. *)
Lemma triple_seq {A B} I (Q : B → S → Prop) R (m : M S E A) (k : A → M S E B) :
  stable I m → (∀ a, triple I (k a) Q R) → (∀ e s, I s → R e s) → triple I (hbind m k) Q R.
Proof.
  intros Hm Hk HR. eapply triple_bind; [|exact Hk].
  eapply triple_conseq; [by apply triple_stable|done|done|exact HR].
Qed.

Lemma triple_ret {A} P (Q : A → S → Prop) R a : (∀ s, P s → Q a s) → triple P (hret a) Q R.
Proof. intros H s Hs. by apply H. Qed.

Lemma triple_pure {A} P (φ : Prop) (Q : A → S → Prop) R (m : M S E A) :
  (φ → triple P m Q R) → triple (λ s, P s ∧ φ) m Q R.
Proof. intros H s [Hs Hφ]. by apply H. Qed.

Lemma triple_wlp {A} P (Q : A → S → Prop) R (m : M S E A) s :
  triple P m Q R → P s → wlp m Q s.
Proof. intros Hm Hs. specialize (Hm s Hs). unfold wlp. by destruct (m s). Qed.

(** A computation that never fails with an error. *)
Lemma triple_wpp {A} P (Q : A → S → Prop) R (m : M S E A) :
  (∀ s, P s → wpp m Q s) → triple P m Q R.
Proof. intros Hm s Hs. specialize (Hm s Hs). unfold wpp in Hm. by destruct (m s). Qed.

Lemma triple_wpe {A} P (Q : A → S → Prop) R (m : M S E A) :
  (∀ s, P s → wpe m Q R s) → triple P m Q R.
Proof. intros Hm s Hs. specialize (Hm s Hs). unfold wpe in Hm. by destruct (m s). Qed.

(** A step that only reads: its value is known to come from the state. *)
Lemma triple_read {A B} P (Q : B → S → Prop) R (m : M S E A) (k : A → M S E B) :
  reader m → (∀ a, triple (λ s, P s ∧ m s = ROk a s) (k a) Q R) → triple P (hbind m k) Q R.
Proof.
  intros Hm Hk. eapply (triple_bind P (λ a s, P s ∧ m s = ROk a s)); [|exact Hk].
  intros s Hs. specialize (Hm s). unfold wpp in Hm. destruct (m s) eqn:Hr; try done. by subst.
Qed.

End triple.

Lemma triple_unwrap {S E E' A} P (Q : A → S → Prop) (R : E' → S → Prop) (m : M S E A) :
  triple P m Q (λ _ _, True) → triple P (hunwrap m) Q R.
Proof. intros Hm s Hs. specialize (Hm s Hs). unfold hunwrap. by destruct (m s). Qed.

(** ** Computations that never return an error *)

Definition noerr {S E A} (m : M S E A) : Prop := ∀ s, match m s with RErr _ _ => False | _ => True end.

Section noerr.
  Context {S E : Type}.

Lemma noerr_ret {A} (a : A) : noerr (S:=S) (E:=E) (hret a).
Proof. done. Qed.
Lemma noerr_panic {A} p : noerr (S:=S) (E:=E) (A:=A) (hpanic p).
Proof. done. Qed.
Lemma noerr_gets {A} (g : S → A) : noerr (E:=E) (hgets g).
Proof. done. Qed.
Lemma noerr_modify (g : S → S) : noerr (E:=E) (hmodify g).
Proof. done. Qed.
Lemma noerr_assert b : noerr (S:=S) (E:=E) (hassert b).
Proof. by destruct b. Qed.
Lemma noerr_ounwrap {A} (o : option A) : noerr (S:=S) (E:=E) (ounwrap o).
Proof. by destruct o. Qed.

Lemma noerr_bind {A B} (m : M S E A) (k : A → M S E B) : noerr m → (∀ a, noerr (k a)) → noerr (hbind m k).
Proof. intros Hm Hk s. specialize (Hm s). unfold hbind. destruct (m s); try done. apply Hk. Qed.

Lemma noerr_zoom {S' A} (get : S' → S) put (m : M S E A) : noerr m → noerr (zoom get put m).
Proof. intros Hm s. specialize (Hm (get s)). unfold zoom. by destruct (m (get s)). Qed.

Lemma noerr_wpp {A} (Q : A → S → Prop) (m : M S E A) : (∀ s, wpp m Q s) → noerr m.
Proof. intros Hm s. specialize (Hm s). unfold wpp in Hm. by destruct (m s). Qed.

(** A step without errors in front of code that must reach its end. *)
Lemma triple_step {A B} (I : S → Prop) (Q : B → S → Prop) R (m : M S E A) (k : A → M S E B) :
  stable I m → noerr m → (∀ a, triple I (k a) Q R) → triple I (hbind m k) Q R.
Proof.
  intros Hm He Hk s Hs. specialize (Hm s Hs). specialize (He s). unfold hbind.
  destruct (m s); try done. by apply Hk.
Qed.

End noerr.

#[export] Hint Resolve noerr_ret noerr_panic noerr_gets noerr_modify noerr_assert noerr_ounwrap : stable.

Ltac solve_noerr :=
  repeat first
    [ progress intros
    | solve [eauto 2 with stable]
    | apply noerr_bind
    | apply noerr_zoom
    | match goal with |- noerr (if ?b then _ else _) => destruct b end
    | match goal with |- noerr (match ?x with _ => _ end) => destruct x end ].
