(* ===== verification/FramePool.v ===== *)
(** * Frames handed back to the pool

    What dropping frames does to the allocator's bitmap (src/src/memory/frame.rs:
    [Drop for Frame], and the drop of a [Vec<Frame>]), and the specification of
    [Frame::new_contiguous] and [Frame::new_16] on every path. *)

From S2P Require Import Prelude PhysMem HvError Addr Frame.

(** [f] holds frame number [j] of a pool at [base]. *)
Definition holds (base : Z) (f : Frame) (j : Z) : bool :=
  (start_paddr f <=? base + j * PAGE_SIZE) &&
  (base + j * PAGE_SIZE <? start_paddr f + frame_count f * PAGE_SIZE).

Definition hold_any (base : Z) (v : list Frame) (j : Z) : bool := existsb (λ f, holds base f j) v.

Lemma holds_index base i c j :
  holds base (mkFrame (base + i * PAGE_SIZE) c) j = bool_decide (i ≤ j < i + c).
Proof.
  unfold holds, PAGE_SIZE; simpl. apply eq_true_iff_eq.
  rewrite andb_true_iff, Z.leb_le, Z.ltb_lt, bool_decide_eq_true. lia.
Qed.

Section pool.
  Context {T : Type} {HB : BitAlloc T} {HL : BitAllocLaws T}.
  Implicit Types (fa : FrameAllocator T) (w : world T) (f : Frame).

Definition free (w : world T) (j : Z) : bool := ba_test (fa_inner (w_fa w)) j.
Definition base (w : world T) : Z := fa_base (w_fa w).

(** [f] is a run of frames of the pool that are handed out. *)
Definition taken (n : Z) w f : Prop :=
  ∃ i, start_paddr f = base w + i * PAGE_SIZE ∧ 0 ≤ i ∧ 0 < frame_count f ∧
       i + frame_count f ≤ n ∧ ∀ j, holds (base w) f j = true → free w j = false.

(** Frames that do not share a frame of the pool. *)
Definition apart (b : Z) (v : list Frame) : Prop :=
  ∀ i j f g k, v !! i = Some f → v !! j = Some g → holds b f k = true → holds b g k = true → i = j.

(** Only the bitmap changes: it becomes [fr]. *)
Definition only_free (n : Z) w w' (fr : Z → bool) : Prop :=
  w_mem w' = w_mem w ∧ base w' = base w ∧ fa_inv n (w_fa w') ∧ ∀ j, free w' j = fr j.

Lemma fa_inv_free n w w' :
  fa_inv n (w_fa w) → base w' = base w → (∀ j, free w' j = true → 0 ≤ j < n) → fa_inv n (w_fa w').
Proof. intros (H1 & H2 & H3 & H4 & _) Hb Hf. unfold base in Hb. unfold fa_inv. by rewrite Hb. Qed.

(** ** Dropping *)

Lemma dealloc_range_spec {E} n i k fa :
  n ≤ BA_CAP → 0 ≤ i → i + Z.of_nat k ≤ n →
  (∀ j, i ≤ j < i + Z.of_nat k → ba_test (fa_inner fa) j = false) →
  wp (E:=E) (dealloc_range i k)
    (λ _ fa', fa_base fa' = fa_base fa ∧
       ∀ j, ba_test (fa_inner fa') j =
            ba_test (fa_inner fa) j || bool_decide (i ≤ j < i + Z.of_nat k))
    (λ _ _, False) fa.
Proof using HL.
  revert i fa. induction k as [|k IH]; intros i fa Hn Hi Hk Hf.
  { apply wp_ret. split; [done|]. intros j. rewrite bool_decide_false by lia. by rewrite orb_false_r. }
  simpl. apply wp_bind. unfold wp at 1, inner_dealloc.
  destruct (ba_dealloc_law i (fa_inner fa)) as (s' & -> & Hs'); [lia|apply Hf; lia|].
  eapply wp_mono; [apply IH; [done|lia|lia|]| |done].
  - intros j Hj. simpl. rewrite Hs', Hf, bool_decide_false by lia. done.
  - intros _ fa' [Hb Ht]. split; [done|]. intros j. rewrite Ht. simpl. rewrite Hs'.
    rewrite <- orb_assoc. f_equal. apply eq_true_iff_eq.
    rewrite orb_true_iff, !bool_decide_eq_true. lia.
Qed.

Lemma frame_drop_spec {E} n w f :
  fa_inv n (w_fa w) → taken n w f →
  wp (E:=E) (frame_drop f)
    (λ _ w', only_free n w w' (λ j, free w j || holds (base w) f j)) (λ _ _, False) w.
Proof using HL.
  intros Hinv (i & Hi & H0 & Hc & Htop & Hused). pose proof Hinv as (Hb & Hb0 & Ht48 & Hcap & Hin).
  assert (∀ j, holds (base w) f j = bool_decide (i ≤ j < i + frame_count f)) as Hh.
  { intros j. rewrite <- (holds_index (base w)), <- Hi. by destruct f. }
  assert (∀ w', base w' = base w →
            (∀ j, free w' j = free w j || bool_decide (i ≤ j < i + frame_count f)) →
            w_mem w' = w_mem w → only_free n w w' (λ j, free w j || holds (base w) f j)) as Hdone.
  { intros w' Hb' Hf' Hm'. split_and!; [done|done| |intros j; by rewrite Hh].
    apply (fa_inv_free n w w'); [done|done|]. intros j. rewrite Hf'. intros [Hj|Hj]%orb_true_iff.
    - by apply Hin.
    - apply bool_decide_eq_true in Hj. lia. }
  unfold frame_drop. rewrite (proj2 (Z.eqb_neq _ 0)) by lia.
  assert (∀ j, i ≤ j < i + frame_count f → free w j = false) as Hfree.
  { intros j Hj. apply Hused. rewrite Hh. by apply bool_decide_true. }
  assert (start_paddr f - base w = i * PAGE_SIZE) as Hd by lia.
  assert (fa_base (w_fa w) ≤ start_paddr f) as Hle
    by (change (fa_base (w_fa w)) with (base w); unfold PAGE_SIZE in *; lia).
  destruct (Z.eqb_spec (frame_count f) 1) as [H1|H1]; apply wp_with_fa.
  - apply wp_bind, wp_gets, wp_bind, wp_usub; [done|].
    change (fa_base (w_fa w)) with (base w). rewrite Hd, Z.div_mul by done.
    unfold wp, inner_dealloc.
    destruct (ba_dealloc_law i (fa_inner (w_fa w))) as (s' & -> & Hs'); [lia|apply Hfree; lia|].
    apply Hdone; [done| |done]. intros j. unfold free. simpl. rewrite Hs'. f_equal.
    apply bool_decide_ext. lia.
  - apply wp_bind, wp_gets, wp_bind, wp_usub; [done|].
    change (fa_base (w_fa w)) with (base w). rewrite Hd, Z.div_mul by done.
    apply wp_bind, wp_uadd; [unfold BA_CAP, U64 in *; lia|].
    eapply wp_mono; [apply (dealloc_range_spec n); try done; rewrite ?Z2Nat.id by lia; try lia| |done].
    + apply Hfree.
    + rewrite Z2Nat.id by lia. intros _ fa' [Hb' Ht']. by apply Hdone.
Qed.

Lemma taken_mono n w w' v :
  base w' = base w →
  (∀ j, hold_any (base w) v j = true → free w j = false → free w' j = false) →
  Forall (taken n w) v → Forall (taken n w') v.
Proof.
  intros Hb Hf Hv. apply Forall_forall. intros g Hg. rewrite Forall_forall in Hv.
  destruct (Hv g Hg) as (i & H1 & H2 & H3 & H4 & H5). exists i. rewrite Hb. split_and!; try done.
  intros j Hj. apply Hf; [|auto]. apply existsb_exists. exists g. by rewrite <- list_elem_of_In.
Qed.

Lemma apart_cons b f v : apart b (f :: v) → apart b v.
Proof. intros H i j f' g k Hi Hj H1 H2. by assert (S i = S j) as [= ->] by (by eapply H). Qed.

Lemma apart_head b f v j : apart b (f :: v) → holds b f j = true → hold_any b v j = false.
Proof.
  intros Ha Hj. apply not_true_iff_false. intros (g & Hg & Hgj)%existsb_exists.
  apply list_elem_of_In, list_elem_of_lookup in Hg as [i Hi].
  by assert (0%nat = S i) by (by eapply (Ha 0%nat (S i))).
Qed.

(** Dropping frames that are taken and apart frees exactly those. *)
Lemma drop_frames_spec {E} n v w :
  fa_inv n (w_fa w) → Forall (taken n w) v → apart (base w) v →
  wp (E:=E) (drop_frames v)
    (λ _ w', only_free n w w' (λ j, free w j || hold_any (base w) v j)) (λ _ _, False) w.
Proof using HL.
  revert w. induction v as [|f v IH]; intros w Hinv Hv Ha.
  { apply wp_ret. split_and!; try done. intros j. by rewrite orb_false_r. }
  apply Forall_cons in Hv as [Hf Hv]. simpl. apply wp_bind.
  eapply wp_mono; [by apply (frame_drop_spec n)| |done]. intros _ w1 (Hm1 & Hb1 & Hi1 & Hf1).
  eapply wp_mono; [apply IH; [done| |by rewrite Hb1; eapply apart_cons]| |done].
  - apply (taken_mono n w w1); [done| |done]. intros j Hj Hfj. rewrite Hf1, Hfj. simpl.
    apply not_true_iff_false. intros Hj'. rewrite (apart_head _ _ _ _ Ha Hj') in Hj. done.
  - intros _ w2 (Hm2 & Hb2 & Hi2 & Hf2). split_and!; [congruence|congruence|done|].
    intros j. by rewrite Hf2, Hf1, Hb1, <- orb_assoc.
Qed.

(** ** Allocating one frame, with the bitmap exactly *)

Lemma frame_new_zero_exact n w :
  fa_inv n (w_fa w) →
  wp frame_new_zero
    (λ f w', ∃ i, f = mkFrame (base w + i * PAGE_SIZE) 1 ∧ 0 ≤ i < n ∧ free w i = true ∧
       base w' = base w ∧ fa_inv n (w_fa w') ∧
       (∀ j, free w' j = free w j && bool_decide (j ≠ i)) ∧
       ∀ b, rd8 (w_mem w') b = if decide (start_paddr f ≤ b < start_paddr f + PAGE_SIZE) then 0
                               else rd8 (w_mem w) b)
    (λ e w', num e = ENOMEM ∧ only_free n w w' (free w) ∧ ∀ j, free w j = false) w.
Proof using HL.
  intros Hinv. apply wp_bind, wp_bind, wp_with_fa.
  eapply wp_mono; [by apply fa_alloc_spec| |done].
  intros [a|] fa' (Hinv' & [Hb _] & Hrest).
  - apply wp_ret. destruct Hrest as (_ & _ & i & -> & Hi & Ht). apply wp_bind, wp_bind.
    unfold frame_size; cbn [frame_count]. apply wp_umul; [done|]. apply wp_modify, wp_ret. exists i.
    pose proof (proj2 (proj2 (proj2 (proj2 Hinv))) i Hi) as Hir.
    split; [done|]. split; [done|]. split; [done|]. split; [done|]. split; [done|]. split; [done|].
    intros b. unfold set_mem; cbn [w_mem set_fa]. by rewrite rd8_fill.
  - apply wp_err. destruct Hrest as [Hno Hsame]. split_and!; try done.
Qed.

(** Pushing the frame just allocated on a list of frames already taken. *)
Lemma push_taken n w w' v i :
  Forall (taken n w) v → apart (base w) v → 0 ≤ i < n → free w i = true →
  base w' = base w → (∀ j, free w' j = free w j && bool_decide (j ≠ i)) →
  let v' := v ++ [mkFrame (base w + i * PAGE_SIZE) 1] in
  Forall (taken n w') v' ∧ apart (base w') v' ∧
  ∀ j, free w' j || hold_any (base w) v' j = free w j || hold_any (base w) v j.
Proof.
  intros Hv Ha Hi Hfree Hb Hf v'.
  assert (∀ g j, g ∈ v → holds (base w) g j = true → j ≠ i) as Hne.
  { intros g j Hg Hj ->. rewrite Forall_forall in Hv. destruct (Hv g Hg) as (? & _ & _ & _ & _ & H).
    apply H in Hj. congruence. }
  assert (∀ j, holds (base w) (mkFrame (base w + i * PAGE_SIZE) 1) j = bool_decide (j = i)) as Hh.
  { intros j. rewrite holds_index. apply bool_decide_ext. lia. }
  split; [|split].
  - apply Forall_app. split.
    + apply (taken_mono n w); [done| |done]. intros j _ Hj. by rewrite Hf, Hj.
    + constructor; [|constructor]. exists i. rewrite Hb. simpl. split_and!; try done; try lia.
      intros j. rewrite Hh, Hf. intros ->%bool_decide_eq_true. rewrite (bool_decide_false (i ≠ i)) by tauto.
      apply andb_false_r.
  - rewrite Hb. intros x y f g k Hx Hy Hfk Hgk. unfold v' in Hx, Hy.
    apply lookup_snoc_Some in Hx as [[Hx1 Hx]|[-> <-]]; apply lookup_snoc_Some in Hy as [[Hy1 Hy]|[-> <-]].
    + by eapply Ha.
    + rewrite Hh in Hgk. apply bool_decide_eq_true in Hgk as ->. exfalso.
      eapply (Hne f i); [by eapply list_elem_of_lookup_2|done|done].
    + rewrite Hh in Hfk. apply bool_decide_eq_true in Hfk as ->. exfalso.
      eapply (Hne g i); [by eapply list_elem_of_lookup_2|done|done].
    + done.
  - intros j. unfold v', hold_any. rewrite existsb_app, Hf. simpl. rewrite Hh, orb_false_r.
    destruct (decide (j = i)) as [->|Hji].
    + rewrite Hfree, (bool_decide_true (i = i)) by done. by rewrite !orb_true_r.
    + rewrite (bool_decide_true (j ≠ i)), (bool_decide_false (j = i)) by done.
      by rewrite andb_true_r, orb_false_r.
Qed.

(** ** [Frame::new_contiguous] and [Frame::new_16] *)

Lemma frame_new_contiguous_spec n w c :
  fa_inv n (w_fa w) → 0 < c →
  wp (frame_new_contiguous c 0)
    (λ f w', ∃ i, f = mkFrame (base w + i * PAGE_SIZE) c ∧
       (∀ j, i ≤ j < i + c → free w j = true) ∧
       only_free n w w' (λ j, free w j && negb (bool_decide (i ≤ j < i + c))))
    (λ e w', num e = ENOMEM ∧ only_free n w w' (free w)) w.
Proof using HL.
  intros Hinv Hc. pose proof Hinv as (_ & Hb0 & Htop & Hcap & Hin).
  apply wp_bind, wp_with_fa. unfold wp at 1, FrameAllocator_alloc_contiguous.
  destruct (ba_alloc_contiguous c 0 (fa_inner (w_fa w))) as [[i|] s'] eqn:E.
  - destruct (ba_contiguous_some c 0 _ _ _ Hc ltac:(done) E) as (_ & Hall & Hs').
    assert (0 ≤ i < n) as Hi by (apply Hin, Hall; lia).
    unfold frame_addr, hbind, umul, uadd. unfold PAGE_SIZE, U64 in *.
    rewrite (proj2 (Z.ltb_lt (i * _) _)) by lia. cbn [hret].
    rewrite (proj2 (Z.ltb_lt (_ + _) _)) by lia. cbn [hret].
    exists i. split; [by rewrite Z.add_comm|]. split; [done|]. split; [done|]. split; [done|].
    split; [|done]. apply (fa_inv_free n w); [done|done|]. intros j. unfold free; simpl.
    rewrite Hs'. intros [Hj _]%andb_true_iff. by apply Hin.
  - cbn. pose proof (ba_contiguous_none _ _ _ _ E) as Hs'. split; [done|].
    split; [done|]. split; [done|]. split; [|done]. apply (fa_inv_free n w); [done|done|].
    intros j. unfold free; simpl. rewrite Hs'. apply Hin.
Qed.

(** How many frames of the pool are free. *)
Definition free_count (n : Z) w : nat := length (filter (λ j, free w j = true) (seqZ 0 n)).

Lemma free_count_less n w w' i :
  0 ≤ i < n → free w i = true → (∀ j, free w' j = free w j && bool_decide (j ≠ i)) →
  (free_count n w' < free_count n w)%nat.
Proof.
  intros Hi Hf Hw. unfold free_count.
  assert (i ∈ seqZ 0 n) as Hin by (apply elem_of_seqZ; lia). revert Hin.
  assert (∀ l, (length (filter (λ j, free w' j = true) l) ≤
                length (filter (λ j, free w j = true) l))%nat) as Hle.
  { intros l. induction l as [|x l IH]; [done|]. rewrite !filter_cons.
    case_decide as H1; case_decide as H2; simpl; try lia.
    rewrite Hw in H1. by apply andb_true_iff in H1 as [? _]. }
  induction (seqZ 0 n) as [|x l IH]; [by intros ?%not_elem_of_nil|].
  rewrite !filter_cons. intros [->|Hl]%elem_of_cons.
  - rewrite (decide_True (P := free w x = true)) by done.
    rewrite (decide_False (P := free w' x = true)); [simpl; specialize (Hle l); lia|].
    rewrite Hw, (bool_decide_false (x ≠ x)) by tauto. by rewrite andb_false_r.
  - specialize (IH Hl). case_decide as H1; case_decide as H2; simpl; try lia.
    rewrite Hw in H1. by apply andb_true_iff in H1 as [? _].
Qed.

Definition in_frame (w : world T) (j b : Z) : Prop :=
  base w + j * PAGE_SIZE ≤ b < base w + j * PAGE_SIZE + PAGE_SIZE.

(** Memory is unchanged or zeroed, and zeroed only in frames that are free in [w]. *)
Definition scrubbed (w w' : world T) : Prop :=
  ∀ b, rd8 (w_mem w') b = rd8 (w_mem w) b ∨
       (rd8 (w_mem w') b = 0 ∧ ∃ j, free w j = true ∧ in_frame w j b).

Lemma scrubbed_mem w w' : w_mem w' = w_mem w → scrubbed w w'.
Proof. intros Hm b. left. by rewrite Hm. Qed.

Lemma scrubbed_trans w1 w2 w3 :
  base w2 = base w1 → (∀ j, free w2 j = true → free w1 j = true) →
  scrubbed w1 w2 → scrubbed w2 w3 → scrubbed w1 w3.
Proof.
  intros Hb Hf H1 H2 b. destruct (H2 b) as [->|(Hz & j & Hj & Hin)]; [apply H1|].
  right. split; [done|]. exists j. split; [auto|]. unfold in_frame in *. by rewrite <- Hb.
Qed.

(** What the search of [new_16] keeps: the frames found so far are taken, and with
    them free the bitmap would be that of [w0]. *)
Record searching (n : Z) w0 (v : list Frame) w : Prop := {
  srch_fa : fa_inv n (w_fa w);
  srch_base : base w = base w0;
  srch_taken : Forall (taken n w) v;
  srch_apart : apart (base w) v;
  srch_free j : free w j || hold_any (base w) v j = free w0 j;
  srch_mem : scrubbed w0 w
}.

Lemma searching_sub n w0 v w j : searching n w0 v w → free w j = true → free w0 j = true.
Proof. intros [_ _ _ _ H _] Hj. by rewrite <- H, Hj. Qed.

(** Giving the frames back restores the bitmap. *)
Lemma searching_drop {E} n w0 v w :
  searching n w0 v w →
  wp (E:=E) (drop_frames v)
    (λ _ w', base w' = base w0 ∧ fa_inv n (w_fa w') ∧ (∀ j, free w' j = free w0 j) ∧
             scrubbed w0 w' ∧ w_mem w' = w_mem w) (λ _ _, False) w.
Proof using HL.
  intros [H1 H2 H3 H4 H5 H6]. eapply wp_mono; [by apply (drop_frames_spec n)| |done].
  intros _ w' (Hm & Hb & Hi & Hf). split_and!; [congruence|done|by intros j; rewrite Hf, H5| |done].
  intros b. rewrite Hm. apply H6.
Qed.

Lemma searching_push n w0 v w w' f i :
  searching n w0 v w → f = mkFrame (base w + i * PAGE_SIZE) 1 → 0 ≤ i < n → free w i = true →
  base w' = base w → fa_inv n (w_fa w') → (∀ j, free w' j = free w j && bool_decide (j ≠ i)) →
  (∀ b, rd8 (w_mem w') b = if decide (start_paddr f ≤ b < start_paddr f + PAGE_SIZE) then 0
                           else rd8 (w_mem w) b) →
  searching n w0 (v ++ [f]) w'.
Proof.
  intros Hs -> Hi Hfi Hb Hinv Hf Hm. pose proof Hs as [H1 H2 H3 H4 H5 H6].
  destruct (push_taken n w w' v i H3 H4 Hi Hfi Hb Hf) as (P1 & P2 & P3).
  split; [done|congruence|done|done|by intros j; rewrite Hb, P3, H5|].
  apply (scrubbed_trans w0 w w'); [done|intros j; by apply (searching_sub n w0 v w)|done|].
  intros b. rewrite Hm. case_decide as Hin; [right|by left].
  split; [done|]. by exists i.
Qed.

Lemma new_16_loop_spec n fuel w0 v w :
  searching n w0 v w → (free_count n w < fuel)%nat →
  wp (new_16_loop fuel v)
    (λ v' w', ∃ v1 f, v' = v1 ++ [f] ∧ searching n w0 v' w' ∧
       Z.land (start_paddr f) 0x3fff = 0)
    (λ e w', num e = ENOMEM ∧ base w' = base w0 ∧ fa_inv n (w_fa w') ∧
             (∀ j, free w' j = free w0 j) ∧ scrubbed w0 w') w.
Proof using HL.
  revert v w. induction fuel as [|fuel IH]; intros v w Hs Hfuel; [lia|]. simpl.
  apply wp_bind. unfold wp at 1, dropping.
  pose proof (frame_new_zero_exact n w (srch_fa _ _ _ _ Hs)) as Hn. unfold wp in Hn.
  destruct (frame_new_zero w) as [f w1|e w1| |]; try done.
  - destruct Hn as (i & Hf & Hi & Hfi & Hb & Hinv & Hfr & Hm).
    pose proof (searching_push _ _ _ _ _ _ _ Hs Hf Hi Hfi Hb Hinv Hfr Hm) as Hs1.
    destruct (Z.eqb_spec (Z.land (start_paddr f) 16383) 0); [by apply wp_ret; eauto|].
    apply IH; [done|]. pose proof (free_count_less n w w1 i Hi Hfi Hfr). lia.
  - destruct Hn as (He & (Hm & Hb & Hinv & Hfr) & _).
    assert (searching n w0 v w1) as Hs1.
    { destruct Hs as [H1 H2 H3 H4 H5 H6]. split; [done|congruence| |by rewrite Hb| |].
      - apply (taken_mono n w); [done| |done]. intros j _ Hj. by rewrite Hfr.
      - intros j. by rewrite Hfr, Hb.
      - intros b. rewrite Hm. apply H6. }
    pose proof (searching_drop (E:=HvError) n w0 v w1 Hs1) as Hd. unfold wp, hbind in *.
    destruct (drop_frames v w1) as [[] w2| | |]; try done. simpl.
    destruct Hd as (D1 & D2 & D3 & D4 & _). by split_and!.
Qed.

(** Putting the last frame found back. *)
Lemma searching_pop {E} n w0 v f w :
  searching n w0 (v ++ [f]) w →
  wp (E:=E) (frame_drop f) (λ _ w', searching n w0 v w') (λ _ _, False) w.
Proof using HL.
  intros [H1 H2 H3 H4 H5 H6]. apply Forall_app in H3 as [H3 Hf]. apply Forall_cons in Hf as [Hf _].
  eapply wp_mono; [apply (frame_drop_spec n w f); [exact H1|exact Hf]| |done]. intros _ w' (Hm & Hb & Hi & Hfr).
  assert (∀ j, hold_any (base w) v j = true → holds (base w) f j = false) as Hno.
  { intros j (g & Hin & Hg)%existsb_exists. apply not_true_iff_false. intros Hfj.
    apply list_elem_of_In, list_elem_of_lookup in Hin as [x Hx].
    assert (x = length v) as ->.
    { eapply H4; [by apply lookup_app_l_Some, Hx|by apply list_lookup_middle|exact Hg|exact Hfj]. }
    apply lookup_lt_Some in Hx. lia. }
  split; [done|congruence| | | |].
  - apply (taken_mono n w); [done| |done]. intros j Hj Hfj. by rewrite Hfr, Hfj, Hno.
  - rewrite Hb. intros x y g h k Hx Hy. eapply H4; by apply lookup_app_l_Some.
  - intros j. rewrite Hfr, Hb, <- H5. unfold hold_any. rewrite existsb_app. simpl.
    rewrite orb_false_r, <- !orb_assoc. f_equal. apply orb_comm.
  - intros b. rewrite Hm. apply H6.
Qed.

(** [new_16]: four contiguous frames that were free, and the rest of the bitmap as
    before; or ENOMEM and the whole bitmap as before. Only frames that were free
    are written, with zeroes; the frames returned are not cleared. *)
Lemma frame_new_16_spec n fuel w :
  fa_inv n (w_fa w) → (free_count n w < fuel)%nat →
  wp (frame_new_16 fuel)
    (λ f w', ∃ i, f = mkFrame (base w + i * PAGE_SIZE) 4 ∧
       (∀ j, i ≤ j < i + 4 → free w j = true) ∧ base w' = base w ∧ fa_inv n (w_fa w') ∧
       (∀ j, free w' j = free w j && negb (bool_decide (i ≤ j < i + 4))) ∧ scrubbed w w')
    (λ e w', num e = ENOMEM ∧ base w' = base w ∧ fa_inv n (w_fa w') ∧
             (∀ j, free w' j = free w j) ∧ scrubbed w w') w.
Proof using HL.
  intros Hinv Hfuel. apply wp_bind. eapply wp_mono; [apply (new_16_loop_spec n fuel w [] w); [|done]| |done].
  { split; [done|done|constructor|by intros ??|intros j; by rewrite orb_false_r|by apply scrubbed_mem]. }
  intros ? w1 (v1 & f & -> & Hs & _).
  rewrite length_app, Nat.add_comm. cbn [length Nat.add Nat.pred].
  rewrite lookup_app_r, Nat.sub_diag by lia. cbn [lookup list_lookup].
  apply wp_bind. eapply wp_mono; [apply (searching_pop n w v1 f w1 Hs)| |done]. intros u w2 Hs2. cbv beta in Hs2.
  replace (S (length v1) - 1)%nat with (length v1) by lia. rewrite take_app_length.
  apply wp_bind. unfold wp at 1, dropping.
  pose proof (frame_new_contiguous_spec n w2 4 (srch_fa _ _ _ _ Hs2) ltac:(lia)) as Hn.
  unfold wp in Hn. pose proof Hs2 as [S1 S2 S3 S4 S5 S6].
  destruct (frame_new_contiguous 4 0 w2) as [g w3|e w3| |]; try done.
  - destruct Hn as (i & -> & Hall & Hm & Hb & Hinv3 & Hf3).
    apply wp_bind. eapply wp_mono; [apply (drop_frames_spec n); [done| |by rewrite Hb]| |done].
    { apply (taken_mono n w2); [done| |done]. intros j _ Hj. by rewrite Hf3, Hj. }
    intros _ w4 (Hm4 & Hb4 & Hinv4 & Hf4). apply wp_ret. exists i. rewrite S2.
    split; [done|]. split; [intros j Hj; by apply (searching_sub n w v1 w2), Hall|].
    split; [congruence|]. split; [done|]. split.
    + intros j. rewrite Hf4, Hf3, Hb, <- S5. destruct (bool_decide (i ≤ j < i + 4)) eqn:E.
      * rewrite !andb_false_r. simpl. apply bool_decide_eq_true in E.
        apply not_true_iff_false. intros (h & Hh & Hj)%existsb_exists.
        apply list_elem_of_In in Hh. rewrite Forall_forall in S3.
        destruct (S3 h Hh) as (? & _ & _ & _ & _ & Hno). apply Hno in Hj. rewrite Hall in Hj by done. done.
      * simpl. by rewrite !andb_true_r.
    + intros b. rewrite Hm4, Hm. apply S6.
  - destruct Hn as (He & Hm & Hb & Hinv3 & Hf3).
    assert (searching n w v1 w3) as Hs3.
    { split; [done|congruence| |by rewrite Hb|intros j; by rewrite Hf3, Hb|intros b; rewrite Hm; apply S6].
      apply (taken_mono n w2); [done| |done]. intros j _ Hj. by rewrite Hf3. }
    pose proof (searching_drop (E:=HvError) n w v1 w3 Hs3) as Hd. unfold wp, hbind in *.
    destruct (drop_frames v1 w3) as [[] w4| | |]; try done. simpl.
    destruct Hd as (D1 & D2 & D3 & D4 & _). by split_and!.
Qed.

(** ** [frame::test] *)

Fixpoint frame_news {E} (k : nat) (v : list Frame) : M (world T) E (list Frame) :=
  match k with
  | O => hret v
  | S k' => let* f := hunwrap frame_new in frame_news k' (v ++ [f])
  end.

(** [v.clear()] and [drop(v)] drop the frames in order. *)
Definition frame_test {E} : M (world T) E unit :=
  let* v := frame_news 5 [] in
  drop_frames v ;;;
  let* v := frame_news 5 [] in
  drop_frames v.

Lemma frame_new_exact n w :
  fa_inv n (w_fa w) →
  wp frame_new
    (λ f w', ∃ i, f = mkFrame (base w + i * PAGE_SIZE) 1 ∧ 0 ≤ i < n ∧ free w i = true ∧
       w_mem w' = w_mem w ∧ base w' = base w ∧ fa_inv n (w_fa w') ∧
       (∀ j, free w' j = free w j && bool_decide (j ≠ i)))
    (λ _ _, ∀ j, free w j = false) w.
Proof using HL.
  intros Hinv. apply wp_bind, wp_with_fa. eapply wp_mono; [by apply fa_alloc_spec| |done].
  intros [a|] fa' (Hinv' & [Hb _] & Hrest).
  - apply wp_ret. destruct Hrest as (_ & _ & i & -> & Hi & Ht). exists i.
    pose proof (proj2 (proj2 (proj2 (proj2 Hinv))) i Hi) as Hir. by repeat (split; [done|]).
  - apply wp_err. by destruct Hrest as [Hno _].
Qed.

(** Taking one frame takes one off the count. *)
Lemma free_count_pred n w w' i :
  (∀ j, free w' j = free w j && bool_decide (j ≠ i)) → (free_count n w ≤ free_count n w' + 1)%nat.
Proof.
  intros Hw. unfold free_count. pose proof (NoDup_seqZ 0 n) as Hnd. revert Hnd.
  assert (∀ l, i ∉ l → length (filter (λ j, free w j = true) l) = length (filter (λ j, free w' j = true) l)) as Hsame.
  { intros l. induction l as [|x l IH]; intros Hl; [done|]. apply not_elem_of_cons in Hl as [Hx Hl].
    rewrite !filter_cons, (Hw x), (bool_decide_true (x ≠ i)), andb_true_r by done.
    case_decide; simpl; by rewrite IH. }
  induction (seqZ 0 n) as [|x l IH]; intros Hnd; [simpl; lia|]. apply NoDup_cons in Hnd as [Hx Hnd].
  rewrite !filter_cons. destruct (decide (x = i)) as [->|Hxi].
  - specialize (Hsame l Hx). repeat case_decide; simpl; lia.
  - specialize (IH Hnd). rewrite (Hw x), (bool_decide_true (x ≠ i)), andb_true_r by done.
    case_decide; simpl; lia.
Qed.

Lemma free_count_zero n w : (∀ j, free w j = false) → free_count n w = 0%nat.
Proof.
  intros H. unfold free_count. induction (seqZ 0 n) as [|x l IH]; [done|].
  rewrite filter_cons, decide_False; [done|]. by rewrite H.
Qed.

Lemma frame_news_spec {E} n k w0 v w :
  fa_inv n (w_fa w) → Forall (taken n w) v → apart (base w) v → base w = base w0 → w_mem w = w_mem w0 →
  (∀ j, free w j || hold_any (base w) v j = free w0 j) → (k ≤ free_count n w)%nat →
  wp (E:=E) (frame_news k v)
    (λ v' w', fa_inv n (w_fa w') ∧ Forall (taken n w') v' ∧ apart (base w') v' ∧ base w' = base w0 ∧
       w_mem w' = w_mem w0 ∧ ∀ j, free w' j || hold_any (base w') v' j = free w0 j) (λ _ _, False) w.
Proof using HL.
  revert v w. induction k as [|k IH]; intros v w Hinv Hv Ha Hb Hm Hf Hk; [by apply wp_ret|].
  simpl. apply wp_bind, wp_unwrap. eapply wp_mono; [by apply frame_new_exact| |].
  - intros f w' (i & -> & Hi & Hfree & Hm' & Hb' & Hinv' & Hf').
    destruct (push_taken n w w' v i Hv Ha Hi Hfree Hb' Hf') as (Hv' & Ha' & Hsame).
    apply IH; try done; try congruence.
    pose proof (free_count_pred n w w' i Hf'). lia.
  - intros e w' Hno. rewrite free_count_zero in Hk by done. lia.
Qed.

(** Five frames taken and given back. *)
Lemma frame_take_drop {E} n w :
  fa_inv n (w_fa w) → (5 ≤ free_count n w)%nat →
  wp (E:=E) (let* v := frame_news 5 [] in drop_frames v) (λ _ w', only_free n w w' (free w)) (λ _ _, False) w.
Proof using HL.
  intros Hinv Hk. apply wp_bind. eapply wp_mono; [apply (frame_news_spec n 5 w [] w)| |done]; try done.
  { by intros j; rewrite orb_false_r. }
  intros v w1 (H1 & H2 & H3 & H4 & H5 & H6). eapply wp_mono; [by apply (drop_frames_spec n)| |done].
  intros _ w2 (Hm & Hb & Hi & Hf). split_and!; [congruence|congruence|done|].
  intros j. by rewrite Hf, H6.
Qed.

Lemma frame_test_spec {E} n w :
  fa_inv n (w_fa w) → (5 ≤ free_count n w)%nat →
  wp (E:=E) frame_test (λ _ w', only_free n w w' (free w)) (λ _ _, False) w.
Proof using HL.
  intros Hinv Hk. unfold frame_test.
  enough (wp (E:=E) (hbind (hbind (frame_news 5 []) (λ v, drop_frames v)) (λ _, let* v := frame_news 5 [] in drop_frames v))
    (λ _ w', only_free n w w' (free w)) (λ _ _, False) w) as H.
  { unfold wp, hbind in *. by destruct (frame_news 5 [] w). }
  apply wp_bind. eapply wp_mono; [by apply (frame_take_drop n)| |done].
  intros _ w1 (Hm & Hb & Hi & Hf). eapply wp_mono; [apply (frame_take_drop n)| |done]; [done| |].
  - unfold free_count in *. erewrite list_filter_iff; [exact Hk|]. intros j. by rewrite Hf.
  - intros _ w2 (Hm2 & Hb2 & Hi2 & Hf2). split_and!; [congruence|congruence|done|].
    intros j. by rewrite Hf2.
Qed.

(** A pool in which every frame is free. *)
Lemma full_pool_count w :
  (∀ j, ba_test (fa_inner (w_fa w)) j = bool_decide (0 ≤ j < 4096)) → (5 ≤ free_count 4096 w)%nat.
Proof.
  intros Hfree. unfold free_count. rewrite (list_filter_iff _ (λ j, bool_decide (0 ≤ j < 4096) = true))
    by (intros j; unfold free; by rewrite Hfree).
  apply Nat.leb_le. vm_compute. reflexivity.
Qed.

(** [init] and [test] one after the other. *)
Lemma init_test_spec {E} (w : world T) core_end :
  core_end mod PAGE_SIZE = 0 → 0 ≤ core_end → core_end + 0x1200000 ≤ 2 ^ 48 →
  w_fa w = FrameAllocator_empty →
  wp (E:=E) (frame_init core_end ;;; frame_test)
    (λ _ w', w_mem w' = w_mem w ∧ fa_base (w_fa w') = core_end + 0x200000 ∧
       fa_inv 4096 (w_fa w') ∧
       ∀ j, ba_test (fa_inner (w_fa w')) j = bool_decide (0 ≤ j < 4096))
    (λ _ _, False) w.
Proof using HL.
  intros H1 H2 H3 H4. apply wp_bind. eapply wp_mono; [by apply frame_init_spec| |done].
  intros _ w1 (Hm & Hb & Hinv & Hfree). cbv beta in *.
  eapply wp_mono; [apply (frame_test_spec 4096); [exact Hinv|]| |done].
  - by apply full_pool_count.
  - intros _ w2 (Hm2 & Hb2 & Hinv2 & Hf2). unfold base, free in *.
    split; [congruence|]. split; [congruence|]. split; [done|]. intros j. by rewrite Hf2.
Qed.

End pool.
