(* ===== verification/Region.v ===== *)
(** * Memory flags, mappers and regions

    [MemFlags] (src/src/memory/mod.rs), [Mapper] (src/src/memory/mapper.rs) and
    [MemoryRegion] (src/src/memory/mm.rs). *)

From S2P Require Import Prelude Addr.

(** ** MemFlags: a [bitflags!] set over [u64] *)

Definition READ : Z := 1.
Definition WRITE : Z := 2.
Definition EXECUTE : Z := 4.
Definition DMA : Z := 8.
Definition IO : Z := 16.
Definition COMMUNICATION : Z := 32.
Definition LOADABLE : Z := 64.
Definition ROOTSHARED : Z := 128.
Definition NO_HUGEPAGES : Z := 256.
Definition USER : Z := 512.

(** [bitflags]: [self.bits() & other.bits() == other.bits()] *)
Definition contains (flags x : Z) : bool := Z.land flags x =? x.

(** ** Mapper *)

Inductive Mapper : Type :=
| Offset (off : Z)
| Fixed (paddr : Z).

Definition mapper_offset (m : Mapper) : Z :=
  match m with Offset off => off | Fixed _ => 0 end.

Definition map_fn (m : Mapper) (vaddr : Z) : Z :=
  match m with
  | Offset off => wrapping_sub vaddr off
  | Fixed paddr => paddr
  end.

(** ** MemoryRegion *)

Record MemoryRegion : Type := mkRegion {
  start : Z;
  size : Z;
  flags : Z;
  mapper : Mapper
}.

Definition region_new (start size flags : Z) (mapper : Mapper) : MemoryRegion :=
  mkRegion start size flags mapper.

(** [&self.0 as usize] of the static [EMPTY_PAGE] is a parameter: the address of
    a linker-placed object. *)
Definition new_with_empty_mapper (empty_page start size flags : Z) : MemoryRegion :=
  region_new start size flags (Fixed empty_page).

Definition new_with_offset_mapper (start_vaddr start_paddr size flags : Z) : MemoryRegion :=
  let phys_virt_offset := wrapping_sub start_vaddr start_paddr in
  region_new start_vaddr size flags (Offset phys_virt_offset).

(** [MemoryRegion::is_overlap_with]; the two ends can overflow. *)
Definition is_overlap_with {S E} (self other : MemoryRegion) : M S E bool :=
  let p0 := start self in
  let* p1 := uadd p0 (size self) in
  let p2 := start other in
  let* p3 := uadd p2 (size other) in
  hret (negb ((p1 <=? p2) || (p3 <=? p0))).

(** ** Facts *)

Definition in_region (r : MemoryRegion) (v : Z) : Prop := start r ≤ v < start r + size r.

#[global] Instance in_region_dec r v : Decision (in_region r v).
Proof. unfold in_region. apply _. Defined.

(** A region that fits in the address space, as [MemorySet::insert] needs it. *)
Definition region_ok (r : MemoryRegion) : Prop :=
  0 ≤ start r ∧ 0 < size r ∧ start r + size r < U64.

Lemma is_overlap_with_spec {S E} r r' (s : S) :
  region_ok r → region_ok r' →
  ∃ b, is_overlap_with (E:=E) r r' s = ROk b s ∧
       (b = true ↔ ∃ v, in_region r v ∧ in_region r' v).
Proof.
  intros (H0 & Hs & Ht) (H0' & Hs' & Ht').
  unfold is_overlap_with, hbind, uadd.
  rewrite (proj2 (Z.ltb_lt _ _) Ht); simpl. rewrite (proj2 (Z.ltb_lt _ _) Ht'); simpl.
  eexists; split; [done|]. unfold in_region.
  rewrite negb_true_iff, orb_false_iff, !Z.leb_gt. split.
  - intros [H1 H2]. exists (Z.max (start r) (start r')). lia.
  - intros (v & H1 & H2). lia.
Qed.

(** A region built with an offset mapper translates its first address to the
    requested physical address, and every other one at the same distance; the
    wrap-around subtraction makes this hold for [paddr > vaddr] too. *)
Lemma offset_mapper_translates v p sz fl x :
  is_u64 p → is_u64 (p + (x - v)) →
  map_fn (mapper (new_with_offset_mapper v p sz fl)) x = p + (x - v).
Proof.
  intros Hp Hx. simpl. unfold wrapping_sub.
  rewrite Zminus_mod_idemp_r. replace (x - (v - p)) with (p + (x - v)) by lia.
  by apply Z.mod_small.
Qed.

Lemma map_fn_u64 m v : is_u64 (map_fn m 0) → is_u64 (map_fn m v).
Proof.
  destruct m as [off|p]; simpl; [|done]. intros _. apply Z.mod_pos_bound. done.
Qed.
