(* ===== verification/Pte.v ===== *)
(** * Page sizes, paging errors and the page-table-entry interface

    From src/src/arch/aarch64/paging.rs: [PagingError], [PageSize], [Page] and
    the trait [GenericPTE]. The trait is a class of operations on the 64-bit
    entry; [GenericPTELaws] is what the page-table code relies on. The instances
    are in [S1pt] and [S2pt]. *)

From S2P Require Import Prelude HvError Addr Region.

Inductive PagingError : Type := NoMemory | NotMapped | AlreadyMapped | MappedToHugePage.

#[global] Instance PagingError_eq_dec : EqDecision PagingError.
Proof. solve_decision. Defined.

(** [impl From<PagingError> for HvError] *)
Definition paging_to_hv (err : PagingError) : HvError :=
  match err with
  | NoMemory => hv_err ENOMEM
  | _ => hv_err EFAULT
  end.

Inductive PageSize : Type := Size4K | Size2M | Size1G.

#[global] Instance PageSize_eq_dec : EqDecision PageSize.
Proof. solve_decision. Defined.

(** [self as usize]: the discriminants. *)
Definition page_size (p : PageSize) : Z :=
  match p with
  | Size4K => 0x1000
  | Size2M => 0x200000
  | Size1G => 0x40000000
  end.

Definition ps_page_offset (p : PageSize) (addr : Z) : Z := Z.land addr (page_size p - 1).
Definition ps_is_aligned (p : PageSize) (addr : Z) : bool := ps_page_offset p addr =? 0.
Definition ps_align_down (p : PageSize) (addr : Z) : Z := Z.land addr (unot64 (page_size p - 1)).
Definition ps_is_huge (p : PageSize) : bool :=
  match p with Size1G | Size2M => true | Size4K => false end.

Record Page : Type := mkPage { page_vaddr : Z; page_sz : PageSize }.

(** [Page::new_aligned]; the [debug_assert!] is checked in a debug build. *)
Definition new_aligned {S E} (vaddr : Z) (size : PageSize) : M S E Page :=
  hassert (ps_is_aligned size vaddr) ;;; hret (mkPage vaddr size).

(** ** trait GenericPTE *)

Class GenericPTE : Type := {
  pte_addr : Z → Z;
  pte_flags : Z → option Z;          (* None: it panics *)
  pte_is_unused : Z → bool;
  pte_is_present : Z → bool;
  pte_is_huge : Z → bool;
  pte_set_addr : Z → Z → Z;          (* entry, paddr *)
  pte_set_flags : Z → Z → bool → Z;  (* entry, flags, is_huge *)
  pte_set_table : Z → Z → Z;         (* entry, paddr *)
  pte_clear : Z → Z
}.

(** The value [map_page] leaves in an unused entry. *)
Definition leaf_entry {P : GenericPTE} (paddr fl : Z) (huge : bool) : Z :=
  pte_set_flags (pte_set_addr 0 paddr) fl huge.

(** The value [next_table_mut_or_create] leaves in an unused entry. *)
Definition table_entry {P : GenericPTE} (paddr : Z) : Z := pte_set_table 0 paddr.

(** Bits 12..47: the output address field. *)
Definition PHYS_ADDR_MASK : Z := Z.land 0xffffffffffff (unot64 (PAGE_SIZE - 1)).

(** What an entry keeps of a terminal address and of its flags, and the flags
    that make a terminal entry at all. *)
Record EntryFormat : Type := mkFormat {
  ef_mask : Z;            (* the bits of the output address *)
  ef_norm : Z → Z;        (* the flags an entry remembers *)
  ef_usable : Z → bool    (* the flags an entry can be terminal with *)
}.

Record format_ok (f : EntryFormat) : Prop := {
  fmt_bound : 0 ≤ ef_mask f < 2 ^ 56;
  fmt_id paddr : paddr mod PAGE_SIZE = 0 → 0 ≤ paddr < 2 ^ 48 → Z.land paddr (ef_mask f) = paddr
}.

Class GenericPTELaws (P : GenericPTE) : Type := {
  pte_format : EntryFormat;
  pte_format_ok : format_ok pte_format;
  pte_unused_law e : pte_is_unused e = (e =? 0);
  pte_clear_law e : pte_clear e = 0;
  pte_zero_present : pte_is_present 0 = false;
  pte_table_law paddr :
    paddr mod PAGE_SIZE = 0 → 0 ≤ paddr < 2 ^ 48 →
    let e := table_entry paddr in
    is_u64 e ∧ e ≠ 0 ∧ pte_is_present e = true ∧ pte_is_huge e = false ∧ pte_addr e = paddr;
  pte_leaf_law paddr fl huge :
    is_u64 paddr → ef_usable pte_format fl = true →
    let e := leaf_entry paddr fl huge in
    is_u64 e ∧ e ≠ 0 ∧ pte_is_present e = true ∧ (huge = true → pte_is_huge e = true) ∧
    pte_addr e = Z.land paddr (ef_mask pte_format) ∧
    pte_flags e = Some (ef_norm pte_format fl);
  pte_set_law e paddr fl huge :   (* nothing of the old entry is kept *)
    pte_set_flags (pte_set_addr e paddr) fl huge = leaf_entry paddr fl huge
}.

(** ** Facts *)

(** log2 of the page size, in units of table levels: 1, 2, 3. *)
Definition ps_level (p : PageSize) : nat :=
  match p with Size4K => 1 | Size2M => 2 | Size1G => 3 end.

Definition ps_shift (p : PageSize) : Z := 12 + 9 * (Z.of_nat (ps_level p) - 1).

Lemma page_size_pow p : page_size p = 2 ^ ps_shift p.
Proof. by destruct p. Qed.

Lemma page_size_pos p : 0x1000 ≤ page_size p ≤ 0x40000000.
Proof. destruct p; simpl; lia. Qed.

Lemma ps_offset_mod p a : ps_page_offset p a = a mod page_size p.
Proof.
  unfold ps_page_offset. rewrite page_size_pow. apply land_ones_mod. destruct p; done.
Qed.

Lemma ps_is_aligned_spec p a : ps_is_aligned p a = true ↔ a mod page_size p = 0.
Proof. unfold ps_is_aligned. rewrite ps_offset_mod. apply Z.eqb_eq. Qed.

Lemma ps_align_down_mod p a : is_u64 a → ps_align_down p a = a - a mod page_size p.
Proof.
  intros Ha. unfold ps_align_down. rewrite page_size_pow.
  apply land_not_low; [done|]. destruct p; done.
Qed.

Lemma ps_align_down_u64 p a : is_u64 a → is_u64 (ps_align_down p a).
Proof.
  intros Ha. rewrite ps_align_down_mod by done. pose proof (page_size_pos p).
  pose proof (Z.mod_pos_bound a (page_size p)). pose proof (Z.mod_le a (page_size p)).
  unfold is_u64 in *. lia.
Qed.

Lemma page_size_multiple p a : a mod page_size p = 0 → a mod PAGE_SIZE = 0.
Proof.
  intros H. assert ((page_size p | a)) as Hd by (apply Z.mod_divide; [by destruct p|done]).
  apply Z.mod_divide; [done|]. etrans; [|exact Hd].
  destruct p; [exists 1|exists 512|exists 262144]; done.
Qed.

(** ** Descriptors: an attribute word around an address field *)

Definition descriptor (attr paddr : Z) : Z :=
  Z.lor (Z.land attr (unot64 PHYS_ADDR_MASK)) (Z.land paddr PHYS_ADDR_MASK).

Lemma descriptor_u64 attr paddr : is_u64 (descriptor attr paddr).
Proof. apply lor_u64; by apply land_u64_r. Qed.

Lemma descriptor_addr attr paddr :
  Z.land (descriptor attr paddr) PHYS_ADDR_MASK = Z.land paddr PHYS_ADDR_MASK.
Proof.
  unfold descriptor. rewrite Z.land_lor_distr_l, <- !Z.land_assoc.
  change (Z.land (unot64 PHYS_ADDR_MASK) PHYS_ADDR_MASK) with 0.
  by rewrite Z.land_diag, Z.land_0_r.
Qed.

(** Masks outside the address field only see the attributes. *)
Lemma descriptor_attr attr paddr x :
  Z.land (unot64 PHYS_ADDR_MASK) x = x → Z.land PHYS_ADDR_MASK x = 0 →
  Z.land (descriptor attr paddr) x = Z.land attr x.
Proof.
  intros H1 H2. unfold descriptor. rewrite Z.land_lor_distr_l, <- !Z.land_assoc, H1, H2.
  by rewrite Z.land_0_r, Z.lor_0_r.
Qed.

Lemma descriptor_idem attr attr' paddr :
  Z.lor (Z.land attr (unot64 PHYS_ADDR_MASK)) (Z.land (descriptor attr' paddr) PHYS_ADDR_MASK) =
  descriptor attr paddr.
Proof. by rewrite descriptor_addr. Qed.

(** A page-aligned address below 2^48 fits the address field. *)
Lemma phys_mask_id paddr :
  paddr mod PAGE_SIZE = 0 → 0 ≤ paddr < 2 ^ 48 → Z.land paddr PHYS_ADDR_MASK = paddr.
Proof.
  intros Ha Hr. unfold PHYS_ADDR_MASK. rewrite Z.land_assoc.
  change 0xffffffffffff with (2 ^ 48 - 1). rewrite land_ones_mod, Z.mod_small by done.
  change (PAGE_SIZE - 1) with (2 ^ 12 - 1). rewrite land_not_low by (unfold U64; lia).
  change (2 ^ 12) with PAGE_SIZE. lia.
Qed.

(** The format of the VMSAv8-64 descriptors: any flags make a terminal entry. *)
Definition vmsa_format (norm : Z → Z) : EntryFormat := mkFormat PHYS_ADDR_MASK norm (λ _, true).

Lemma vmsa_format_ok norm : format_ok (vmsa_format norm).
Proof. split; [done|apply phys_mask_id]. Qed.

Lemma fmt_addr_bound f paddr : format_ok f → 0 ≤ Z.land paddr (ef_mask f) < 2 ^ 56.
Proof.
  intros [Hb _]. rewrite <- (Z.mod_small (ef_mask f) (2 ^ 56) Hb), <- land_ones_mod by done.
  rewrite Z.land_assoc, land_ones_mod by done. by apply Z.mod_pos_bound.
Qed.
