(* ===== verification/S2pt.v ===== *)
(** * Stage-2 descriptors (src/src/arch/aarch64/s2pt.rs)

    The VMSAv8-64 stage-2 block/page descriptor a guest's physical addresses are
    translated with, as an instance of [GenericPTE]. *)

From S2P Require Import Prelude Addr Region Pte.

Module S2PT.

(** ** [DescriptorAttr], a [bitflags!] set over [u64] *)

Definition VALID : Z := 1.
Definition NON_BLOCK : Z := 2.
Definition ATTR : Z := Z.shiftl 15 2.
Definition S2AP_R : Z := 64.
Definition S2AP_W : Z := 128.
Definition INNER : Z := 256.
Definition SHAREABLE : Z := 512.
Definition AF : Z := 1024.

(** The union of the declared flags, and [from_bits_truncate]. *)
Definition ALL : Z :=
  Z.lor VALID (Z.lor NON_BLOCK (Z.lor ATTR (Z.lor S2AP_R (Z.lor S2AP_W
    (Z.lor INNER (Z.lor SHAREABLE AF)))))).
Definition from_bits_truncate (bits : Z) : Z := Z.land bits ALL.

Inductive MemType : Type := Device | Normal.

#[global] Instance MemType_eq_dec : EqDecision MemType.
Proof. solve_decision. Defined.

Definition mem_type_bits (t : MemType) : Z := match t with Device => 1 | Normal => 15 end.

Definition ATTR_INDEX_MASK : Z := 0x3c.

Definition from_mem_type (t : MemType) : Z :=
  let bits := Z.shiftl (mem_type_bits t) 2 in
  let bits := match t with Normal => Z.lor bits (Z.lor INNER SHAREABLE) | Device => bits end in
  from_bits_truncate bits.

(** [DescriptorAttr::mem_type]; [None] is the [panic!]. *)
Definition mem_type (attr : Z) : option MemType :=
  let idx := Z.shiftr (Z.land attr ATTR_INDEX_MASK) 2 in
  if idx =? 1 then Some Device
  else if idx =? 15 then Some Normal
  else None.

(** [impl From<DescriptorAttr> for MemFlags] *)
Definition attr_to_flags (attr : Z) : option Z :=
  let flags := 0 in
  let flags := if contains attr VALID && contains attr S2AP_R then Z.lor flags READ else flags in
  let flags := if contains attr S2AP_W then Z.lor flags WRITE else flags in
  match mem_type attr with
  | Some Device => Some (Z.lor flags IO)
  | Some Normal => Some flags
  | None => None
  end.

(** [impl From<MemFlags> for DescriptorAttr] *)
Definition flags_to_attr (flags : Z) : Z :=
  let attr := if contains flags IO then from_mem_type Device else from_mem_type Normal in
  let attr := Z.lor attr (Z.lor VALID AF) in
  let attr := if contains flags READ then Z.lor attr S2AP_R else attr in
  let attr := if contains flags WRITE then Z.lor attr S2AP_W else attr in
  attr.

(** ** [PageTableEntry] *)

Definition addr (e : Z) : Z := Z.land e PHYS_ADDR_MASK.
Definition entry_flags (e : Z) : option Z := attr_to_flags (from_bits_truncate e).
Definition is_unused (e : Z) : bool := e =? 0.
Definition is_present (e : Z) : bool := contains (from_bits_truncate e) VALID.
Definition is_huge (e : Z) : bool := negb (contains (from_bits_truncate e) NON_BLOCK).

Definition set_addr (e paddr : Z) : Z :=
  Z.lor (Z.land e (unot64 PHYS_ADDR_MASK)) (Z.land paddr PHYS_ADDR_MASK).

Definition set_flags_and_mem_type (e flags : Z) (t : MemType) : Z :=
  let attr := Z.lor flags (from_mem_type t) in
  Z.lor (Z.land attr (unot64 PHYS_ADDR_MASK)) (Z.land e PHYS_ADDR_MASK).

Definition set_flags (e flags : Z) (huge : bool) : Z :=
  let t := if contains flags IO then Device else Normal in
  let attr := flags_to_attr flags in
  let attr := if huge then attr else Z.lor attr NON_BLOCK in
  set_flags_and_mem_type e attr t.

Definition set_table (e paddr : Z) : Z :=
  set_flags_and_mem_type (set_addr e paddr) (Z.lor VALID NON_BLOCK) Normal.

Definition clear (e : Z) : Z := 0.

#[global] Instance s2_pte : GenericPTE := {
  pte_addr := addr;
  pte_flags := entry_flags;
  pte_is_unused := is_unused;
  pte_is_present := is_present;
  pte_is_huge := is_huge;
  pte_set_addr := set_addr;
  pte_set_flags := set_flags;
  pte_set_table := set_table;
  pte_clear := clear
}.

(** ** The laws *)

(** The flags that survive [set_flags] followed by [flags]: stage 2 keeps READ,
    WRITE and IO; EXECUTE and the software flags are dropped. *)
Definition norm_flags (fl : Z) : Z :=
  Z.lor (if contains fl READ then READ else 0)
    (Z.lor (if contains fl WRITE then WRITE else 0) (if contains fl IO then IO else 0)).

Lemma s2_set_table_descriptor paddr :
  set_table 0 paddr =
  descriptor (Z.lor (Z.lor VALID NON_BLOCK) (from_mem_type Normal)) paddr.
Proof. apply descriptor_idem. Qed.

(** The attribute word [set_flags] writes. *)
Definition leaf_attr (fl : Z) (huge : bool) : Z :=
  Z.lor (if huge then flags_to_attr fl else Z.lor (flags_to_attr fl) NON_BLOCK)
        (from_mem_type (if contains fl IO then Device else Normal)).

Lemma s2_set_flags_descriptor paddr fl huge :
  set_flags (set_addr 0 paddr) fl huge = descriptor (leaf_attr fl huge) paddr.
Proof. apply (descriptor_idem (leaf_attr fl huge)). Qed.

Lemma s2_leaf_attr_facts fl huge :
  let a := Z.land (leaf_attr fl huge) ALL in
  a ≠ 0 ∧ contains a VALID = true ∧ negb (contains a NON_BLOCK) = huge ∧
  attr_to_flags a = Some (norm_flags fl).
Proof.
  unfold leaf_attr, flags_to_attr, norm_flags.
  destruct (contains fl IO), (contains fl READ), (contains fl WRITE), huge; vm_compute; done.
Qed.

(** The size bit is written as given. *)
Lemma s2_leaf_huge paddr fl huge : is_huge (set_flags (set_addr 0 paddr) fl huge) = huge.
Proof.
  rewrite s2_set_flags_descriptor. unfold is_huge, from_bits_truncate.
  rewrite (descriptor_attr _ paddr ALL) by done. apply s2_leaf_attr_facts.
Qed.

#[global] Instance s2_pte_laws : GenericPTELaws s2_pte.
Proof.
  refine {| pte_format := vmsa_format norm_flags; pte_format_ok := vmsa_format_ok norm_flags |};
    try done.
  - intros paddr Ha Hr. unfold table_entry; cbn. rewrite s2_set_table_descriptor.
    set (A := Z.lor _ _). assert (Z.land (descriptor A paddr) ALL = Z.land A ALL) as HA.
    { by apply descriptor_attr. }
    unfold is_present, is_huge, from_bits_truncate. rewrite HA. unfold addr.
    rewrite descriptor_addr, phys_mask_id by done. split_and!; try done.
    + apply descriptor_u64.
    + intros Hz. rewrite Hz in HA. done.
  - intros paddr fl huge Hp _. unfold leaf_entry; cbn. rewrite s2_set_flags_descriptor.
    assert (Z.land (descriptor (leaf_attr fl huge) paddr) ALL = Z.land (leaf_attr fl huge) ALL)
      as HA by (by apply descriptor_attr).
    destruct (s2_leaf_attr_facts fl huge) as (H1 & H2 & H3 & H4).
    unfold is_present, is_huge, entry_flags, from_bits_truncate. rewrite HA. unfold addr.
    rewrite descriptor_addr. split_and!; try done; try apply descriptor_u64.
    + intros Hz. apply H1. rewrite <- HA, Hz. done.
    + by intros <-.
  - intros e paddr fl huge. unfold leaf_entry; cbn.
    unfold set_flags, set_flags_and_mem_type, set_addr.
    fold (descriptor e paddr) (descriptor 0 paddr). by rewrite !descriptor_addr.
Defined.

End S2PT.
