(* ===== verification/PtIface.v ===== *)
(** * The page-table interface (trait [GenericPageTable], src/src/arch/aarch64/paging.rs)

    [MemorySet] is generic over the trait. [GenericPageTable] lists the trait's
    operations; [GenericPageTableLaws] states what an implementation promises,
    in terms of the translation ([gpt_view]) it gives to every input address. *)

From S2P Require Import Prelude HvError Addr Region Pte.

(** A translation: physical address, flags and page size of an input address. *)
Abbreviation view := (Z → option (Z * Z * PageSize)).

(** ** Pages *)

Definition page_base (ps : PageSize) (va : Z) : Z := va - va mod page_size ps.

(** [x] lies in the page of size [ps] around [va]. *)
Definition same_page (ps : PageSize) (va x : Z) : Prop :=
  x / page_size ps = va / page_size ps.

#[global] Instance same_page_dec ps va va' : Decision (same_page ps va va').
Proof. unfold same_page. apply _. Defined.

Lemma page_size_min ps : PAGE_SIZE ≤ page_size ps.
Proof. by destruct ps. Qed.

Lemma page_base_same ps va x :
  same_page ps va x ↔ page_base ps va ≤ x < page_base ps va + page_size ps.
Proof.
  unfold same_page, page_base. pose proof (page_size_pos ps).
  pose proof (Z.div_mod va (page_size ps)). pose proof (Z.div_mod x (page_size ps)).
  pose proof (Z.mod_pos_bound va (page_size ps)). pose proof (Z.mod_pos_bound x (page_size ps)).
  split; intros Hx.
  - rewrite Hx in *. lia.
  - symmetry.
    apply (Z.div_unique_pos x (page_size ps) _ (x - page_base ps va)); unfold page_base; lia.
Qed.

Lemma page_base_aligned ps va : va mod page_size ps = 0 → page_base ps va = va.
Proof. unfold page_base. lia. Qed.

Lemma page_base_le ps va : page_base ps va ≤ va < page_base ps va + page_size ps.
Proof. by apply page_base_same. Qed.

Lemma page_base_eq ps va b :
  b mod page_size ps = 0 → b ≤ va < b + page_size ps → page_base ps va = b.
Proof.
  intros Hb Hin. pose proof (page_base_same ps b va) as [_ Hs].
  rewrite page_base_aligned in Hs by done. specialize (Hs Hin). unfold same_page in Hs.
  unfold page_base. pose proof (page_size_pos ps). pose proof (Z.div_mod va (page_size ps)).
  pose proof (Z.div_mod b (page_size ps)). rewrite Hs in *. lia.
Qed.

(** ** What mapping and unmapping a range does to a translation *)

(** The physical address the region's mapper gives to the page at [b]. *)
Definition region_paddr (fmt : EntryFormat) (r : MemoryRegion) (ps : PageSize) (b : Z) : Z :=
  Z.land (ps_align_down ps (map_fn (mapper r) b)) (ef_mask fmt).

Section ranges.
  (** What an entry keeps, and the first address beyond the table's range. *)
  Context (fmt : EntryFormat) (lim : Z).
  Implicit Types (r : MemoryRegion) (v : view).

(** [va] is mapped as [r] says, by a page inside [lo, hi). *)
Definition region_view r (lo hi : Z) v (va : Z) : Prop :=
  ∃ ps, let b := page_base ps va in
    lo ≤ b ∧ b + page_size ps ≤ hi ∧
    (ps ≠ Size4K → map_fn (mapper r) b mod page_size ps = 0 ∧
                   contains (flags r) NO_HUGEPAGES = false) ∧
    v va = Some (region_paddr fmt r ps b + va mod page_size ps, ef_norm fmt (flags r), ps).

(** From [v] to [v'] exactly [lo, hi), unmapped before, is mapped as [r] says. *)
Definition mapped_range r (lo hi : Z) v v' : Prop :=
  ∀ va, 0 ≤ va < lim →
    (lo ≤ va < hi → v va = None ∧ region_view r lo hi v' va) ∧
    (¬ lo ≤ va < hi → v' va = v va).

(** Every address of [lo, hi) is mapped by a page inside [lo, hi). *)
Definition covered (lo hi : Z) v : Prop :=
  ∀ va, lo ≤ va < hi → ∃ pa fl ps,
    v va = Some (pa, fl, ps) ∧ lo ≤ page_base ps va ∧ page_base ps va + page_size ps ≤ hi.

(** From [v] to [v'] exactly [lo, hi) loses its mapping. *)
Definition unmapped_range (lo hi : Z) v v' : Prop :=
  ∀ va, 0 ≤ va < lim →
    (lo ≤ va < hi → v' va = None) ∧
    (¬ lo ≤ va < hi → v' va = v va).

Lemma region_view_ext r lo hi lo' hi' v v' va :
  lo' ≤ lo → hi ≤ hi' → v' va = v va →
  region_view r lo hi v va → region_view r lo' hi' v' va.
Proof.
  intros H1 H2 Htr (ps & Hlo & Hhi & Hps & Hv). exists ps. rewrite Htr. split_and!; lia || done.
Qed.

Lemma mapped_range_refl r lo v : mapped_range r lo lo v v.
Proof. intros va _. split; [lia|done]. Qed.

(** Mapping [mid, hi) after [lo, mid). *)
Lemma mapped_range_app r lo mid hi v1 v2 v3 :
  lo ≤ mid ≤ hi → mapped_range r lo mid v1 v2 → mapped_range r mid hi v2 v3 →
  mapped_range r lo hi v1 v3.
Proof.
  intros Hmid H1 H2 va Hva. destruct (H1 va Hva) as [A1 A2], (H2 va Hva) as [B1 B2]. split.
  - intros Hin. destruct (Z.lt_ge_cases va mid) as [Hlt|Hge].
    + destruct A1 as [Hn Hv]; [lia|]. split; [done|].
      apply (region_view_ext r lo mid lo hi v2 v3); [lia|lia|apply B2; lia|exact Hv].
    + destruct B1 as [Hn Hv]; [lia|]. split; [rewrite <- A2; [done|lia]|].
      apply (region_view_ext r mid hi lo hi v3 v3); [lia|lia|done|exact Hv].
  - intros Hout. rewrite B2; [apply A2|]; lia.
Qed.

Lemma unmapped_range_refl lo v : unmapped_range lo lo v v.
Proof. intros va _. split; [lia|done]. Qed.

Lemma unmapped_range_app lo mid hi v1 v2 v3 :
  lo ≤ mid ≤ hi → unmapped_range lo mid v1 v2 → unmapped_range mid hi v2 v3 →
  unmapped_range lo hi v1 v3.
Proof.
  intros Hmid H1 H2 va Hva. destruct (H1 va Hva) as [A1 A2], (H2 va Hva) as [B1 B2]. split.
  - intros Hin. destruct (Z.lt_ge_cases va mid); [|apply B1; lia].
    rewrite B2 by lia. apply A1. lia.
  - intros Hout. rewrite B2 by lia. apply A2. lia.
Qed.

(** A region with every address mapped by a page inside it can be unmapped. *)
Lemma region_view_covered r lo hi v :
  (∀ va, lo ≤ va < hi → region_view r lo hi v va) → covered lo hi v.
Proof.
  intros H va Hva. destruct (H va Hva) as (ps & Hlo & Hhi & _ & Htr). eauto 10.
Qed.

(** A page of an offset-mapped region with a 4K-aligned offset is output at a
    multiple of its size. *)
Lemma offset_page_aligned off ps va :
  off mod PAGE_SIZE = 0 →
  (ps ≠ Size4K → map_fn (Offset off) (page_base ps va) mod page_size ps = 0) →
  map_fn (Offset off) (page_base ps va) mod page_size ps = 0.
Proof.
  intros Hoff Hbig. destruct (decide (ps = Size4K)) as [->|Hne]; [|by apply Hbig].
  simpl. unfold wrapping_sub. rewrite Z.mod_mod_divide by (by exists (2 ^ 52)).
  unfold page_base. change (page_size Size4K) with PAGE_SIZE. change 4096 with PAGE_SIZE.
  unfold PAGE_SIZE in *. Z.to_euclidean_division_equations. lia.
Qed.

(** Inside a page the mapper is linear: it does not wrap around. *)
Lemma offset_page_add off ps va :
  map_fn (Offset off) (page_base ps va) mod page_size ps = 0 →
  map_fn (Offset off) va = map_fn (Offset off) (page_base ps va) + va mod page_size ps.
Proof.
  simpl. unfold wrapping_sub, page_base. intros Hal. pose proof (page_size_pos ps) as Hpos.
  pose proof (Z.mod_pos_bound va (page_size ps) ltac:(lia)) as Hmod.
  set (x := va mod page_size ps) in *. set (q := (va - x - off) mod U64) in *.
  assert (0 ≤ q < U64) as Hqr by (by apply Z.mod_pos_bound).
  replace (va - off) with ((va - x - off) + x) by lia. rewrite <- Zplus_mod_idemp_l. fold q.
  apply Z.mod_small. split; [lia|]. assert (q ≤ U64 - page_size ps); [|lia].
  apply Z.mod_divide in Hal as [a Ha]; [|lia]. unfold U64 in *. destruct ps; simpl in *; lia.
Qed.

(** With an offset mapper and a 4K-aligned offset (and output below 2^48) the
    address a region's page gives is the mapper's value itself. *)
Lemma region_view_offset r lo hi v va off :
  format_ok fmt → mapper r = Offset off → off mod PAGE_SIZE = 0 → map_fn (mapper r) va < 2 ^ 48 →
  region_view r lo hi v va →
  ∃ ps, v va = Some (map_fn (mapper r) va, ef_norm fmt (flags r), ps).
Proof.
  intros Hfmt Hm Hoff H48 (ps & _ & _ & Hbig & ->). exists ps. do 3 f_equal.
  unfold region_paddr. rewrite Hm in *.
  assert (map_fn (Offset off) (page_base ps va) mod page_size ps = 0) as Hal.
  { apply offset_page_aligned; [done|]. intros Hne. by apply Hbig. }
  rewrite (offset_page_add off ps va Hal) in H48 |- *. f_equal.
  set (p := map_fn (Offset off) (page_base ps va)) in *.
  assert (is_u64 p) as Hpr by (by apply Z.mod_pos_bound).
  pose proof (page_size_pos ps). pose proof (Z.mod_pos_bound va (page_size ps) ltac:(lia)).
  rewrite ps_align_down_mod by done. rewrite Hal, Z.sub_0_r.
  apply (fmt_id _ Hfmt); [by eapply page_size_multiple|]. unfold is_u64 in Hpr. lia.
Qed.

End ranges.

(** ** The trait and its contract *)

(** [W] is the state shared by all page tables (memory and the frame allocator),
    [PT] the page-table object. *)
Class GenericPageTable (W PT : Type) : Type := {
  gpt_new : Z → M W HvError PT;
  gpt_map : MemoryRegion → M (W * PT) HvError unit;
  gpt_unmap : MemoryRegion → M (W * PT) HvError unit;
  gpt_query : Z → M (W * PT) PagingError (Z * Z * PageSize);
  gpt_clone : M (W * PT) HvError PT;
  gpt_root_paddr : PT → Z;
  gpt_drop : PT → M W HvError unit
}.

(** The mapper of a region gives 64-bit values. *)
Definition mapper_ok (m : Mapper) : Prop := ∀ v, is_u64 (map_fn m v).

Lemma mapper_ok_offset off : mapper_ok (Offset off).
Proof. intros v. simpl. unfold wrapping_sub, is_u64. by apply Z.mod_pos_bound. Qed.

Lemma mapper_ok_fixed p : is_u64 p → mapper_ok (Fixed p).
Proof. by intros ? v. Qed.

(** A region that may be mapped with a table for addresses below [lim]. *)
Definition region_mappable (fmt : EntryFormat) (lim : Z) (r : MemoryRegion) : Prop :=
  mapper_ok (mapper r) ∧ start r mod PAGE_SIZE = 0 ∧ size r mod PAGE_SIZE = 0 ∧
  0 ≤ start r ∧ 0 ≤ size r ∧ start r + size r ≤ lim ∧ ef_usable fmt (flags r) = true.

Definition map_error (e : HvError) : Prop := num e = ENOMEM ∨ num e = EFAULT.

(** The contract. [gpt_step s s'] bounds what an operation may change beyond the
    translation of its own table: it is the frame condition that lets clients
    keep facts about the rest of the state. *)
Class GenericPageTableLaws (W PT : Type) {G : GenericPageTable W PT} : Type := {
  gpt_limit : Z;
  gpt_format : EntryFormat;
  gpt_ok : W * PT → Prop;
  gpt_view : W * PT → view;
  gpt_step : W * PT → W * PT → Prop;
  gpt_step_preorder : PreOrder gpt_step;
  gpt_format_ok : format_ok gpt_format;
  gpt_limit_u64 : gpt_limit < U64;
  gpt_map_law s r :
    gpt_ok s → region_mappable gpt_format gpt_limit r →
    wp (gpt_map r)
      (λ _ s', gpt_ok s' ∧ gpt_step s s' ∧
         mapped_range gpt_format gpt_limit r (start r) (start r + size r) (gpt_view s) (gpt_view s'))
      (λ e s', map_error e ∧ gpt_ok s' ∧ gpt_step s s' ∧
         ∃ x, start r ≤ x < start r + size r ∧
              mapped_range gpt_format gpt_limit r (start r) x (gpt_view s) (gpt_view s')) s;
  gpt_unmap_law s r :
    gpt_ok s → 0 ≤ start r → 0 ≤ size r → start r + size r ≤ gpt_limit →
    covered (start r) (start r + size r) (gpt_view s) →
    wp (gpt_unmap r)
      (λ _ s', gpt_ok s' ∧ gpt_step s s' ∧
         unmapped_range gpt_limit (start r) (start r + size r) (gpt_view s) (gpt_view s'))
      (λ _ _, False) s;
  gpt_query_law s va :
    gpt_ok s → 0 ≤ va < gpt_limit →
    gpt_query va s = match gpt_view s va with
                     | Some x => ROk x s
                     | None => RErr NotMapped s
                     end;
  gpt_drop_law w pt : wpp (gpt_drop pt) (λ _ _, True) w
}.
#[export] Existing Instance gpt_step_preorder.
