(* ===== verification/Paging.v ===== *)
(** * The page-table code (src/src/arch/aarch64/paging.rs)

    [HvPageTableImmut], [HvPageTableUnlocked] and [HvPageTable] over an abstract
    entry type ([GenericPTE]), a level of 3 or 4, and tables that live in
    physical memory. A [&mut PTE] is the physical address of the entry. The
    [clonee_lock] serialises whole operations and is not part of the state. *)

From S2P Require Import Prelude PhysMem HvError Addr Frame Region Pte.

Definition ENTRY_COUNT : Z := 512.

(** ** Table indices and tables *)

Definition p4_index (vaddr : Z) : Z := Z.land (Z.shiftr vaddr (12 + 27)) (ENTRY_COUNT - 1).
Definition p3_index (vaddr : Z) : Z := Z.land (Z.shiftr vaddr (12 + 18)) (ENTRY_COUNT - 1).
Definition p2_index (vaddr : Z) : Z := Z.land (Z.shiftr vaddr (12 + 9)) (ENTRY_COUNT - 1).
Definition p1_index (vaddr : Z) : Z := Z.land (Z.shiftr vaddr 12) (ENTRY_COUNT - 1).

(** A table is a slice of [ENTRY_COUNT] entries: its base address. *)
Definition table_of_mut (paddr : Z) : Z := paddr.
(** [&mut table[idx]]: the bounds check and the address of the entry. *)
Definition table_index {S E} (table idx : Z) : M S E Z :=
  if (0 <=? idx) && (idx <? ENTRY_COUNT) then hret (table + 8 * idx) else hpanic PIndex.

Record HvPageTableImmut : Type := mkImmut { root : Frame; level : Z }.

Record HvPageTableUnlocked : Type := mkUnlocked {
  inner : HvPageTableImmut;
  intrm_tables : list Frame
}.

(** [HvPageTable] adds only the lock. *)
Abbreviation HvPageTable := HvPageTableUnlocked.

Definition root_paddr (pt : HvPageTableImmut) : Z := start_paddr (root pt).
Definition starting_level (pt : HvPageTableImmut) : Z := if level pt =? 4 then 0 else 1.

Section Paging.
  Context {T : Type} {HB : BitAlloc T} {P : GenericPTE}.

(** Reading and writing the entry behind a reference. *)
Definition load {E} (slot : Z) : M (world T) E Z := hgets (λ w, read64 (w_mem w) slot).
Definition store {E} (slot e : Z) : M (world T) E unit :=
  hmodify (λ w, set_mem (write64 (w_mem w) slot e) w).

Definition next_table_mut {S} (entry : Z) : M S PagingError Z :=
  if negb (pte_is_present entry) then herr NotMapped
  else if pte_is_huge entry then herr MappedToHugePage
  else hret (table_of_mut (pte_addr entry)).

(** *** impl HvPageTableImmut *)

Definition immut_new {E} (lvl : Z) : M (world T) E HvPageTableImmut :=
  hassert ((lvl =? 3) || (lvl =? 4)) ;;;
  let* root := hunwrap frame_new_zero in
  hret (mkImmut root lvl).

Definition immut_from_root {S E} (root_paddr lvl : Z) : M S E HvPageTableImmut :=
  let* root := frame_from_paddr root_paddr in
  hret (mkImmut root lvl).

Definition get_entry_mut (pt : HvPageTableImmut) (vaddr : Z) :
    M (world T) PagingError (Z * PageSize) :=
  let* p3 :=
    (if level pt =? 4 then
       let p4 := table_of_mut (root_paddr pt) in
       let* p4e := table_index p4 (p4_index vaddr) in
       let* e := load p4e in
       next_table_mut e
     else hret (table_of_mut (root_paddr pt))) in
  let* p3e := table_index p3 (p3_index vaddr) in
  let* e3 := load p3e in
  if pte_is_huge e3 then hret (p3e, Size1G) else
  let* p2 := next_table_mut e3 in
  let* p2e := table_index p2 (p2_index vaddr) in
  let* e2 := load p2e in
  if pte_is_huge e2 then hret (p2e, Size2M) else
  let* p1 := next_table_mut e2 in
  let* p1e := table_index p1 (p1_index vaddr) in
  hret (p1e, Size4K).

Definition query (pt : HvPageTableImmut) (vaddr : Z) :
    M (world T) PagingError (Z * Z * PageSize) :=
  let* '(entry, size) := get_entry_mut pt vaddr in
  let* e := load entry in
  if pte_is_unused e then herr NotMapped else
  let off := ps_page_offset size vaddr in
  let* pa := uadd (pte_addr e) off in
  match pte_flags e with
  | Some fl => hret (pa, fl, size)
  | None => hpanic PExplicit
  end.

(** *** impl HvPageTableUnlocked: the state is the world and the table object *)

Definition pts : Type := world T * HvPageTableUnlocked.

Definition with_world {E A} (m : M (world T) E A) : M pts E A :=
  zoom fst (λ w s, (w, s.2)) m.

Definition unlocked_new {E} (lvl : Z) : M (world T) E HvPageTableUnlocked :=
  let* inner := immut_new lvl in
  hret (mkUnlocked inner []).

Definition unlocked_from_root {S E} (root_paddr lvl : Z) : M S E HvPageTableUnlocked :=
  let* inner := immut_from_root root_paddr lvl in
  hret (mkUnlocked inner []).

Definition push_intrm {E} (f : Frame) : M pts E unit :=
  hmodify (λ s, (s.1, mkUnlocked (inner s.2) (intrm_tables s.2 ++ [f]))).

Definition alloc_intrm_table : M pts HvError Z :=
  let* frame := with_world frame_new_zero in
  let paddr := start_paddr frame in
  push_intrm frame ;;; hret paddr.

Definition next_table_mut_or_create (slot : Z) (allocator : M pts HvError Z) :
    M pts PagingError Z :=
  let* entry := with_world (load slot) in
  if pte_is_unused entry then
    let* paddr := map_err (λ _, NoMemory) allocator in
    with_world (store slot (pte_set_table entry paddr)) ;;;
    hret (table_of_mut paddr)
  else next_table_mut entry.

Definition get_entry_mut_or_create (page : Page) : M pts PagingError Z :=
  let vaddr := page_vaddr page in
  let* pt := hgets snd in
  let* p3 :=
    (if level (inner pt) =? 4 then
       let p4 := table_of_mut (root_paddr (inner pt)) in
       let* p4e := table_index p4 (p4_index vaddr) in
       next_table_mut_or_create p4e alloc_intrm_table
     else hret (table_of_mut (root_paddr (inner pt)))) in
  let* p3e := table_index p3 (p3_index vaddr) in
  if decide (page_sz page = Size1G) then hret p3e else
  let* p2 := next_table_mut_or_create p3e alloc_intrm_table in
  let* p2e := table_index p2 (p2_index vaddr) in
  if decide (page_sz page = Size2M) then hret p2e else
  let* p1 := next_table_mut_or_create p2e alloc_intrm_table in
  let* p1e := table_index p1 (p1_index vaddr) in
  hret p1e.

Definition map_page (page : Page) (paddr flags : Z) : M pts PagingError Z :=
  let* entry := get_entry_mut_or_create page in
  let* e := with_world (load entry) in
  if negb (pte_is_unused e) then herr AlreadyMapped else
  let e := pte_set_addr e (ps_align_down (page_sz page) paddr) in
  let e := pte_set_flags e flags (ps_is_huge (page_sz page)) in
  with_world (store entry e) ;;;
  hret entry.

Definition unmap_page (vaddr : Z) : M pts PagingError (Z * PageSize) :=
  let* pt := hgets snd in
  let* '(entry, size) := with_world (get_entry_mut (inner pt) vaddr) in
  let* e := with_world (load entry) in
  if pte_is_unused e then herr NotMapped else
  let paddr := pte_addr e in
  with_world (store entry (pte_clear e)) ;;;
  hret (paddr, size).

Definition update (vaddr paddr flags : Z) : M pts PagingError PageSize :=
  let* pt := hgets snd in
  let* '(entry, size) := with_world (get_entry_mut (inner pt) vaddr) in
  let* e := with_world (load entry) in
  let e := pte_set_addr e paddr in
  let e := pte_set_flags e flags (ps_is_huge size) in
  with_world (store entry e) ;;;
  hret size.

(** *** impl GenericPageTable for HvPageTable *)

(** The page size one iteration of [map] uses. *)
Definition choose_page_size (fl vaddr paddr sz : Z) : PageSize :=
  if ps_is_aligned Size1G vaddr && ps_is_aligned Size1G paddr &&
     (page_size Size1G <=? sz) && negb (contains fl NO_HUGEPAGES) then Size1G
  else if ps_is_aligned Size2M vaddr && ps_is_aligned Size2M paddr &&
     (page_size Size2M <=? sz) && negb (contains fl NO_HUGEPAGES) then Size2M
  else Size4K.

(** The [while size > 0] loop of [map]. *)
Fixpoint map_loop (fuel : nat) (region : MemoryRegion) (vaddr sz : Z) : M pts HvError unit :=
  if sz <=? 0 then hret tt else
  match fuel with
  | O => hhang
  | S fuel' =>
      let paddr := map_fn (mapper region) vaddr in
      let ps := choose_page_size (flags region) vaddr paddr sz in
      let* page := new_aligned vaddr ps in
      let* _slot := map_err paging_to_hv (map_page page paddr (flags region)) in
      let* vaddr' := uadd vaddr (page_size ps) in
      let* sz' := usub sz (page_size ps) in
      map_loop fuel' region vaddr' sz'
  end.

(** Every iteration consumes at least one 4K page. *)
Definition loop_fuel (sz : Z) : nat := Z.to_nat (sz / PAGE_SIZE + 1).

Definition map (region : MemoryRegion) : M pts HvError unit :=
  hassert (is_aligned (start region)) ;;;
  hassert (is_aligned (size region)) ;;;
  map_loop (loop_fuel (size region)) region (start region) (size region).

(** The [while size > 0] loop of [unmap]; a misaligned page is [loop {}]. *)
Fixpoint unmap_loop (fuel : nat) (vaddr sz : Z) : M pts HvError unit :=
  if sz <=? 0 then hret tt else
  match fuel with
  | O => hhang
  | S fuel' =>
      let* '(_, ps) := map_err paging_to_hv (unmap_page vaddr) in
      if negb (ps_is_aligned ps vaddr) then hhang else
      hassert (ps_is_aligned ps vaddr) ;;;
      hassert (page_size ps <=? sz) ;;;
      let* vaddr' := uadd vaddr (page_size ps) in
      let* sz' := usub sz (page_size ps) in
      unmap_loop fuel' vaddr' sz'
  end.

Definition unmap (region : MemoryRegion) : M pts HvError unit :=
  unmap_loop (loop_fuel (size region)) (start region) (size region).

(** [clone_from_slice] of the 512 entries of the root table. *)
Fixpoint copy_entries (n : nat) (dst src : Z) (m : mem) : mem :=
  match n with
  | O => m
  | S n' => copy_entries n' (dst + 8) (src + 8) (write64 m dst (read64 m src))
  end.

(** [HvPageTable::clone_from]: only the root table is copied; the clone does not
    track the intermediate tables it shares with [src]. *)
Definition clone_from {E} (src : HvPageTableImmut) : M (world T) E HvPageTable :=
  let* pt := unlocked_new (level src) in
  hmodify (λ w, set_mem (copy_entries 512 (root_paddr (inner pt)) (root_paddr src) (w_mem w)) w) ;;;
  hret pt.

(** Dropping the object drops the root frame and the tracked tables. *)
Definition pt_drop {E} (pt : HvPageTable) : M (world T) E unit :=
  frame_drop (root (inner pt)) ;;; drop_frames (intrm_tables pt).

End Paging.
