(* ===== verification/PagingWf.v ===== *)
(** * Well-formed page tables and the hardware walk

    [hw_walk] is the translation-table walk of the architecture, as a function
    of physical memory: the reference the page-table code is compared with.
    [mem_wf] is the invariant the code keeps: the tables reachable from the root
    form a tree (a ghost map [tb] from a depth and an address prefix to a table
    address), and every entry is unused, a table pointer the code wrote, or a
    leaf the code wrote. *)

From S2P Require Import Prelude PhysMem HvError Addr Frame Region Pte Paging.

(** ** Prefixes of an input address

    With [L] levels, depth [k] selects a table by the bits above
    [12 + 9 * (L - k)]. *)

Definition va_limit (L : nat) : Z := 2 ^ (12 + 9 * Z.of_nat L).
Definition pfx (L k : nat) (va : Z) : Z := va / 2 ^ (12 + 9 * Z.of_nat (L - k)).

(** The index used in the table at depth [k]. *)
Definition pidx (L k : nat) (va : Z) : Z := pfx L (S k) va mod 512.

Lemma pfx_pos L k va : 0 ≤ va → 0 ≤ pfx L k va.
Proof. intros. apply Z.div_pos; [done|]. apply Z.pow_pos_nonneg; lia. Qed.

Lemma pfx_0 L va : 0 ≤ va < va_limit L → pfx L 0 va = 0.
Proof. intros H. unfold pfx. rewrite Nat.sub_0_r. by apply Z.div_small. Qed.

Lemma pfx_div L k va : (k < L)%nat → pfx L (S k) va / 512 = pfx L k va.
Proof.
  intros Hk. unfold pfx. rewrite Z.div_div by lia.
  f_equal. change 512 with (2 ^ 9). rewrite <- Z.pow_add_r by lia. f_equal. lia.
Qed.

Lemma pfx_succ L k va : (k < L)%nat → pfx L (S k) va = pfx L k va * 512 + pidx L k va.
Proof.
  intros Hk. unfold pidx. rewrite <- (pfx_div L k va Hk).
  pose proof (Z.div_mod (pfx L (S k) va) 512). lia.
Qed.

Lemma pidx_range L k va : 0 ≤ pidx L k va < 512.
Proof. by apply Z.mod_pos_bound. Qed.

Lemma land_index va n : 0 ≤ n → Z.land (Z.shiftr va n) (ENTRY_COUNT - 1) = (va / 2 ^ n) mod 512.
Proof.
  intros Hn. change (ENTRY_COUNT - 1) with (2 ^ 9 - 1).
  rewrite land_ones_mod, Z.shiftr_div_pow2 by done. done.
Qed.

(** The code's index functions are the index at the depth of their level. *)
Lemma p4_index_pidx va : p4_index va = pidx 4 0 va.
Proof. by apply land_index. Qed.
Lemma p3_index_pidx L va : (3 ≤ L)%nat → p3_index va = pidx L (L - 3) va.
Proof.
  intros. unfold p3_index, pidx, pfx. rewrite land_index by done.
  by replace (L - S (L - 3))%nat with 2%nat by lia.
Qed.
Lemma p2_index_pidx L va : (2 ≤ L)%nat → p2_index va = pidx L (L - 2) va.
Proof.
  intros. unfold p2_index, pidx, pfx. rewrite land_index by done.
  by replace (L - S (L - 2))%nat with 1%nat by lia.
Qed.
Lemma p1_index_pidx L va : (1 ≤ L)%nat → p1_index va = pidx L (L - 1) va.
Proof.
  intros. unfold p1_index, pidx, pfx. rewrite land_index by done.
  by replace (L - S (L - 1))%nat with 0%nat by lia.
Qed.

(** ** The hardware walk *)

(** The size of what a leaf at table level [l] maps. *)
Definition level_size (l : nat) : PageSize :=
  match l with 1%nat => Size4K | 2%nat => Size2M | _ => Size1G end.

Definition walk_index (l : nat) (va : Z) : Z := (va / 2 ^ (12 + 9 * (Z.of_nat l - 1))) mod 512.

Section walk.
  Context {P : GenericPTE}.

(** From a table at level [l] down to the entry that ends the walk: its address
    and level. *)
Fixpoint hw_walk (m : mem) (l : nat) (table va : Z) : Z * nat :=
  let slot := table + 8 * walk_index l va in
  match l with
  | O | 1%nat => (slot, l)
  | S l' =>
      let e := read64 m slot in
      if pte_is_present e && negb (pte_is_huge e) then hw_walk m l' (pte_addr e) va
      else (slot, l)
  end.

(** What an entry that ends the walk at level [l] means for [va]. *)
Definition entry_view (e : Z) (l : nat) (va : Z) : option (Z * Z * PageSize) :=
  if e =? 0 then None else
  match pte_flags e with
  | Some fl => Some (pte_addr e + va mod page_size (level_size l), fl, level_size l)
  | None => None
  end.

(** The translation of [va]: output address, flags and mapping size. *)
Definition hw_translate (m : mem) (L : nat) (root va : Z) : option (Z * Z * PageSize) :=
  let '(slot, l) := hw_walk m L root va in entry_view (read64 m slot) l va.

End walk.

Lemma walk_index_pidx L k va : (k < L)%nat → walk_index (L - k) va = pidx L k va.
Proof.
  intros Hk. unfold walk_index, pidx, pfx. do 3 f_equal. lia.
Qed.

(** ** The invariant *)

Abbreviation tables := (gmap (nat * Z) Z).

Section wf.
  Context {P : GenericPTE} {PL : GenericPTELaws P}.

Definition leaf_ok (L k : nat) (e : Z) : Prop :=
  e = 0 ∨ ((L - k ≤ 3)%nat ∧
           ∃ pa fl, is_u64 pa ∧ ef_usable pte_format fl = true ∧
                    e = leaf_entry pa fl (bool_decide (1 < L - k)%nat)).

Definition entry_ok (L k : nat) (child : option Z) (e : Z) : Prop :=
  match child with
  | Some t' => (S k < L)%nat ∧ e = table_entry t'
  | None => leaf_ok L k e
  end.

Definition table_addr_ok (t : Z) : Prop := t mod PAGE_SIZE = 0 ∧ 0 ≤ t ∧ t + PAGE_SIZE ≤ 2 ^ 48.

Record mem_wf (L : nat) (m : mem) (r : Z) (tb : tables) : Prop := {
  wf_root : tb !! (0%nat, 0) = Some r;
  wf_inj a b t : tb !! a = Some t → tb !! b = Some t → a = b;
  wf_depth k p t : tb !! (k, p) = Some t → (k < L)%nat;
  wf_parent k q t : tb !! (S k, q) = Some t → is_Some (tb !! (k, q / 512));
  wf_addr a t : tb !! a = Some t → table_addr_ok t;
  wf_entries k p t i :
    tb !! (k, p) = Some t → 0 ≤ i < 512 →
    entry_ok L k (tb !! (S k, p * 512 + i)) (read64 m (t + 8 * i))
}.

(** The table whose entry ends the walk of [va]. *)
Definition stops (L : nat) (tb : tables) (va : Z) (k : nat) (t : Z) : Prop :=
  tb !! (k, pfx L k va) = Some t ∧ tb !! (S k, pfx L (S k) va) = None.

Lemma table_slot_disjoint t t' i j :
  table_addr_ok t → table_addr_ok t' → 0 ≤ i < 512 → 0 ≤ j < 512 →
  (t, i) ≠ (t', j) → t' + 8 * j + 8 ≤ t + 8 * i ∨ t + 8 * i + 8 ≤ t' + 8 * j.
Proof.
  intros (Ha & H0 & _) (Ha' & H0' & _) Hi Hj Hne. unfold PAGE_SIZE in *.
  destruct (decide (t = t')) as [->|].
  - assert (i ≠ j) by congruence. lia.
  - apply Z.mod_divide in Ha as [a ->]; [|done]. apply Z.mod_divide in Ha' as [a' ->]; [|done].
    assert (a ≠ a') by congruence. lia.
Qed.

Section facts.
  Context {L : nat} {m : mem} {r : Z} {tb : tables} (Hwf : mem_wf L m r tb).

Lemma wf_entry_at k va t :
  (k < L)%nat → tb !! (k, pfx L k va) = Some t →
  entry_ok L k (tb !! (S k, pfx L (S k) va)) (read64 m (t + 8 * pidx L k va)).
Proof using Hwf.
  intros Hk Ht. rewrite pfx_succ by done.
  apply (wf_entries _ _ _ _ Hwf _ _ _ _ Ht). apply pidx_range.
Qed.

(** The three kinds of entry: a pointer to a table of the tree, unused, or a leaf. *)
Lemma entry_cases k va t :
  tb !! (k, pfx L k va) = Some t →
  let e := read64 m (t + 8 * pidx L k va) in
  (∃ t1, tb !! (S k, pfx L (S k) va) = Some t1 ∧ (S k < L)%nat ∧ e ≠ 0 ∧
         pte_is_present e = true ∧ pte_is_huge e = false ∧ pte_addr e = t1) ∨
  (stops L tb va k t ∧ e = 0) ∨
  (stops L tb va k t ∧ e ≠ 0 ∧ (L - k ≤ 3)%nat ∧ pte_is_present e = true ∧
   ((1 < L - k)%nat → pte_is_huge e = true) ∧ is_Some (pte_flags e) ∧
   0 ≤ pte_addr e < 2 ^ 56).
Proof using Hwf PL.
  intros Ht e. pose proof (wf_depth _ _ _ _ Hwf _ _ _ Ht) as Hk.
  pose proof (wf_entry_at k va t Hk Ht) as He. fold e in He.
  destruct (tb !! (S k, pfx L (S k) va)) as [t1|] eqn:E.
  - left. destruct He as [HkL He]. pose proof (wf_addr _ _ _ _ Hwf _ _ E) as (Ha & H0 & H48).
    destruct (pte_table_law t1) as (_ & ? & ? & ? & ?); [done|unfold PAGE_SIZE in *; lia|].
    exists t1. rewrite He. done.
  - right. destruct He as [He|(Hl & pa & fl & Hpa & Hfl & He)]; [by left|right].
    destruct (pte_leaf_law pa fl (bool_decide (1 < L - k)%nat) Hpa Hfl)
      as (_ & ? & ? & Hh & Ha & Hf).
    rewrite He, Hf, Ha. split_and!; try done.
    + intros Hlt. apply Hh. by apply bool_decide_true.
    + apply fmt_addr_bound, pte_format_ok.
    + apply fmt_addr_bound, pte_format_ok.
Qed.

Lemma wf_ancestor k j va t :
  tb !! (k + j, pfx L (k + j) va)%nat = Some t → is_Some (tb !! (k, pfx L k va)).
Proof using Hwf.
  revert t. induction j as [|j IH]; intros t Ht.
  { rewrite Nat.add_0_r in Ht. eauto. }
  rewrite Nat.add_succ_r in Ht. pose proof (wf_depth _ _ _ _ Hwf _ _ _ Ht).
  destruct (wf_parent _ _ _ _ Hwf _ _ _ Ht) as [t' Ht'].
  rewrite pfx_div in Ht' by lia. eauto.
Qed.

Lemma stops_unique va k k' t t' :
  stops L tb va k t → stops L tb va k' t' → k = k' ∧ t = t'.
Proof using Hwf.
  intros [H1 H2] [H1' H2']. assert (k = k') as ->.
  { destruct (Nat.lt_trichotomy k k') as [Hlt|[?|Hlt]]; [|done|].
    - destruct (wf_ancestor (S k) (k' - S k) va t') as [? ?];
        [by replace (S k + (k' - S k))%nat with k' by lia|congruence].
    - destruct (wf_ancestor (S k') (k - S k') va t) as [? ?];
        [by replace (S k' + (k - S k'))%nat with k by lia|congruence]. }
  split; congruence.
Qed.

Lemma hw_walk_stops va k t :
  tb !! (k, pfx L k va) = Some t →
  ∃ k' t', (k ≤ k' < L)%nat ∧ stops L tb va k' t' ∧
           hw_walk m (L - k) t va = (t' + 8 * pidx L k' va, (L - k')%nat).
Proof using Hwf PL.
  remember (L - k)%nat as l eqn:Hl. revert k t Hl.
  induction l as [|l IH]; intros k t Hl Ht; pose proof (wf_depth _ _ _ _ Hwf _ _ _ Ht); [lia|].
  assert (walk_index (S l) va = pidx L k va) as Hix by (rewrite Hl; by apply walk_index_pidx).
  destruct (entry_cases k va t Ht) as
    [(t1 & Hc & HkL & _ & Hp & Hh & Hadd)|[[Hs Hz]|(Hs & _ & _ & _ & Hh & _)]].
  - destruct (IH (S k) t1) as (k' & t' & Hk' & Hs & Hw); [lia|done|].
    exists k', t'. split; [lia|]. split; [done|].
    destruct l as [|l]; [lia|]. cbn [hw_walk]. rewrite Hix, Hp, Hh, Hadd. done.
  - exists k, t. split; [lia|]. split; [done|]. cbn [hw_walk]. rewrite Hix.
    replace (L - k)%nat with (S l). destruct l as [|l]; [done|].
    by rewrite Hz, pte_zero_present.
  - exists k, t. split; [lia|]. split; [done|]. cbn [hw_walk]. rewrite Hix.
    replace (L - k)%nat with (S l). destruct l as [|l]; [done|].
    rewrite Hh by lia. by rewrite andb_false_r.
Qed.

Lemma stops_exists va :
  0 ≤ va < va_limit L → ∃ k t, (k < L)%nat ∧ stops L tb va k t.
Proof using Hwf PL.
  intros Hva. destruct (hw_walk_stops va 0 r) as (k & t & Hk & Hs & _).
  { rewrite pfx_0 by done. apply (wf_root _ _ _ _ Hwf). }
  exists k, t. split; [lia|done].
Qed.

Lemma hw_translate_stops va k t :
  0 ≤ va < va_limit L → stops L tb va k t →
  hw_translate m L r va = entry_view (read64 m (t + 8 * pidx L k va)) (L - k) va.
Proof using Hwf PL.
  intros Hva Hs. unfold hw_translate. destruct (hw_walk_stops va 0 r) as (k' & t' & _ & Hs' & Hw).
  { rewrite pfx_0 by done. apply (wf_root _ _ _ _ Hwf). }
  rewrite Nat.sub_0_r in Hw. rewrite Hw. destruct (stops_unique va k k' t t' Hs Hs') as [<- <-].
  done.
Qed.

End facts.

(** ** Changes of memory *)

(** Memory that agrees on every table gives the same tree and translation. *)
Lemma mem_wf_frame L m m' r tb :
  mem_wf L m r tb →
  (∀ a t b, tb !! a = Some t → t ≤ b < t + PAGE_SIZE → rd8 m' b = rd8 m b) →
  mem_wf L m' r tb ∧ ∀ va, 0 ≤ va < va_limit L → hw_translate m' L r va = hw_translate m L r va.
Proof using PL.
  intros Hwf Hm.
  assert (∀ a t i, tb !! a = Some t → 0 ≤ i < 512 →
            read64 m' (t + 8 * i) = read64 m (t + 8 * i)) as Hrd.
  { intros a t i Ha Hi. apply read64_ext. intros b Hb. eapply Hm; [done|].
    unfold PAGE_SIZE. lia. }
  assert (mem_wf L m' r tb) as Hwf'.
  { destruct Hwf as [H1 H2 H3 H4 H5 H6]. split; try done.
    intros k p t i Ht Hi. rewrite (Hrd _ _ _ Ht Hi). by apply H6. }
  split; [done|]. intros va Hva.
  destruct (stops_exists Hwf va Hva) as (k & t & Hk & Hs).
  rewrite (hw_translate_stops Hwf va k t), (hw_translate_stops Hwf' va k t) by done.
  rewrite (Hrd _ _ _ (proj1 Hs)) by apply pidx_range. done.
Qed.

(** Two addresses share the entry at depth [k] iff they share the prefix. *)
Lemma same_slot L m r tb k va va' t t' :
  mem_wf L m r tb → (k < L)%nat →
  tb !! (k, pfx L k va) = Some t → tb !! (k, pfx L k va') = Some t' →
  (t, pidx L k va) = (t', pidx L k va') ↔ pfx L (S k) va = pfx L (S k) va'.
Proof.
  intros Hwf Hk Ht Ht'. split.
  - intros [= <- Hi]. pose proof (wf_inj _ _ _ _ Hwf _ _ _ Ht Ht') as [= Hp].
    rewrite !pfx_succ by done. congruence.
  - intros Hp. assert (pfx L k va = pfx L k va') as Hp'.
    { rewrite <- !(pfx_div L k) by done. by rewrite Hp. }
    unfold pidx. rewrite Hp. rewrite Hp' in Ht. congruence.
Qed.

(** Writing the entry that ends the walk of [va] with another leaf (or 0) keeps
    the tree and changes the translation of exactly the addresses it covers. *)
Lemma leaf_write L m r tb va k t e' :
  mem_wf L m r tb → 0 ≤ va < va_limit L → stops L tb va k t →
  leaf_ok L k e' → is_u64 e' →
  let m' := write64 m (t + 8 * pidx L k va) e' in
  mem_wf L m' r tb ∧
  ∀ va', 0 ≤ va' < va_limit L →
    hw_translate m' L r va' =
    if decide (pfx L (S k) va' = pfx L (S k) va) then entry_view e' (L - k) va'
    else hw_translate m L r va'.
Proof using PL.
  intros Hwf Hva Hs He' Hu m'.
  pose proof (wf_depth _ _ _ _ Hwf _ _ _ (proj1 Hs)) as Hk.
  assert (∀ a t1 i, tb !! a = Some t1 → 0 ≤ i < 512 → (t, pidx L k va) ≠ (t1, i) →
            read64 m' (t1 + 8 * i) = read64 m (t1 + 8 * i)) as Hne.
  { intros a t1 i Ha Hi Hneq. apply read_write64_ne. apply table_slot_disjoint; try done.
    - by eapply wf_addr; [|exact (proj1 Hs)].
    - by eapply wf_addr.
    - apply pidx_range. }
  assert (mem_wf L m' r tb) as Hwf'.
  { pose proof Hwf as [H1 H2 H3 H4 H5 H6]. split; try done.
    intros k1 p t1 i Ht1 Hi.
    destruct (decide ((t, pidx L k va) = (t1, i))) as [[= <- <-]|Hneq].
    - pose proof (H2 _ _ _ Ht1 (proj1 Hs)) as [= -> ->].
      rewrite <- pfx_succ by done. rewrite (proj2 Hs). unfold m'.
      rewrite read_write64 by done. done.
    - rewrite (Hne _ _ _ Ht1 Hi Hneq). by apply H6. }
  split; [done|]. intros va' Hva'.
  destruct (stops_exists Hwf va' Hva') as (k1 & t1 & Hk1 & Hs1).
  rewrite (hw_translate_stops Hwf va' k1 t1), (hw_translate_stops Hwf' va' k1 t1) by done.
  case_decide as Hp.
  - assert (stops L tb va' k t) as Hs2.
    { destruct Hs as [Hsa Hsb]. split; [|by rewrite Hp].
      rewrite <- (pfx_div L k va') by done. by rewrite Hp, pfx_div. }
    destruct (stops_unique Hwf va' _ _ _ _ Hs1 Hs2) as [-> ->].
    unfold m', pidx. rewrite Hp, read_write64 by done. done.
  - rewrite (Hne _ _ _ (proj1 Hs1)); [done|apply pidx_range|].
    intros Heq. apply Hp. assert (k1 = k) as ->.
    { injection Heq as -> _. pose proof (wf_inj _ _ _ _ Hwf _ _ _ (proj1 Hs) (proj1 Hs1)).
      congruence. }
    symmetry. by apply (same_slot L m r tb k va va' t t1 Hwf Hk (proj1 Hs) (proj1 Hs1)).
Qed.

(** ** Hanging a fresh table below an unused entry *)

Section hang.
  Context {L : nat} {m m1 : mem} {r : Z} {tb : tables} {va : Z} {k : nat} {t t' : Z}.
  Context (Hwf : mem_wf L m r tb) (Hs : stops L tb va k t) (Hk : (S k < L)%nat).
  Context (Hz : read64 m (t + 8 * pidx L k va) = 0).
  Context (Ht' : table_addr_ok t') (Hfresh : ∀ a, tb !! a ≠ Some t').
  Context (Hm1 : ∀ b, rd8 m1 b = if decide (t' ≤ b < t' + PAGE_SIZE) then 0 else rd8 m b).

Let m' := write64 m1 (t + 8 * pidx L k va) (table_entry t').
Let tb' := <[(S k, pfx L (S k) va) := t']> tb.

(** The new table reads as zeroes. *)
Lemma hang_new i : 0 ≤ i < 512 → read64 m' (t' + 8 * i) = 0.
Proof using All.
  intros Hi. unfold m'. rewrite read_write64_ne.
  2:{ apply (table_slot_disjoint t t'); try done; [|apply pidx_range|].
      - by eapply wf_addr; [|exact (proj1 Hs)].
      - intros [= -> _]. by eapply Hfresh, (proj1 Hs). }
  apply read64_zero. intros b Hb. rewrite Hm1, decide_True; [done|unfold PAGE_SIZE; lia].
Qed.

(** The other entries of the tree read as before. *)
Lemma hang_old a t1 i :
  tb !! a = Some t1 → 0 ≤ i < 512 → (t, pidx L k va) ≠ (t1, i) →
  read64 m' (t1 + 8 * i) = read64 m (t1 + 8 * i).
Proof using All.
  intros Ha Hi Hneq. unfold m'. pose proof (wf_addr _ _ _ _ Hwf _ _ Ha) as Hok1.
  rewrite read_write64_ne.
  2:{ apply table_slot_disjoint; try done; [|apply pidx_range].
      by eapply wf_addr; [|exact (proj1 Hs)]. }
  apply read64_ext. intros b Hb. rewrite Hm1, decide_False; [done|].
  destruct Hok1 as (Ha1 & _), Ht' as (Ha2 & _).
  assert (t1 ≠ t') by (intros ->; by eapply Hfresh). unfold PAGE_SIZE in *.
  apply Z.mod_divide in Ha1 as [x ->]; [|done]. apply Z.mod_divide in Ha2 as [y ->]; [|done].
  assert (x ≠ y) by congruence. lia.
Qed.

(** Nothing hung below the entry before. *)
Lemma hang_no_child q : q / 512 = pfx L (S k) va → tb !! (S (S k), q) = None.
Proof using All.
  intros Hq. destruct (tb !! (S (S k), q)) as [t2|] eqn:E; [|done].
  destruct (wf_parent _ _ _ _ Hwf _ _ _ E) as [t3 Ht3]. rewrite Hq in Ht3.
  destruct Hs. congruence.
Qed.

Lemma hang_entries k1 p t1 i :
  tb' !! (k1, p) = Some t1 → 0 ≤ i < 512 →
  entry_ok L k1 (tb' !! (S k1, p * 512 + i)) (read64 m' (t1 + 8 * i)).
Proof using All.
  intros Ha Hi. unfold tb' in *.
  apply lookup_insert_Some in Ha as [[[= <- <-] <-]|[Hna Ha]].
  { rewrite hang_new by done. rewrite lookup_insert_ne by (intros [=]; lia).
    rewrite hang_no_child; [by left|]. by rewrite Z.div_add_l, Z.div_small, Z.add_0_r by lia. }
  destruct (decide ((t, pidx L k va) = (t1, i))) as [[= <- <-]|Hneq].
  - pose proof (wf_inj _ _ _ _ Hwf _ _ _ Ha (proj1 Hs)) as [= -> ->].
    rewrite <- pfx_succ by lia. rewrite lookup_insert_eq. unfold m'.
    destruct (pte_table_law t') as (Hu & _);
      [apply Ht'|destruct Ht' as (_ & ? & ?); unfold PAGE_SIZE in *; lia|].
    by rewrite read_write64.
  - rewrite (hang_old _ _ _ Ha Hi Hneq). rewrite lookup_insert_ne.
    { by apply (wf_entries _ _ _ _ Hwf). }
    intros [= <- Hp]. apply Hneq.
    assert (p = pfx L k va) as ->.
    { rewrite <- (pfx_div L k va) by lia. rewrite Hp.
      rewrite Z.div_add_l, Z.div_small by lia. lia. }
    assert (t1 = t) as -> by (destruct Hs; congruence). f_equal.
    rewrite pfx_succ in Hp by lia. lia.
Qed.

Lemma hang_wf : mem_wf L m' r tb'.
Proof using All.
  pose proof Hwf as [H1 H2 H3 H4 H5 H6]. split; [..|apply hang_entries]; unfold tb'.
  - by rewrite lookup_insert_ne.
  - intros a b t1 Ha Hb.
    apply lookup_insert_Some in Ha as [[<- <-]|[Hna Ha]];
      apply lookup_insert_Some in Hb as [[<- ?]|[Hnb Hb]]; try done; subst.
    + by apply Hfresh in Hb.
    + by apply Hfresh in Ha.
    + by eapply H2.
  - intros k1 p t1 Ha. apply lookup_insert_Some in Ha as [[[= <- <-] _]|[_ Ha]];
      [done|by eapply H3].
  - intros k1 q t1 Ha. apply lookup_insert_Some in Ha as [[[= <- <-] _]|[_ Ha]].
    + rewrite pfx_div by lia. rewrite lookup_insert_ne by (intros [=]; lia).
      eexists; apply Hs.
    + destruct (H4 _ _ _ Ha) as [t2 Ht2]. rewrite lookup_insert. case_decide; eauto.
  - intros a t1 Ha. apply lookup_insert_Some in Ha as [[_ <-]|[_ Ha]]; [done|by eapply H5].
Qed.

Lemma hang_translate va' :
  0 ≤ va' < va_limit L → hw_translate m' L r va' = hw_translate m L r va'.
Proof using All.
  intros Hva'. pose proof hang_wf as Hwf'.
  destruct (stops_exists Hwf va' Hva') as (k1 & t1 & Hk1 & Hs1).
  rewrite (hw_translate_stops Hwf va' k1 t1) by done.
  destruct (decide (pfx L (S k) va' = pfx L (S k) va)) as [Hp|Hp].
  - assert (stops L tb va' k t) as Hs2.
    { destruct Hs as [Hsa Hsb]. split; [|by rewrite Hp].
      rewrite <- (pfx_div L k va') by lia. by rewrite Hp, pfx_div by lia. }
    destruct (stops_unique Hwf va' _ _ _ _ Hs1 Hs2) as [-> ->].
    rewrite (hw_translate_stops Hwf' va' (S k) t'); [|done|].
    2:{ unfold tb'. split; [by rewrite Hp, lookup_insert_eq|].
        rewrite lookup_insert_ne by (intros [=]; lia).
        apply hang_no_child. by rewrite pfx_div by lia. }
    rewrite hang_new by apply pidx_range. unfold pidx in *. by rewrite Hp, Hz.
  - rewrite (hw_translate_stops Hwf' va' k1 t1); [|done|].
    2:{ unfold tb'. destruct Hs as [Hsa Hsb], Hs1 as [Hsa1 Hsb1].
        split; rewrite lookup_insert_ne; try done; intros [=]; subst k1; congruence. }
    rewrite (hang_old _ _ _ (proj1 Hs1)); [done|apply pidx_range|].
    intros Heq. apply Hp. assert (k1 = k) as ->.
    { injection Heq as -> _.
      pose proof (wf_inj _ _ _ _ Hwf _ _ _ (proj1 Hs) (proj1 Hs1)). congruence. }
    symmetry. by apply (same_slot L m r tb k va va' t t1 Hwf ltac:(lia) (proj1 Hs) (proj1 Hs1)).
Qed.

End hang.

(** Hanging a zeroed fresh table below an unused entry keeps the invariant (with
    the new table in the tree) and no translation changes. *)
Lemma table_write L m m1 r tb va k t t' :
  mem_wf L m r tb → 0 ≤ va < va_limit L → stops L tb va k t → (S k < L)%nat →
  read64 m (t + 8 * pidx L k va) = 0 →
  table_addr_ok t' → (∀ a, tb !! a ≠ Some t') →
  (∀ b, rd8 m1 b = if decide (t' ≤ b < t' + PAGE_SIZE) then 0 else rd8 m b) →
  let m' := write64 m1 (t + 8 * pidx L k va) (table_entry t') in
  mem_wf L m' r (<[(S k, pfx L (S k) va) := t']> tb) ∧
  ∀ va', 0 ≤ va' < va_limit L → hw_translate m' L r va' = hw_translate m L r va'.
Proof using PL. intros. split; [by apply (@hang_wf L m)|intros; by apply (@hang_translate L m m1 r tb va k t t')]. Qed.

Lemma entry_ok_u64 L k c e : (∀ t, c = Some t → table_addr_ok t) → entry_ok L k c e → is_u64 e.
Proof using PL.
  intros Hc. destruct c as [t|]; simpl.
  - intros [_ ->]. destruct (Hc t eq_refl) as (Ha & H0 & H48).
    apply (pte_table_law t); [done|]. unfold PAGE_SIZE in *. lia.
  - intros [->|(_ & pa & fl & Hpa & Hfl & ->)]; [done|]. by apply pte_leaf_law.
Qed.

(** A zeroed root table maps nothing. *)
Lemma fresh_root_wf L m r :
  (0 < L)%nat → table_addr_ok r → (∀ b, r ≤ b < r + PAGE_SIZE → rd8 m b = 0) →
  mem_wf L m r {[(0%nat, 0) := r]} ∧
  ∀ va, 0 ≤ va < va_limit L → hw_translate m L r va = None.
Proof using PL.
  intros HL Hr Hm.
  assert (∀ i, 0 ≤ i < 512 → read64 m (r + 8 * i) = 0) as Hz.
  { intros i Hi. apply read64_zero. intros b Hb. apply Hm. unfold PAGE_SIZE. lia. }
  assert (mem_wf L m r {[(0%nat, 0) := r]}) as Hwf.
  { split.
    - apply lookup_singleton_eq.
    - intros a b t [<- _]%lookup_singleton_Some [<- _]%lookup_singleton_Some. done.
    - by intros k p t [[= <- _] _]%lookup_singleton_Some.
    - by intros k p t [[= _ _] _]%lookup_singleton_Some.
    - by intros a t [_ <-]%lookup_singleton_Some.
    - intros k p t i [[= <- <-] <-]%lookup_singleton_Some Hi.
      rewrite lookup_singleton_ne by done. left. by apply Hz. }
  split; [done|]. intros va Hva.
  rewrite (hw_translate_stops Hwf va 0 r); [|done|].
  - by rewrite Hz by apply pidx_range.
  - split; [by rewrite pfx_0, lookup_singleton_eq|by rewrite lookup_singleton_ne].
Qed.

End wf.
