(* ===== verification/PagingSpec.v ===== *)
(** * Specifications of the page-table operations

    Each operation of [Paging] on a well-formed table: it returns (it neither
    panics nor hangs), it keeps the invariant, and it changes the hardware
    translation of exactly the addresses it should. [pt_step] is the frame: only
    the tables the object owns are written, and the ones it acquires were free. *)

From S2P Require Import Prelude PhysMem HvError Addr Frame Region Pte PtIface Paging PagingWf.

Section spec.
  Context {T : Type} {HB : BitAlloc T} {HL : BitAllocLaws T}.
  Context {P : GenericPTE} {PL : GenericPTELaws P}.
  Context (n : Z) (L : nat).
  Implicit Types (s : @pts T).

(** The addresses of the tables an object owns. *)
Definition owned (pt : HvPageTable) : list Z :=
  root_paddr (inner pt) :: (start_paddr <$> intrm_tables pt).

Record pt_inv (s : @pts T) (tb : tables) : Prop := {
  inv_level : level (inner s.2) = Z.of_nat L;
  inv_34 : L = 3%nat ∨ L = 4%nat;
  inv_wf : mem_wf L (w_mem s.1) (root_paddr (inner s.2)) tb;
  inv_owned a t : tb !! a = Some t → t ∈ owned s.2;
  inv_used t : t ∈ owned s.2 → fa_used n (w_fa s.1) t;
  inv_fa : fa_inv n (w_fa s.1)
}.

Definition pt_ok (s : @pts T) : Prop := ∃ tb, pt_inv s tb.

(** The translation the MMU gives with this table. *)
Definition translate (s : @pts T) (va : Z) : option (Z * Z * PageSize) :=
  hw_translate (w_mem s.1) L (root_paddr (inner s.2)) va.

Definition in_range (va : Z) : Prop := 0 ≤ va < va_limit L.

Definition same_tr s s' : Prop := ∀ va, in_range va → translate s' va = translate s va.

Record pt_step s s' : Prop := {
  step_inner : inner s'.2 = inner s.2;
  step_fa : fa_ext (w_fa s.1) (w_fa s'.1);
  step_mono t : t ∈ owned s.2 → t ∈ owned s'.2;
  step_new t : t ∈ owned s'.2 → t ∈ owned s.2 ∨ ¬ fa_used n (w_fa s.1) t;
  step_mem b :
    (∀ t, t ∈ owned s'.2 → ¬ t ≤ b < t + PAGE_SIZE) → rd8 (w_mem s'.1) b = rd8 (w_mem s.1) b
}.

Lemma pt_step_refl s : pt_step s s.
Proof. split; auto using fa_ext_refl. Qed.

Lemma pt_step_trans s1 s2 s3 : pt_step s1 s2 → pt_step s2 s3 → pt_step s1 s3.
Proof.
  intros [A1 A2 A3 A4 A5] [B1 B2 B3 B4 B5]. split.
  - congruence.
  - by eapply fa_ext_trans.
  - auto.
  - intros t Ht. destruct (B4 t Ht) as [Ht'|Hn]; [auto|].
    right. intros Hu. apply Hn. by eapply fa_ext_used.
  - intros b Hb. rewrite B5, A5; [done| |done]. intros t Ht. by apply Hb, B3.
Qed.

Lemma same_tr_trans s1 s2 s3 : same_tr s1 s2 → same_tr s2 s3 → same_tr s1 s3.
Proof. intros H1 H2 va Hva. rewrite H2, H1; done. Qed.

(** ** Addresses in one page *)

Lemma level_34 s tb : pt_inv s tb → (3 ≤ L ≤ 4)%nat.
Proof. intros [_ [->| ->] _ _ _ _]; lia. Qed.

Lemma pfx_page ps va :
  (3 ≤ L)%nat → pfx L (S (L - ps_level ps)) va = va / page_size ps.
Proof.
  intros HL3. unfold pfx. rewrite page_size_pow. unfold ps_shift.
  do 2 f_equal. destruct ps; simpl; lia.
Qed.

Lemma level_size_ps ps : level_size (ps_level ps) = ps.
Proof. by destruct ps. Qed.

Lemma leaf_entry_view pa fl ps va :
  is_u64 pa → ef_usable pte_format fl = true →
  entry_view (leaf_entry pa fl (ps_is_huge ps)) (ps_level ps) va =
  Some (Z.land pa (ef_mask pte_format) + va mod page_size ps, ef_norm pte_format fl, ps).
Proof using PL.
  intros Hpa Hfl. destruct (pte_leaf_law pa fl (ps_is_huge ps) Hpa Hfl) as (_ & Hz & _ & _ & Ha & Hf).
  unfold entry_view. rewrite (proj2 (Z.eqb_neq _ _) Hz), Hf, Ha, level_size_ps. done.
Qed.

(** ** Creating intermediate tables *)

Lemma wp_with_world {E A} (m : M (world T) E A) Q R s :
  wp m (λ a w, Q a (w, s.2)) (λ e w, R e (w, s.2)) s.1 → wp (with_world m) Q R s.
Proof. apply (wp_zoom fst (λ w s, (w, s.2))). Qed.

Lemma wp_table_index {S E} t i Q R (s : S) :
  0 ≤ i < 512 → Q (t + 8 * i) s → wp (E:=E) (table_index t i) Q R s.
Proof.
  intros Hi HQ. unfold table_index, ENTRY_COUNT.
  rewrite (proj2 (Z.leb_le _ _)), (proj2 (Z.ltb_lt _ _)) by lia. done.
Qed.

(** The errors a walk that creates tables can return. *)
Definition create_error s va (e : PagingError) : Prop :=
  e = NoMemory ∨ (e = MappedToHugePage ∧ is_Some (translate s va)).

Definition err_keeps s (e : PagingError) s' : Prop := pt_ok s' ∧ pt_step s s' ∧ same_tr s s'.

Lemma err_keeps_refl s tb e : pt_inv s tb → err_keeps s e s.
Proof. intros H. split; [by eexists|]. split; [apply pt_step_refl|done]. Qed.

(** What [alloc_intrm_table] promises about the table it returns. *)
Definition intrm_fresh s (t' : Z) s' : Prop :=
  inner s'.2 = inner s.2 ∧ fa_inv n (w_fa s'.1) ∧ fa_ext (w_fa s.1) (w_fa s'.1) ∧
  owned s'.2 = owned s.2 ++ [t'] ∧
  fa_used n (w_fa s'.1) t' ∧ ¬ fa_used n (w_fa s.1) t' ∧
  ∀ b, rd8 (w_mem s'.1) b =
       if decide (t' ≤ b < t' + PAGE_SIZE) then 0 else rd8 (w_mem s.1) b.

Lemma alloc_intrm_spec s tb :
  pt_inv s tb →
  wp alloc_intrm_table
    (λ t' s', intrm_fresh s t' s')
    (λ _ s', pt_inv s' tb ∧ pt_step s s' ∧ same_tr s s') s.
Proof using HL.
  intros Hinv. apply wp_bind, wp_with_world.
  eapply wp_mono; [apply (frame_new_zero_spec n), Hinv| |].
  - intros f w' [(Hc & Hfa & Hext & Hu & Hnu) Hm]. apply wp_bind, wp_modify, wp_ret. simpl.
    split_and!; try done. unfold owned; simpl. by rewrite fmap_app.
  - intros e w' (_ & Hfa & Hext & Hm & _). destruct Hinv as [I1 I2 I3 I4 I5 I6].
    split; [|split].
    + split; simpl; try done; [by rewrite Hm|]. intros t Ht. eapply fa_ext_used; [done|auto].
    + split; simpl; auto. by rewrite Hm.
    + intros va _. unfold translate; simpl. by rewrite Hm.
Qed.

(** Storing the pointer to the fresh table. *)
Lemma hang_table s s1 tb va k t t' :
  pt_inv s tb → in_range va → (S k < L)%nat → stops L tb va k t →
  read64 (w_mem s.1) (t + 8 * pidx L k va) = 0 → intrm_fresh s t' s1 →
  let s' := (set_mem (write64 (w_mem s1.1) (t + 8 * pidx L k va) (pte_set_table 0 t')) s1.1, s1.2) in
  pt_inv s' (<[(S k, pfx L (S k) va):=t']> tb) ∧ pt_step s s' ∧ same_tr s s'.
Proof using HL PL.
  intros Hinv Hva Hk Hs Hz (Hin & Hfa & Hext & Hown & Hu & Hnu & Hm) s'.
  destruct (table_write L (w_mem s.1) (w_mem s1.1) (root_paddr (inner s.2)) tb va k t t')
    as [Hwf' Htr]; try done.
  { apply Hinv. } { by apply (fa_used_range n (w_fa s1.1)). }
  { intros a Ha. apply Hnu. by eapply inv_used, inv_owned. }
  split; [|split].
  - destruct Hinv as [I1 I2 I3 I4 I5 I6]. split; simpl; rewrite ?Hin; try done.
    + intros a t1 Ha. rewrite Hown. apply lookup_insert_Some in Ha as [[_ <-]|[_ Ha]];
        apply elem_of_app; [right; by apply list_elem_of_singleton|left; by eapply I4].
    + intros t1. rewrite Hown, elem_of_app, list_elem_of_singleton.
      intros [Ho| ->]; [|done]. eapply fa_ext_used; [done|auto].
  - split; simpl; try done.
    + intros t1 Ho. rewrite Hown, elem_of_app. by left.
    + intros t1. rewrite Hown, elem_of_app, list_elem_of_singleton. intros [Ho| ->]; auto.
    + intros b Hb. rewrite Hown in Hb. unfold write64. rewrite rd8_write_le_out.
      2:{ pose proof (Hb t ltac:(rewrite elem_of_app; left; eapply inv_owned; [done|apply Hs])).
          pose proof (pidx_range L k va). unfold PAGE_SIZE in *. lia. }
      rewrite Hm, decide_False; [done|]. apply Hb. rewrite elem_of_app, list_elem_of_singleton.
      by right.
  - intros va' Hva'. unfold translate; simpl. rewrite Hin. by apply Htr.
Qed.

Lemma next_create_spec s tb k va t :
  pt_inv s tb → in_range va → (S k < L)%nat → tb !! (k, pfx L k va) = Some t →
  wp (next_table_mut_or_create (t + 8 * pidx L k va) alloc_intrm_table)
    (λ t' s', ∃ tb', pt_inv s' tb' ∧ tb' !! (S k, pfx L (S k) va) = Some t' ∧
                     pt_step s s' ∧ same_tr s s')
    (λ e s', err_keeps s e s' ∧ create_error s va e) s.
Proof using HL PL.
  intros Hinv Hva Hk Ht. pose proof (inv_wf _ _ Hinv) as Hwf.
  apply wp_bind, wp_with_world, wp_gets. rewrite pte_unused_law. cbn [fst snd].
  replace (s.1, s.2) with s by (by destruct s).
  destruct (entry_cases Hwf k va t Ht) as
    [(t1 & E & _ & Hnz & Hp & Hh & Ha)|[[Hs Hz]|(Hs & Hnz & _ & Hp & Hh & Hf & _)]].
  - rewrite (proj2 (Z.eqb_neq _ _) Hnz). unfold next_table_mut. rewrite Hp, Hh, Ha.
    apply wp_ret. exists tb. split_and!; [done|done|apply pt_step_refl|done].
  - rewrite Hz. apply wp_bind, wp_map_err. eapply wp_mono; [by apply alloc_intrm_spec| |].
    + intros t' s1 Hal. apply wp_bind, wp_with_world, wp_modify, wp_ret.
      exists (<[(S k, pfx L (S k) va):=t']> tb). rewrite lookup_insert_eq.
      destruct (hang_table s s1 tb va k t t' Hinv Hva Hk Hs Hz Hal) as (H1 & H2 & H3).
      by split_and!.
    + intros e s' (Hinv' & Hstep & Htr). split; [|by left]. split; [by eexists|done].
  - rewrite (proj2 (Z.eqb_neq _ _) Hnz). unfold next_table_mut.
    rewrite Hp, Hh by lia. apply wp_err.
    split; [by eapply err_keeps_refl|]. right. split; [done|].
    unfold translate. rewrite (hw_translate_stops Hwf va k t) by done.
    unfold entry_view. rewrite (proj2 (Z.eqb_neq _ _) Hnz). destruct Hf as [fl ->]. eauto.
Qed.

(** The same, counted from an earlier state. *)
Lemma next_create_from s0 s tb k va t :
  pt_step s0 s → same_tr s0 s →
  pt_inv s tb → in_range va → (S k < L)%nat → tb !! (k, pfx L k va) = Some t →
  wp (next_table_mut_or_create (t + 8 * pidx L k va) alloc_intrm_table)
    (λ t' s', ∃ tb', pt_inv s' tb' ∧ tb' !! (S k, pfx L (S k) va) = Some t' ∧
                     pt_step s0 s' ∧ same_tr s0 s')
    (λ e s', err_keeps s0 e s' ∧ create_error s0 va e) s.
Proof using HL PL.
  intros Hst Htr Hinv Hva Hk Ht. eapply wp_mono; [by eapply next_create_spec| |].
  - intros t' s' (tb' & Hinv' & Ht' & Hst' & Htr'). exists tb'.
    split_and!; [done|done|by eapply pt_step_trans|by eapply same_tr_trans].
  - intros e s' [(Hok & Hst' & Htr') Herr]. split.
    + split_and!; [done|by eapply pt_step_trans|by eapply same_tr_trans].
    + destruct Herr as [->|[-> Hs]]; [by left|]. right. by rewrite <- Htr.
Qed.

Lemma create_spec s tb page :
  let va := page_vaddr page in
  let k := (L - ps_level (page_sz page))%nat in
  pt_inv s tb → in_range va →
  wp (get_entry_mut_or_create page)
    (λ slot s', ∃ tb' t', pt_inv s' tb' ∧ tb' !! (k, pfx L k va) = Some t' ∧
       slot = t' + 8 * pidx L k va ∧ pt_step s s' ∧ same_tr s s')
    (λ e s', err_keeps s e s' ∧ create_error s va e) s.
Proof using HL PL.
  intros va k Hinv Hva. pose proof (level_34 _ _ Hinv) as HL34.
  pose proof (wf_root _ _ _ _ (inv_wf _ _ Hinv)) as Hroot.
  rewrite <- (pfx_0 L va Hva) in Hroot.
  apply wp_bind, wp_gets, wp_bind. rewrite (inv_level _ _ Hinv).
  apply (wp_mono _ (λ p3 s1, ∃ tb1, pt_inv s1 tb1 ∧
           tb1 !! ((L - 3)%nat, pfx L (L - 3) va) = Some p3 ∧ pt_step s s1 ∧ same_tr s s1)
           _ (λ e s', err_keeps s e s' ∧ create_error s va e)); [| |done].
  { destruct (inv_34 _ _ Hinv) as [HL3|HL4].
    - rewrite HL3 at 1. apply wp_ret. exists tb. replace (L - 3)%nat with 0%nat by lia.
      split_and!; [done|done|apply pt_step_refl|done].
    - rewrite HL4 at 1. cbn [Z.eqb Z.of_nat Pos.of_succ_nat Pos.succ Pos.eqb].
      apply wp_bind, wp_table_index; [rewrite p4_index_pidx; apply pidx_range|].
      replace (L - 3)%nat with 1%nat by lia. rewrite p4_index_pidx.
      replace (pidx 4 0 (page_vaddr page)) with (pidx L 0 va) by (by rewrite HL4).
      eapply next_create_from; eauto using pt_step_refl; [done|lia]. }
  intros p3 s1 (tb1 & Hinv1 & Hp3 & Hst1 & Htr1).
  rewrite (p3_index_pidx L) by lia. apply wp_bind, wp_table_index; [apply pidx_range|].
  destruct (decide (page_sz page = Size1G)) as [HG|HnG].
  { apply wp_ret. exists tb1, p3. unfold k. rewrite HG. done. }
  apply wp_bind. eapply wp_mono.
  { eapply (next_create_from s s1 tb1 (L - 3)); eauto. lia. } 2: done.
  intros p2 s2 (tb2 & Hinv2 & Hp2 & Hst2 & Htr2).
  replace (S (L - 3)) with (L - 2)%nat in Hp2 by lia.
  rewrite (p2_index_pidx L) by lia. apply wp_bind, wp_table_index; [apply pidx_range|].
  destruct (decide (page_sz page = Size2M)) as [HM|HnM].
  { apply wp_ret. exists tb2, p2. unfold k. rewrite HM. done. }
  apply wp_bind. eapply wp_mono.
  { eapply (next_create_from s s2 tb2 (L - 2)); eauto. lia. } 2: done.
  intros p1 s3 (tb3 & Hinv3 & Hp1 & Hst3 & Htr3).
  replace (S (L - 2)) with (L - 1)%nat in Hp1 by lia.
  rewrite (p1_index_pidx L) by lia. apply wp_bind, wp_table_index; [apply pidx_range|].
  apply wp_ret. exists tb3, p1. unfold k. destruct (page_sz page); done.
Qed.

(** ** Mapping one page *)

(** What [map_page] makes of the addresses of the page. *)
Definition page_view (page : Page) (paddr fl va : Z) : Z * Z * PageSize :=
  (Z.land (ps_align_down (page_sz page) paddr) (ef_mask pte_format) +
     va mod page_size (page_sz page), ef_norm pte_format fl, page_sz page).

(** Writing a leaf through an owned table. *)
Lemma store_leaf_inv s tb va k t e' :
  pt_inv s tb → in_range va → stops L tb va k t → leaf_ok L k e' → is_u64 e' →
  let s' := (set_mem (write64 (w_mem s.1) (t + 8 * pidx L k va) e') s.1, s.2) in
  pt_inv s' tb ∧ pt_step s s' ∧
  ∀ va', in_range va' →
    translate s' va' = if decide (pfx L (S k) va' = pfx L (S k) va) then entry_view e' (L - k) va'
                       else translate s va'.
Proof using PL.
  intros Hinv Hva Hs Hl Hu s'.
  destruct (leaf_write L (w_mem s.1) (root_paddr (inner s.2)) tb va k t e'
              (inv_wf _ _ Hinv) Hva Hs Hl Hu) as [Hwf' Htr].
  split; [|split].
  - destruct Hinv as [I1 I2 I3 I4 I5 I6]. by split.
  - split; simpl; auto using fa_ext_refl. intros b Hb. unfold write64.
    apply rd8_write_le_out. pose proof (Hb t (inv_owned _ _ Hinv _ _ (proj1 Hs))).
    pose proof (pidx_range L k va). unfold PAGE_SIZE in *. lia.
  - intros va' Hva'. by apply Htr.
Qed.

Definition map_page_post s (page : Page) (paddr fl : Z) s' : Prop :=
  pt_ok s' ∧ pt_step s s' ∧
  ∀ va', in_range va' →
    (same_page (page_sz page) (page_vaddr page) va' →
       translate s va' = None ∧ translate s' va' = Some (page_view page paddr fl va')) ∧
    (¬ same_page (page_sz page) (page_vaddr page) va' → translate s' va' = translate s va').

Definition map_page_error s (page : Page) (e : PagingError) : Prop :=
  create_error s (page_vaddr page) e ∨ e = AlreadyMapped.

Lemma map_page_spec s page paddr fl :
  pt_ok s → in_range (page_vaddr page) → is_u64 paddr → ef_usable pte_format fl = true →
  wp (map_page page paddr fl)
    (λ _ s', map_page_post s page paddr fl s')
    (λ e s', err_keeps s e s' ∧ map_page_error s page e) s.
Proof using HL PL.
  intros [tb Hinv] Hva Hpa Hfl. set (va := page_vaddr page) in *.
  set (k := (L - ps_level (page_sz page))%nat). pose proof (level_34 _ _ Hinv) as HL34.
  apply wp_bind. eapply wp_mono; [by apply (create_spec s tb page)| |].
  2:{ intros e s' [H1 H2]. split; [done|by left]. }
  intros slot s1 (tb1 & t & Hinv1 & Ht & -> & Hst & Htr).
  apply wp_bind, wp_with_world, wp_gets. rewrite pte_unused_law.
  replace (s1.1, s1.2) with s1 by (by destruct s1). fold va k in Ht. fold va k.
  assert (k < L)%nat as HkL by (unfold k; destruct (page_sz page); simpl; lia).
  assert (L - k = ps_level (page_sz page))%nat as HLk
    by (unfold k; destruct (page_sz page); simpl; lia).
  destruct (Z.eqb_spec (read64 (w_mem s1.1) (t + 8 * pidx L k va)) 0) as [Hz|Hnz]; simpl.
  2:{ apply wp_err. split; [|by right]. split; [by eexists|done]. }
  assert (stops L tb1 va k t) as Hs.
  { destruct (entry_cases (inv_wf _ _ Hinv1) k va t Ht) as [(? & _ & _ & ? & _)|[[? _]|[? _]]];
      done. }
  apply wp_bind, wp_with_world, wp_modify, wp_ret. rewrite Hz.
  set (pa' := ps_align_down (page_sz page) paddr).
  assert (is_u64 pa') as Hpa' by (by apply ps_align_down_u64).
  change (pte_set_flags _ _ _) with (leaf_entry pa' fl (ps_is_huge (page_sz page))).
  destruct (pte_leaf_law pa' fl (ps_is_huge (page_sz page)) Hpa' Hfl) as (Hu & _).
  assert (bool_decide (1 < L - k)%nat = ps_is_huge (page_sz page)) as Hhuge.
  { rewrite HLk. by destruct (page_sz page). }
  destruct (store_leaf_inv s1 tb1 va k t (leaf_entry pa' fl (ps_is_huge (page_sz page))))
    as (Hinv2 & Hst2 & Htr2); try done.
  { right. split; [rewrite HLk; destruct (page_sz page); simpl; lia|].
    exists pa', fl. by rewrite Hhuge. }
  split; [by eexists|]. split; [by eapply pt_step_trans|].
  intros va' Hva'. rewrite Htr2 by done.
  assert (∀ x, pfx L (S k) x = x / page_size (page_sz page)) as Hpp.
  { intros x. apply pfx_page. lia. }
  destruct (decide (pfx L (S k) va' = pfx L (S k) va)) as [Hp|Hp];
    rewrite !Hpp in Hp; unfold same_page; fold va; split; try done; intros _.
  - split; [|rewrite HLk; by apply leaf_entry_view].
    rewrite <- Htr by done. unfold translate. rewrite <- !Hpp in Hp.
    rewrite (hw_translate_stops (inv_wf _ _ Hinv1) va' k t); [|done|].
    2:{ destruct Hs as [Hs1 Hs2]. split; [|by rewrite Hp].
        rewrite <- (pfx_div L k va') by done. by rewrite Hp, pfx_div. }
    unfold pidx in *. by rewrite Hp, Hz.
  - by apply Htr.
Qed.

(** ** Looking up, unmapping *)

(** One level of [get_entry_mut]: a leaf (or an entry that counts as huge) ends
    the walk, a table pointer is followed. *)
Lemma walk_step s tb va k t ps (cont : Z → M (world T) PagingError (Z * PageSize)) Q R :
  pt_inv s tb → in_range va → tb !! (k, pfx L k va) = Some t → (2 ≤ L - k)%nat →
  (∀ t1, tb !! (S k, pfx L (S k) va) = Some t1 → wp (cont t1) Q R s.1) →
  (stops L tb va k t → Q (t + 8 * pidx L k va, ps) s.1) →
  (translate s va = None → R NotMapped s.1) →
  wp (let* e := load (t + 8 * pidx L k va) in
      if pte_is_huge e then hret (t + 8 * pidx L k va, ps)
      else let* p := next_table_mut e in cont p) Q R s.1.
Proof using PL.
  intros Hinv Hva Ht Hk Hcont Hstop Hnone. pose proof (inv_wf _ _ Hinv) as Hwf.
  apply wp_bind, wp_gets.
  destruct (entry_cases Hwf k va t Ht) as
    [(t1 & Hc & _ & _ & Hp & Hh & Ha)|[[Hs Hz]|(Hs & _ & _ & _ & Hh & _)]].
  - rewrite Hh. apply wp_bind. unfold next_table_mut. rewrite Hp, Hh, Ha. by apply wp_ret, Hcont.
  - rewrite Hz. destruct (pte_is_huge 0); [by apply wp_ret, Hstop|].
    apply wp_bind. unfold next_table_mut. rewrite pte_zero_present. apply wp_err, Hnone.
    unfold translate. by rewrite (hw_translate_stops Hwf va k t), Hz.
  - rewrite Hh by lia. by apply wp_ret, Hstop.
Qed.

(** The first step, which a four-level table has and a three-level one has not. *)
Lemma walk_root s tb va Q R :
  pt_inv s tb → in_range va →
  (∀ p3, tb !! ((L - 3)%nat, pfx L (L - 3) va) = Some p3 → Q p3 s.1) →
  (translate s va = None → R NotMapped s.1) →
  wp (if level (inner s.2) =? 4 then
        let p4 := table_of_mut (root_paddr (inner s.2)) in
        let* p4e := table_index p4 (p4_index va) in
        let* e := load p4e in next_table_mut e
      else hret (table_of_mut (root_paddr (inner s.2)))) Q R s.1.
Proof using PL.
  intros Hinv Hva HQ Hnone. pose proof (inv_wf _ _ Hinv) as Hwf.
  pose proof (wf_root _ _ _ _ Hwf) as Hroot. rewrite <- (pfx_0 L va Hva) in Hroot.
  rewrite (inv_level _ _ Hinv). destruct (inv_34 _ _ Hinv) as [HL3|HL4].
  - rewrite HL3 at 1. apply wp_ret, HQ. by replace (L - 3)%nat with 0%nat by lia.
  - rewrite HL4 at 1. apply wp_bind. rewrite p4_index_pidx. unfold table_of_mut.
    apply wp_table_index; [apply pidx_range|].
    replace (pidx 4 0 va) with (pidx L 0 va) by (by rewrite HL4).
    apply wp_bind, wp_gets. unfold next_table_mut.
    destruct (entry_cases Hwf 0 va _ Hroot) as
      [(t1 & Hc & _ & _ & Hp & Hh & Ha)|[[Hs Hz]|(_ & _ & Hl & _)]]; [..|lia].
    + rewrite Hp, Hh, Ha. apply wp_ret, HQ. by replace (L - 3)%nat with 1%nat by lia.
    + rewrite Hz, pte_zero_present. apply wp_err, Hnone.
      unfold translate. by rewrite (hw_translate_stops Hwf va 0 (root_paddr (inner s.2))), Hz.
Qed.

(** The walk of the code ends at the entry where the hardware's ends. *)
Lemma get_entry_mut_spec s tb va :
  pt_inv s tb → in_range va →
  wp (get_entry_mut (inner s.2) va)
    (λ r w', w' = s.1 ∧ ∃ k t, stops L tb va k t ∧ r.1 = t + 8 * pidx L k va ∧
             r.2 = level_size (L - k) ∧ (1 ≤ L - k ≤ 3)%nat)
    (λ e w', w' = s.1 ∧ e = NotMapped ∧ translate s va = None) s.1.
Proof using PL.
  intros Hinv Hva. pose proof (level_34 _ _ Hinv) as HL34. pose proof (inv_wf _ _ Hinv) as Hwf.
  apply wp_bind.
  apply (walk_root s tb); [done|done| |done]. intros p3 Hp3.
  rewrite (p3_index_pidx L) by lia. apply wp_bind, wp_table_index; [apply pidx_range|].
  apply (walk_step s tb va (L - 3) p3 Size1G); [exact Hinv|exact Hva|exact Hp3|lia| | |by auto].
  2:{ intros Hs. split; [done|]. exists (L - 3)%nat, p3.
      replace (L - (L - 3))%nat with 3%nat by lia. split_and!; done || lia. }
  intros p2 Hp2. replace (S (L - 3)) with (L - 2)%nat in Hp2 by lia.
  rewrite (p2_index_pidx L) by lia. apply wp_bind, wp_table_index; [apply pidx_range|].
  apply (walk_step s tb va (L - 2) p2 Size2M); [exact Hinv|exact Hva|exact Hp2|lia| | |by auto].
  2:{ intros Hs. split; [done|]. exists (L - 2)%nat, p2.
      replace (L - (L - 2))%nat with 2%nat by lia. split_and!; done || lia. }
  intros p1 Hp1. replace (S (L - 2)) with (L - 1)%nat in Hp1 by lia.
  rewrite (p1_index_pidx L) by lia. apply wp_bind, wp_table_index; [apply pidx_range|].
  apply wp_ret. split; [done|]. exists (L - 1)%nat, p1.
  replace (L - (L - 1))%nat with 1%nat by lia. split_and!; try done || lia.
  destruct (entry_cases Hwf (L - 1) va _ Hp1) as [(? & _ & ? & _)|[[? _]|[? _]]]; try done. lia.
Qed.

(** [query] is the hardware walk. *)
Lemma query_hw s tb va :
  pt_inv s tb → in_range va →
  query (inner s.2) va s.1 =
  match translate s va with
  | Some v => ROk v s.1
  | None => RErr NotMapped s.1
  end.
Proof using PL.
  intros Hinv Hva. pose proof (inv_wf _ _ Hinv) as Hwf.
  pose proof (get_entry_mut_spec s tb va Hinv Hva) as Hg. unfold wp in Hg.
  unfold query, hbind.
  destruct (get_entry_mut (inner s.2) va s.1) as [[slot ps] w'|e w'| |]; [..|done|done].
  2:{ by destruct Hg as (-> & -> & ->). }
  destruct Hg as (-> & k & t & Hs & Hslot & Hps & Hk). simpl in Hslot, Hps. subst slot ps.
  unfold load, hgets. unfold translate. rewrite (hw_translate_stops Hwf va k t) by done.
  unfold entry_view. rewrite pte_unused_law.
  destruct (entry_cases Hwf k va t (proj1 Hs)) as
    [(t1 & Hc & _)|[[_ Hz]|(_ & Hnz & _ & _ & _ & [fl Hf] & Hb)]].
  - destruct Hs. congruence.
  - by rewrite Hz.
  - rewrite (proj2 (Z.eqb_neq _ _) Hnz), Hf, ps_offset_mod. unfold uadd.
    rewrite (proj2 (Z.ltb_lt _ _)); [done|].
    pose proof (page_size_pos (level_size (L - k))) as Hps.
    pose proof (Z.mod_pos_bound va (page_size (level_size (L - k))) ltac:(lia)).
    unfold U64. lia.
Qed.

Definition unmap_page_post s (va : Z) (ps : PageSize) s' : Prop :=
  pt_ok s' ∧ pt_step s s' ∧ s'.2 = s.2 ∧
  ∀ va', in_range va' →
    (same_page ps va va' → translate s' va' = None) ∧
    (¬ same_page ps va va' → translate s' va' = translate s va').

Lemma level_size_level k : (1 ≤ k ≤ 3)%nat → ps_level (level_size k) = k.
Proof. destruct k as [|[|[|[|k]]]]; simpl; lia. Qed.

Lemma unmap_page_spec s va :
  pt_ok s → in_range va →
  wp (unmap_page va)
    (λ r s', ∃ pa fl, translate s va = Some (pa, fl, r.2) ∧
                      r.1 = pa - va mod page_size r.2 ∧ unmap_page_post s va r.2 s')
    (λ e s', e = NotMapped ∧ translate s va = None ∧ s' = s) s.
Proof using PL.
  intros [tb Hinv] Hva. pose proof (inv_wf _ _ Hinv) as Hwf.
  apply wp_bind, wp_gets, wp_bind, wp_with_world.
  eapply wp_mono; [by apply (get_entry_mut_spec s tb)| |].
  2:{ intros e w' (-> & -> & ?). split_and!; [done|done|by destruct s]. }
  intros [slot ps] w' (-> & k & t & Hs & Hslot & Hps & Hk). simpl in Hslot, Hps. subst slot ps.
  apply wp_bind, wp_with_world, wp_gets. rewrite pte_unused_law.
  replace (s.1, s.2) with s by (by destruct s).
  set (e := read64 (w_mem s.1) (t + 8 * pidx L k va)).
  assert (translate s va = entry_view e (L - k) va) as Htr.
  { unfold translate. by rewrite (hw_translate_stops Hwf va k t). }
  destruct (entry_cases Hwf k va t (proj1 Hs)) as
    [(t1 & Hc & _)|[[_ Hz]|(_ & Hnz & _ & _ & _ & [fl Hf] & Hb)]].
  { destruct Hs. congruence. }
  { fold e in Hz. rewrite Hz in Htr |- *. apply wp_err. rewrite Htr. split_and!; [done|done|by destruct s]. }
  fold e in Hnz, Hf. unfold entry_view in Htr. rewrite (proj2 (Z.eqb_neq _ _) Hnz) in Htr |- *.
  rewrite Hf in Htr.
  apply wp_bind, wp_with_world, wp_modify, wp_ret. rewrite pte_clear_law.
  destruct (store_leaf_inv s tb va k t 0) as (Hinv' & Hst & Htr'); [done|done|done|by left|done|].
  exists (pte_addr e + va mod page_size (level_size (L - k))), fl.
  split; [done|]. split; [simpl; fold e; lia|]. split; [by eexists|]. split; [done|].
  split; [done|]. intros va' Hva'. rewrite Htr' by done. simpl.
  pose proof (level_34 _ _ Hinv). unfold same_page.
  rewrite <- !pfx_page by lia. rewrite level_size_level by done.
  replace (L - (L - k))%nat with k by lia. split; intros Hp.
  - by rewrite decide_True.
  - by rewrite decide_False.
Qed.

(** [update] stores the new leaf where the walk of [va] ends, whether or not an
    address is mapped there. *)
Definition update_post s (va paddr fl : Z) (ps : PageSize) s' : Prop :=
  pt_ok s' ∧ pt_step s s' ∧ s'.2 = s.2 ∧
  ∀ va', in_range va' →
    (same_page ps va va' →
       translate s' va' = Some (Z.land paddr (ef_mask pte_format) + va' mod page_size ps,
                                ef_norm pte_format fl, ps)) ∧
    (¬ same_page ps va va' → translate s' va' = translate s va').

Lemma update_spec s va paddr fl :
  pt_ok s → in_range va → is_u64 paddr → ef_usable pte_format fl = true →
  wp (update va paddr fl)
    (λ ps s', update_post s va paddr fl ps s' ∧
              (∀ pa f ps', translate s va = Some (pa, f, ps') → ps = ps'))
    (λ e s', e = NotMapped ∧ translate s va = None ∧ s' = s) s.
Proof using PL.
  intros [tb Hinv] Hva Hpa Hfl. pose proof (inv_wf _ _ Hinv) as Hwf.
  pose proof (level_34 _ _ Hinv) as HL34.
  apply wp_bind, wp_gets, wp_bind, wp_with_world.
  eapply wp_mono; [by apply (get_entry_mut_spec s tb)| |].
  2:{ intros e w' (-> & -> & ?). split_and!; [done|done|by destruct s]. }
  intros [slot ps] w' (-> & k & t & Hs & Hslot & Hps & Hk). simpl in Hslot, Hps. subst slot ps.
  apply wp_bind, wp_with_world, wp_gets.
  replace (s.1, s.2) with s by (by destruct s). cbv zeta; rewrite pte_set_law.
  set (huge := ps_is_huge (level_size (L - k))).
  assert (huge = bool_decide (1 < L - k)%nat) as Hh.
  { unfold huge. by destruct (L - k)%nat as [|[|[|[|]]]]; [lia|..|lia]. }
  apply wp_bind, wp_with_world, wp_modify, wp_ret.
  destruct (pte_leaf_law paddr fl huge Hpa Hfl) as (Hu & _).
  destruct (store_leaf_inv s tb va k t (leaf_entry paddr fl huge)) as (Hinv' & Hst & Htr'); try done.
  { right. split; [lia|]. exists paddr, fl. by rewrite Hh. }
  split; [split; [by eexists|split; [done|split; [done|]]]|].
  - intros va' Hva'. rewrite Htr' by done. unfold same_page.
    rewrite <- !pfx_page by lia. rewrite level_size_level by done.
    replace (L - (L - k))%nat with k by lia. split; intros Hp.
    + rewrite decide_True by done. rewrite <- (level_size_level (L - k)) at 1 by done.
      unfold huge. by apply leaf_entry_view.
    + by rewrite decide_False.
  - intros pa f ps'. unfold translate. rewrite (hw_translate_stops Hwf va k t) by done.
    unfold entry_view. destruct (_ =? 0); [done|]. destruct (pte_flags _); [|done].
    by intros [= _ _ <-].
Qed.

End spec.
