(* ===== verification/PagingLoop.v ===== *)
(** * Mapping and unmapping whole regions

    The loops of [HvPageTable::map] and [HvPageTable::unmap]: they end, do not
    panic, and change the translation of exactly the region. *)

From S2P Require Import Prelude PhysMem HvError Addr Frame Region Pte PtIface Paging PagingWf.
From S2P Require Import PagingSpec.

Section loops.
  Context {T : Type} {HB : BitAlloc T} {HL : BitAllocLaws T}.
  Context {P : GenericPTE} {PL : GenericPTELaws P}.
  Context (n : Z) (L : nat).
  Implicit Types (s : @pts T) (r : MemoryRegion).

#[local] Abbreviation pt_ok := (pt_ok n L).
#[local] Abbreviation pt_step := (pt_step n).
#[local] Abbreviation translate := (translate L).
#[local] Abbreviation in_range := (in_range L).

#[local] Abbreviation mapped_range r lo hi s s' :=
  (PtIface.mapped_range pte_format (va_limit L) r lo hi (translate s) (translate s')).
#[local] Abbreviation unmapped_range lo hi s s' :=
  (PtIface.unmapped_range (va_limit L) lo hi (translate s) (translate s')).
#[local] Abbreviation covered lo hi s := (PtIface.covered lo hi (translate s)).

(** ** Choosing the page size *)

Lemma choose_page_size_spec fl vaddr paddr sz :
  vaddr mod PAGE_SIZE = 0 → PAGE_SIZE ≤ sz →
  let ps := choose_page_size fl vaddr paddr sz in
  vaddr mod page_size ps = 0 ∧ page_size ps ≤ sz ∧
  (ps ≠ Size4K → paddr mod page_size ps = 0 ∧ contains fl NO_HUGEPAGES = false).
Proof.
  intros Hv Hsz ps. unfold ps, choose_page_size.
  destruct (ps_is_aligned Size1G vaddr && _ && _ && _) eqn:E1.
  { rewrite !andb_true_iff, !ps_is_aligned_spec, negb_true_iff, Z.leb_le in E1. naive_solver. }
  destruct (ps_is_aligned Size2M vaddr && _ && _ && _) eqn:E2.
  { rewrite !andb_true_iff, !ps_is_aligned_spec, negb_true_iff, Z.leb_le in E2. naive_solver. }
  done.
Qed.

(** [choose_page_size] takes the largest size that the alignments, the remaining
    length and the flags allow. *)
Lemma choose_page_size_max fl vaddr paddr sz ps :
  vaddr mod page_size ps = 0 → paddr mod page_size ps = 0 → page_size ps ≤ sz →
  contains fl NO_HUGEPAGES = false →
  page_size ps ≤ page_size (choose_page_size fl vaddr paddr sz).
Proof.
  intros Hv Hp Hsz Hf. apply ps_is_aligned_spec in Hv, Hp. apply Z.leb_le in Hsz.
  unfold choose_page_size. destruct ps.
  - apply page_size_pos.
  - rewrite Hv, Hp, Hsz, Hf. destruct (_ && _ && _ && _); done.
  - rewrite Hv, Hp, Hsz, Hf. done.
Qed.

(** ** The loop of [map] *)

(** One page of [map_page] as a mapped range. *)
Lemma map_page_range r s s' vaddr ps :
  vaddr mod page_size ps = 0 →
  (ps ≠ Size4K → map_fn (mapper r) vaddr mod page_size ps = 0 ∧
                 contains (flags r) NO_HUGEPAGES = false) →
  map_page_post n L s (mkPage vaddr ps) (map_fn (mapper r) vaddr) (flags r) s' →
  mapped_range r vaddr (vaddr + page_size ps) s s'.
Proof.
  intros Ha Hps (_ & _ & Hpost) va Hva. destruct (Hpost va Hva) as [H1 H2]. simpl in H1, H2.
  rewrite page_base_same, page_base_aligned in H1, H2 by done.
  split; [|exact H2]. intros Hin. destruct (H1 Hin) as [Hn Hv]. split; [done|].
  assert (page_base ps va = vaddr) as Hb by (by apply page_base_eq).
  exists ps. rewrite Hb. split_and!; [lia|lia|apply Hps..|]; try done.
Qed.

Lemma map_loop_spec r fuel s vaddr sz :
  pt_ok s → mapper_ok (mapper r) → ef_usable pte_format (flags r) = true →
  vaddr mod PAGE_SIZE = 0 → sz mod PAGE_SIZE = 0 →
  0 ≤ vaddr → 0 ≤ sz → vaddr + sz ≤ va_limit L → vaddr + sz < U64 →
  sz ≤ PAGE_SIZE * Z.of_nat fuel →
  wp (map_loop fuel r vaddr sz)
    (λ _ s', pt_ok s' ∧ pt_step s s' ∧ mapped_range r vaddr (vaddr + sz) s s')
    (λ e s', map_error e ∧ pt_ok s' ∧ pt_step s s' ∧
             ∃ x, vaddr ≤ x < vaddr + sz ∧ mapped_range r vaddr x s s') s.
Proof using HL PL.
  revert s vaddr sz. induction fuel as [|fuel IH]; intros s vaddr sz Hok Hm Hfl Hva Hsa H0 Hs0 Hlim H64 Hfuel.
  { simpl. rewrite (proj2 (Z.leb_le _ _)) by lia. apply wp_ret.
    replace (vaddr + sz) with vaddr by lia.
    split_and!; [done|apply pt_step_refl|apply mapped_range_refl]. }
  simpl. destruct (Z.leb_spec sz 0).
  { apply wp_ret. replace (vaddr + sz) with vaddr by lia.
    split_and!; [done|apply pt_step_refl|apply mapped_range_refl]. }
  assert (PAGE_SIZE ≤ sz) as Hsz.
  { apply Z.mod_divide in Hsa as [q ->]; [|done]. unfold PAGE_SIZE in *. lia. }
  set (ps := choose_page_size (flags r) vaddr (map_fn (mapper r) vaddr) sz).
  destruct (choose_page_size_spec (flags r) vaddr (map_fn (mapper r) vaddr) sz Hva Hsz)
    as (Hpa & Hpsz & Hbig). fold ps in Hpa, Hpsz, Hbig. pose proof (page_size_pos ps) as Hpos.
  assert (page_size ps mod PAGE_SIZE = 0) as Hpm by (by destruct ps).
  apply wp_bind. apply wp_bind, wp_assert; [by apply ps_is_aligned_spec|]. apply wp_ret.
  apply wp_bind, wp_map_err.
  eapply wp_mono.
  { apply (map_page_spec n L s (mkPage vaddr ps) _ (flags r)); [done| |apply Hm|done].
    split; simpl; lia. }
  2:{ intros e s' [(Hok' & Hst & Htr) Herr]. split.
      - unfold map_error. destruct e; simpl; auto.
      - split; [done|]. split; [done|]. exists vaddr. split; [lia|].
        intros va Hv. split; [lia|]. intros _. by apply Htr. }
  intros slot s1 Hpost. pose proof (map_page_range r s s1 vaddr ps Hpa Hbig Hpost) as Hr1.
  destruct Hpost as (Hok1 & Hst1 & _).
  apply wp_bind, wp_uadd; [lia|]. apply wp_bind, wp_usub; [lia|].
  eapply wp_mono.
  { apply (IH s1 (vaddr + page_size ps) (sz - page_size ps)); try done; try lia.
    - by rewrite Z.add_mod, Hva, Hpm.
    - by rewrite Zminus_mod, Hsa, Hpm.
    - pose proof (page_size_min ps). lia. }
  - intros _ s2 (Hok2 & Hst2 & Hr2). split; [done|]. split; [by eapply pt_step_trans|].
    replace (vaddr + page_size ps + (sz - page_size ps)) with (vaddr + sz) in Hr2 by lia.
    eapply mapped_range_app; [|done|done]. lia.
  - intros e s2 (He & Hok2 & Hst2 & x & Hx & Hr2). split; [done|]. split; [done|].
    split; [by eapply pt_step_trans|]. exists x. split; [lia|].
    eapply mapped_range_app; [|done|done]. lia.
Qed.

Lemma va_limit_u64 : (3 ≤ L ≤ 4)%nat → va_limit L < U64.
Proof. intros H. assert (L = 3 ∨ L = 4)%nat as [->| ->] by lia; done. Qed.

Lemma loop_fuel_enough sz : 0 ≤ sz → sz ≤ PAGE_SIZE * Z.of_nat (loop_fuel sz).
Proof.
  intros Hs. unfold loop_fuel. pose proof (Z.div_pos sz PAGE_SIZE Hs ltac:(done)).
  rewrite Z2Nat.id by lia. pose proof (Z.div_mod sz PAGE_SIZE ltac:(done)).
  pose proof (Z.mod_pos_bound sz PAGE_SIZE ltac:(done)). unfold PAGE_SIZE in *. lia.
Qed.

Lemma map_spec s r :
  pt_ok s → region_mappable pte_format (va_limit L) r →
  wp (map r)
    (λ _ s', pt_ok s' ∧ pt_step s s' ∧ mapped_range r (start r) (start r + size r) s s')
    (λ e s', map_error e ∧ pt_ok s' ∧ pt_step s s' ∧
             ∃ x, start r ≤ x < start r + size r ∧ mapped_range r (start r) x s s') s.
Proof using HL PL.
  intros Hok (Hm & Ha & Hsa & H0 & Hs0 & Hlim & Hfl). destruct (Hok) as [tb Hinv].
  pose proof (va_limit_u64 (level_34 _ _ _ _ Hinv)).
  apply wp_bind, wp_assert; [by apply is_aligned_spec|].
  apply wp_bind, wp_assert; [by apply is_aligned_spec|].
  apply map_loop_spec; try done; [lia|]. by apply loop_fuel_enough.
Qed.

(** ** The loop of [unmap] *)

Lemma page_uniform s va x pa fl ps :
  pt_ok s → in_range va → in_range x →
  translate s va = Some (pa, fl, ps) → same_page ps va x →
  translate s x = Some (pa - va mod page_size ps + x mod page_size ps, fl, ps).
Proof using PL.
  intros [tb Hinv] Hva Hx Htr Hp. pose proof (inv_wf _ _ _ _ Hinv) as Hwf.
  pose proof (level_34 _ _ _ _ Hinv) as HL34.
  destruct (stops_exists Hwf va Hva) as (k & t & HkL & Hs).
  revert Htr. unfold PagingSpec.translate.
  rewrite (hw_translate_stops Hwf va k t) by done. unfold entry_view.
  destruct (Z.eqb_spec (read64 (w_mem s.1) (t + 8 * pidx L k va)) 0) as [|Hnz]; [done|].
  destruct (entry_cases Hwf k va t (proj1 Hs)) as [(? & Hc & _)|[[_ ?]|(_ & _ & Hk & _)]].
  { destruct Hs. congruence. } { done. }
  destruct (pte_flags _) as [f|] eqn:Hf; [|done]. intros [= <- -> <-].
  assert (pfx L (S k) x = pfx L (S k) va) as Hpx.
  { unfold same_page in Hp. rewrite <- !(pfx_page L) in Hp by lia.
    rewrite level_size_level in Hp by lia. by replace (L - (L - k))%nat with k in Hp by lia. }
  rewrite (hw_translate_stops Hwf x k t); [|done|].
  - unfold entry_view, pidx in *. rewrite Hpx. rewrite (proj2 (Z.eqb_neq _ _) Hnz), Hf.
    do 3 f_equal. lia.
  - destruct Hs as [Hs1 Hs2]. split; [|by rewrite Hpx].
    rewrite <- (pfx_div L k x), Hpx, pfx_div by lia. done.
Qed.

(** The first page of a covered range, and what is left. *)
Lemma covered_first lo hi s :
  pt_ok s → 0 ≤ lo → hi ≤ va_limit L → lo < hi → covered lo hi s →
  ∃ pa fl ps, translate s lo = Some (pa, fl, ps) ∧ lo mod page_size ps = 0 ∧
              lo + page_size ps ≤ hi ∧
              ∀ s', unmap_page_post n L s lo ps s' → covered (lo + page_size ps) hi s' ∧
                    unmapped_range lo (lo + page_size ps) s s'.
Proof using PL.
  intros Hok H0 Hlim Hlt Hc. destruct (Hc lo ltac:(lia)) as (pa & fl & ps & Htr & H1 & H2).
  exists pa, fl, ps. pose proof (page_size_pos ps) as Hpos.
  pose proof (Z.mod_pos_bound lo (page_size ps) ltac:(lia)).
  assert (lo mod page_size ps = 0) as Ha by (unfold page_base in H1; lia).
  rewrite page_base_aligned in H1, H2 by done. split_and!; [done|done|done|].
  intros s' (_ & _ & _ & Hpost). split.
  - intros va Hva. destruct (Hc va ltac:(lia)) as (pa' & fl' & ps' & Htr' & G1 & G2).
    destruct (Hpost va) as [_ Hsame]; [split; lia|].
    rewrite page_base_same, page_base_aligned in Hsame by done.
    exists pa', fl', ps'. split; [rewrite Hsame; [done|lia]|]. split; [|done].
    destruct (Z.le_gt_cases (lo + page_size ps) (page_base ps' va)) as [|Hlt']; [done|exfalso].
    (* otherwise the base of the later page lies in the first page *)
    set (b := page_base ps' va) in *.
    pose proof (page_size_pos ps') as Hpos'. pose proof (Z.mod_pos_bound va (page_size ps') ltac:(lia)) as Hmb.
    assert (same_page ps' va b) as Hb by (apply page_base_same; fold b; lia).
    assert (in_range b ∧ in_range va) as [Hbr Hvr] by (unfold PagingSpec.in_range in *; lia).
    assert (same_page ps lo b) as Hb'.
    { apply page_base_same. rewrite page_base_aligned by done. lia. }
    pose proof (page_uniform s va b _ _ _ Hok Hvr Hbr Htr' Hb) as E1.
    assert (in_range lo) as Hlr by (split; lia).
    pose proof (page_uniform s lo b _ _ _ Hok Hlr Hbr Htr Hb') as E2.
    rewrite E1 in E2. injection E2 as _ _ ->.
    apply page_base_same in Hb'. rewrite page_base_aligned in Hb' by done.
    assert (same_page ps lo va) as Hcontra.
    { unfold same_page in *. pose proof (proj2 (page_base_same ps lo b)) as Hq.
      rewrite page_base_aligned in Hq by done. specialize (Hq Hb'). unfold same_page in Hq. congruence. }
    apply page_base_same in Hcontra. rewrite page_base_aligned in Hcontra by done. lia.
  - intros va Hva. destruct (Hpost va Hva) as [A1 A2].
    rewrite page_base_same, page_base_aligned in A1, A2 by done. done.
Qed.

Lemma unmap_loop_spec fuel s vaddr sz :
  pt_ok s → 0 ≤ vaddr → 0 ≤ sz → vaddr + sz ≤ va_limit L → vaddr + sz < U64 →
  covered vaddr (vaddr + sz) s → sz ≤ PAGE_SIZE * Z.of_nat fuel →
  wp (unmap_loop fuel vaddr sz)
    (λ _ s', pt_ok s' ∧ pt_step s s' ∧ s'.2 = s.2 ∧ unmapped_range vaddr (vaddr + sz) s s')
    (λ _ _, False) s.
Proof using PL.
  revert s vaddr sz. induction fuel as [|fuel IH]; intros s vaddr sz Hok H0 Hs0 Hlim H64 Hc Hfuel.
  { simpl. rewrite (proj2 (Z.leb_le _ _)) by lia. apply wp_ret.
    replace (vaddr + sz) with vaddr by lia. split_and!; [done|apply pt_step_refl|done|apply unmapped_range_refl]. }
  simpl. destruct (Z.leb_spec sz 0).
  { apply wp_ret. replace (vaddr + sz) with vaddr by lia. split_and!; [done|apply pt_step_refl|done|apply unmapped_range_refl]. }
  destruct (covered_first vaddr (vaddr + sz) s) as (pa & fl & ps & Htr & Ha & Hle & Hrest);
    try done; [lia|].
  apply wp_bind, wp_map_err. eapply wp_mono.
  { apply (unmap_page_spec n L s vaddr Hok). split; lia. }
  2:{ intros e s' (_ & Hn & _). congruence. }
  intros [pa1 ps1] s1 (pa' & fl' & Htr' & _ & Hpost). simpl in Htr', Hpost.
  assert (ps1 = ps) as -> by congruence. destruct (Hrest s1 Hpost) as [Hc1 Hr1].
  destruct Hpost as (Hok1 & Hst1 & Heq1 & _).
  assert (ps_is_aligned ps vaddr = true) as Hal by (by apply ps_is_aligned_spec). rewrite Hal. cbn [negb].
  pose proof (page_size_min ps). pose proof (page_size_pos ps).
  apply wp_bind, wp_assert; [done|]. apply wp_bind, wp_assert; [apply Z.leb_le; lia|].
  apply wp_bind, wp_uadd; [lia|]. apply wp_bind, wp_usub; [lia|].
  eapply wp_mono.
  { apply (IH s1 (vaddr + page_size ps) (sz - page_size ps)); try done; try lia.
    replace (vaddr + page_size ps + (sz - page_size ps)) with (vaddr + sz) by lia. exact Hc1. }
  2: done. intros _ s2 (Hok2 & Hst2 & Heq2 & Hr2).
  replace (vaddr + page_size ps + (sz - page_size ps)) with (vaddr + sz) in Hr2 by lia.
  split; [done|]. split; [by eapply pt_step_trans|]. split; [congruence|].
  eapply unmapped_range_app; [|done|done]. lia.
Qed.

Lemma unmap_spec s r :
  pt_ok s → 0 ≤ start r → 0 ≤ size r → start r + size r ≤ va_limit L →
  covered (start r) (start r + size r) s →
  wp (unmap r)
    (λ _ s', pt_ok s' ∧ pt_step s s' ∧ s'.2 = s.2 ∧
             unmapped_range (start r) (start r + size r) s s')
    (λ _ _, False) s.
Proof using PL.
  intros Hok H0 Hs0 Hlim Hc. destruct (Hok) as [tb Hinv].
  pose proof (va_limit_u64 (level_34 _ _ _ _ Hinv)).
  apply unmap_loop_spec; try done; [lia|]. by apply loop_fuel_enough.
Qed.

End loops.
