(* ===== verification/PagingWalk.v ===== *)
(** * [walk] and [dump] of the page tables (src/src/arch/aarch64/paging.rs)

    [dump] prints; what it prints are the calls of the closure, a list of visited
    entries here. With a limit of at least one whole table it lists exactly the leaf
    entries of the hardware walk, each at its address. *)

From S2P Require Import Prelude PhysMem HvError Addr Frame Region Pte PtIface Paging PagingWf.

Section walk.
  Context {P : GenericPTE}.
  Implicit Types (m : mem).

(** One call of the closure: level, index, address and entry. *)
Abbreviation visit := (Z * Z * Z * Z)%type.

(** The [for] loop over the entries of one table: [n] counts the present ones, [sub]
    is the recursive call. *)
Fixpoint walk_entries m (sub : Z → Z → list visit) (level start_vaddr limit table : Z)
    (count : nat) (i n : Z) : list visit :=
  match count with
  | O => []
  | S count' =>
      let entry := read64 m (table + 8 * i) in
      let vaddr := start_vaddr + Z.shiftl i (12 + (3 - level) * 9) in
      if pte_is_present entry then
        let below := if (level <? 3) && negb (pte_is_huge entry) then sub (pte_addr entry) vaddr else [] in
        (level, i, vaddr, entry) :: below ++
        if limit <=? n + 1 then []
        else walk_entries m sub level start_vaddr limit table count' (i + 1) (n + 1)
      else walk_entries m sub level start_vaddr limit table count' (i + 1) n
  end.

(** [depth] bounds the recursion: the levels left. *)
Fixpoint walk (depth : nat) m (table level start_vaddr limit : Z) : list visit :=
  match depth with
  | O => []
  | S depth' =>
      walk_entries m (λ t va, walk depth' m t (level + 1) va limit) level start_vaddr limit table
        (Z.to_nat ENTRY_COUNT) 0 0
  end.

Definition dump m (pt : HvPageTableImmut) (limit : Z) : list visit :=
  walk 4 m (root_paddr pt) (starting_level pt) 0 limit.

(** ** Exactness *)

Lemma elem_of_walk_entries m sub level start limit table count i n x :
  0 ≤ n ≤ i → i + Z.of_nat count ≤ limit →
  x ∈ walk_entries m sub level start limit table count i n ↔
  ∃ j, i ≤ j < i + Z.of_nat count ∧
       let e := read64 m (table + 8 * j) in
       let va := start + Z.shiftl j (12 + (3 - level) * 9) in
       pte_is_present e = true ∧
       (x = (level, j, va, e) ∨ (level < 3 ∧ pte_is_huge e = false ∧ x ∈ sub (pte_addr e) va)).
Proof.
  revert i n. induction count as [|count IH]; intros i n Hn Hl; cbn [walk_entries].
  { split; [by intros ?%not_elem_of_nil|]. intros (j & Hj & _). lia. }
  assert (∀ n', 0 ≤ n' ≤ i + 1 → ((limit <=? n') = true → count = 0%nat) →
    (x ∈ (if limit <=? n' then [] else walk_entries m sub level start limit table count (i + 1) n')) ↔
    ∃ j, i + 1 ≤ j < i + 1 + Z.of_nat count ∧
       let e := read64 m (table + 8 * j) in
       let va := start + Z.shiftl j (12 + (3 - level) * 9) in
       pte_is_present e = true ∧
       ((x = (level, j, va, e)) ∨ (level < 3 ∧ pte_is_huge e = false ∧ x ∈ sub (pte_addr e) va))) as Hrest.
  { intros n' Hn' Hlim. destruct (limit <=? n'); [|apply IH; lia]. rewrite Hlim by done.
    split; [by intros ?%not_elem_of_nil|]. intros (j & Hj & _). lia. }
  destruct (pte_is_present _) eqn:Hp.
  - rewrite elem_of_cons, elem_of_app, Hrest by lia. split.
    + intros [->|[Hin|(j & Hj & H)]]; [exists i; split; [lia|]; split; [done|by left]| |exists j; split; [lia|done]].
      destruct ((level <? 3) && negb _) eqn:Hb; [|by apply not_elem_of_nil in Hin].
      apply andb_true_iff in Hb as [?%Z.ltb_lt ?%negb_true_iff].
      exists i. split; [lia|]. split; [done|]. by right.
    + intros (j & Hj & H). destruct (decide (j = i)) as [->|]; [|right; right; exists j; split; [lia|done]].
      destruct H as [_ [->|(H1 & H2 & H3)]]; [by left|]. right; left.
      by rewrite (proj2 (Z.ltb_lt _ _) H1), H2.
  - specialize (Hrest n). destruct (limit <=? n) eqn:Hln; [lia|]. rewrite Hrest by lia. split.
    + intros (j & Hj & H). exists j. split; [lia|done].
    + intros (j & Hj & H). exists j. destruct (decide (j = i)) as [->|]; [|split; [lia|done]].
      by rewrite Hp in H; destruct H.
Qed.

(** The hardware walk of [va] from a table at level [l] ends at level [k], at the
    present entry [e]. *)
Definition leaf_at m (l : nat) (table va : Z) (k : nat) (e : Z) : Prop :=
  ∃ slot, hw_walk m l table va = (slot, k) ∧ read64 m slot = e ∧ pte_is_present e = true.

(** What the visit of a leaf says: its level counts from 0 at the top. *)
Definition leaf_visit m (l : nat) (table start : Z) (x : visit) : Prop :=
  let '(lv, i, va, e) := x in
  start ≤ va < start + 2 ^ (12 + 9 * Z.of_nat l) ∧
  ∃ k, leaf_at m l table va k e ∧ lv = 4 - Z.of_nat k ∧ i = walk_index k va ∧
       va mod 2 ^ (12 + 9 * (Z.of_nat k - 1)) = 0.

Definition is_leaf (x : visit) : Prop := let '(lv, _, _, e) := x in lv = 3 ∨ pte_is_huge e = true.

Section arith.
  Context (l : nat) (start : Z) (Hs : start mod 2 ^ (12 + 9 * Z.of_nat (S l)) = 0).
  Abbreviation Q := (2 ^ (12 + 9 * Z.of_nat l)).

Lemma pow_step : 2 ^ (12 + 9 * Z.of_nat (S l)) = 512 * Q.
Proof using.
  clear Hs start.
  replace (12 + 9 * Z.of_nat (S l)) with (9 + (12 + 9 * Z.of_nat l)) by lia.
  rewrite Z.pow_add_r by lia. done.
Qed.

Lemma Q_pos : 0 < Q.
Proof using. clear Hs start. apply Z.pow_pos_nonneg; lia. Qed.

Lemma walk_index_in j va :
  0 ≤ j < 512 → start + j * Q ≤ va < start + j * Q + Q → walk_index (S l) va = j.
Proof using Hs.
  intros Hj Hva. pose proof Q_pos. unfold walk_index.
  replace (12 + 9 * (Z.of_nat (S l) - 1)) with (12 + 9 * Z.of_nat l) by lia.
  rewrite pow_step in Hs. set (q := Q) in *. apply Z.mod_divide in Hs as [c Hc]; [|lia].
  assert (va / q = c * 512 + j) as ->.
  { symmetry. apply (Z.div_unique va q _ (va - (c * 512 + j) * q)); lia. }
  rewrite Z.add_comm, Z.mod_add by lia. apply Z.mod_small. lia.
Qed.

Lemma walk_index_split va :
  start ≤ va < start + 2 ^ (12 + 9 * Z.of_nat (S l)) →
  let j := walk_index (S l) va in
  0 ≤ j < 512 ∧ start + j * Q ≤ va < start + j * Q + Q.
Proof using Hs.
  rewrite pow_step. intros Hva. pose proof Q_pos. set (j := (va - start) / Q).
  assert (0 ≤ j < 512) as Hj by (split; [apply Z.div_pos; lia|apply Z.div_lt_upper_bound; lia]).
  assert (start + j * Q ≤ va < start + j * Q + Q) as Hin.
  { pose proof (Z.div_mod (va - start) Q). pose proof (Z.mod_pos_bound (va - start) Q). lia. }
  cbv zeta. rewrite (walk_index_in j va Hj Hin). done.
Qed.

Lemma slot_start j va :
  start + j * Q ≤ va < start + j * Q + Q → va mod Q = 0 → va = start + j * Q.
Proof using Hs.
  intros Hva Hm. pose proof Q_pos. rewrite pow_step in Hs.
  apply Z.mod_divide in Hs as [c Hc]; [|lia]. apply Z.mod_divide in Hm as [d Hd]; [|lia].
  set (q := Q) in *. assert (d = c * 512 + j) by nia. lia.
Qed.

Lemma slot_aligned j : (start + j * Q) mod Q = 0.
Proof using Hs.
  pose proof Q_pos. rewrite pow_step in Hs. apply Z.mod_divide in Hs as [c Hc]; [|lia].
  apply Z.mod_divide; [lia|]. exists (c * 512 + j). lia.
Qed.

End arith.

(** One level of the hardware walk. *)
Lemma hw_walk_step m l table va :
  let slot := table + 8 * walk_index (S l) va in
  let e := read64 m slot in
  hw_walk m (S l) table va =
  if (0 <? l)%nat && pte_is_present e && negb (pte_is_huge e) then hw_walk m l (pte_addr e) va
  else (slot, S l).
Proof. by destruct l. Qed.

(** The entry [j] of a table, seen from an address in its part. *)
Lemma leaf_visit_step m l table start lv i va e :
  start mod 2 ^ (12 + 9 * Z.of_nat (S l)) = 0 → (S l ≤ 4)%nat →
  leaf_visit m (S l) table start (lv, i, va, e) ↔
  ∃ j, 0 ≤ j < 512 ∧
    let e' := read64 m (table + 8 * j) in
    let va' := start + j * 2 ^ (12 + 9 * Z.of_nat l) in
    pte_is_present e' = true ∧
    ((lv, i, va, e) = (4 - Z.of_nat (S l), j, va', e') ∧ ((l = 0)%nat ∨ pte_is_huge e' = true) ∨
     (0 < l)%nat ∧ pte_is_huge e' = false ∧ leaf_visit m l (pte_addr e') va' (lv, i, va, e)).
Proof.
  intros Hs Hl. unfold leaf_visit. split.
  - intros [Hva (k & (slot & Hw & He & Hp) & -> & -> & Hm)].
    destruct (walk_index_split l start Hs va Hva) as [Hj Hin]. set (j := walk_index (S l) va) in *.
    exists j. split; [done|]. rewrite hw_walk_step in Hw. fold j in Hw. cbv zeta in *.
    destruct ((0 <? l)%nat && _ && _) eqn:Hc.
    + apply andb_true_iff in Hc as [[H1%Nat.ltb_lt H2]%andb_true_iff H3%negb_true_iff].
      split; [done|]. right. split_and!; [lia|done|lia|lia|]. exists k. split_and!; try done. by exists slot.
    + injection Hw as <- <-. rewrite He. split; [done|]. left.
      rewrite He, Hp, andb_true_r in Hc. replace (Z.of_nat (S l) - 1) with (Z.of_nat l) in Hm by lia.
      rewrite <- (slot_start l start Hs j va Hin Hm). split; [by fold j|].
      apply andb_false_iff in Hc as [?%Nat.ltb_ge|?%negb_false_iff]; [left; lia|by right].
  - intros (j & Hj & Hp & Hcase). cbv zeta in *. pose proof (Q_pos l).
    assert (∀ va1, start + j * 2 ^ (12 + 9 * Z.of_nat l) ≤ va1 <
      start + j * 2 ^ (12 + 9 * Z.of_nat l) + 2 ^ (12 + 9 * Z.of_nat l) →
      start ≤ va1 < start + 2 ^ (12 + 9 * Z.of_nat (S l))) as Hrange.
    { intros va1 H1. rewrite pow_step. nia. }
    destruct Hcase as [[[= -> -> -> ->] Hend]|(Hl0 & Hh & Hva & k & (slot & Hw & He & Hpe) & -> & -> & Hm)].
    + split; [apply Hrange; lia|]. exists (S l).
      pose proof (walk_index_in l start Hs j (start + j * 2 ^ (12 + 9 * Z.of_nat l)) Hj ltac:(lia)) as Hi.
      split_and!; [|lia|done|].
      * exists (table + 8 * j). split_and!; try done. rewrite hw_walk_step, Hi. cbv zeta. rewrite Hp, andb_true_r.
        destruct Hend as [->| ->]; [done|by rewrite andb_false_r].
      * replace (Z.of_nat (S l) - 1) with (Z.of_nat l) by lia. exact (slot_aligned l start Hs j).
    + split; [by apply Hrange|]. exists k. split_and!; try done. exists slot. split_and!; try done.
      rewrite hw_walk_step, (walk_index_in l start Hs j va Hj Hva). cbv zeta. rewrite Hp, Hh.
      by rewrite (proj2 (Nat.ltb_lt _ _) Hl0).
Qed.

Lemma walk_exact m limit l depth table start x :
  (0 < l ≤ 4)%nat → (l ≤ depth)%nat → ENTRY_COUNT ≤ limit → start mod 2 ^ (12 + 9 * Z.of_nat l) = 0 →
  x ∈ walk depth m table (4 - Z.of_nat l) start limit ∧ is_leaf x ↔ leaf_visit m l table start x.
Proof.
  revert depth table start. induction l as [|l IH]; intros depth table start Hl Hd Hlim Hs; [lia|].
  destruct depth as [|depth]; [lia|]. cbn [walk]. destruct x as [[[lv i] va] e].
  rewrite elem_of_walk_entries by (unfold ENTRY_COUNT in *; lia).
  replace (12 + (3 - (4 - Z.of_nat (S l))) * 9) with (12 + 9 * Z.of_nat l) by lia.
  replace (4 - Z.of_nat (S l) + 1) with (4 - Z.of_nat l) by lia.
  change (0 + Z.of_nat (Z.to_nat ENTRY_COUNT)) with 512. rewrite leaf_visit_step by (done || lia).
  assert (∀ j, (start + j * 2 ^ (12 + 9 * Z.of_nat l)) mod 2 ^ (12 + 9 * Z.of_nat l) = 0) as Hal
    by (exact (slot_aligned l start Hs)).
  split.
  - intros [(j & Hj & Hp & Hx) Hleaf]. exists j. split; [done|]. cbv zeta in *. split; [done|].
    rewrite Z.shiftl_mul_pow2 in Hx by lia. destruct Hx as [Hx|(H1 & H2 & H3)].
    + left. split; [done|]. injection Hx as -> -> -> ->. destruct Hleaf; [left; lia|by right].
    + right. split; [lia|]. split; [done|]. rewrite <- IH; [by split|lia|lia|done|done].
  - intros (j & Hj & Hp & Hx). cbv zeta in *. destruct Hx as [[Hx Hend]|(H1 & H2 & H3)].
    + split; [|injection Hx as -> -> -> ->; destruct Hend; [left; lia|by right]].
      exists j. split; [done|]. split; [done|]. left. by rewrite Z.shiftl_mul_pow2 by lia.
    + apply (IH depth) in H3 as [H3 Hleaf]; [|lia|lia|done|done]. split; [|done].
      exists j. split; [done|]. split; [done|]. right. rewrite Z.shiftl_mul_pow2 by lia.
      split_and!; [lia|done|done].
Qed.

(** With a limit of a whole table, [dump] of a table of three or four levels. *)
Lemma dump_exact m pt limit lv i va e :
  level pt = 3 ∨ level pt = 4 → ENTRY_COUNT ≤ limit →
  (lv, i, va, e) ∈ dump m pt limit ∧ is_leaf (lv, i, va, e) ↔
  leaf_visit m (Z.to_nat (level pt)) (root_paddr pt) 0 (lv, i, va, e).
Proof.
  intros HL Hlim. rewrite <- (walk_exact m limit _ 4); [|lia|lia|done|by apply Z.mod_0_l, Z.pow_nonzero; lia].
  unfold dump, starting_level. by destruct HL as [-> | ->].
Qed.

End walk.
