(* ===== verification/PtInstance.v ===== *)
(** * [HvPageTable] implements [GenericPageTable]

    The implementation of the trait by the code of [Paging], the proof that it
    keeps the trait's contract, the specification of [new] and [clone_from], and
    the isolation of page tables that own different frames. *)

From S2P Require Import Prelude PhysMem HvError Addr Frame Region Pte PtIface Paging PagingWf.
From S2P Require Import PagingSpec PagingLoop.

Section instance.
  Context {T : Type} {HB : BitAlloc T} {HL : BitAllocLaws T}.
  Context {P : GenericPTE} {PL : GenericPTELaws P}.

(** [impl GenericPageTable for HvPageTable] *)
#[global] Instance hv_gpt : GenericPageTable (world T) HvPageTable := {
  gpt_new := unlocked_new;
  gpt_map := map;
  gpt_unmap := unmap;
  gpt_query va := λ s, with_world (query (inner s.2) va) s;
  gpt_clone := λ s, with_world (clone_from (inner s.2)) s;
  gpt_root_paddr pt := root_paddr (inner pt);
  gpt_drop := pt_drop
}.

Context (n : Z) (L : nat) (HL34 : L = 3%nat ∨ L = 4%nat).
Implicit Types (s : @pts T).

#[global] Instance pt_step_preorder : PreOrder (pt_step (T:=T) n).
Proof. split; [intros s; apply pt_step_refl|intros s1 s2 s3; apply pt_step_trans]. Qed.

(** The contract holds for three and four levels. *)
#[global] Instance hv_gpt_laws : GenericPageTableLaws (world T) HvPageTable.
Proof using HL PL HL34 n L.
  refine {| gpt_limit := va_limit L; gpt_format := pte_format; gpt_ok := pt_ok n L;
            gpt_view := translate L; gpt_step := pt_step n |}.
  - apply pte_format_ok.
  - apply va_limit_u64. lia.
  - intros s r Hok Hr. by apply map_spec.
  - intros s r Hok H0 H1 H2 Hc. simpl.
    eapply wp_mono; [by apply (unmap_spec n L)| |done].
    intros _ s' (A & B & _ & D). done.
  - intros s va [tb Hinv] Hva. simpl. unfold with_world, zoom.
    rewrite (query_hw n L s tb va Hinv Hva). destruct s as [w pt]; simpl.
    by destruct (translate L (w, pt) va).
  - intros w pt. apply wpp_bind. eapply wpp_mono; [apply frame_drop_total|].
    intros _ w' _. apply drop_frames_total.
Defined.

(** ** A new table *)

(** The allocator has a free frame. *)
Definition has_free (w : world T) : Prop := ∃ j, ba_test (fa_inner (w_fa w)) j = true.

Definition new_pt_post (w : world T) (pt : HvPageTable) (w' : world T) : Prop :=
  pt_ok n L (w', pt) ∧ fresh_frame n w w' (root (inner pt)) ∧ intrm_tables pt = [] ∧
  (∀ va, in_range L va → translate L (w', pt) va = None) ∧
  (∀ b, ¬ root_paddr (inner pt) ≤ b < root_paddr (inner pt) + PAGE_SIZE →
        rd8 (w_mem w') b = rd8 (w_mem w) b).

Lemma unlocked_new_spec {E} (w : world T) :
  fa_inv n (w_fa w) → has_free w →
  wp (E:=E) (unlocked_new (Z.of_nat L)) (new_pt_post w) (λ _ _, False) w.
Proof using HL PL HL34.
  intros Hinv [j Hj]. apply wp_bind, wp_bind, wp_assert; [by destruct HL34 as [->| ->]|].
  apply wp_bind, wp_unwrap. eapply wp_mono; [by apply frame_new_zero_spec| |].
  2:{ intros e w' (_ & _ & _ & _ & Hn). specialize (Hn j). congruence. }
  intros f w' [Hf Hm]. apply wp_ret, wp_ret. pose proof Hf as (Hc & Hfa & Hext & Hu & Hnu).
  destruct (fresh_root_wf L (w_mem w') (start_paddr f)) as [Hwf Htr].
  { lia. } { by eapply fa_used_range. } { intros b Hb. by rewrite Hm, decide_True. }
  split; [|split; [done|split; [done|split; [done|]]]].
  - exists {[(0%nat, 0) := start_paddr f]}. split; try done.
    + intros a t [_ <-]%lookup_singleton_Some. left.
    + intros t Ht. unfold owned in Ht; simpl in Ht. apply list_elem_of_singleton in Ht as ->. done.
  - intros b Hb. rewrite Hm, decide_False; [done|exact Hb].
Qed.

(** ** Isolation *)

(** Two tables that share the allocator and own different frames. *)
Definition disjoint_pts (pt1 pt2 : HvPageTable) : Prop :=
  ∀ t, t ∈ owned pt1 → t ∈ owned pt2 → False.

(** Whatever an operation on one table does within its frame, the other table
    keeps its invariant, its translation and its frames. *)
Lemma pt_step_isolates (w w' : world T) pt1 pt1' pt2 :
  pt_ok n L (w, pt2) → disjoint_pts pt1 pt2 → pt_step n (w, pt1) (w', pt1') →
  pt_ok n L (w', pt1') →
  pt_ok n L (w', pt2) ∧ disjoint_pts pt1' pt2 ∧
  ∀ va, in_range L va → translate L (w', pt2) va = translate L (w, pt2) va.
Proof using HL PL HL34.
  intros [tb [I1 I2 I3 I4 I5 I6]] Hd [S1 S2 S3 S4 S5] [tb' [J1 J2 J3 J4 J5 J6]]. simpl in *.
  assert (disjoint_pts pt1' pt2) as Hd'.
  { intros t H1 H2. destruct (S4 t H1) as [H1'|Hn]; [by eapply Hd|]. by apply Hn, I5. }
  assert (∀ a t b, tb !! a = Some t → t ≤ b < t + PAGE_SIZE →
                   rd8 (w_mem w') b = rd8 (w_mem w) b) as Hm.
  { intros a t b Ha Hb. apply S5. intros t1 Ht1 Hb1.
    assert (fa_used n (w_fa w') t1) as Hu1 by (by apply J5).
    assert (fa_used n (w_fa w') t) as Hu by (eapply fa_ext_used; [done|]; eapply I5, I4, Ha).
    destruct (fa_used_range _ _ _ J6 Hu1) as (A1 & _), (fa_used_range _ _ _ J6 Hu) as (A2 & _).
    apply Z.mod_divide in A1 as [x ->]; [|done]. apply Z.mod_divide in A2 as [y ->]; [|done].
    assert (x = y) as -> by (unfold PAGE_SIZE in *; lia). eapply Hd'; [done|by eapply I4]. }
  destruct (mem_wf_frame L _ (w_mem w') _ tb I3 Hm) as [Hwf Htr].
  split; [|split; [done|exact Htr]]. exists tb. split; simpl; try done.
  intros t Ht. eapply fa_ext_used; [done|auto].
Qed.

(** ** Cloning *)

Lemma copy_entries_out k dst src m b :
  (b < dst ∨ dst + 8 * Z.of_nat k ≤ b) → rd8 (copy_entries k dst src m) b = rd8 m b.
Proof.
  revert dst src m. induction k as [|k IH]; intros dst src m Hb; [done|]. simpl.
  rewrite IH by lia. unfold write64. apply rd8_write_le_out. lia.
Qed.

Lemma copy_entries_in k dst src m i :
  (∀ i, 0 ≤ i < Z.of_nat k → is_u64 (read64 m (src + 8 * i))) →
  dst + 8 * Z.of_nat k ≤ src ∨ src + 8 * Z.of_nat k ≤ dst →
  0 ≤ i < Z.of_nat k → read64 (copy_entries k dst src m) (dst + 8 * i) = read64 m (src + 8 * i).
Proof.
  revert dst src m i. induction k as [|k IH]; intros dst src m i Hu Hd Hi; [lia|]. simpl.
  assert (is_u64 (read64 m src)) as Hu0.
  { pose proof (Hu 0) as H. rewrite Z.mul_0_r, Z.add_0_r in H. apply H. lia. }
  destruct (decide (i = 0)) as [->|Hne].
  - rewrite !Z.mul_0_r, !Z.add_0_r.
    rewrite (read64_ext _ (write64 m dst (read64 m src))); [by apply read_write64|].
    intros b Hb. apply copy_entries_out. lia.
  - assert (∀ j, 0 ≤ j < Z.of_nat k →
              read64 (write64 m dst (read64 m src)) (src + 8 + 8 * j) = read64 m (src + 8 * (j + 1)))
      as Hsrc.
    { intros j Hj. rewrite read_write64_ne by lia. f_equal. lia. }
    replace (dst + 8 * i) with (dst + 8 + 8 * (i - 1)) by lia. rewrite IH, Hsrc by lia || (intros; rewrite Hsrc by lia; apply Hu; lia).
    f_equal. lia.
Qed.

(** A second root with the same entries is the root of the same tree. *)
Lemma second_root_wf m m' r r' tb :
  mem_wf L m r tb → table_addr_ok r' → (∀ a, tb !! a ≠ Some r') →
  (∀ a t b, tb !! a = Some t → t ≤ b < t + PAGE_SIZE → rd8 m' b = rd8 m b) →
  (∀ i, 0 ≤ i < 512 → read64 m' (r' + 8 * i) = read64 m (r + 8 * i)) →
  ∀ va, in_range L va → hw_translate m' L r' va = hw_translate m L r va.
Proof using PL HL34.
  intros Hwf Hr' Hfresh Hm Hroot va Hva.
  assert (∀ a t i, tb !! a = Some t → 0 ≤ i < 512 →
            read64 m' (t + 8 * i) = read64 m (t + 8 * i)) as Hrd.
  { intros a t i Ha Hi. apply read64_ext. intros b Hb. eapply Hm; [done|]. unfold PAGE_SIZE. lia. }
  set (tb' := <[(0%nat, 0):=r']> tb).
  assert (∀ k q, tb' !! (S k, q) = tb !! (S k, q)) as HS.
  { intros k q. unfold tb'. by rewrite lookup_insert_ne. }
  assert (mem_wf L m' r' tb') as Hwf'.
  { pose proof Hwf as [H1 H2 H3 H4 H5 H6]. split.
    - apply lookup_insert_eq.
    - intros a b t Ha Hb. apply lookup_insert_Some in Ha as [[<- <-]|[_ Ha]];
        apply lookup_insert_Some in Hb as [[<- ?]|[_ Hb]]; subst; try done;
        [by apply Hfresh in Hb|by apply Hfresh in Ha|by eapply H2].
    - intros k p t Ha. apply lookup_insert_Some in Ha as [[[= <- <-] _]|[_ Ha]]; [lia|by eapply H3].
    - intros k q t Ha. rewrite HS in Ha. destruct (H4 _ _ _ Ha) as [t2 Ht2].
      unfold tb'. rewrite lookup_insert. case_decide; eauto.
    - intros a t Ha. apply lookup_insert_Some in Ha as [[_ <-]|[_ Ha]]; [done|by eapply H5].
    - intros k p t i Ha Hi. rewrite HS. apply lookup_insert_Some in Ha as [[[= <- <-] <-]|[_ Ha]].
      + rewrite Hroot by done. by apply (H6 _ _ _ i H1).
      + rewrite (Hrd _ _ _ Ha Hi). by apply H6. }
  destruct (stops_exists Hwf va Hva) as (k & t & Hk & Hs).
  rewrite (hw_translate_stops Hwf va k t) by done. destruct Hs as [Hs1 Hs2].
  destruct k as [|k].
  - rewrite pfx_0 in Hs1 by done. rewrite (wf_root _ _ _ _ Hwf) in Hs1. injection Hs1 as <-.
    rewrite (hw_translate_stops Hwf' va 0 r'); [by rewrite Hroot by apply pidx_range|done|].
    split; [rewrite pfx_0 by done; apply lookup_insert_eq|by rewrite HS].
  - rewrite (hw_translate_stops Hwf' va (S k) t); [|done|by split; rewrite HS].
    by rewrite (Hrd _ _ _ Hs1) by apply pidx_range.
Qed.

(** [clone_from]: the clone translates like the source, which is unchanged. *)
Lemma clone_from_spec {E} s :
  pt_ok n L s → has_free s.1 →
  wp (E:=E) (clone_from (inner s.2))
    (λ pt w', intrm_tables pt = [] ∧ pt_ok n L (w', s.2) ∧
       ¬ fa_used n (w_fa s.1) (root_paddr (inner pt)) ∧
       ∀ va, in_range L va → translate L (w', pt) va = translate L s va ∧
                             translate L (w', s.2) va = translate L s va)
    (λ _ _, False) s.1.
Proof using HL PL HL34.
  intros [tb Hinv] Hfree. pose proof Hinv as [I1 I2 I3 I4 I5 I6].
  apply wp_bind. rewrite I1. eapply wp_mono; [by apply unlocked_new_spec| |done].
  intros pt w1 (_ & (Hc & Hfa & Hext & Hu & Hnu) & Hi & _ & Hm). fold (root_paddr (inner pt)) in Hu, Hnu.
  apply wp_bind, wp_modify, wp_ret. set (r' := root_paddr (inner pt)) in *.
  set (r := root_paddr (inner s.2)) in *.
  pose proof (fa_used_range _ _ _ Hfa Hu) as Hr'. pose proof (wf_addr _ _ _ _ I3 _ _ (wf_root _ _ _ _ I3)) as Hr.
  assert (∀ a, tb !! a ≠ Some r') as Hfresh by (intros a Ha; by eapply Hnu, I5, I4).
  assert (∀ a t b, tb !! a = Some t → t ≤ b < t + PAGE_SIZE → b < r' ∨ r' + PAGE_SIZE ≤ b) as Hdis.
  { intros a t b Ha Hb. pose proof (wf_addr _ _ _ _ I3 _ _ Ha) as (A1 & _). destruct Hr' as (A2 & _).
    assert (t ≠ r') by (intros ->; by eapply Hfresh). unfold PAGE_SIZE in *.
    apply Z.mod_divide in A1 as [x ->]; [|done]. apply Z.mod_divide in A2 as [y Hy]; [|done]. lia. }
  set (m' := copy_entries 512 r' r (w_mem w1)).
  assert (∀ a t b, tb !! a = Some t → t ≤ b < t + PAGE_SIZE → rd8 m' b = rd8 (w_mem s.1) b) as Hold.
  { intros a t b Ha Hb. pose proof (Hdis a t b Ha Hb). unfold m'. unfold PAGE_SIZE in *.
    rewrite copy_entries_out by lia. apply Hm. fold r'. unfold PAGE_SIZE. lia. }
  assert (∀ i, 0 ≤ i < 512 → read64 (w_mem w1) (r + 8 * i) = read64 (w_mem s.1) (r + 8 * i)) as Hrd.
  { intros i Hir. apply read64_ext. intros b Hb. apply Hm.
    pose proof (Hdis _ r b (wf_root _ _ _ _ I3)). fold r'. unfold PAGE_SIZE in *. lia. }
  assert (∀ i, 0 ≤ i < 512 → read64 m' (r' + 8 * i) = read64 (w_mem s.1) (r + 8 * i)) as Hroot.
  { intros i Hir. rewrite <- Hrd by done. apply copy_entries_in; [|..|done].
    - intros j Hj. rewrite Hrd by done. eapply entry_ok_u64; [|exact (wf_entries _ _ _ _ I3 _ _ _ j (wf_root _ _ _ _ I3) Hj)].
      intros t. apply (wf_addr _ _ _ _ I3).
    - pose proof (Hdis _ r r (wf_root _ _ _ _ I3)). pose proof (Hdis _ r (r + 4095) (wf_root _ _ _ _ I3)).
      unfold PAGE_SIZE in *. lia. }
  destruct (mem_wf_frame L _ m' _ tb I3 Hold) as [Hwf' Htr'].
  split; [done|]. split; [|split; [done|]].
  - exists tb. split; try done. intros t Ht. eapply fa_ext_used; [done|auto].
  - intros va Hva. split; [|by apply Htr']. by eapply second_root_wf.
Qed.

End instance.
