(* ===== verification/PtAccount.v ===== *)
(** * The frames of a page table

    Accounting for the frames a page table holds: its root and the intermediate
    tables it tracks. Whatever is mapped, unmapped or updated, successfully or
    not, the frames that are free together with those the object holds stay the
    same; dropping the object ([Drop for Frame] on the root and on each tracked
    table, src/src/memory/frame.rs) therefore gives back exactly what was taken. *)

From S2P Require Import Prelude PhysMem HvError Addr Frame Region Pte Paging Sim Stable FramePool.

(** ** Operations on one table, with their errors ignored *)

Section ops.
  Context {W PT : Type}.

(** The operations of a table object: they may return an error. *)
Fixpoint run_all (ops : list (M (W * PT) HvError unit)) (s : W * PT) : option (W * PT) :=
  match ops with
  | [] => Some s
  | o :: ops' =>
      match o s with
      | ROk _ s' | RErr _ s' => run_all ops' s'
      | RPanic _ | RHang => None
      end
  end.

Lemma run_all_stable I ops s s' :
  Forall (stable I) ops → I s → run_all ops s = Some s' → I s'.
Proof.
  revert s. induction ops as [|o ops IH]; intros s Hops Hs; simpl.
  { by intros [= <-]. }
  apply Forall_cons in Hops as [Ho Hops]. specialize (Ho s Hs).
  destruct (o s); try done; by apply IH.
Qed.

End ops.

Inductive pt_op : Type :=
| PtMap (r : MemoryRegion)
| PtUnmap (r : MemoryRegion)
| PtUpdate (vaddr paddr flags : Z).

Section account.
  Context {T : Type} {HB : BitAlloc T} {HL : BitAllocLaws T} {P : GenericPTE}.
  Implicit Types (s : @pts T) (w : world T).

Definition frames_of (pt : HvPageTable) : list Frame := root (inner pt) :: intrm_tables pt.

(** The free frames and those of the object are the ones free in [w0]. *)
Record accounted (n : Z) (w0 : world T) s : Prop := {
  acc_fa : fa_inv n (w_fa s.1);
  acc_base : base s.1 = base w0;
  acc_taken : Forall (taken n s.1) (frames_of s.2);
  acc_apart : apart (base s.1) (frames_of s.2);
  acc_free j : free s.1 j || hold_any (base s.1) (frames_of s.2) j = free w0 j
}.

Context (n : Z) (w0 : world T).

(** Only the allocator and the object count. *)
Lemma accounted_ext s s' :
  w_fa s'.1 = w_fa s.1 → s'.2 = s.2 → accounted n w0 s → accounted n w0 s'.
Proof.
  destruct s as [w pt], s' as [w' pt']. simpl. intros Hfa -> [H1 H2 H3 H4 H5]. simpl in *.
  unfold base, free in *. split; simpl; unfold base, free; rewrite ?Hfa; try done.
  eapply Forall_impl; [exact H3|]. intros f (i & G). exists i. unfold base, free in *. by rewrite Hfa.
Qed.

Lemma stable_load {E} slot : stable (accounted n w0) (with_world (E:=E) (load slot)).
Proof. apply stable_zoom. intros s. by apply accounted_ext. Qed.

Lemma stable_store {E} slot e : stable (accounted n w0) (with_world (E:=E) (store slot e)).
Proof. apply stable_zoom. intros s. by apply accounted_ext. Qed.

(** The one operation that takes frames pushes what it takes on the object. *)
Lemma stable_alloc : stable (accounted n w0) alloc_intrm_table.
Proof using HL.
  intros [w pt] [H1 H2 H3 H4 H5]. simpl in *. unfold alloc_intrm_table, hbind, with_world, zoom. simpl.
  pose proof (frame_new_zero_exact n w H1) as Hn. unfold wp in Hn.
  destruct (frame_new_zero w) as [f w'|e w'| |]; try done.
  - destruct Hn as (i & -> & Hi & Hfi & Hb & Hinv & Hf & _). simpl.
    destruct (push_taken n w w' (frames_of pt) i H3 H4 Hi Hfi Hb Hf) as (P1 & P2 & P3).
    split; simpl; [done|congruence|exact P1|exact P2|]. intros j. rewrite Hb, <- H5. apply P3.
  - destruct Hn as (_ & (Hm & Hb & Hinv & Hf) & _). split; simpl; [done|congruence| | |].
    + apply (taken_mono n w); [done| |done]. intros j _ Hj. by rewrite Hf.
    + by rewrite Hb.
    + intros j. by rewrite Hf, Hb.
Qed.

#[local] Hint Resolve stable_load stable_store stable_alloc : stable.

Lemma stable_table_index {E} t i : stable (accounted n w0) (table_index (E:=E) t i).
Proof. unfold table_index. solve_stable. Qed.

Lemma stable_next e : stable (accounted n w0) (next_table_mut (S:=pts) e).
Proof. unfold next_table_mut. solve_stable. Qed.

#[local] Hint Resolve stable_table_index stable_next : stable.

Lemma stable_create slot :
  stable (accounted n w0) (next_table_mut_or_create slot alloc_intrm_table).
Proof using HL. unfold next_table_mut_or_create. solve_stable. Qed.

#[local] Hint Resolve stable_create : stable.

Lemma stable_map_page page paddr fl : stable (accounted n w0) (map_page page paddr fl).
Proof using HL. unfold map_page, get_entry_mut_or_create. solve_stable. Qed.

(** The walk only reads. *)
Lemma walk_world pt va w :
  match get_entry_mut (T:=T) pt va w with
  | ROk _ w' | RErr _ w' => w' = w
  | RPanic _ | RHang => True
  end.
Proof.
  assert (stable (λ w', w' = w) (get_entry_mut pt va)) as H; [|by specialize (H w eq_refl)].
  unfold get_entry_mut, next_table_mut, table_index, load. solve_stable.
Qed.

Lemma stable_walk pt va : stable (accounted n w0) (with_world (get_entry_mut pt va)).
Proof.
  apply stable_zoom. intros s Hs. pose proof (walk_world pt va s.1) as Hw.
  destruct (get_entry_mut pt va s.1); try done; subst; by destruct s.
Qed.

#[local] Hint Resolve stable_map_page stable_walk : stable.

Lemma stable_map_loop fuel r va sz : stable (accounted n w0) (map_loop fuel r va sz).
Proof using HL.
  revert va sz. induction fuel; intros va sz; cbn [map_loop]; unfold new_aligned; solve_stable.
Qed.

Lemma stable_map r : stable (accounted n w0) (map r).
Proof using HL. unfold map. pose proof stable_map_loop. solve_stable. Qed.

Lemma stable_unmap r : stable (accounted n w0) (unmap r).
Proof using HL.
  unfold unmap. generalize (start r) (size r) (loop_fuel (size r)). intros va sz fuel. revert va sz.
  induction fuel; intros va sz; cbn [unmap_loop]; unfold unmap_page; solve_stable.
Qed.

Lemma stable_update va paddr fl : stable (accounted n w0) (update va paddr fl).
Proof using HL. unfold update. solve_stable. Qed.

Definition run_pt_op (o : pt_op) : M pts HvError unit :=
  match o with
  | PtMap r => map r
  | PtUnmap r => unmap r
  | PtUpdate va pa fl => map_err paging_to_hv (update va pa fl) ;;; hret tt
  end.

Lemma stable_pt_op o : stable (accounted n w0) (run_pt_op o).
Proof using HL.
  destruct o; simpl; [apply stable_map|apply stable_unmap|].
  pose proof stable_update. solve_stable.
Qed.

(** Dropping an accounted table frees what it held. *)
Lemma pt_drop_spec {E} s :
  accounted n w0 s →
  wp (E:=E) (pt_drop s.2)
    (λ _ w', base w' = base w0 ∧ fa_inv n (w_fa w') ∧ (∀ j, free w' j = free w0 j) ∧
             w_mem w' = w_mem s.1) (λ _ _, False) s.1.
Proof using HL.
  intros [H1 H2 H3 H4 H5]. change (pt_drop s.2) with (drop_frames (E:=E) (frames_of s.2)).
  eapply wp_mono; [by apply (drop_frames_spec n)| |done].
  intros _ w' (Hm & Hb & Hi & Hf). split_and!; [congruence|done|by intros j; rewrite Hf, H5|done].
Qed.

End account.

Section new.
  Context {T : Type} {HB : BitAlloc T} {HL : BitAllocLaws T} {P : GenericPTE}.

(** A new table is accounted for. *)
Lemma new_accounted {E} n lvl (w w' : world T) pt :
  fa_inv n (w_fa w) → unlocked_new (E:=E) lvl w = ROk pt w' → accounted n w (w', pt).
Proof using HL.
  intros Hinv. unfold unlocked_new, immut_new, hbind, hunwrap, hassert, hret.
  destruct (_ || _); [|done].
  pose proof (frame_new_zero_exact n w Hinv) as Hn. unfold wp in Hn.
  destruct (frame_new_zero w) as [f w1|e w1| |]; try done. intros [= <- <-].
  destruct Hn as (i & -> & Hi & Hfi & Hb & Hinv1 & Hf & _).
  destruct (push_taken n w w1 [] i) as (P1 & P2 & P3); try done.
  split; simpl; [done|done|exact P1|exact P2|]. intros j. rewrite Hb. rewrite <- (orb_false_r (free w j)).
  apply P3.
Qed.

End new.
