(* ===== verification/BTreeMap.v ===== *)
(** * [alloc::collections::BTreeMap] with integer keys

    The operations the hypervisor uses, on an association list kept in strictly
    increasing key order ([bt_wf]); [bt_map] is its meaning as a finite map.
    Iteration ([values]) is in key order. *)

From stdpp Require Import sorting.
From S2P Require Import Prelude.

Section BTreeMap.
  Context {V : Type}.

Definition btree : Type := list (Z * V).

Definition bt_empty : btree := [].

Fixpoint bt_insert (k : Z) (v : V) (t : btree) : btree :=
  match t with
  | [] => [(k, v)]
  | (k', v') :: t' =>
      if k <? k' then (k, v) :: t
      else if k =? k' then (k, v) :: t'
      else (k', v') :: bt_insert k v t'
  end.

Fixpoint bt_get (k : Z) (t : btree) : option V :=
  match t with
  | [] => None
  | (k', v) :: t' => if k =? k' then Some v else bt_get k t'
  end.

Fixpoint bt_remove (k : Z) (t : btree) : btree :=
  match t with
  | [] => []
  | (k', v) :: t' => if k =? k' then t' else (k', v) :: bt_remove k t'
  end.

(** [range(..k).last()] *)
Fixpoint bt_range_before_last (k : Z) (t : btree) : option (Z * V) :=
  match t with
  | [] => None
  | (k', v) :: t' =>
      if k' <? k then
        match bt_range_before_last k t' with Some x => Some x | None => Some (k', v) end
      else None
  end.

(** [range(k..).next()] *)
Fixpoint bt_range_from_next (k : Z) (t : btree) : option (Z * V) :=
  match t with
  | [] => None
  | (k', v) :: t' => if k' <? k then bt_range_from_next k t' else Some (k', v)
  end.

Definition bt_values (t : btree) : list V := snd <$> t.

(** ** Invariant and meaning *)

Definition bt_wf (t : btree) : Prop := StronglySorted Z.lt (fst <$> t).

Definition bt_map (t : btree) : gmap Z V := list_to_map t.

Implicit Types (t : btree).

Lemma bt_wf_cons k v t : bt_wf ((k, v) :: t) ↔ (∀ k' v', (k', v') ∈ t → k < k') ∧ bt_wf t.
Proof.
  unfold bt_wf. simpl. split.
  - intros [Hs Hf]%StronglySorted_inv. split; [|done]. intros k' v' Hin.
    rewrite List.Forall_forall in Hf. apply Hf, list_elem_of_In.
    apply list_elem_of_fmap. by exists (k', v').
  - intros [Hlt Hs]. constructor; [done|]. apply List.Forall_forall. intros k' Hin.
    apply list_elem_of_In, list_elem_of_fmap in Hin as ([k1 v1] & -> & Hin). by eapply Hlt.
Qed.

Lemma bt_get_lookup k t : bt_get k t = bt_map t !! k.
Proof.
  induction t as [|[k' v] t IH]; simpl; [done|]. unfold bt_map in *. simpl.
  rewrite lookup_insert. destruct (Z.eqb_spec k k'); case_decide; congruence.
Qed.

Lemma bt_insert_elem k v t x : x ∈ bt_insert k v t → x = (k, v) ∨ x ∈ t.
Proof.
  induction t as [|[k' v'] t IH]; simpl; [set_solver|].
  destruct (k <? k'); [set_solver|]. destruct (k =? k'); set_solver.
Qed.

Lemma bt_insert_wf k v t : bt_wf t → bt_wf (bt_insert k v t).
Proof.
  induction t as [|[k' v'] t IH]; simpl.
  { intros _. apply bt_wf_cons. split; [set_solver|constructor]. }
  intros Hwf. pose proof Hwf as [Hlt Hwf']%bt_wf_cons.
  destruct (Z.ltb_spec k k').
  { apply bt_wf_cons. split; [|done]. intros k1 v1 [[= -> ->]|Hin]%elem_of_cons; [done|].
    apply Hlt in Hin. lia. }
  destruct (Z.eqb_spec k k') as [->|].
  { by apply bt_wf_cons. }
  apply bt_wf_cons. split; [|by apply IH]. intros k1 v1 [[= -> ->]|Hin]%bt_insert_elem; [lia|].
  by apply Hlt in Hin.
Qed.

Lemma bt_insert_map k v t : bt_map (bt_insert k v t) = <[k:=v]> (bt_map t).
Proof.
  induction t as [|[k' v'] t IH]; simpl; [done|]. unfold bt_map in *.
  destruct (k <? k'); [done|]. destruct (Z.eqb_spec k k') as [->|]; simpl.
  - by rewrite insert_insert_eq.
  - rewrite IH. by apply insert_insert_ne.
Qed.

Lemma bt_remove_elem k t x : x ∈ bt_remove k t → x ∈ t.
Proof.
  induction t as [|[k' v'] t IH]; simpl; [done|]. destruct (k =? k'); set_solver.
Qed.

Lemma bt_remove_wf k t : bt_wf t → bt_wf (bt_remove k t).
Proof.
  induction t as [|[k' v'] t IH]; simpl; [done|]. intros [Hlt Hwf]%bt_wf_cons.
  destruct (k =? k'); [done|]. apply bt_wf_cons. split; [|by apply IH].
  intros k1 v1 Hin%bt_remove_elem. by eapply Hlt.
Qed.

Lemma bt_elem_lookup k v t : bt_wf t → (k, v) ∈ t ↔ bt_map t !! k = Some v.
Proof.
  intros Hwf. unfold bt_map. apply elem_of_list_to_map.
  unfold bt_wf in Hwf. induction Hwf as [|a l Hs IH Hf]; constructor; [|done].
  intros Hin. rewrite List.Forall_forall in Hf. apply list_elem_of_In, Hf in Hin. lia.
Qed.

Lemma bt_remove_map k t : bt_wf t → bt_map (bt_remove k t) = delete k (bt_map t).
Proof.
  induction t as [|[k' v'] t IH]; simpl; [done|]. intros Hwf.
  pose proof Hwf as [Hlt Hwf']%bt_wf_cons. unfold bt_map in *. simpl.
  destruct (Z.eqb_spec k k') as [->|Hne]; simpl.
  - rewrite delete_insert_id; [done|].
    apply not_elem_of_list_to_map. intros ([k1 v1] & Hk & Hin)%list_elem_of_fmap.
    simpl in Hk. subst k1. apply Hlt in Hin. lia.
  - rewrite IH by done. by rewrite delete_insert_ne.
Qed.

(** The largest key below [k]. *)
Lemma bt_before_spec k t :
  bt_wf t →
  match bt_range_before_last k t with
  | Some (k', v) => (k', v) ∈ t ∧ k' < k ∧ ∀ k1 v1, (k1, v1) ∈ t → k1 < k → k1 ≤ k'
  | None => ∀ k1 v1, (k1, v1) ∈ t → k ≤ k1
  end.
Proof.
  induction t as [|[k' v'] t IH]; simpl; [set_solver|].
  intros [Hlt Hwf]%bt_wf_cons. specialize (IH Hwf).
  destruct (Z.ltb_spec k' k) as [Hk|Hk].
  - destruct (bt_range_before_last k t) as [[k1 v1]|].
    + destruct IH as (Hin & Hlt1 & Hmax). split; [set_solver|]. split; [done|].
      intros k2 v2 [[= -> ->]|Hin2]%elem_of_cons Hk2; [apply Hlt in Hin; lia|eauto].
    + split; [set_solver|]. split; [done|].
      intros k2 v2 [[= -> ->]|Hin2]%elem_of_cons Hk2; [done|]. apply IH in Hin2. lia.
  - intros k2 v2 [[= -> ->]|Hin2]%elem_of_cons; [done|]. apply Hlt in Hin2. lia.
Qed.

(** The smallest key at or above [k]. *)
Lemma bt_from_spec k t :
  bt_wf t →
  match bt_range_from_next k t with
  | Some (k', v) => (k', v) ∈ t ∧ k ≤ k' ∧ ∀ k1 v1, (k1, v1) ∈ t → k ≤ k1 → k' ≤ k1
  | None => ∀ k1 v1, (k1, v1) ∈ t → k1 < k
  end.
Proof.
  induction t as [|[k' v'] t IH]; simpl; [set_solver|].
  intros [Hlt Hwf]%bt_wf_cons. specialize (IH Hwf).
  destruct (Z.ltb_spec k' k) as [Hk|Hk].
  - destruct (bt_range_from_next k t) as [[k1 v1]|].
    + destruct IH as (Hin & Hlt1 & Hmin). split; [set_solver|]. split; [done|].
      intros k2 v2 [[= -> ->]|Hin2]%elem_of_cons Hk2; [lia|eauto].
    + intros k2 v2 [[= -> ->]|Hin2]%elem_of_cons; [done|eauto].
  - split; [set_solver|]. split; [done|].
    intros k2 v2 [[= -> ->]|Hin2]%elem_of_cons _; [done|]. apply Hlt in Hin2. lia.
Qed.

End BTreeMap.
Arguments btree : clear implicits.
