(* ===== verification/MemorySet.v ===== *)
(** * Address spaces: [MemorySet] (src/src/memory/mm.rs)

    A set of non-overlapping regions and a page table that maps exactly them.
    The component is generic in the page table: everything here is proved from
    the contract [GenericPageTableLaws]. *)

From S2P Require Import Prelude HvError Addr Region Pte PtIface BTreeMap.

Record MemorySet (PT : Type) : Type := mkMS {
  ms_regions : btree MemoryRegion;
  ms_pt : PT
}.
Arguments mkMS {PT} _ _.
Arguments ms_regions {PT} _.
Arguments ms_pt {PT} _.

Section MemorySet.
  Context {W PT : Type} {G : GenericPageTable W PT}.

(** The shared state and one address space. *)
Abbreviation mss := (W * MemorySet PT)%type.

Definition pt_part (s : mss) : W * PT := (s.1, ms_pt s.2).
Definition set_pt_part (t : W * PT) (s : mss) : mss := (t.1, mkMS (ms_regions s.2) t.2).
Definition with_pt {E A} (m : M (W * PT) E A) : M mss E A := zoom pt_part set_pt_part m.

Definition set_regions {E} (t : btree MemoryRegion) : M mss E unit :=
  hmodify (λ s, (s.1, mkMS t (ms_pt s.2))).

Definition ms_new (pt_level : Z) : M W HvError (MemorySet PT) :=
  let* pt := gpt_new pt_level in
  hret (mkMS bt_empty pt).

Definition ms_clone : M mss HvError (MemorySet PT) :=
  let* regions := hgets (λ s, ms_regions s.2) in
  let* pt := with_pt gpt_clone in
  hret (mkMS regions pt).

Definition test_free_area (other : MemoryRegion) : M mss HvError bool :=
  let* regions := hgets (λ s, ms_regions s.2) in
  let* b1 := match bt_range_before_last (start other) regions with
             | Some (_, before) => is_overlap_with before other
             | None => hret false
             end in
  if b1 then hret false else
  let* b2 := match bt_range_from_next (start other) regions with
             | Some (_, after) => is_overlap_with after other
             | None => hret false
             end in
  if b2 then hret false else hret true.

Definition ms_insert (region : MemoryRegion) : M mss HvError unit :=
  hassert (is_aligned (start region)) ;;;
  hassert (is_aligned (size region)) ;;;
  if size region =? 0 then hret tt else
  let* free := test_free_area region in
  if negb free then hv_result_err EINVAL else
  with_pt (gpt_map region) ;;;
  let* regions := hgets (λ s, ms_regions s.2) in
  set_regions (bt_insert (start region) region regions).

Definition ms_delete (start : Z) : M mss HvError unit :=
  let* regions := hgets (λ s, ms_regions s.2) in
  match bt_get start regions with
  | Some r => with_pt (gpt_unmap r) ;;; set_regions (bt_remove start regions)
  | None => hv_result_err EINVAL
  end.

(** [for region in self.regions.values() { self.pt.unmap(region).unwrap() }] *)
Fixpoint unmap_all (rs : list MemoryRegion) : M mss HvError unit :=
  match rs with
  | [] => hret tt
  | r :: rs' => hunwrap (E:=HvError) (with_pt (gpt_unmap r)) ;;; unmap_all rs'
  end.

Definition ms_clear : M mss HvError unit :=
  let* regions := hgets (λ s, ms_regions s.2) in
  unmap_all (bt_values regions) ;;;
  set_regions bt_empty.

Definition page_table_query (vaddr : Z) : M mss PagingError (Z * Z * PageSize) :=
  with_pt (gpt_query vaddr).

(** [Drop]: [clear], then the fields are dropped. *)
Definition ms_drop : M mss HvError unit :=
  ms_clear ;;;
  let* pt := hgets (λ s, ms_pt s.2) in
  zoom fst (λ w s, (w, s.2)) (gpt_drop pt).

(** ** Abstract view: a finite map of regions *)

Definition ms_map (s : mss) : gmap Z MemoryRegion := bt_map (ms_regions s.2).

Definition overlap (r r' : MemoryRegion) : Prop := ∃ v, in_region r v ∧ in_region r' v.

Definition area_free (m : gmap Z MemoryRegion) (r : MemoryRegion) : Prop :=
  ∀ k r', m !! k = Some r' → ¬ overlap r' r.

Context {GL : GenericPageTableLaws W PT}.
Implicit Types (s : mss) (r : MemoryRegion).

Definition ms_view (s : mss) : view := gpt_view (pt_part s).
Definition ms_step (s s' : mss) : Prop := gpt_step (pt_part s) (pt_part s').

(** The regions of a set. *)
Definition regions_ok (m : gmap Z MemoryRegion) : Prop :=
  (∀ k r, m !! k = Some r → k = start r ∧ 0 < size r ∧ region_mappable gpt_format gpt_limit r) ∧
  (∀ k k' r r', m !! k = Some r → m !! k' = Some r' → overlap r r' → k = k').

(** The table maps the regions of [m] and nothing else. *)
Definition maps_exactly (v : view) (m : gmap Z MemoryRegion) : Prop :=
  ∀ va, 0 ≤ va < gpt_limit →
    (∀ k r, m !! k = Some r → in_region r va →
            region_view gpt_format r (start r) (start r + size r) v va) ∧
    ((∀ k r, m !! k = Some r → ¬ in_region r va) → v va = None).

Record ms_inv (s : mss) : Prop := {
  ms_sorted : bt_wf (ms_regions s.2);
  ms_ok : gpt_ok (pt_part s);
  ms_regions_ok : regions_ok (ms_map s);
  ms_exact : maps_exactly (ms_view s) (ms_map s)
}.

(** ** [test_free_area] *)

Lemma overlap_sym r r' : overlap r r' → overlap r' r.
Proof. intros (v & ? & ?). by exists v. Qed.

(** The conditions [is_overlap_with] needs. *)
Lemma mappable_ok r : region_mappable gpt_format gpt_limit r → 0 < size r → region_ok r.
Proof using GL.
  intros (_ & _ & _ & H0 & _ & Hl & _) Hs. pose proof gpt_limit_u64. split_and!; lia.
Qed.

Lemma wp_overlap {S} r r' Q R (s : S) :
  region_ok r → region_ok r' →
  (∀ b, (b = true ↔ overlap r r') → Q b s) → wp (E:=HvError) (is_overlap_with r r') Q R s.
Proof.
  intros H1 H2 HQ. destruct (is_overlap_with_spec (E:=HvError) r r' s H1 H2) as (b & He & Hb).
  unfold wp. rewrite He. by apply HQ.
Qed.

Lemma ms_elem s k r : ms_inv s → (k, r) ∈ ms_regions s.2 ↔ ms_map s !! k = Some r.
Proof. intros Hinv. by apply bt_elem_lookup, Hinv. Qed.

Lemma ms_region s k r : ms_inv s → ms_map s !! k = Some r → k = start r ∧ region_ok r.
Proof using GL.
  intros [_ _ [Hreg _] _] Hk. destruct (Hreg _ _ Hk) as (-> & ? & ?).
  split; [done|by apply mappable_ok].
Qed.

(** The regions that start below [r], or not below, and overlap it. *)
Definition overlap_before s r : Prop :=
  ∃ k r', ms_map s !! k = Some r' ∧ k < start r ∧ overlap r' r.
Definition overlap_after s r : Prop :=
  ∃ k r', ms_map s !! k = Some r' ∧ start r ≤ k ∧ overlap r' r.

Lemma nearest_before s r :
  ms_inv s → region_ok r →
  wp (E:=HvError)
     (match bt_range_before_last (start r) (ms_regions s.2) with
      | Some (_, before) => is_overlap_with before r
      | None => hret false
      end) (λ b s', s' = s ∧ (b = true ↔ overlap_before s r)) (λ _ _, False) s.
Proof using GL.
  intros Hinv Hrok. pose proof (bt_before_spec (start r) _ (ms_sorted _ Hinv)) as Hb.
  destruct (bt_range_before_last (start r) (ms_regions s.2)) as [[k1 r1]|].
  - destruct Hb as (Hin & Hlt & Hmax). rewrite ms_elem in Hin by done.
    destruct (ms_region _ _ _ Hinv Hin) as [-> Hr1].
    apply wp_overlap; try done. intros b Hbo. split; [done|]. rewrite Hbo.
    split; [intros ?; by exists (start r1), r1|]. intros (k & r' & Hk & Hkr & Hov).
    destruct (ms_region _ _ _ Hinv Hk) as [-> Hr'].
    pose proof (Hmax (start r') r') as Hm. rewrite ms_elem in Hm by done. specialize (Hm Hk Hkr).
    destruct (decide (start r' = start r1)) as [Heq|Hne]; [by replace r1 with r' by congruence|].
    exfalso. apply Hne, (proj2 (ms_regions_ok _ Hinv) _ _ r' r1 Hk Hin). exists (start r1).
    destruct Hov as (v & Hv1 & Hv2), Hr' as (?&?&?), Hr1 as (?&?&?). unfold in_region in *. lia.
  - apply wp_ret. split; [done|]. split; [done|]. intros (k & r' & Hk & Hkr & _).
    apply ms_elem, Hb in Hk; [lia|done].
Qed.

Lemma nearest_after s r :
  ms_inv s → region_ok r →
  wp (E:=HvError)
     (match bt_range_from_next (start r) (ms_regions s.2) with
      | Some (_, after) => is_overlap_with after r
      | None => hret false
      end) (λ b s', s' = s ∧ (b = true ↔ overlap_after s r)) (λ _ _, False) s.
Proof using GL.
  intros Hinv Hrok. pose proof (bt_from_spec (start r) _ (ms_sorted _ Hinv)) as Hf.
  destruct (bt_range_from_next (start r) (ms_regions s.2)) as [[k1 r1]|].
  - destruct Hf as (Hin & Hle & Hmin). rewrite ms_elem in Hin by done.
    destruct (ms_region _ _ _ Hinv Hin) as [-> Hr1].
    apply wp_overlap; try done. intros b Hbo. split; [done|]. rewrite Hbo.
    split; [intros ?; by exists (start r1), r1|]. intros (k & r' & Hk & Hkr & Hov).
    destruct (ms_region _ _ _ Hinv Hk) as [-> Hr'].
    pose proof (Hmin (start r') r') as Hm. rewrite ms_elem in Hm by done. specialize (Hm Hk Hkr).
    exists (start r1). destruct Hov as (v & Hv1 & Hv2), Hr1 as (?&?&?).
    unfold in_region in *. lia.
  - apply wp_ret. split; [done|]. split; [done|]. intros (k & r' & Hk & Hkr & _).
    apply ms_elem, Hf in Hk; [lia|done].
Qed.

(** Looking at the nearest region on each side is enough: [test_free_area] is
    true exactly when no region of the set overlaps. *)
Lemma test_free_area_spec s r :
  ms_inv s → region_mappable gpt_format gpt_limit r → 0 < size r →
  wp (test_free_area r) (λ b s', s' = s ∧ (b = true ↔ area_free (ms_map s) r))
     (λ _ _, False) s.
Proof using GL.
  intros Hinv Hr Hsz. pose proof (mappable_ok r Hr Hsz) as Hrok.
  apply wp_bind, wp_gets, wp_bind.
  eapply wp_mono; [by apply nearest_before| |done]. intros b1 s1 [-> Hb1]. destruct b1.
  { apply wp_ret. split; [done|]. split; [done|]. intros Hfree.
    destruct (proj1 Hb1 eq_refl) as (k & r' & Hk & _ & Hov). by edestruct Hfree. }
  apply wp_bind. eapply wp_mono; [by apply nearest_after| |done].
  intros b2 s2 [-> Hb2]. destruct b2; apply wp_ret; (split; [done|]).
  - split; [done|]. intros Hfree. destruct (proj1 Hb2 eq_refl) as (k & r' & Hk & _ & Hov).
    by edestruct Hfree.
  - split; [|done]. intros _ k r' Hk Hov. destruct (Z.lt_ge_cases k (start r)) as [Hlt|Hge].
    + discriminate (proj2 Hb1). by exists k, r'.
    + discriminate (proj2 Hb2). by exists k, r'.
Qed.

(** ** [insert] *)

Lemma wp_with_pt {E A} (m : M (W * PT) E A) Q R s :
  wp m (λ a t, Q a (set_pt_part t s)) (λ e t, R e (set_pt_part t s)) (pt_part s) →
  wp (with_pt m) Q R s.
Proof. apply wp_zoom. Qed.

Lemma pt_part_set t s : pt_part (set_pt_part t s) = t.
Proof. by destruct t. Qed.

(** What mapping a free region does to the exactness of the table. *)
Lemma maps_exactly_insert v v' m r :
  regions_ok m → region_mappable gpt_format gpt_limit r → 0 < size r → area_free m r →
  maps_exactly v m →
  mapped_range gpt_format gpt_limit r (start r) (start r + size r) v v' →
  regions_ok (<[start r:=r]> m) ∧ maps_exactly v' (<[start r:=r]> m).
Proof using GL.
  intros [Hreg Hdis] Hr Hsz Hfree Hex Hmap.
  assert (m !! start r = None) as Hnone.
  { destruct (m !! start r) as [r'|] eqn:E; [|done]. destruct (Hreg _ _ E) as (Heq & Hs' & _).
    exfalso. apply (Hfree _ _ E). exists (start r). unfold in_region. lia. }
  split; [split|].
  - intros k r' [[<- <-]|[_ Hk]]%lookup_insert_Some; [done|eauto].
  - intros k k' r1 r2 [[<- <-]|[Hn1 H1]]%lookup_insert_Some [[<- <-]|[Hn2 H2]]%lookup_insert_Some Hov;
      [done| | |eauto].
    + apply overlap_sym in Hov. by apply (Hfree _ _ H2) in Hov.
    + by apply (Hfree _ _ H1) in Hov.
  - intros va Hva. destruct (Hex va Hva) as [Hin Hout], (Hmap va Hva) as [Mi Mo]. split.
    + intros k r' [[<- <-]|[Hn Hk]]%lookup_insert_Some Hva'; [by apply Mi|].
      eapply region_view_ext; [reflexivity|reflexivity| |by eapply Hin]. apply Mo.
      intros Hva2. apply (Hfree _ _ Hk). by exists va.
    + intros Hno. rewrite Mo; [|apply (Hno (start r) r), lookup_insert_eq]. apply Hout.
      intros k r' Hk. apply (Hno k). rewrite lookup_insert_ne; [done|congruence].
Qed.

(** What a failed [insert] leaves behind: the regions are as before, the table
    maps a first part [start, x) of the region. *)
Definition partly_mapped s r s' : Prop :=
  ms_regions s'.2 = ms_regions s.2 ∧ gpt_ok (pt_part s') ∧
  ∃ x, start r ≤ x < start r + size r ∧
       mapped_range gpt_format gpt_limit r (start r) x (ms_view s) (ms_view s').

Lemma ms_insert_spec s r :
  ms_inv s → region_mappable gpt_format gpt_limit r →
  wp (ms_insert r)
    (λ _ s', ms_inv s' ∧ ms_step s s' ∧
       if size r =? 0 then s' = s
       else area_free (ms_map s) r ∧ ms_map s' = <[start r := r]> (ms_map s))
    (λ e s', ms_step s s' ∧
       ((num e = EINVAL ∧ s' = s ∧ ¬ area_free (ms_map s) r) ∨
        (map_error e ∧ area_free (ms_map s) r ∧ partly_mapped s r s'))) s.
Proof using GL.
  intros Hinv Hr. pose proof Hr as (Hm & Ha & Hsa & H0 & Hs0 & Hlim).
  assert (ms_step s s) as Hrefl by (unfold ms_step; reflexivity).
  apply wp_bind, wp_assert; [by apply is_aligned_spec|].
  apply wp_bind, wp_assert; [by apply is_aligned_spec|].
  destruct (Z.eqb_spec (size r) 0) as [Hz|Hnz]; [by apply wp_ret|].
  apply wp_bind. eapply wp_mono; [apply test_free_area_spec; [done|done|lia]| |done].
  intros b s1 [-> Hb]. destruct b; simpl.
  2:{ apply wp_err. split; [done|]. left. split_and!; [done|done|].
      intros Hf. by apply Hb in Hf. }
  pose proof (proj1 Hb eq_refl) as Hfree. apply wp_bind, wp_with_pt.
  eapply wp_mono; [apply gpt_map_law; [apply Hinv|done]| |].
  - intros _ t (Hok & Hst & Hmap). apply wp_bind, wp_gets, wp_modify.
    destruct (maps_exactly_insert (ms_view s) (gpt_view t) (ms_map s) r) as [Hro Hex]; try done.
    { apply Hinv. } { lia. } { apply Hinv. }
    assert (ms_map (t.1, mkMS (bt_insert (start r) r (ms_regions s.2)) t.2) =
            <[start r:=r]> (ms_map s)) as Heq by apply bt_insert_map.
    split; [|split; [unfold ms_step; by destruct t|done]].
    split; simpl; [by apply bt_insert_wf, Hinv|by destruct t|by rewrite Heq|].
    unfold ms_view. rewrite Heq. by destruct t.
  - intros e t (He & Hok & Hst & Hx). rewrite <- (pt_part_set t s) in Hok, Hst, Hx.
    split; [done|]. right. split_and!; [done|done|]. by split_and!.
Qed.

(** ** [delete], [clear] *)

Lemma region_covered s k r :
  ms_inv s → ms_map s !! k = Some r → covered (start r) (start r + size r) (ms_view s).
Proof using GL.
  intros Hinv Hk. destruct (ms_regions_ok _ Hinv) as [Hreg _].
  destruct (Hreg _ _ Hk) as (_ & Hs & (_ & _ & _ & H0 & _ & Hl)).
  eapply (region_view_covered gpt_format r). intros va Hva.
  destruct (ms_exact _ Hinv va) as [Hin _]; [lia|]. eapply Hin; [done|]. exact Hva.
Qed.

Lemma maps_exactly_delete v v' m k r :
  regions_ok m → m !! k = Some r → maps_exactly v m →
  unmapped_range gpt_limit (start r) (start r + size r) v v' →
  regions_ok (delete k m) ∧ maps_exactly v' (delete k m).
Proof using GL.
  intros [Hreg Hdis] Hk Hex Hun. split; [split|].
  - intros k' r' [_ Hk']%lookup_delete_Some. eauto.
  - intros k1 k2 r1 r2 [_ H1]%lookup_delete_Some [_ H2]%lookup_delete_Some. eauto.
  - intros va Hva. destruct (Hex va Hva) as [Hin Hout], (Hun va Hva) as [Ui Uo]. split.
    + intros k' r' [Hne Hk']%lookup_delete_Some Hva'.
      eapply region_view_ext; [reflexivity|reflexivity| |by eapply Hin]. apply Uo.
      intros Hva2. apply Hne, (Hdis _ _ r r' Hk Hk'). by exists va.
    + intros Hno. destruct (decide (in_region r va)) as [Hir|Hir]; [by apply Ui|].
      rewrite Uo by exact Hir. apply Hout. intros k' r' Hk' Hva'.
      destruct (decide (k = k')) as [<-|Hne]; [congruence|].
      apply (Hno k' r'); [|done]. by rewrite lookup_delete_ne.
Qed.

Lemma ms_delete_spec s k :
  ms_inv s →
  wp (ms_delete k)
    (λ _ s', ms_inv s' ∧ ms_step s s' ∧ is_Some (ms_map s !! k) ∧
             ms_map s' = delete k (ms_map s))
    (λ e s', num e = EINVAL ∧ s' = s ∧ ms_map s !! k = None) s.
Proof using GL.
  intros Hinv. apply wp_bind, wp_gets. rewrite bt_get_lookup. fold (ms_map s).
  destruct (ms_map s !! k) as [r|] eqn:Hk; [|by apply wp_err].
  destruct (ms_regions_ok _ Hinv) as [Hreg _].
  destruct (Hreg _ _ Hk) as (-> & Hs & (_ & _ & _ & H0 & _ & Hl)).
  apply wp_bind, wp_with_pt. eapply wp_mono.
  { apply gpt_unmap_law; [apply Hinv|lia..|by eapply region_covered]. } 2: done.
  intros _ t (Hok & Hst & Hun). apply wp_modify.
  destruct (maps_exactly_delete (ms_view s) (gpt_view t) (ms_map s) (start r) r) as [Hro Hex];
    try done; try apply Hinv.
  assert (ms_map (t.1, mkMS (bt_remove (start r) (ms_regions s.2)) t.2) =
          delete (start r) (ms_map s)) as Heq by apply bt_remove_map, Hinv.
  split; [|split; [unfold ms_step; by destruct t|by split; [eexists|]]].
  split; simpl; [by apply bt_remove_wf, Hinv|by destruct t|by rewrite Heq|].
  unfold ms_view. rewrite Heq. by destruct t.
Qed.

(** The loop of [clear]: whatever sorted part [t] of the regions is left, the
    table is left empty. *)
Lemma unmap_all_spec (t : btree MemoryRegion) s :
  bt_wf t → gpt_ok (pt_part s) → regions_ok (bt_map t) → maps_exactly (ms_view s) (bt_map t) →
  wp (unmap_all (bt_values t))
    (λ _ s', gpt_ok (pt_part s') ∧ ms_step s s' ∧ maps_exactly (ms_view s') ∅)
    (λ _ _, False) s.
Proof using GL.
  revert s. induction t as [|[k r] t IH]; intros s Hwf Hok Hro Hex; simpl.
  { apply wp_ret. split_and!; [done|unfold ms_step; reflexivity|done]. }
  pose proof Hwf as [Hlt Hwf']%bt_wf_cons.
  assert (bt_map ((k, r) :: t) !! k = Some r) as Hk by (unfold bt_map; simpl; apply lookup_insert_eq).
  destruct (proj1 Hro _ _ Hk) as (-> & Hs & (_ & _ & _ & H0 & _ & Hl)).
  apply wp_bind, wp_unwrap, wp_with_pt. eapply wp_mono.
  { apply gpt_unmap_law; [done|lia..|]. eapply (region_view_covered gpt_format r). intros va Hva.
    destruct (Hex va) as [Hin _]; [lia|]. by eapply Hin. }
  2: done. intros _ t1 (Hok1 & Hst1 & Hun).
  assert (delete (start r) (bt_map ((start r, r) :: t)) = bt_map t) as Hdel.
  { rewrite <- bt_remove_map by done. simpl. by rewrite Z.eqb_refl. }
  destruct (maps_exactly_delete _ _ _ _ _ Hro Hk Hex Hun) as [Hro' Hex']. rewrite Hdel in Hro', Hex'.
  rewrite <- (pt_part_set t1 s) in Hok1, Hst1, Hex'.
  eapply wp_mono; [by apply IH| |done]. intros _ s2 (A & B & C).
  split_and!; [done|unfold ms_step in *; by etrans|done].
Qed.

Lemma ms_clear_spec s :
  ms_inv s →
  wp ms_clear
    (λ _ s', ms_inv s' ∧ ms_step s s' ∧ ms_map s' = ∅ ∧
             ∀ va, 0 ≤ va < gpt_limit → ms_view s' va = None)
    (λ _ _, False) s.
Proof using GL.
  intros [Hwf Hok Hro Hex]. apply wp_bind, wp_gets, wp_bind.
  eapply wp_mono; [by apply unmap_all_spec| |done]. intros _ s1 (Hok1 & Hst & Hex1).
  apply wp_modify. split; [|split; [done|split; [done|]]].
  - split; try done. constructor.
  - intros va Hva. by apply Hex1.
Qed.

(** ** [new], [page_table_query] *)

Lemma ms_query_view s va :
  ms_inv s → 0 ≤ va < gpt_limit →
  page_table_query va s = match ms_view s va with
                          | Some x => ROk x s
                          | None => RErr NotMapped s
                          end.
Proof using GL.
  intros Hinv Hva. assert (set_pt_part (pt_part s) s = s) as Heq by (by destruct s as [w []]).
  unfold page_table_query, with_pt, zoom. rewrite (gpt_query_law _ _ (ms_ok _ Hinv) Hva).
  fold (ms_view s). by destruct (ms_view s va); rewrite Heq.
Qed.

End MemorySet.
