(* ===== verification/MemoryDrop.v ===== *)
(** * Dropping an address space that was only partly built

    When [MemorySet::insert] fails, a first part of the region stays mapped
    although no region of the set says so. What is left still maps its regions,
    and that is enough for [Drop for MemorySet] (src/src/memory/mm.rs) to unmap
    them and give the page table back without a panic in [clear]. *)

From S2P Require Import Prelude HvError Addr Region Pte PtIface BTreeMap MemorySet.

Section drop.
  Context {W PT : Type} {G : GenericPageTable W PT} {GL : GenericPageTableLaws W PT}.
  Implicit Types (s : W * MemorySet PT) (r : MemoryRegion).

(** The table maps at least the regions of [m]. *)
Definition maps_regions (v : view) (m : gmap Z MemoryRegion) : Prop :=
  ∀ va k r, 0 ≤ va < gpt_limit → m !! k = Some r → in_region r va →
            region_view gpt_format r (start r) (start r + size r) v va.

(** What even a failed operation keeps. *)
Record ms_weak s : Prop := {
  weak_sorted : bt_wf (ms_regions s.2);
  weak_ok : gpt_ok (pt_part s);
  weak_regions : regions_ok (ms_map s);
  weak_maps : maps_regions (ms_view s) (ms_map s)
}.

Lemma ms_inv_weak s : ms_inv s → ms_weak s.
Proof. intros [H1 H2 H3 H4]. split; try done. intros va k r Hva. by apply H4. Qed.

(** Mapping addresses that were not mapped keeps the regions mapped. *)
Lemma maps_regions_grow v v' m r lo hi :
  maps_regions v m → mapped_range gpt_format gpt_limit r lo hi v v' → maps_regions v' m.
Proof.
  intros Hm Hr va k r' Hva Hk Hin. specialize (Hm va k r' Hva Hk Hin).
  destruct (Hr va Hva) as [Hi Ho]. destruct (decide (lo ≤ va < hi)) as [Hlh|Hlh].
  - destruct (Hi Hlh) as [Hno _]. destruct Hm as (ps & _ & _ & _ & Hs). congruence.
  - eapply region_view_ext; [reflexivity|reflexivity|by apply Ho|done].
Qed.

(** A failed [insert] keeps the weak invariant. *)
Lemma insert_failed_weak s r s' :
  ms_inv s → partly_mapped s r s' → ms_weak s'.
Proof using GL.
  intros [H1 H2 H3 H4] (Hreg & Hok & x & Hx & Hmap).
  assert (ms_map s' = ms_map s) as Heq by (unfold ms_map; by rewrite Hreg).
  split; [by rewrite Hreg|done|by rewrite Heq|rewrite Heq].
  eapply maps_regions_grow; [|exact Hmap]. intros va k r' Hva. by apply H4.
Qed.

Lemma maps_regions_delete v v' m k r :
  regions_ok m → m !! k = Some r → maps_regions v m →
  unmapped_range gpt_limit (start r) (start r + size r) v v' → maps_regions v' (delete k m).
Proof.
  intros [_ Hdis] Hk Hm Hun va k' r' Hva [Hne Hk']%lookup_delete_Some Hin.
  destruct (Hun va Hva) as [_ Uo].
  eapply region_view_ext; [reflexivity|reflexivity| |by eapply Hm]. apply Uo.
  intros Hva2. apply Hne, (Hdis _ _ r r' Hk Hk'). by exists va.
Qed.

Lemma unmap_all_weak (t : btree MemoryRegion) s :
  bt_wf t → gpt_ok (pt_part s) → regions_ok (bt_map t) → maps_regions (ms_view s) (bt_map t) →
  wp (unmap_all (bt_values t)) (λ _ s', gpt_ok (pt_part s')) (λ _ _, False) s.
Proof using GL.
  revert s. induction t as [|[k r] t IH]; intros s Hwf Hok Hro Hm; simpl; [by apply wp_ret|].
  pose proof Hwf as [Hlt Hwf']%bt_wf_cons.
  assert (bt_map ((k, r) :: t) !! k = Some r) as Hk by (unfold bt_map; simpl; apply lookup_insert_eq).
  destruct (proj1 Hro _ _ Hk) as (-> & Hs & (_ & _ & _ & H0 & _ & Hl & _)).
  apply wp_bind, wp_unwrap, wp_with_pt. eapply wp_mono.
  { apply gpt_unmap_law; [done|lia..|]. eapply (region_view_covered gpt_format r). intros va Hva.
    eapply Hm; [lia|done|exact Hva]. }
  2: done. intros _ t1 (Hok1 & _ & Hun).
  assert (delete (start r) (bt_map ((start r, r) :: t)) = bt_map t) as Hdel.
  { rewrite <- bt_remove_map by done. simpl. by rewrite Z.eqb_refl. }
  pose proof (maps_regions_delete _ _ _ _ _ Hro Hk Hm Hun) as Hm'. rewrite Hdel in Hm'.
  rewrite <- (pt_part_set t1 s) in Hok1, Hm'. apply IH; try done.
  split; intros *; rewrite <- Hdel; [intros [_ ?]%lookup_delete_Some; by apply Hro|].
  intros [_ ?]%lookup_delete_Some [_ ?]%lookup_delete_Some. by apply Hro.
Qed.

(** Dropping never hangs and never fails; the frames go back to the allocator. *)
Lemma ms_drop_weak s : ms_weak s → wpp ms_drop (λ _ _, True) s.
Proof using GL.
  intros [H1 H2 H3 H4]. unfold ms_drop, ms_clear. apply wpp_bind, wpp_bind, wpp_gets, wpp_bind.
  pose proof (unmap_all_weak (ms_regions s.2) s H1 H2 H3 H4) as Hu. unfold wp in Hu. unfold wpp at 1.
  destruct (unmap_all (bt_values (ms_regions s.2)) s) as [[] s1| | |]; try done.
  apply wpp_modify, wpp_bind, wpp_gets. cbn [fst snd].
  pose proof (gpt_drop_law s1.1 (ms_pt s1.2)) as Hd. unfold wpp, zoom in *. simpl.
  by destruct (gpt_drop (ms_pt s1.2) s1.1).
Qed.

End drop.
