(* ===== verification/Heap.v ===== *)
(** * The hypervisor's heap

    src/src/memory/heap.rs: [init] hands a static array to the allocator, [test] checks
    that boxes and vectors work. The allocator, [buddy_system_allocator], is an interface:
    the class [Allocator] has its operations and [AllocatorLaws] what [test] relies on.
    [Box] and [Vec] of the standard library are modelled on byte memory, with the vector
    that grows by moving to a new block. *)

From S2P Require Import Prelude PhysMem Addr.

Module Heap.

(** ** The allocator *)

(** [Heap::init], [GlobalAlloc::alloc] and [GlobalAlloc::dealloc]; sizes and alignments
    are those of the layout. *)
Class Allocator (A : Type) : Type := {
  a_init : Z → Z → A → A;
  a_alloc : Z → Z → A → option (Z * A);
  a_dealloc : Z → Z → Z → A → A
}.

Definition overlap (p n q k : Z) : Prop := p < q + k ∧ q < p + n.

(** What the allocator promises. [live] has the blocks handed out, with their sizes, [area] the memory they come from. An allocator of
    [HV_HEAP_SIZE] bytes with at most one block handed out, of at most a page, has
    another page. *)
Class AllocatorLaws (A : Type) `{Allocator A} : Type := {
  live : A → gmap Z Z;
  area : A → Z * Z;
  init_laws start size a : live a = ∅ → live (a_init start size a) = ∅ ∧ area (a_init start size a) = (start, size);
  alloc_laws size align a p a' :
    0 < size → a_alloc size align a = Some (p, a') →
    (area a).1 ≤ p ∧ p + size ≤ (area a).1 + (area a).2 ∧ p mod align = 0 ∧
    (∀ q k, live a !! q = Some k → ¬ overlap p size q k) ∧
    live a' = <[p := size]> (live a) ∧ area a' = area a;
  dealloc_laws size align a p :
    live a !! p = Some size → live (a_dealloc p size align a) = delete p (live a) ∧ area (a_dealloc p size align a) = area a;
  alloc_serves n align a :
    (area a).2 = HV_HEAP_SIZE → 0 < n ≤ 4096 → align ∈ [4; 8] → (size (live a) ≤ 1)%nat →
    (∀ q k, live a !! q = Some k → k ≤ 4096) → is_Some (a_alloc n align a)
}.

(** ** Boxes and vectors *)

Record heap (A : Type) : Type := mkHeap { h_mem : mem; h_alloc : A }.
Arguments mkHeap {A} _ _.
Arguments h_mem {A} _.
Arguments h_alloc {A} _.

Record Vec : Type := mkVec { v_ptr : Z; v_cap : Z; v_len : Z }.

Section operations.
  Context {A E : Type} `{Allocator A}.

Abbreviation Mh := (M (heap A) E).

Definition store_mem (f : mem → mem) : Mh unit := hmodify (λ h, mkHeap (f (h_mem h)) (h_alloc h)).

(** [alloc::alloc]; [handle_alloc_error] when there is no memory. *)
Definition galloc (size align : Z) : Mh Z := λ h,
  match a_alloc size align (h_alloc h) with
  | Some (p, a) => ROk p (mkHeap (h_mem h) a)
  | None => RPanic PExplicit
  end.
Definition gdealloc (p size align : Z) : Mh unit :=
  hmodify (λ h, mkHeap (h_mem h) (a_dealloc p size align (h_alloc h))).

(** [Box::new] of an [i32], the value behind it, and its [Drop]. *)
Definition box_new (v : Z) : Mh Z :=
  let* p := galloc 4 4 in
  store_mem (λ m, write_le m p 4 v) ;;;
  hret p.
Definition box_get (p : Z) : Mh Z := hgets (λ h, read_le (h_mem h) p 4).
Definition box_drop (p : Z) : Mh unit := gdealloc p 4 4.

(** [Vec<usize>]: [new], [push], which moves the elements to a block of twice the size,
    at least 4 elements, when the vector is full, indexing and [Drop]. *)
Definition vec_new : Vec := mkVec 8 0 0.

Definition bytes_at (m : mem) (p : Z) (n : nat) : list Z := (λ i, rd8 m (p + Z.of_nat i)) <$> seq 0 n.

Definition vec_grow (v : Vec) : Mh Vec :=
  let cap := Z.max (Z.max (v_cap v * 2) (v_len v + 1)) 4 in
  let* p := galloc (8 * cap) 8 in
  (if v_cap v =? 0 then hret tt else
     store_mem (λ m, copy_bytes m p (bytes_at m (v_ptr v) (Z.to_nat (8 * v_cap v)))) ;;;
     gdealloc (v_ptr v) (8 * v_cap v) 8) ;;;
  hret (mkVec p cap (v_len v)).

Definition vec_push (v : Vec) (x : Z) : Mh Vec :=
  let* v := if v_len v =? v_cap v then vec_grow v else hret v in
  store_mem (λ m, write64 m (v_ptr v + 8 * v_len v) x) ;;;
  hret (mkVec (v_ptr v) (v_cap v) (v_len v + 1)).

Definition vec_get (v : Vec) (i : nat) : Mh Z := hgets (λ h, read64 (h_mem h) (v_ptr v + 8 * Z.of_nat i)).

Definition vec_drop (v : Vec) : Mh unit :=
  if v_cap v =? 0 then hret tt else gdealloc (v_ptr v) (8 * v_cap v) 8.

(** ** heap.rs *)

Definition MACHINE_ALIGN : Z := 8.
Definition HEAP_BLOCK : Z := HV_HEAP_SIZE / MACHINE_ALIGN.

(** [heap_start] is the address of the static array [HEAP]. *)
Definition init (heap_start : Z) : Mh unit :=
  hmodify (λ h, mkHeap (h_mem h) (a_init heap_start (HEAP_BLOCK * MACHINE_ALIGN) (h_alloc h))).

(** [for i in 0..n { v.push(i) }], from [i] on. *)
Fixpoint push_all (v : Vec) (i n : nat) : Mh Vec :=
  match n with
  | O => hret v
  | S n' => let* v := vec_push v (Z.of_nat i) in push_all v (S i) n'
  end.

(** The loop over [v.iter().take(500).enumerate()]: element [i] is [i]. *)
Fixpoint check_all (v : Vec) (i n : nat) : Mh unit :=
  match n with
  | O => hret tt
  | S n' => let* val := vec_get v i in hassert (val =? Z.of_nat i) ;;; check_all v (S i) n'
  end.

(** [bss_range.contains(&p)], with the linker's symbols. *)
Definition in_bss (sbss ebss p : Z) : bool := (sbss <=? p) && (p <? ebss).

Definition test (sbss ebss : Z) : Mh unit :=
  let* a := box_new 5 in
  let* x := box_get a in
  hassert (x =? 5) ;;;
  hassert (in_bss sbss ebss a) ;;;
  box_drop a ;;;
  let* v := push_all vec_new 0 500 in
  check_all v 0 (Z.to_nat (Z.min 500 (v_len v))) ;;;
  hassert (in_bss sbss ebss (v_ptr v)) ;;;
  vec_drop v.

End operations.

End Heap.
