(* ===== verification/CpuSet.v ===== *)
(** * CPU sets (src/src/percpu.rs, [CpuSet])

    A bitmap of CPU ids with a largest admissible id. *)

From S2P Require Import Prelude Addr.

(** [1 << n] on 64 bits: the shift amount is checked. *)
Definition ushl1 {S E} (n : Z) : M S E Z :=
  if n <? 64 then hret (Z.shiftl 1 n) else hpanic POverflow.

Record CpuSet : Type := mkCpuSet { max_cpu_id : Z; bitmap : Z }.

(** [self.bitmap |= 1 << id] *)
Definition set_bit {S E} (cs : CpuSet) (id : Z) : M S E CpuSet :=
  hassert (id <=? max_cpu_id cs) ;;;
  let* b := ushl1 id in
  hret (mkCpuSet (max_cpu_id cs) (Z.lor (bitmap cs) b)).

(** [self.bitmap &= !(1 << id)] *)
Definition clear_bit {S E} (cs : CpuSet) (id : Z) : M S E CpuSet :=
  hassert (id <=? max_cpu_id cs) ;;;
  let* b := ushl1 id in
  hret (mkCpuSet (max_cpu_id cs) (Z.land (bitmap cs) (unot64 b))).

Definition contains_cpu {S E} (cs : CpuSet) (id : Z) : M S E bool :=
  if id <=? max_cpu_id cs then
    let* b := ushl1 id in hret (negb (Z.land (bitmap cs) b =? 0))
  else hret false.

(** [(0..=max).find(p)] and [(0..=max).filter(p)] over the remaining ids. *)
Fixpoint find_cpu {S E} (p : Z → M S E bool) (ids : list Z) : M S E (option Z) :=
  match ids with
  | [] => hret None
  | i :: ids' => let* b := p i in if b then hret (Some i) else find_cpu p ids'
  end.

Fixpoint filter_cpu {S E} (p : Z → M S E bool) (ids : list Z) : M S E (list Z) :=
  match ids with
  | [] => hret []
  | i :: ids' =>
      let* b := p i in
      let* rest := filter_cpu p ids' in
      hret (if b then i :: rest else rest)
  end.

Definition all_ids (cs : CpuSet) : list Z := seqZ 0 (max_cpu_id cs + 1).

Definition first_cpu {S E} (cs : CpuSet) : M S E (option Z) :=
  find_cpu (contains_cpu cs) (all_ids cs).
Definition cpu_iter {S E} (cs : CpuSet) : M S E (list Z) :=
  filter_cpu (contains_cpu cs) (all_ids cs).
Definition cpu_iter_except {S E} (cs : CpuSet) (id : Z) : M S E (list Z) :=
  filter_cpu (λ i, let* b := contains_cpu cs i in hret (b && negb (i =? id))) (all_ids cs).

(** ** Meaning *)

Definition cpus_of (cs : CpuSet) : list Z :=
  filter (λ i, Z.testbit (bitmap cs) i = true) (all_ids cs).

Definition cpuset_wf (cs : CpuSet) : Prop := 0 ≤ max_cpu_id cs < 64 ∧ is_u64 (bitmap cs).

Section facts.
  Context {S E : Type} (cs : CpuSet) (Hwf : cpuset_wf cs).
  Implicit Types (s : S).

Lemma contains_cpu_eq id s :
  0 ≤ id → contains_cpu (E:=E) cs id s =
           ROk ((id <=? max_cpu_id cs) && Z.testbit (bitmap cs) id) s.
Proof using Hwf.
  intros Hid. unfold contains_cpu. destruct Hwf as [Hm _]. destruct (Z.leb_spec id (max_cpu_id cs)); [|done].
  unfold ushl1, hbind. rewrite (proj2 (Z.ltb_lt id 64)) by lia. simpl.
  by rewrite land_bit.
Qed.

Lemma all_ids_elem i : i ∈ all_ids cs ↔ 0 ≤ i ≤ max_cpu_id cs.
Proof. unfold all_ids. rewrite elem_of_seqZ. lia. Qed.

Lemma filter_cpu_eq (p : Z → M S E bool) (q : Z → bool) ids s :
  (∀ i, i ∈ ids → p i s = ROk (q i) s) → filter_cpu p ids s = ROk (filter (λ i, q i = true) ids) s.
Proof.
  induction ids as [|i ids IH]; intros Hp; [done|]. simpl. unfold hbind at 1.
  rewrite Hp by set_solver. unfold hbind. rewrite IH by set_solver. unfold hret.
  rewrite filter_cons. by destruct (q i).
Qed.

(** Iterating a CPU set visits exactly its CPUs in increasing order. *)
Lemma cpu_iter_eq s : cpu_iter (E:=E) cs s = ROk (cpus_of cs) s.
Proof using Hwf.
  unfold cpu_iter, cpus_of. apply (filter_cpu_eq _ (Z.testbit (bitmap cs))). intros i Hi.
  apply all_ids_elem in Hi. rewrite contains_cpu_eq by lia.
  rewrite (proj2 (Z.leb_le _ _)) by lia. done.
Qed.

Lemma cpu_iter_except_eq id s :
  cpu_iter_except (E:=E) cs id s = ROk (filter (λ i, i ≠ id) (cpus_of cs)) s.
Proof using Hwf.
  unfold cpu_iter_except, cpus_of.
  rewrite (filter_cpu_eq _ (λ i, Z.testbit (bitmap cs) i && negb (i =? id))).
  - rewrite list_filter_filter. do 2 f_equal. apply list_filter_iff. intros i.
    rewrite andb_true_iff, negb_true_iff, Z.eqb_neq. tauto.
  - intros i Hi. apply all_ids_elem in Hi. unfold hbind. rewrite contains_cpu_eq by lia.
    rewrite (proj2 (Z.leb_le _ _)) by lia. done.
Qed.

Lemma find_cpu_eq (p : Z → M S E bool) (q : Z → bool) ids s :
  (∀ i, i ∈ ids → p i s = ROk (q i) s) →
  find_cpu p ids s = ROk (head (filter (λ i, q i = true) ids)) s.
Proof.
  induction ids as [|i ids IH]; intros Hp; [done|]. simpl. unfold hbind.
  rewrite Hp by set_solver. rewrite filter_cons. destruct (q i); simpl; [done|].
  apply IH. set_solver.
Qed.

(** [first_cpu] is the lowest CPU of the set. *)
Lemma first_cpu_eq s : first_cpu (E:=E) cs s = ROk (head (cpus_of cs)) s.
Proof using Hwf.
  unfold first_cpu, cpus_of. apply (find_cpu_eq _ (Z.testbit (bitmap cs))). intros i Hi.
  apply all_ids_elem in Hi. rewrite contains_cpu_eq by lia.
  rewrite (proj2 (Z.leb_le _ _)) by lia. done.
Qed.

Lemma set_bit_spec id s :
  0 ≤ id ≤ max_cpu_id cs →
  ∃ cs', set_bit (E:=E) cs id s = ROk cs' s ∧ cpuset_wf cs' ∧ max_cpu_id cs' = max_cpu_id cs ∧
         ∀ i, 0 ≤ i → Z.testbit (bitmap cs') i = Z.testbit (bitmap cs) i || (i =? id).
Proof using Hwf.
  intros Hid. destruct Hwf as [Hm Hb]. unfold set_bit, hbind, hassert, ushl1.
  rewrite (proj2 (Z.leb_le id _)) by lia. simpl. rewrite (proj2 (Z.ltb_lt id 64)) by lia. simpl.
  eexists. split; [done|]. simpl. split; [|split; [done|]].
  - split; [done|]. apply lor_u64; [done|]. rewrite Z.shiftl_1_l. unfold is_u64, U64.
    split; [apply Z.pow_nonneg; lia|apply Z.pow_lt_mono_r; lia].
  - intros i Hi. rewrite Z.lor_spec, Z.shiftl_1_l, Z.pow2_bits_eqb by lia.
    by rewrite (Z.eqb_sym id).
Qed.

End facts.

Lemma cpus_of_elem cs i :
  i ∈ cpus_of cs ↔ 0 ≤ i ≤ max_cpu_id cs ∧ Z.testbit (bitmap cs) i = true.
Proof. unfold cpus_of. rewrite list_elem_of_filter, all_ids_elem. tauto. Qed.

Lemma cpus_of_nodup cs : NoDup (cpus_of cs).
Proof. apply list.NoDup_filter, NoDup_seqZ. Qed.
