(* ===== verification/Mmio.v ===== *)
(** * MMIO accesses (src/src/memory/mmio.rs)

    The hardware behind an MMIO address is a parameter: a [Bus] with a read and a
    write of 1, 2, 4 or 8 bytes, either of which may change the device. *)

From S2P Require Import Prelude HvError PhysMem.

Class Bus (D : Type) : Type := {
  bus_read : Z → Z → D → Z * D;        (* ptr::read_volatile(addr as *mut uN), size in bytes *)
  bus_write : Z → Z → Z → D → D        (* ptr::write_volatile *)
}.

Record MMIOAccess : Type := mkAccess {
  address : Z;
  acc_size : Z;
  is_write : bool;
  value : Z
}.

Definition set_address (a : Z) (m : MMIOAccess) := mkAccess a (acc_size m) (is_write m) (value m).
Definition set_is_write (b : bool) (m : MMIOAccess) := mkAccess (address m) (acc_size m) b (value m).
Definition set_value (v : Z) (m : MMIOAccess) := mkAccess (address m) (acc_size m) (is_write m) v.

Record MMIORegion : Type := mkMMIORegion { mr_start : Z; mr_size : Z }.

(** The functions stored in an [MMIOConfig] as [MMIOHandler] function pointers. *)
Inductive MMIOHandler : Type :=
| h_virtio      (* mmio_virtio_handler *)
| h_gicd        (* vgicv3_dist_handler *)
| h_gicr        (* vgicv3_redist_handler *)
| h_generic.    (* mmio_generic_handler *)

#[global] Instance MMIOHandler_eq_dec : EqDecision MMIOHandler.
Proof. solve_decision. Defined.

Record MMIOConfig : Type := mkMMIOConfig {
  region : MMIORegion;
  handler : MMIOHandler;
  arg : Z
}.

(** [&&] is lazy: the sums are computed only when [addr >= start]. *)
Definition contains_region {S E} (r : MMIORegion) (addr sz : Z) : M S E bool :=
  if mr_start r <=? addr then
    let* a := uadd addr sz in
    let* b := uadd (mr_start r) (mr_size r) in
    hret (a <=? b)
  else hret false.

Definition valid_mmio_size (sz : Z) : bool :=
  (sz =? 1) || (sz =? 2) || (sz =? 4) || (sz =? 8).

Section access.
  Context {D : Type} {B : Bus D}.

(** [mmio_perform_access]: the value written is truncated to the access size. *)
Definition mmio_perform_access {E} (base : Z) (mmio : MMIOAccess) : M D E MMIOAccess :=
  let* addr := uadd base (address mmio) in
  if is_write mmio then
    if valid_mmio_size (acc_size mmio) then
      hmodify (bus_write addr (acc_size mmio) (value mmio mod 2 ^ (8 * acc_size mmio))) ;;;
      hret mmio
    else hpanic PExplicit
  else
    if valid_mmio_size (acc_size mmio) then
      let* d := hget in
      let '(v, d') := bus_read addr (acc_size mmio) d in
      hput d' ;;;
      hret (set_value v mmio)
    else hpanic PExplicit.

Definition mmio_generic_handler (mmio : MMIOAccess) (base : Z) : M D HvError MMIOAccess :=
  mmio_perform_access base mmio.

End access.

(** Plain memory as a bus. *)
#[global] Instance mem_bus : Bus mem := {
  bus_read a n m := (read_le m a (Z.to_nat n), m);
  bus_write a n v m := write_le m a (Z.to_nat n) v
}.

(** ** Facts *)

Lemma contains_region_spec {S E} r addr sz (s : S) :
  0 ≤ mr_start r → 0 ≤ mr_size r → 0 ≤ addr → 0 ≤ sz →
  mr_start r + mr_size r < U64 → addr + sz < U64 →
  contains_region (E:=E) r addr sz s =
  ROk (bool_decide (mr_start r ≤ addr ∧ addr + sz ≤ mr_start r + mr_size r)) s.
Proof.
  intros H0 H1 H2 H3 Hr Ha. unfold contains_region, hbind, uadd.
  destruct (Z.leb_spec (mr_start r) addr) as [Hle|Hgt].
  - rewrite (proj2 (Z.ltb_lt _ _) Ha). simpl. rewrite (proj2 (Z.ltb_lt _ _) Hr). simpl.
    unfold hret. f_equal. destruct (Z.leb_spec (addr + sz) (mr_start r + mr_size r)).
    + by rewrite bool_decide_true.
    + rewrite bool_decide_false; [done|lia].
  - rewrite bool_decide_false; [done|lia].
Qed.
