(* ===== verification/Console.v ===== *)
(** * The console and the log

    The UART drivers (src/src/device/uart/pl011.rs, imx_uart.rs), the output functions
    and the logger of src/src/logging.rs, the panic handler (src/src/panic.rs) and the
    text of errors (src/src/error.rs). Text is a list of Unicode scalar values. *)

From Stdlib Require Import Ascii.
From stdpp Require Import pretty.
From S2P Require Import Prelude HvError Mmio.

(** The characters of a literal. *)
Fixpoint chars (s : string) : list Z :=
  match s with
  | EmptyString => []
  | String a s' => Z.of_N (N_of_ascii a) :: chars s'
  end.

(** [{}] of an unsigned integer. *)
Definition decimal (v : Z) : list Z := chars (pretty v).

(** ** UARTs *)

Section volatile.
  Context {D : Type} {B : Bus D}.

(** [ptr::read_volatile] and [write_volatile] of a u32, and the [get] and [set] of the
    register structs. *)
Definition get32 {E} (addr : Z) : M D E Z :=
  let* d := hget in
  let '(v, d') := bus_read addr 4 d in
  hput d' ;;; hret v.
Definition set32 {E} (addr v : Z) : M D E unit := hmodify (bus_write addr 4 v).

(** [while status & mask != stop {}]: [fuel] is how often the register is polled. *)
Fixpoint poll32 {E} (fuel : nat) (addr : Z) (busy : Z → bool) : M D E unit :=
  match fuel with
  | O => hhang
  | S fuel' => let* v := get32 addr in if busy v then poll32 fuel' addr busy else hret tt
  end.

End volatile.

Module Pl011.
Section pl011.
  Context {D : Type} {B : Bus D}.

Definition UART_BASE_VIRT : Z := 0x09000000.
Definition dr : Z := 0x00.
Definition fr : Z := 0x18.
Definition cr : Z := 0x30.
Definition ifls : Z := 0x34.
Definition imsc : Z := 0x38.
Definition icr : Z := 0x44.

Definition init {E} (base : Z) : M D E unit :=
  set32 (base + icr) 0x3ff ;;;
  set32 (base + ifls) 0 ;;;
  set32 (base + imsc) (Z.shiftl 1 4) ;;;
  set32 (base + cr) (Z.lor (Z.lor (Z.shiftl 1 0) (Z.shiftl 1 8)) (Z.shiftl 1 9)).

Definition tx_full (v : Z) : bool := negb (Z.land v (Z.shiftl 1 5) =? 0).

Definition putchar {E} (fuel : nat) (base c : Z) : M D E unit :=
  poll32 fuel (base + fr) tx_full ;;;
  set32 (base + dr) c.

Definition getchar {E} (base : Z) : M D E (option Z) :=
  let* f := get32 (base + fr) in
  if Z.land f (Z.shiftl 1 4) =? 0 then
    let* v := get32 (base + dr) in hret (Some (v mod 256))
  else hret None.

End pl011.
End Pl011.

Module Imx.
Section imx.
  Context {D : Type} {B : Bus D}.

Definition UART_BASE_PHYS : Z := 0x30890000.
Definition UTS : Z := 0xb4.
Definition UTXD : Z := 0x40.
Definition UTS_TXEMPTY : Z := Z.shiftl 1 6.

Definition busy (v : Z) : bool := Z.land v UTS_TXEMPTY =? 0.

Definition is_busy {E} (base : Z) : M D E bool :=
  let* v := get32 (base + UTS) in hret (busy v).

Definition putchar {E} (fuel : nat) (base c : Z) : M D E unit :=
  poll32 fuel (base + UTS) busy ;;;
  set32 (base + UTXD) c.

(** [todo!()] *)
Definition getchar {E} (base : Z) : M D E (option Z) := hpanic PTodo.

End imx.
End Imx.

Section uart.
  Context {D : Type} {B : Bus D}.

Definition on_device {E A} (f : M D E A) : M (bool * D) E A := zoom snd (λ d s, (s.1, d)) f.

(** [lazy_static!]: the PL011 is initialised when it is first used. *)
Definition with_uart {E A} (f : Z → M D E A) : M (bool * D) E A :=
  let* up := hgets (λ s : bool * D, s.1) in
  (if up then hret tt
   else on_device (Pl011.init Pl011.UART_BASE_VIRT) ;;; hmodify (λ s, (true, s.2))) ;;;
  on_device (f Pl011.UART_BASE_VIRT).

Definition pl011_console_putchar {E} (fuel : nat) (c : Z) : M (bool * D) E unit :=
  with_uart (λ base, Pl011.putchar fuel base c).
Definition pl011_console_getchar {E} : M (bool * D) E (option Z) := with_uart Pl011.getchar.

Definition imx_console_putchar {E} (fuel : nat) (c : Z) : M D E unit := Imx.putchar fuel Imx.UART_BASE_PHYS c.
Definition imx_console_getchar {E} : M D E (option Z) := Imx.getchar Imx.UART_BASE_PHYS.

End uart.

(** ** Printing (src/src/logging.rs) *)

Inductive Level : Type := LError | LWarn | LInfo | LDebug | LTrace.
Inductive LevelFilter : Type := Off | UpTo (l : Level).

(** [ColorCode], with its value as a u8. *)
Inductive ColorCode : Type :=
| Black | Red | Green | Yellow | Blue | Magenta | Cyan | White
| BrightBlack | BrightRed | BrightGreen | BrightYellow | BrightBlue | BrightMagenta | BrightCyan | BrightWhite.

Definition color_code (c : ColorCode) : Z :=
  match c with
  | Black => 30 | Red => 31 | Green => 32 | Yellow => 33 | Blue => 34 | Magenta => 35 | Cyan => 36 | White => 37
  | BrightBlack => 90 | BrightRed => 91 | BrightGreen => 92 | BrightYellow => 93 | BrightBlue => 94
  | BrightMagenta => 95 | BrightCyan => 96 | BrightWhite => 97
  end.

Definition ESC : Z := 0x1b.

(** [with_color!]: [format_args!("\u{1B}[{}m{}\u{1B}[m", ..)] *)
Definition with_color (c : ColorCode) (text : list Z) : list Z :=
  ESC :: chars "[" ++ decimal (color_code c) ++ chars "m" ++ text ++ ESC :: chars "[m".

(** The level's name, and [{:<5}]: left aligned in five columns. *)
Definition level_name (l : Level) : list Z :=
  chars (match l with
         | LError => "ERROR" | LWarn => "WARN" | LInfo => "INFO" | LDebug => "DEBUG" | LTrace => "TRACE"
         end).
Definition pad5 (t : list Z) : list Z := t ++ replicate (5 - length t) 32.

Definition level_color (l : Level) : ColorCode :=
  match l with
  | LError => BrightRed | LWarn => BrightYellow | LInfo => BrightGreen | LDebug => BrightCyan | LTrace => BrightBlack
  end.
Definition args_color (l : Level) : ColorCode :=
  match l with
  | LError => Red | LWarn => Yellow | LInfo => Green | LDebug => Cyan | LTrace => BrightBlack
  end.

(** A log record: level, line, target and formatted arguments. *)
Record LogRecord : Type := mkRecord {
  r_level : Level; r_line : option Z; r_target : list Z; r_args : list Z
}.

(** The text [SimpleLogger::log] prints on CPU [cpu_id]. *)
Definition log_line (cpu_id : Z) (r : LogRecord) : list Z :=
  with_color White
    (chars "[" ++ with_color (level_color (r_level r)) (pad5 (level_name (r_level r))) ++ chars " " ++
     with_color White (decimal cpu_id) ++ chars "] " ++
     with_color White (chars "(" ++ r_target r ++ chars ":" ++ decimal (default 0 (r_line r)) ++ chars ")") ++
     chars " " ++ with_color (args_color (r_level r)) (r_args r) ++ [10]).

(** [logging::init]: the level is an environment variable at build time. *)
Definition init_level (log_env : option string) : LevelFilter :=
  match log_env with
  | Some "error" => UpTo LError
  | Some "warn" => UpTo LWarn
  | Some "info" => UpTo LInfo
  | Some "debug" => UpTo LDebug
  | Some "trace" => UpTo LTrace
  | _ => Off
  end%string.

Section print.
  Context {S E : Type} (console_putchar : Z → M S E unit).

(** [Stdout::write_str]; [c as u8] keeps the low byte. *)
Fixpoint write_str (s : list Z) : M S E unit :=
  match s with
  | [] => hret tt
  | c :: s' =>
      (if c =? 10 then console_putchar 13 ;;; console_putchar 10 else console_putchar (c mod 256)) ;;;
      write_str s'
  end.

(** [print]; [write_str] does not fail, so the [unwrap] does not panic. *)
Definition print (text : list Z) : M S E unit := write_str text.

(** [println!] *)
Definition println (text : list Z) : M S E unit := print (text ++ [10]).

(** [SimpleLogger::log]; [enabled] is [true]. *)
Definition log (cpu_id : Z) (r : LogRecord) : M S E unit := print (log_line cpu_id r).

(** [on_panic]: the message is logged as an error when the maximal level admits it,
    which the log crate decides; then the CPU loops. *)
Definition on_panic (admitted : bool) (cpu_id : Z) (r : LogRecord) : M S E unit :=
  (if admitted then log cpu_id r else hret tt) ;;; hhang.

End print.

(** ** Errors (src/src/error.rs) *)

Definition as_str (n : HvErrorNum) : string :=
  match n with
  | EPERM => "Operation not permitted"
  | ENOENT => "No such file or directory"
  | EIO => "I/O error"
  | E2BIG => "Argument list too long"
  | ENOMEM => "Out of memory"
  | EFAULT => "Bad address"
  | EBUSY => "Device or resource busy"
  | EEXIST => "File exists"
  | ENODEV => "No such device"
  | EINVAL => "Invalid argument"
  | ERANGE => "Math result not representable"
  | ENOSYS => "Function not implemented"
  end.

(** [HvError] with what is only printed: where it was made, and a message. *)
Record Located : Type := mkLocated {
  err : HvError; loc_file : list Z; loc_line : Z; loc_col : Z; msg : option (list Z)
}.

(** [HvError::new] *)
Definition HvError_new (n : HvErrorNum) (file : list Z) (line col : Z) (m : option (list Z)) : Located :=
  mkLocated (mkHvError n) file line col m.

(** [Debug::fmt] *)
Definition error_text (e : Located) : list Z :=
  chars "[" ++ loc_file e ++ chars ":" ++ decimal (loc_line e) ++ chars ":" ++ decimal (loc_col e) ++ chars "] " ++
  chars (as_str (num (err e))) ++ match msg e with Some m => chars ": " ++ m | None => [] end.

(** ** What reaches the device *)

(** The bytes for a text. *)
Definition bytes_of (c : Z) : list Z := if c =? 10 then [13; 10] else [c mod 256].
Definition emitted (s : list Z) : list Z := concat (bytes_of <$> s).

(** A terminal that ignores carriage returns shows an ASCII text as it is. *)
Lemma emitted_ascii s :
  Forall (λ c, 0 ≤ c < 128 ∧ c ≠ 13) s → filter (λ b, b ≠ 13) (emitted s) = s.
Proof.
  induction 1 as [|c s [Hc Hne] Hs IH]; [done|]. unfold emitted in *. cbn [fmap list_fmap concat].
  rewrite filter_app, IH. change (c :: s) with ([c] ++ s). f_equal. unfold bytes_of.
  destruct (c =? 10) eqn:H10.
  - apply Z.eqb_eq in H10 as ->. done.
  - rewrite Z.mod_small by lia. rewrite filter_cons_True by done. done.
Qed.

(** Other characters are cut to their low byte, also to one that is a line feed. *)
Lemma emitted_truncates : emitted [0x10a] = [10].
Proof. done. Qed.

(** A UART whose transmit buffer is full for a while before each byte; [sent] is what
    has been written to the data register. *)
Record uart_dev : Type := mkDev { waits : list nat; sent : list Z }.

#[global] Instance uart_bus : Bus uart_dev := {
  bus_read addr _ d :=
    if addr =? Pl011.UART_BASE_VIRT + Pl011.fr then
      match waits d with
      | S n :: w => (Z.shiftl 1 5, mkDev (n :: w) (sent d))
      | _ => (0, d)
      end
    else (0, d);
  bus_write addr _ v d :=
    if addr =? Pl011.UART_BASE_VIRT + Pl011.dr then mkDev (tail (waits d)) (sent d ++ [v]) else d
}.

Lemma poll_uart {E} fuel d :
  (default 0 (head (waits d)) < fuel)%nat →
  ∃ d', poll32 (E:=E) fuel (Pl011.UART_BASE_VIRT + Pl011.fr) Pl011.tx_full d = ROk tt d' ∧
        tail (waits d') = tail (waits d) ∧ sent d' = sent d.
Proof.
  revert d. induction fuel as [|fuel IH]; intros [w l] Hf; [lia|]. destruct w as [|[|n] w]; [by eexists..|].
  cbn [waits head default] in Hf.
  destruct (IH (mkDev (n :: w) l)) as (d' & Hd & Hw & Hs); [cbn; cbn in Hf; lia|]. by exists d'.
Qed.

Lemma putchar_uart {E} fuel c d :
  (default 0 (head (waits d)) < fuel)%nat →
  ∃ d', Pl011.putchar (E:=E) fuel Pl011.UART_BASE_VIRT c d = ROk tt d' ∧
        waits d' = tail (waits d) ∧ sent d' = sent d ++ [c].
Proof.
  intros Hf. destruct (poll_uart (E:=E) fuel d Hf) as (d1 & Hd & Hw & Hs). unfold Pl011.putchar, hbind. rewrite Hd.
  eexists. split; [reflexivity|]. simpl. by rewrite Hw, Hs.
Qed.

Lemma console_uart {E} fuel c u d :
  (default 0 (head (waits d)) < fuel)%nat →
  ∃ d', pl011_console_putchar (E:=E) fuel c (u, d) = ROk tt (true, d') ∧
        waits d' = tail (waits d) ∧ sent d' = sent d ++ [c].
Proof.
  intros Hf. unfold pl011_console_putchar, with_uart, on_device.
  assert (Pl011.init (E:=E) Pl011.UART_BASE_VIRT d = ROk tt d) as Hi by (by destruct d).
  destruct (putchar_uart (E:=E) fuel c d Hf) as (d' & Hd & Hw & Hs). exists d'.
  unfold hbind, zoom, hgets. destruct u; simpl; rewrite ?Hi; simpl; rewrite Hd; done.
Qed.

(** With a UART that takes bytes in the end, [print] returns and sends exactly the bytes
    of the text, in order. *)
Lemma print_sends {E} fuel text u d :
  Forall (λ n, n < fuel)%nat (waits d) → (0 < fuel)%nat →
  ∃ u' d', print (pl011_console_putchar (E:=E) fuel) text (u, d) = ROk tt (u', d') ∧ sent d' = sent d ++ emitted text.
Proof.
  intros Hw Hf.
  enough (∃ u' d', print (pl011_console_putchar (E:=E) fuel) text (u, d) = ROk tt (u', d') ∧
    sent d' = sent d ++ emitted text ∧ Forall (λ n, n < fuel)%nat (waits d')) as (u' & d' & ? & ? & _) by eauto.
  assert (∀ c u d, Forall (λ n, n < fuel)%nat (waits d) → ∃ d',
    pl011_console_putchar (E:=E) fuel c (u, d) = ROk tt (true, d') ∧ sent d' = sent d ++ [c] ∧
    Forall (λ n, n < fuel)%nat (waits d')) as Hput.
  { intros c u0 d0 H0. destruct (console_uart (E:=E) fuel c u0 d0) as (d1 & H1 & H2 & H3).
    - destruct (waits d0) as [|n w]; [done|]. by apply Forall_cons in H0 as [? _].
    - exists d1. split_and!; [done|done|]. rewrite H2. destruct (waits d0); [done|]. by apply Forall_cons in H0 as [_ ?]. }
  revert u d Hw. induction text as [|c text IH]; intros u d Hw.
  { exists u, d. split; [done|]. by rewrite app_nil_r. }
  unfold print in *. cbn [write_str]. unfold emitted. cbn [fmap list_fmap concat]. unfold bytes_of at 1, hbind at 1.
  destruct (c =? 10).
  - destruct (Hput 13 u d Hw) as (d1 & H1 & S1 & W1). destruct (Hput 10 true d1 W1) as (d2 & H2 & S2 & W2).
    destruct (IH true d2 W2) as (u' & d' & H & S & W). exists u', d'. unfold hbind. rewrite H1, H2.
    split_and!; [done| |done]. rewrite S, S2, S1. unfold emitted. by rewrite <- !app_assoc.
  - destruct (Hput (c mod 256) u d Hw) as (d1 & H1 & S1 & W1).
    destruct (IH true d1 W1) as (u' & d' & H & S & W). exists u', d'. rewrite H1.
    split_and!; [done| |done]. rewrite S, S1. unfold emitted. by rewrite <- !app_assoc.
Qed.
