(* ===== verification/Config.v ===== *)
(** * Zone configurations (src/src/config.rs, src/src/arch/aarch64/zone.rs) *)

From S2P Require Import Prelude.

Definition MEM_TYPE_RAM : Z := 0.
Definition MEM_TYPE_IO : Z := 1.
Definition MEM_TYPE_VIRTIO : Z := 2.

Definition CONFIG_MAX_MEMORY_REGIONS : Z := 16.
Definition CONFIG_MAX_INTERRUPTS : Z := 32.

Record HvConfigMemoryRegion : Type := mkConfigRegion {
  mem_type : Z;
  physical_start : Z;
  virtual_start : Z;
  cr_size : Z
}.

Definition new_empty : HvConfigMemoryRegion := mkConfigRegion 0 0 0 0.

Record HvArchZoneConfig : Type := mkArchConfig {
  cfg_gicd_base : Z;
  cfg_gicr_base : Z;
  cfg_gicd_size : Z;
  cfg_gicr_size : Z
}.

(** The arrays hold [CONFIG_MAX_MEMORY_REGIONS] and [CONFIG_MAX_INTERRUPTS]
    elements; the counts say how many are meant. *)
Record HvZoneConfig : Type := mkZoneConfig {
  zone_id : Z;
  cfg_cpus : Z;
  num_memory_regions : Z;
  cfg_memory_regions : list HvConfigMemoryRegion;
  num_interrupts : Z;
  cfg_interrupts : list Z;
  entry_point : Z;
  kernel_load_paddr : Z;
  kernel_size : Z;
  dtb_load_paddr : Z;
  dtb_size : Z;
  arch : HvArchZoneConfig
}.

(** [&a[..n]] *)
Definition slice_to {S E A} (a : list A) (n : Z) : M S E (list A) :=
  if n <=? Z.of_nat (length a) then hret (take (Z.to_nat n) a) else hpanic PIndex.

Definition memory_regions {S E} (c : HvZoneConfig) : M S E (list HvConfigMemoryRegion) :=
  if CONFIG_MAX_MEMORY_REGIONS <? num_memory_regions c then hpanic PExplicit
  else slice_to (cfg_memory_regions c) (num_memory_regions c).

Definition interrupts {S E} (c : HvZoneConfig) : M S E (list Z) :=
  if CONFIG_MAX_INTERRUPTS <? num_interrupts c then hpanic PExplicit
  else slice_to (cfg_interrupts c) (num_interrupts c).

(** [for i in 0..64u64 { if (self.cpus >> i) & 1 == 1 { v.push(i) } }] *)
Definition cpus (c : HvZoneConfig) : list Z :=
  filter (λ i, Z.land (Z.shiftr (cfg_cpus c) i) 1 = 1) (seqZ 0 64).

(** ** Facts *)

Lemma cpus_elem c i : i ∈ cpus c ↔ 0 ≤ i < 64 ∧ Z.testbit (cfg_cpus c) i = true.
Proof.
  unfold cpus. rewrite list_elem_of_filter, elem_of_seqZ.
  assert (∀ x, Z.land x 1 = Z.b2z (Z.testbit x 0)) as H1.
  { intros x. change 1 with (Z.ones 1). rewrite Z.land_ones by lia.
    by rewrite Z.bit0_mod. }
  rewrite H1. split.
  - intros [Hb Hi]. split; [lia|]. rewrite Z.shiftr_spec in Hb by lia.
    rewrite Z.add_0_l in Hb. by destruct (Z.testbit (cfg_cpus c) i).
  - intros [Hi Hb]. split; [|lia]. rewrite Z.shiftr_spec, Z.add_0_l by lia. by rewrite Hb.
Qed.
