(* ===== verification/Platform.v ===== *)
(** * Platforms and the root zone's configuration

    The constants of src/src/platform/qemu_aarch64.rs and imx8mp_aarch64.rs, the
    function that builds the root zone's configuration from them
    (src/src/platform/mod.rs) and its one-time initialisation
    (src/src/config.rs). *)

From S2P Require Import Prelude Addr Region Config.

(** What a platform module declares. *)
Record platform : Type := mkPlatform {
  ROOT_ZONE_DTB_ADDR : Z;
  ROOT_ZONE_KERNEL_ADDR : Z;
  ROOT_ZONE_ENTRY : Z;
  ROOT_ZONE_CPUS : Z;
  ROOT_ZONE_MEMORY_REGIONS : list HvConfigMemoryRegion;
  ROOT_ZONE_IRQS : list Z;
  ROOT_ARCH_ZONE_CONFIG : HvArchZoneConfig
}.

Definition qemu_aarch64 : platform := {|
  ROOT_ZONE_DTB_ADDR := 0xa0000000;
  ROOT_ZONE_KERNEL_ADDR := 0xa0400000;
  ROOT_ZONE_ENTRY := 0xa0400000;
  ROOT_ZONE_CPUS := Z.lor (Z.shiftl 1 0) (Z.shiftl 1 1);
  ROOT_ZONE_MEMORY_REGIONS :=
    [mkConfigRegion MEM_TYPE_RAM 0x50000000 0x50000000 0x80000000;
     mkConfigRegion MEM_TYPE_IO 0x9000000 0x9000000 0x1000;
     mkConfigRegion MEM_TYPE_IO 0xa000000 0xa000000 0x4000];
  ROOT_ZONE_IRQS := [33; 64; 77; 79];
  ROOT_ARCH_ZONE_CONFIG := mkArchConfig 0x8000000 0x80a0000 0x10000 0xf60000
|}.

Definition imx8mp_aarch64 : platform := {|
  ROOT_ZONE_DTB_ADDR := 0xa0000000;
  ROOT_ZONE_KERNEL_ADDR := 0xa0400000;
  ROOT_ZONE_ENTRY := 0xa0400000;
  ROOT_ZONE_CPUS := Z.lor (Z.shiftl 1 0) (Z.shiftl 1 1);
  ROOT_ZONE_MEMORY_REGIONS :=
    [mkConfigRegion MEM_TYPE_RAM 0x50000000 0x50000000 0x80000000;
     mkConfigRegion MEM_TYPE_IO 0x30000000 0x30000000 0x400000;
     mkConfigRegion MEM_TYPE_IO 0x30800000 0x30800000 0x400000];
  ROOT_ZONE_IRQS :=
    [36; 52; 55; 59; 64; 67; 96; 97; 98; 99; 100; 101; 102; 103; 104; 105; 150; 151; 152];
  ROOT_ARCH_ZONE_CONFIG := mkArchConfig 0x38800000 0x38880000 0x10000 0xc0000
|}.

(** [HvZoneConfig::new] *)
Definition HvZoneConfig_new (zone_id cpus num_memory_regions : Z)
    (memory_regions : list HvConfigMemoryRegion) (num_interrupts : Z) (interrupts : list Z)
    (entry_point kernel_load_paddr kernel_size dtb_load_paddr dtb_size : Z)
    (arch : HvArchZoneConfig) : HvZoneConfig :=
  mkZoneConfig zone_id cpus num_memory_regions memory_regions num_interrupts interrupts
    entry_point kernel_load_paddr kernel_size dtb_load_paddr dtb_size arch.

(** [a[..l.len()].copy_from_slice(&l)] into an array: panics when [l] is longer. *)
Definition copy_prefix {S E A} (a l : list A) : M S E (list A) :=
  if (length l <=? length a)%nat then hret (l ++ drop (length l) a) else hpanic PIndex.

Definition platform_root_zone_config {S E} (p : platform) : M S E HvZoneConfig :=
  let* memory_regions :=
    copy_prefix (replicate (Z.to_nat CONFIG_MAX_MEMORY_REGIONS) (mkConfigRegion 0 0 0 0))
      (ROOT_ZONE_MEMORY_REGIONS p) in
  let* interrupts :=
    copy_prefix (replicate (Z.to_nat CONFIG_MAX_INTERRUPTS) 0) (ROOT_ZONE_IRQS p) in
  hret (HvZoneConfig_new 0 (ROOT_ZONE_CPUS p)
    (Z.of_nat (length (ROOT_ZONE_MEMORY_REGIONS p))) memory_regions
    (Z.of_nat (length (ROOT_ZONE_IRQS p))) interrupts
    (ROOT_ZONE_ENTRY p) (ROOT_ZONE_KERNEL_ADDR p) INVALID_ADDRESS (ROOT_ZONE_DTB_ADDR p)
    INVALID_ADDRESS (ROOT_ARCH_ZONE_CONFIG p)).

(** [HV_ROOT_ZONE_CONFIG.call_once] and [root_zone_config]: the state is the static. *)
Definition config_init {E} (p : platform) : M (option HvZoneConfig) E unit :=
  let* o := hget in
  match o with
  | Some _ => hret tt
  | None => let* c := platform_root_zone_config p in hput (Some c)
  end.

Definition root_zone_config {E} (p : platform) : M (option HvZoneConfig) E HvZoneConfig :=
  config_init p ;;;
  let* o := hget in
  ounwrap o.

(** ** Facts *)

(** The tables of a platform fit the arrays of a configuration. *)
Definition platform_fits (p : platform) : bool :=
  (Z.of_nat (length (ROOT_ZONE_MEMORY_REGIONS p)) <=? CONFIG_MAX_MEMORY_REGIONS) &&
  (Z.of_nat (length (ROOT_ZONE_IRQS p)) <=? CONFIG_MAX_INTERRUPTS).

(** The configuration a platform gives. *)
Definition root_config (p : platform) : HvZoneConfig :=
  let pad {A} (n : Z) (d : A) (l : list A) := l ++ replicate (Z.to_nat n - length l) d in
  mkZoneConfig 0 (ROOT_ZONE_CPUS p) (Z.of_nat (length (ROOT_ZONE_MEMORY_REGIONS p)))
    (pad CONFIG_MAX_MEMORY_REGIONS new_empty (ROOT_ZONE_MEMORY_REGIONS p))
    (Z.of_nat (length (ROOT_ZONE_IRQS p))) (pad CONFIG_MAX_INTERRUPTS 0 (ROOT_ZONE_IRQS p))
    (ROOT_ZONE_ENTRY p) (ROOT_ZONE_KERNEL_ADDR p) INVALID_ADDRESS (ROOT_ZONE_DTB_ADDR p)
    INVALID_ADDRESS (ROOT_ARCH_ZONE_CONFIG p).

Lemma copy_prefix_ok {S E A} n (d : A) l (s : S) :
  (length l ≤ n)%nat →
  copy_prefix (E:=E) (replicate n d) l s = ROk (l ++ replicate (n - length l) d) s.
Proof.
  intros H. unfold copy_prefix. rewrite length_replicate, (proj2 (Nat.leb_le _ _)) by done.
  by rewrite drop_replicate.
Qed.

Lemma platform_config_ok {S E} p (s : S) :
  platform_fits p = true → platform_root_zone_config (E:=E) p s = ROk (root_config p) s.
Proof.
  intros [H1 H2]%andb_true_iff. apply Z.leb_le in H1, H2.
  unfold platform_root_zone_config, hbind, CONFIG_MAX_MEMORY_REGIONS, CONFIG_MAX_INTERRUPTS in *.
  rewrite !copy_prefix_ok by lia. done.
Qed.

(** The regions and interrupts a zone is made with are exactly the platform's. *)
Lemma root_config_contents {S E} p (s : S) :
  platform_fits p = true →
  memory_regions (E:=E) (root_config p) s = ROk (ROOT_ZONE_MEMORY_REGIONS p) s ∧
  interrupts (E:=E) (root_config p) s = ROk (ROOT_ZONE_IRQS p) s.
Proof.
  intros [H1 H2]%andb_true_iff. unfold memory_regions, interrupts, root_config, slice_to. simpl.
  apply Z.leb_le in H1, H2. unfold CONFIG_MAX_MEMORY_REGIONS, CONFIG_MAX_INTERRUPTS in *.
  rewrite !(proj2 (Z.ltb_ge _ _)) by lia. rewrite !length_app, !length_replicate.
  rewrite !(proj2 (Z.leb_le _ _)) by lia. by rewrite !Nat2Z.id, !take_app_length.
Qed.

(** The first call fixes the configuration; later calls return the same. *)
Lemma root_zone_config_once {E} p o :
  platform_fits p = true →
  let c := match o with Some c => c | None => root_config p end in
  root_zone_config (E:=E) p o = ROk c (Some c).
Proof.
  intros Hf. unfold root_zone_config, config_init, hbind, hget, hput. destruct o as [c|]; [done|].
  by rewrite platform_config_ok.
Qed.
