(* ===== verification/Sys.v ===== *)
(** * The hypervisor's global state

    The statics of the hypervisor ([ZONE_LIST], the per-CPU array,
    [EVENT_MANAGER], [VIRTIO_BRIDGE], [VIRTIO_IRQS], [GIC], the parking table), the system registers
    and guest registers of the CPU that runs, and the device bus. A handler runs
    to completion on one CPU; what other CPUs and the root zone's driver do
    happens between handlers. [Arc<RwLock<Zone>>] is a pointer into [s_heap], so
    that the zone list and the CPUs share one zone object. *)

From S2P Require Import Prelude HvError Addr Region PtIface BTreeMap MemorySet CpuSet Mmio.

(** ** Zones (src/src/zone.rs) *)

Record Zone (PT : Type) : Type := mkZone {
  z_id : Z;
  z_mmio : list MMIOConfig;
  z_cpu_set : CpuSet;
  z_irq_bitmap : list Z;          (* [u32; 1024 / 32] *)
  z_gpm : MemorySet PT
}.
Arguments mkZone {PT} _ _ _ _ _.
Arguments z_id {PT} _.
Arguments z_mmio {PT} _.
Arguments z_cpu_set {PT} _.
Arguments z_irq_bitmap {PT} _.
Arguments z_gpm {PT} _.

(** ** Per-CPU data (src/src/percpu.rs); [zone] is a pointer into the heap *)

Record PerCpu : Type := mkPerCpu {
  pc_id : Z;
  cpu_on_entry : Z;
  dtb_ipa : Z;
  psci_on : bool;                 (* arch_cpu.psci_on *)
  pc_zone : option Z;
  boot_cpu : bool
}.

(** [PerCpu::new] with [ArchCpu::new] *)
Definition percpu_new (cpu_id : Z) : PerCpu :=
  mkPerCpu cpu_id INVALID_ADDRESS INVALID_ADDRESS false None false.

Definition set_pc_zone (z : option Z) (c : PerCpu) : PerCpu :=
  mkPerCpu (pc_id c) (cpu_on_entry c) (dtb_ipa c) (psci_on c) z (boot_cpu c).
Definition set_cpu_on_entry (e : Z) (c : PerCpu) : PerCpu :=
  mkPerCpu (pc_id c) e (dtb_ipa c) (psci_on c) (pc_zone c) (boot_cpu c).
Definition set_dtb_ipa (d : Z) (c : PerCpu) : PerCpu :=
  mkPerCpu (pc_id c) (cpu_on_entry c) d (psci_on c) (pc_zone c) (boot_cpu c).
Definition set_psci_on (b : bool) (c : PerCpu) : PerCpu :=
  mkPerCpu (pc_id c) (cpu_on_entry c) (dtb_ipa c) b (pc_zone c) (boot_cpu c).
Definition set_boot_cpu (b : bool) (c : PerCpu) : PerCpu :=
  mkPerCpu (pc_id c) (cpu_on_entry c) (dtb_ipa c) (psci_on c) (pc_zone c) b.

(** ** Virtio (src/src/device/virtio_trampoline.rs) *)

Record HvisorDeviceReq : Type := mkReq {
  src_cpu : Z;
  req_address : Z;
  req_size : Z;
  req_value : Z;
  src_zone : Z;
  req_is_write : Z;
  need_interrupt : Z
}.

Record HvisorDeviceRes : Type := mkRes { target_zone : Z; irq_id : Z }.

(** The memory shared with the root zone. *)
Record VirtioBridge : Type := mkBridge {
  req_front : Z;
  req_rear : Z;
  res_front : Z;
  res_rear : Z;
  req_list : list HvisorDeviceReq;
  res_list : list HvisorDeviceRes;
  cfg_flags : list Z;
  cfg_values : list Z;
  mmio_addrs : list Z;
  mmio_avail : Z;
  need_wakeup_flag : Z
}.

Record VirtioBridgeRegion : Type := mkBridgeRegion { base_address : Z; is_enable : bool }.

(** ** GIC (src/src/device/irqchip/gicv3/mod.rs) *)

Record Gic : Type := mkGic { gicd_base : Z; gicr_base : Z; gicd_size : Z; gicr_size : Z }.

(** ** Registers *)

(** [GeneralRegisters] (src/src/arch/aarch64/cpu.rs): the guest's registers. *)
Record GeneralRegisters : Type := mkRegs { exit_reason : Z; usr : list Z }.

(** System registers of the running CPU: the values reads give, and the writes
    in program order. *)
Record sysregs : Type := mkSysregs { sr_val : gmap string Z; sr_log : list (string * Z) }.

(** [MIN_PARANGE] and [PARANGE_OK_CPUS] (src/src/arch/aarch64/mm.rs) *)
Record parange : Type := mkPar { min_parange : Z; parange_ok_cpus : Z }.

(** ** The whole state *)

Record sys (W PT D : Type) : Type := mkSys {
  s_w : W;
  s_bus : D;
  s_heap : gmap Z (Zone PT);
  s_zone_list : list Z;
  s_cpus : gmap Z PerCpu;
  s_events : option (list (list Z));
  s_bridge : VirtioBridgeRegion;
  s_region : VirtioBridge;
  s_virtio_irqs : btree (list Z);
  s_gic : option Gic;
  s_par : parange;
  s_regs : sysregs;
  s_guest : GeneralRegisters;
  s_parking_page : list Z;                  (* PARKING_INST_PAGE, 4096 bytes *)
  s_parking : option (MemorySet PT)         (* PARKING_MEMORY_SET *)
}.
Arguments mkSys {W PT D} _ _ _ _ _ _ _ _ _ _ _ _ _ _ _.
Arguments s_w {W PT D} _.
Arguments s_bus {W PT D} _.
Arguments s_heap {W PT D} _.
Arguments s_zone_list {W PT D} _.
Arguments s_cpus {W PT D} _.
Arguments s_events {W PT D} _.
Arguments s_bridge {W PT D} _.
Arguments s_region {W PT D} _.
Arguments s_virtio_irqs {W PT D} _.
Arguments s_gic {W PT D} _.
Arguments s_par {W PT D} _.
Arguments s_regs {W PT D} _.
Arguments s_guest {W PT D} _.
Arguments s_parking_page {W PT D} _.
Arguments s_parking {W PT D} _.

Section sys.
  Context {W PT D : Type}.
  Abbreviation sys := (sys W PT D).
  Implicit Types (s : sys).

Definition set_w (w : W) s : sys :=
  mkSys w (s_bus s) (s_heap s) (s_zone_list s) (s_cpus s) (s_events s)
    (s_bridge s) (s_region s) (s_virtio_irqs s) (s_gic s) (s_par s) (s_regs s) (s_guest s)
    (s_parking_page s) (s_parking s).
Definition set_bus (d : D) s : sys :=
  mkSys (s_w s) d (s_heap s) (s_zone_list s) (s_cpus s) (s_events s)
    (s_bridge s) (s_region s) (s_virtio_irqs s) (s_gic s) (s_par s) (s_regs s) (s_guest s)
    (s_parking_page s) (s_parking s).
Definition set_heap (h : gmap Z (Zone PT)) s : sys :=
  mkSys (s_w s) (s_bus s) h (s_zone_list s) (s_cpus s) (s_events s)
    (s_bridge s) (s_region s) (s_virtio_irqs s) (s_gic s) (s_par s) (s_regs s) (s_guest s)
    (s_parking_page s) (s_parking s).
Definition set_zone_list (l : list Z) s : sys :=
  mkSys (s_w s) (s_bus s) (s_heap s) l (s_cpus s) (s_events s)
    (s_bridge s) (s_region s) (s_virtio_irqs s) (s_gic s) (s_par s) (s_regs s) (s_guest s)
    (s_parking_page s) (s_parking s).
Definition set_cpus (c : gmap Z PerCpu) s : sys :=
  mkSys (s_w s) (s_bus s) (s_heap s) (s_zone_list s) c (s_events s)
    (s_bridge s) (s_region s) (s_virtio_irqs s) (s_gic s) (s_par s) (s_regs s) (s_guest s)
    (s_parking_page s) (s_parking s).
Definition set_events (e : option (list (list Z))) s : sys :=
  mkSys (s_w s) (s_bus s) (s_heap s) (s_zone_list s) (s_cpus s) e
    (s_bridge s) (s_region s) (s_virtio_irqs s) (s_gic s) (s_par s) (s_regs s) (s_guest s)
    (s_parking_page s) (s_parking s).
Definition set_bridge (b : VirtioBridgeRegion) s : sys :=
  mkSys (s_w s) (s_bus s) (s_heap s) (s_zone_list s) (s_cpus s) (s_events s)
    b (s_region s) (s_virtio_irqs s) (s_gic s) (s_par s) (s_regs s) (s_guest s)
    (s_parking_page s) (s_parking s).
Definition set_region (r : VirtioBridge) s : sys :=
  mkSys (s_w s) (s_bus s) (s_heap s) (s_zone_list s) (s_cpus s) (s_events s)
    (s_bridge s) r (s_virtio_irqs s) (s_gic s) (s_par s) (s_regs s) (s_guest s)
    (s_parking_page s) (s_parking s).
Definition set_virtio_irqs (v : btree (list Z)) s : sys :=
  mkSys (s_w s) (s_bus s) (s_heap s) (s_zone_list s) (s_cpus s) (s_events s)
    (s_bridge s) (s_region s) v (s_gic s) (s_par s) (s_regs s) (s_guest s)
    (s_parking_page s) (s_parking s).
Definition set_gic (g : option Gic) s : sys :=
  mkSys (s_w s) (s_bus s) (s_heap s) (s_zone_list s) (s_cpus s) (s_events s)
    (s_bridge s) (s_region s) (s_virtio_irqs s) g (s_par s) (s_regs s) (s_guest s)
    (s_parking_page s) (s_parking s).
Definition set_par (p : parange) s : sys :=
  mkSys (s_w s) (s_bus s) (s_heap s) (s_zone_list s) (s_cpus s) (s_events s)
    (s_bridge s) (s_region s) (s_virtio_irqs s) (s_gic s) p (s_regs s) (s_guest s)
    (s_parking_page s) (s_parking s).
Definition set_regs (r : sysregs) s : sys :=
  mkSys (s_w s) (s_bus s) (s_heap s) (s_zone_list s) (s_cpus s) (s_events s)
    (s_bridge s) (s_region s) (s_virtio_irqs s) (s_gic s) (s_par s) r (s_guest s)
    (s_parking_page s) (s_parking s).
Definition set_guest (g : GeneralRegisters) s : sys :=
  mkSys (s_w s) (s_bus s) (s_heap s) (s_zone_list s) (s_cpus s) (s_events s)
    (s_bridge s) (s_region s) (s_virtio_irqs s) (s_gic s) (s_par s) (s_regs s) g
    (s_parking_page s) (s_parking s).
Definition set_parking_page (b : list Z) s : sys :=
  mkSys (s_w s) (s_bus s) (s_heap s) (s_zone_list s) (s_cpus s) (s_events s)
    (s_bridge s) (s_region s) (s_virtio_irqs s) (s_gic s) (s_par s) (s_regs s) (s_guest s)
    b (s_parking s).
Definition set_parking (m : option (MemorySet PT)) s : sys :=
  mkSys (s_w s) (s_bus s) (s_heap s) (s_zone_list s) (s_cpus s) (s_events s)
    (s_bridge s) (s_region s) (s_virtio_irqs s) (s_gic s) (s_par s) (s_regs s) (s_guest s)
    (s_parking_page s) m.

Definition with_bus {E A} (m : M D E A) : M sys E A := zoom s_bus set_bus m.
Definition with_regs {E A} (m : M sysregs E A) : M sys E A := zoom s_regs set_regs m.

(** *** System registers *)

(** [read_sysreg!(r)]: a register never given a value reads as 0. *)
Definition read_sysreg {E} (r : string) : M sysregs E Z := hgets (λ x, default 0 (sr_val x !! r)).
(** [write_sysreg!(r, v)] *)
Definition write_sysreg {E} (r : string) (v : Z) : M sysregs E unit :=
  hmodify (λ x, mkSysregs (<[r := v]> (sr_val x)) (sr_log x ++ [(r, v)])).

(** [tlbi op]: no register changes; the log shows what the CPU was told. *)
Definition tlbi {E} (op : string) : M sysregs E unit :=
  hmodify (λ x, mkSysregs (sr_val x) (sr_log x ++ [(op, 0)])).

Definition mpidr_to_cpuid (mpidr : Z) : Z := Z.land mpidr 0xff00ffffff.

Definition this_cpu_id {E} : M sys E Z :=
  let* mpidr := with_regs (read_sysreg "MPIDR_EL1") in
  hret (mpidr_to_cpuid mpidr).

(** *** Per-CPU data *)

(** [get_cpu_data]: a raw pointer into the per-CPU array; beyond the CPUs that
    have been set up the access is undefined. *)
Definition get_cpu_data {E} (cpu_id : Z) : M sys E PerCpu :=
  let* cs := hgets s_cpus in
  match cs !! cpu_id with
  | Some c => hret c
  | None => hpanic PUndef
  end.

(** Writing fields through the [&mut PerCpu] that [get_cpu_data] returns. *)
Definition mod_cpu_data {E} (cpu_id : Z) (f : PerCpu → PerCpu) : M sys E unit :=
  let* c := get_cpu_data cpu_id in
  hmodify (λ s, set_cpus (<[cpu_id := f c]> (s_cpus s)) s).

Definition this_cpu_data {E} : M sys E PerCpu :=
  let* id := this_cpu_id in get_cpu_data id.

(** [this_zone()]: the pointer to the zone of the running CPU. *)
Definition this_zone {E} : M sys E Z :=
  let* c := this_cpu_data in ounwrap (pc_zone c).

(** [zone.read()] *)
Definition read_zone {E} (p : Z) : M sys E (Zone PT) :=
  let* h := hgets s_heap in
  match h !! p with
  | Some z => hret z
  | None => hpanic PUndef
  end.

(** *** The zone list *)

Definition root_zone {E} : M sys E Z :=
  let* l := hgets s_zone_list in ounwrap (l !! 0%nat).

(** [Arc::ptr_eq] *)
Definition is_this_root_zone {E} : M sys E bool :=
  let* t := this_zone in
  let* r := root_zone in
  hret (t =? r).

Definition add_zone {E} (p : Z) : M sys E unit :=
  hmodify (λ s, set_zone_list (s_zone_list s ++ [p]) s).

(** The first pointer of [l] whose zone has the id. *)
Fixpoint find_zone_in {E} (zid : Z) (l : list Z) : M sys E (option Z) :=
  match l with
  | [] => hret None
  | p :: l' =>
      let* z := read_zone p in
      if z_id z =? zid then hret (Some p) else find_zone_in zid l'
  end.

Definition find_zone {E} (zid : Z) : M sys E (option Z) :=
  let* l := hgets s_zone_list in find_zone_in zid l.

Definition this_zone_id {E} : M sys E Z :=
  let* p := this_zone in
  let* z := read_zone p in
  hret (z_id z).

(** The references to a zone that are not local variables. *)
Definition zone_refs s (p : Z) : Z :=
  Z.of_nat (length (filter (λ q, q = p) (s_zone_list s)) +
            length (filter (λ kc, pc_zone kc.2 = Some p) (map_to_list (s_cpus s)))).

End sys.
