(* ===== verification/Asm.v ===== *)
(** * The assembly around the hypervisor

    The entry of a CPU ([arch_entry], src/src/arch/aarch64/entry.rs, with boot_pt.S), the entry and the
    end of a guest exit ([handle_vmexit] of src/src/arch/aarch64/trap.S, [vmreturn] of
    trap.rs), [shutdown_el2] and [enable_mmu], as lists of instructions with an
    executable meaning; and where the Rust code of src/src/percpu.rs and cpu.rs expects
    a CPU's data, stack and guest registers. *)

From stdpp Require Import functions.
From S2P Require Import Prelude PhysMem Addr Sys.

(** ** Instructions *)

(** [n] stands for the register xn, 0 to 30. *)
Inductive insn : Type :=
| Stp (a b : nat)                  (* stp xa, xb, [sp, #-16]! *)
| Ldp (a b : nat)                  (* ldp xa, xb, [sp], #16 *)
| MovImm (d : nat) (v : Z)         (* mov xd, #v; ldr xd, =v; adrp of a page-aligned symbol *)
| Mov (d a : nat)                  (* mov xd, xa *)
| MovFromSp (d : nat)              (* mov xd, sp *)
| MovToSp (a : nat)                (* mov sp, xa *)
| Mrs (d : nat) (r : string)       (* mrs xd, r *)
| Msr (r : string) (a : nat)       (* msr r, xa *)
| MsrZero (r : string)             (* msr r, xzr *)
| AndImm (d a : nat) (v : Z)       (* and xd, xa, #v *)
| AddImm (d a : nat) (v : Z)       (* add xd, xa, #v *)
| Str (a b : nat) (off : Z)        (* str xa, [xb, #off] *)
| Bic (d a b : nat)                (* bic xd, xa, xb *)
| Add (d a b : nat)                (* add xd, xa, xb *)
| Madd (d a b c : nat)             (* madd xd, xa, xb, xc: xa * xb + xc *)
| Barrier.                         (* isb, dsb, tlbi *)

Record core : Type := mkCore {
  x : nat → Z;
  sp : Z;
  sysr : sysregs;
  ram : mem
}.

Definition set_x (d : nat) (v : Z) (c : core) : core := mkCore (<[d := v]> (x c)) (sp c) (sysr c) (ram c).
Definition set_sp (v : Z) (c : core) : core := mkCore (x c) v (sysr c) (ram c).
Definition set_sysr (r : string) (v : Z) (c : core) : core :=
  mkCore (x c) (sp c) (mkSysregs (<[r := v]> (sr_val (sysr c))) (sr_log (sysr c) ++ [(r, v)])) (ram c).

Definition exec1 (i : insn) (c : core) : core :=
  match i with
  | Stp a b =>
      let p := (sp c - 16) mod U64 in
      mkCore (x c) p (sysr c) (write64 (write64 (ram c) p (x c a)) (p + 8) (x c b))
  | Ldp a b =>
      let v1 := read64 (ram c) (sp c) in
      let v2 := read64 (ram c) (sp c + 8) in
      mkCore (<[b := v2]> (<[a := v1]> (x c))) ((sp c + 16) mod U64) (sysr c) (ram c)
  | MovImm d v => set_x d v c
  | Mov d a => set_x d (x c a) c
  | MovFromSp d => set_x d (sp c) c
  | MovToSp a => set_sp (x c a) c
  | Mrs d r => set_x d (default 0 (sr_val (sysr c) !! r)) c
  | Msr r a => set_sysr r (x c a) c
  | MsrZero r => set_sysr r 0 c
  | AndImm d a v => set_x d (Z.land (x c a) v) c
  | AddImm d a v => set_x d ((x c a + v) mod U64) c
  | Str a b off => mkCore (x c) (sp c) (sysr c) (write64 (ram c) ((x c b + off) mod U64) (x c a))
  | Bic d a b => set_x d (Z.ldiff (x c a) (x c b)) c
  | Add d a b => set_x d ((x c a + x c b) mod U64) c
  | Madd d a b e => set_x d ((x c a * x c b + x c e) mod U64) c
  | Barrier => c
  end.

Fixpoint exec (l : list insn) (c : core) : core :=
  match l with
  | [] => c
  | i :: l' => exec l' (exec1 i c)
  end.

Lemma exec_app l1 l2 c : exec (l1 ++ l2) c = exec l2 (exec l1 c).
Proof. revert c. induction l1 as [|i l1 IH]; intros c; [done|]. apply IH. Qed.

(** ** The code *)

(** The macro [handle_vmexit], up to the call of [arch_handle_exit]. *)
Definition handle_vmexit (exit_reason : Z) : list insn :=
  [Stp 29 30; Stp 27 28; Stp 25 26; Stp 23 24; Stp 21 22; Stp 19 20; Stp 17 18; Stp 15 16;
   Stp 13 14; Stp 11 12; Stp 9 10; Stp 7 8; Stp 5 6; Stp 3 4; Stp 1 2;
   MovImm 1 exit_reason; Stp 1 0; MovImm 29 0; MovImm 30 0; MovFromSp 0].

(** The loads that [vmreturn] and [shutdown_el2] share. *)
Definition load_regs : list insn :=
  [MovToSp 0; Ldp 1 0; Ldp 1 2; Ldp 3 4; Ldp 5 6; Ldp 7 8; Ldp 9 10; Ldp 11 12; Ldp 13 14;
   Ldp 15 16; Ldp 17 18; Ldp 19 20; Ldp 21 22; Ldp 23 24; Ldp 25 26; Ldp 27 28; Ldp 29 30].

(** [vmreturn], up to the [eret]. *)
Definition vmreturn_code : list insn := load_regs.

Definition SCTLR_FLAG2 : Z := 0x00001005.

(** [shutdown_el2], up to the [eret]. *)
Definition shutdown_el2 : list insn :=
  [Mrs 1 "sctlr_el2"; MovImm 2 SCTLR_FLAG2; Bic 1 1 2; Msr "sctlr_el2" 1; Barrier;
   MsrZero "mair_el2"; MsrZero "ttbr0_el2"; MsrZero "tcr_el2"; Barrier] ++ load_regs.

Definition MAIR_FLAG : Z := 0x004404ff.
Definition SCTLR_FLAG : Z := 0x30c51835.
Definition TCR_FLAG : Z := 0x80853510.

Definition enable_mmu : list insn :=
  [MovImm 1 MAIR_FLAG; Msr "mair_el2" 1; MovImm 1 TCR_FLAG; Msr "tcr_el2" 1;
   MovImm 1 SCTLR_FLAG; Msr "sctlr_el2" 1; Barrier; Barrier; Barrier].

(** [arch_entry] before the comparison of the CPU's number with 0. *)
Definition arch_entry_head (core_end : Z) : list insn :=
  [Mov 18 0; Mrs 0 "mpidr_el1"; AndImm 0 0 0xff; MovImm 2 core_end; MovImm 3 PER_CPU_SIZE;
   Madd 4 0 3 3; Add 5 2 4; MovToSp 5].

(** boot_pt.S: a table with one entry, and one with four blocks of 1G. *)
Definition PTE_TABLE_FLAGS : Z := 0x3.
Definition PAGE_DEFAULT_FLAG : Z := 0x741.
Definition PAGE_DEVICE_FLAG : Z := 0x745.

Definition boot_pt_init (boot_pt_l0 boot_pt_l1 : Z) : list insn :=
  [MovImm 1 boot_pt_l0; MovImm 2 boot_pt_l1; AddImm 2 2 PTE_TABLE_FLAGS; Str 2 1 0;
   MovImm 1 boot_pt_l1;
   MovImm 2 (Z.lor 0x0 PAGE_DEVICE_FLAG); Str 2 1 0;
   MovImm 2 (Z.lor 0x40000000 PAGE_DEFAULT_FLAG); Str 2 1 0x8;
   MovImm 2 (Z.lor 0x80000000 PAGE_DEFAULT_FLAG); Str 2 1 0x10;
   MovImm 2 (Z.lor 0xC0000000 PAGE_DEFAULT_FLAG); Str 2 1 0x18].

Definition enable_boot_pt (boot_pt_l0 : Z) : list insn :=
  [MovImm 1 boot_pt_l0; Msr "ttbr0_el2" 1; Barrier; Barrier; Barrier;
   MovImm 1 MAIR_FLAG; Msr "mair_el2" 1; MovImm 1 TCR_FLAG; Msr "tcr_el2" 1;
   MovImm 1 SCTLR_FLAG; Msr "sctlr_el2" 1; Barrier; Barrier; Barrier].

(** [cmp x0, 0; b.ne 1f]: CPU 0 clears .bss and builds the boot page table. What the
    compiled [clear_bss] does is a parameter. Before [bl rust_main] the device tree's
    address is put in x1. *)
Definition arch_entry (clear_bss : core → core) (core_end boot_pt_l0 boot_pt_l1 : Z) (c : core) : core :=
  let c1 := exec (arch_entry_head core_end) c in
  let c2 := if x c1 0 =? 0 then exec (boot_pt_init boot_pt_l0 boot_pt_l1) (clear_bss c1) else c1 in
  exec (enable_boot_pt boot_pt_l0 ++ [Mov 1 18; MovImm 18 0]) c2.

(** ** A CPU's memory *)

Section percpu.
  Context (core_end : Z).

(** [PerCpu::new] and [get_cpu_data] *)
Definition percpu_vaddr (cpu_id : Z) : Z := core_end + cpu_id * PER_CPU_SIZE.

(** [ArchCpu::stack_top] *)
Definition stack_top (cpuid : Z) : Z := core_end + (cpuid + 1) * PER_CPU_SIZE.

(** [ArchCpu::guest_reg]: the address of the CPU's [GeneralRegisters]. *)
Definition guest_reg (cpuid : Z) : Z := stack_top cpuid - 32 * 8.

End percpu.

(** ** Words on the stack *)

(** The 64-bit words from [a] on. *)
Definition stored (m : mem) (a : Z) (ws : list Z) : Prop :=
  ∀ k w, ws !! k = Some w → read64 m (a + 8 * Z.of_nat k) = w.

(** A [GeneralRegisters] in memory ([repr(C)]). *)
Definition reg_words (g : GeneralRegisters) : list Z := exit_reason g :: usr g.

Definition all_x (c : core) : list Z := x c <$> seq 0 31.

Definition u64_regs (c : core) : Prop := ∀ i, is_u64 (x c i).

Lemma push_stored c a b ws :
  u64_regs c → 16 ≤ sp c < U64 → stored (ram c) (sp c) ws →
  let c' := exec1 (Stp a b) c in
  stored (ram c') (sp c') (x c a :: x c b :: ws) ∧ sp c' = sp c - 16 ∧ x c' = x c ∧ sysr c' = sysr c.
Proof.
  intros Hu Hsp Hws. cbn [exec1 ram sp x sysr]. rewrite Z.mod_small by lia. split; [|done].
  intros [|[|k]] w Hk; simpl in Hk.
  - injection Hk as <-. rewrite Z.add_0_r, read_write64_ne by lia. by apply read_write64.
  - injection Hk as <-. change (8 * Z.of_nat 1) with 8. by apply read_write64.
  - rewrite !read_write64_ne by lia. rewrite <- (Hws k w Hk). f_equal. lia.
Qed.

Lemma pop_stored c a b v1 v2 ws :
  0 ≤ sp c → sp c + 16 < U64 → stored (ram c) (sp c) (v1 :: v2 :: ws) →
  let c' := exec1 (Ldp a b) c in
  x c' = <[b := v2]> (<[a := v1]> (x c)) ∧ stored (ram c') (sp c') ws ∧ sp c' = sp c + 16 ∧ ram c' = ram c ∧
  sysr c' = sysr c.
Proof.
  intros H0 Hsp Hws. cbn [exec1 ram sp x sysr]. rewrite Z.mod_small by lia.
  pose proof (Hws 0%nat v1 eq_refl) as H1. pose proof (Hws 1%nat v2 eq_refl) as H2.
  rewrite Z.add_0_r in H1. change (8 * Z.of_nat 1) with 8 in H2. rewrite H1, H2.
  split_and!; try done. intros k w Hk. rewrite <- (Hws (2 + k)%nat w Hk). f_equal. lia.
Qed.

(** Pairs of registers, pushed one after the other: the last is on top. *)
Definition push_all (ps : list (nat * nat)) : list insn := (λ p, Stp p.1 p.2) <$> ps.
Definition pair_words (c : core) (ps : list (nat * nat)) : list Z := concat ((λ p, [x c p.1; x c p.2]) <$> rev ps).

Lemma pushes_stored ps c ws :
  u64_regs c → 16 * Z.of_nat (length ps) ≤ sp c < U64 → stored (ram c) (sp c) ws →
  let c' := exec (push_all ps) c in
  stored (ram c') (sp c') (pair_words c ps ++ ws) ∧
  sp c' = sp c - 16 * Z.of_nat (length ps) ∧ x c' = x c ∧ sysr c' = sysr c.
Proof.
  revert c ws. induction ps as [|[a b] ps IH]; intros c ws Hu Hsp Hws.
  { simpl. split_and!; [done|lia|done|done]. }
  cbn [length] in Hsp. destruct (push_stored c a b ws Hu ltac:(lia) Hws) as (Hs & Hp & Hx & Hr).
  change (exec (push_all ((a, b) :: ps)) c) with (exec (push_all ps) (exec1 (Stp a b) c)). set (c1 := exec1 (Stp a b) c) in *.
  destruct (IH c1 (x c a :: x c b :: ws)) as (Hs' & Hp' & Hx' & Hr').
  - intros i. rewrite Hx. apply Hu.
  - lia.
  - done.
  - cbv zeta in *. split_and!; [|cbn [length]; lia|congruence|congruence].
    assert (pair_words c ((a, b) :: ps) ++ ws = pair_words c1 ps ++ x c a :: x c b :: ws) as ->; [|exact Hs'].
    unfold pair_words. cbn [rev]. rewrite fmap_app, concat_app, Hx, <- app_assoc. done.
Qed.

(** Popping pairs of registers. *)
Definition pop_all (ps : list (nat * nat)) : list insn := (λ p, Ldp p.1 p.2) <$> ps.

Fixpoint load_pairs (ps : list (nat * nat)) (ws : list Z) (f : nat → Z) : nat → Z :=
  match ps, ws with
  | p :: ps', v1 :: v2 :: ws' => load_pairs ps' ws' (<[p.2 := v2]> (<[p.1 := v1]> f))
  | _, _ => f
  end.

Lemma pops_stored ps c ws :
  length ws = (2 * length ps)%nat → 0 ≤ sp c → sp c + 16 * Z.of_nat (length ps) < U64 →
  stored (ram c) (sp c) ws →
  let c' := exec (pop_all ps) c in
  x c' = load_pairs ps ws (x c) ∧ sp c' = sp c + 16 * Z.of_nat (length ps) ∧ ram c' = ram c ∧ sysr c' = sysr c.
Proof.
  revert c ws. induction ps as [|[a b] ps IH]; intros c ws Hl H0 Hsp Hws.
  { simpl. split_and!; [done|lia|done|done]. }
  destruct ws as [|v1 [|v2 ws]]; [done| |]; cbn [length] in Hl, Hsp; [lia|].
  destruct (pop_stored c a b v1 v2 ws H0 ltac:(lia) Hws) as (Hx & Hs & Hp & Hm & Hr).
  change (exec (pop_all ((a, b) :: ps)) c) with (exec (pop_all ps) (exec1 (Ldp a b) c)).
  cbn [load_pairs fst snd]. set (c1 := exec1 (Ldp a b) c) in *.
  destruct (IH c1 ws) as (Hx' & Hp' & Hm' & Hr'); [lia|lia|lia|by rewrite Hm in Hs |- *|].
  cbv zeta in *. split_and!; [by rewrite Hx', Hx|cbn [length]; lia|congruence|congruence].
Qed.

(** ** Leaving and entering a guest *)

Definition save_pairs : list (nat * nat) :=
  [(29, 30); (27, 28); (25, 26); (23, 24); (21, 22); (19, 20); (17, 18); (15, 16); (13, 14); (11, 12);
   (9, 10); (7, 8); (5, 6); (3, 4); (1, 2)]%nat.

Definition load_pairs_of_vmreturn : list (nat * nat) :=
  [(1, 0); (1, 2); (3, 4); (5, 6); (7, 8); (9, 10); (11, 12); (13, 14); (15, 16); (17, 18); (19, 20);
   (21, 22); (23, 24); (25, 26); (27, 28); (29, 30)]%nat.

(** The end of [handle_vmexit], after x1 to x30 have been stored. *)
Lemma vmexit_tail c r ws :
  u64_regs c → is_u64 r → 16 ≤ sp c < U64 → stored (ram c) (sp c) ws →
  let c' := exec [MovImm 1 r; Stp 1 0; MovImm 29 0; MovImm 30 0; MovFromSp 0] c in
  sp c' = sp c - 16 ∧ x c' 0%nat = sp c - 16 ∧ sysr c' = sysr c ∧ stored (ram c') (sp c') (r :: x c 0%nat :: ws).
Proof.
  intros Hu Hr Hsp Hs. assert (u64_regs (set_x 1 r c)) as Hu2.
  { intros i. unfold set_x. cbn [x]. unfold insert, fn_insert. by case_decide. }
  destruct (push_stored (set_x 1 r c) 1 0 ws Hu2 Hsp Hs) as (Hs2 & Hp2 & Hx2 & Hy2).
  change (exec _ c) with (exec [MovImm 29 0; MovImm 30 0; MovFromSp 0] (exec1 (Stp 1 0) (set_x 1 r c))).
  revert Hs2 Hp2 Hx2 Hy2. generalize (exec1 (Stp 1 0) (set_x 1 r c)). intros c3 Hs3 Hp3 Hx3 Hy3. cbv zeta in *.
  split_and!; [exact Hp3|exact Hp3|exact Hy3|exact Hs3].
Qed.

(** A guest exit stores the guest's registers as a [GeneralRegisters] in the 256 bytes
    below the stack pointer and passes its address. *)
Lemma vmexit_saves c r :
  u64_regs c → is_u64 r → 256 ≤ sp c < U64 →
  let c' := exec (handle_vmexit r) c in
  sp c' = sp c - 256 ∧ x c' 0%nat = sp c - 256 ∧ sysr c' = sysr c ∧
  stored (ram c') (sp c') (reg_words (mkRegs r (all_x c))).
Proof.
  intros Hu Hr Hsp.
  change (handle_vmexit r) with (push_all save_pairs ++ [MovImm 1 r; Stp 1 0; MovImm 29 0; MovImm 30 0; MovFromSp 0]).
  rewrite exec_app. destruct (pushes_stored save_pairs c []) as (Hs & Hp & Hx & Hy);
    [done|change (length save_pairs) with 15%nat; lia|intros k w Hk; by destruct k|].
  revert Hs Hp Hx Hy. cbv zeta. generalize (exec (push_all save_pairs) c). intros c1 Hs Hp Hx Hy.
  change (length save_pairs) with 15%nat in Hp.
  destruct (vmexit_tail c1 r (pair_words c save_pairs ++ [])) as (H1 & H2 & H3 & H4);
    [by intros i; rewrite Hx|done|lia|done|].
  split_and!; [rewrite H1; lia|rewrite H2; lia|congruence|]. rewrite Hx in H4. exact H4.
Qed.

(** [vmreturn] gives every general register its value and leaves the stack pointer above
    the saved registers. *)
Lemma load_regs_restores c g :
  length (usr g) = 31%nat → 0 ≤ x c 0%nat → x c 0%nat + 256 < U64 → stored (ram c) (x c 0%nat) (reg_words g) →
  let c' := exec load_regs c in
  (∀ i v, usr g !! i = Some v → x c' i = v) ∧ sp c' = x c 0%nat + 256 ∧ ram c' = ram c ∧ sysr c' = sysr c.
Proof.
  intros Hl H0 H1 Hs. change load_regs with (MovToSp 0 :: pop_all load_pairs_of_vmreturn). cbn [exec exec1].
  destruct (pops_stored load_pairs_of_vmreturn (set_sp (x c 0%nat) c) (reg_words g)) as (Hx & Hp & Hm & Hy).
  - unfold reg_words. cbn [length]. by rewrite Hl.
  - done.
  - unfold load_pairs_of_vmreturn, set_sp. cbn [length sp]. lia.
  - done.
  - cbv zeta in *. split_and!; [|rewrite Hp; unfold load_pairs_of_vmreturn, set_sp; cbn [length sp]; lia|done|done].
    rewrite Hx. clear Hx Hp Hm Hy Hs. destruct g as [r l]. unfold reg_words. cbn [usr exit_reason] in *.
    do 31 (destruct l as [|? l]; [done|]). destruct l; [|done].
    intros i v Hi. do 31 (destruct i as [|i]; [injection Hi as <-; reflexivity|]). done.
Qed.

(** Between the two the handler may change the saved registers, but keeps the stack
    above its own frame. *)
Lemma exit_then_return c r c2 g :
  u64_regs c → is_u64 r → 256 ≤ sp c < U64 → length (usr g) = 31%nat →
  let c1 := exec (handle_vmexit r) c in
  x c2 0%nat = x c1 0%nat → stored (ram c2) (sp c1) (reg_words g) →
  let c' := exec vmreturn_code c2 in
  (∀ i v, usr g !! i = Some v → x c' i = v) ∧ sp c' = sp c.
Proof.
  intros Hu Hr Hsp Hl. destruct (vmexit_saves c r Hu Hr Hsp) as (H1 & H2 & _ & _). cbv zeta in *.
  revert H1 H2. generalize (exec (handle_vmexit r) c). intros c1 H1 H2 Hx Hs.
  destruct (load_regs_restores c2 g Hl) as (R1 & R2 & _); [lia|lia|by rewrite Hx, H2, <- H1|].
  cbv zeta in *. split; [exact R1|]. unfold vmreturn_code. rewrite R2. lia.
Qed.

(** [shutdown_el2] turns the MMU and the caches off, resets the translation registers,
    and returns like [vmreturn]. *)
Lemma shutdown_el2_effect c g :
  length (usr g) = 31%nat → 0 ≤ x c 0%nat → x c 0%nat + 256 < U64 → stored (ram c) (x c 0%nat) (reg_words g) →
  let c' := exec shutdown_el2 c in
  (∀ i v, usr g !! i = Some v → x c' i = v) ∧ sp c' = x c 0%nat + 256 ∧
  sr_log (sysr c') = sr_log (sysr c) ++
    [("sctlr_el2"%string, Z.ldiff (default 0 (sr_val (sysr c) !! "sctlr_el2"%string)) SCTLR_FLAG2);
     ("mair_el2"%string, 0); ("ttbr0_el2"%string, 0); ("tcr_el2"%string, 0)].
Proof.
  intros Hl H0 H1 Hs. unfold shutdown_el2. cbv zeta. rewrite exec_app.
  match goal with |- context [exec load_regs ?c1] => set (c1' := c1) end.
  destruct (load_regs_restores c1' g Hl H0 H1 Hs) as (R1 & R2 & _ & R4). cbv zeta in *.
  split_and!; [exact R1|exact R2|]. rewrite R4. unfold c1'. cbn. by rewrite <- !app_assoc.
Qed.

(** ** Entry *)

(** A CPU starts with its stack at [stack_top] of the number it takes from the low byte
    of MPIDR_EL1. *)
Lemma arch_entry_stack core_end c :
  let mpidr := default 0 (sr_val (sysr c) !! "mpidr_el1"%string) in
  let c' := exec (arch_entry_head core_end) c in
  0 ≤ core_end → core_end + 256 * PER_CPU_SIZE < U64 →
  x c' 0%nat = Z.land mpidr 0xff ∧ sp c' = stack_top core_end (Z.land mpidr 0xff) ∧ x c' 18%nat = x c 0%nat.
Proof.
  intros mpidr c' H0 H1. assert (0 ≤ Z.land mpidr 255 < 256) as Hr.
  { change 255 with (Z.ones 8). rewrite Z.land_ones by lia. apply Z.mod_pos_bound. lia. }
  assert (sp c' = (core_end + (Z.land mpidr 255 * PER_CPU_SIZE + PER_CPU_SIZE) mod U64) mod U64) as -> by reflexivity.
  split_and!; [done| |done]. unfold stack_top, PER_CPU_SIZE, U64 in *.
  rewrite (Z.mod_small (_ * _ + _)) by lia. rewrite Z.mod_small by lia. lia.
Qed.

(** The CPU's number in the rest of the code has more of MPIDR_EL1: the two agree when
    the affinity levels above the lowest are 0. *)
Lemma entry_number_agrees mpidr :
  Z.land (Z.shiftr mpidr 8) 0xff00ffff = 0 → Z.land mpidr 0xff = mpidr_to_cpuid mpidr.
Proof.
  intros H. unfold mpidr_to_cpuid. apply Z.bits_inj_iff'. intros k Hk. rewrite !Z.land_spec.
  destruct (decide (k < 8)) as [Hlt|Hge].
  - f_equal. assert (k = 0 ∨ k = 1 ∨ k = 2 ∨ k = 3 ∨ k = 4 ∨ k = 5 ∨ k = 6 ∨ k = 7) as Hc by lia.
    by repeat destruct Hc as [->|Hc]; subst.
  - apply (f_equal (λ z, Z.testbit z (k - 8))) in H. rewrite Z.land_spec, Z.shiftr_spec, Z.bits_0 in H by lia.
    replace (k - 8 + 8) with k in H by lia.
    change 0xff with (Z.ones 8) at 1. rewrite Z.ones_spec_high, andb_false_r by lia.
    replace (Z.testbit 0xff00ffffff k) with (Z.testbit 0xff00ffff (k - 8)); [by rewrite H|].
    change 0xff00ffffff with (Z.lor (Z.shiftl 0xff00ffff 8) 0xff).
    rewrite Z.lor_spec, Z.shiftl_spec by lia. change 0xff with (Z.ones 8) at 1.
    by rewrite Z.ones_spec_high, orb_false_r by lia.
Qed.

(** ** Where the CPUs keep their data *)

(** Every CPU's data, stack and guest registers lie in an area of its own, between the
    hypervisor's image and the frame pool. *)
Lemma percpu_areas core_end i :
  0 ≤ i < MAX_CPU_NUM →
  core_end ≤ percpu_vaddr core_end i ∧ percpu_vaddr core_end i ≤ guest_reg core_end i ∧
  guest_reg core_end i + 256 = stack_top core_end i ∧
  stack_top core_end i = percpu_vaddr core_end (i + 1) ∧ stack_top core_end i ≤ core_end + 0x200000.
Proof. unfold MAX_CPU_NUM, guest_reg, stack_top, percpu_vaddr, PER_CPU_SIZE. lia. Qed.

Lemma percpu_disjoint core_end i j b :
  percpu_vaddr core_end i ≤ b < stack_top core_end i → percpu_vaddr core_end j ≤ b < stack_top core_end j → i = j.
Proof. unfold stack_top, percpu_vaddr, PER_CPU_SIZE. lia. Qed.
