(* ===== verification/BootPt.v ===== *)
(** * The boot page table

    What the assembly of src/src/arch/aarch64/boot_pt.S, run by [arch_entry], makes of
    the hypervisor's own addresses. *)

From S2P Require Import Prelude PhysMem HvError Addr Region Pte S1pt Paging PagingWf Sys Asm.

#[local] Existing Instance S1PT.s1_pte.

Section boot_pt.
  Context (l0 l1 : Z).
  Context (Hl0 : is_aligned l0 = true) (Hl1 : is_aligned l1 = true).
  Context (Hr0 : 0 ≤ l0 < 2 ^ 48) (Hr1 : 0 ≤ l1 < 2 ^ 48) (Hne : l0 ≠ l1).

(** What a 1G block of the table holds. *)
Definition boot_flags (k : Z) : Z := if k =? 0 then PAGE_DEVICE_FLAG else PAGE_DEFAULT_FLAG.

(** The five words written. *)
Definition boot_table (m : mem) : Prop :=
  read64 m l0 = l1 + PTE_TABLE_FLAGS ∧
  ∀ k, 0 ≤ k < 4 → read64 m (l1 + 8 * k) = Z.lor (0x40000000 * k) (boot_flags k).

(** Two aligned pages have no word in common. *)
Lemma pages_apart : l0 + PAGE_SIZE ≤ l1 ∨ l1 + PAGE_SIZE ≤ l0.
Proof using All.
  clear Hr0 Hr1. apply is_aligned_spec in Hl0, Hl1. unfold PAGE_SIZE in *.
  pose proof (Z.div_mod l0 4096). pose proof (Z.div_mod l1 4096). lia.
Qed.

Lemma boot_pt_init_table c : boot_table (ram (exec (boot_pt_init l0 l1) c)).
Proof using All.
  assert (ram (exec (boot_pt_init l0 l1) c) =
    write64 (write64 (write64 (write64 (write64 (ram c) ((l0 + 0) mod U64) ((l1 + PTE_TABLE_FLAGS) mod U64))
      ((l1 + 0) mod U64) 0x745) ((l1 + 0x8) mod U64) 0x40000741) ((l1 + 0x10) mod U64) 0x80000741)
      ((l1 + 0x18) mod U64) 0xC0000741) as -> by reflexivity.
  pose proof pages_apart as Hap. unfold PTE_TABLE_FLAGS, PAGE_SIZE, U64 in *.
  rewrite !Z.mod_small by lia. split.
  - rewrite !read_write64_ne by lia. rewrite Z.add_0_r. apply read_write64.
    unfold is_u64, U64, PTE_TABLE_FLAGS. lia.
  - intros k Hk. assert (k = 0 ∨ k = 1 ∨ k = 2 ∨ k = 3) as [->|[->|[-> | ->]]] by lia;
      rewrite ?read_write64_ne by lia; apply read_write64; split; by vm_compute.
Qed.

(** The entry of the upper table points to the lower one. *)
Lemma boot_table_entry :
  S1PT.is_present (l1 + PTE_TABLE_FLAGS) = true ∧ S1PT.is_huge (l1 + PTE_TABLE_FLAGS) = false ∧
  S1PT.addr (l1 + PTE_TABLE_FLAGS) = l1.
Proof using Hl1 Hr1.
  clear Hne Hr0 Hl0 l0. apply is_aligned_spec in Hl1. assert (l1 + PTE_TABLE_FLAGS = descriptor 3 l1) as ->.
  { unfold descriptor. rewrite (phys_mask_id l1) by done.
    change (Z.land 3 (unot64 PHYS_ADDR_MASK)) with 3. rewrite Z.lor_comm. unfold PTE_TABLE_FLAGS.
    assert (Z.land l1 3 = 0) as Hz.
    { change 3 with (Z.ones 2). rewrite Z.land_ones by lia. unfold PAGE_SIZE in Hl1.
      apply Z.mod_divide; [lia|]. apply Z.mod_divide in Hl1; [|lia]. destruct Hl1 as [q ->]. exists (q * 1024). lia. }
    pose proof (Z.add_lor_land l1 3). lia. }
  unfold S1PT.is_present, S1PT.is_huge, S1PT.from_bits_truncate, S1PT.addr.
  rewrite descriptor_attr, descriptor_addr, phys_mask_id by done. done.
Qed.

(** What the blocks say. *)
Lemma block_view k va :
  0 ≤ k < 4 →
  entry_view (Z.lor (0x40000000 * k) (boot_flags k)) 3 va =
  Some (0x40000000 * k + va mod 0x40000000, if k =? 0 then Z.lor (Z.lor READ WRITE) IO else Z.lor READ WRITE, Size1G).
Proof. intros Hk. by assert (k = 0 ∨ k = 1 ∨ k = 2 ∨ k = 3) as [->|[->|[-> | ->]]] by lia. Qed.

Lemma block_huge k : 0 ≤ k < 4 → S1PT.is_huge (Z.lor (0x40000000 * k) (boot_flags k)) = true.
Proof. intros Hk. by assert (k = 0 ∨ k = 1 ∨ k = 2 ∨ k = 3) as [->|[->|[-> | ->]]] by lia. Qed.

(** Every address below 4G is mapped to itself, in blocks of 1G: the first as device
    memory, the others as normal memory. *)
Lemma boot_identity m va :
  boot_table m → 0 ≤ va < 2 ^ 32 →
  hw_translate m 4 l0 va = Some (va, if va <? 0x40000000 then Z.lor (Z.lor READ WRITE) IO else Z.lor READ WRITE, Size1G).
Proof using All.
  intros [H0 H1] Hva. destruct boot_table_entry as (E1 & E2 & E3).
  assert (walk_index 4 va = 0) as W4. { unfold walk_index. rewrite Z.div_small by lia. done. }
  assert (walk_index 3 va = va / 0x40000000) as W3.
  { unfold walk_index. change (2 ^ _) with 0x40000000. apply Z.mod_small.
    split; [apply Z.div_pos; lia|apply Z.div_lt_upper_bound; lia]. }
  assert (0 ≤ va / 0x40000000 < 4) as Hk by (split; [apply Z.div_pos; lia|apply Z.div_lt_upper_bound; lia]).
  pose proof (Z.div_mod va 0x40000000 ltac:(lia)) as Hdm. pose proof (Z.mod_pos_bound va 0x40000000 ltac:(lia)).
  assert ((va <? 0x40000000) = (va / 0x40000000 =? 0)) as ->.
  { destruct (va / 0x40000000 =? 0) eqn:Hq; [apply Z.eqb_eq in Hq|apply Z.eqb_neq in Hq]; lia. }
  unfold hw_translate. cbn [hw_walk]. rewrite W4, Z.mul_0_r, Z.add_0_r, H0.
  change (pte_is_present (l1 + PTE_TABLE_FLAGS)) with (S1PT.is_present (l1 + PTE_TABLE_FLAGS)).
  change (pte_is_huge (l1 + PTE_TABLE_FLAGS)) with (S1PT.is_huge (l1 + PTE_TABLE_FLAGS)).
  change (pte_addr (l1 + PTE_TABLE_FLAGS)) with (S1PT.addr (l1 + PTE_TABLE_FLAGS)).
  rewrite E1, E2, E3, W3. cbn [andb negb]. pose proof (block_view (va / 0x40000000) va Hk) as Hv.
  rewrite <- Hdm, <- (H1 _ Hk) in Hv. pose proof (block_huge _ Hk) as Hh.
  rewrite <- (H1 _ Hk) in Hh. unfold pte_is_huge at 1. cbn [S1PT.s1_pte]. rewrite Hh, andb_false_r. exact Hv.
Qed.

(** CPU 0 leaves [arch_entry] with the MMU on and this table in TTBR0_EL2, whatever the
    compiled [clear_bss] leaves in the registers and in memory. *)
Lemma arch_entry_cpu0 clear_bss core_end c va :
  Z.land (default 0 (sr_val (sysr c) !! "mpidr_el1"%string)) 0xff = 0 → 0 ≤ va < 2 ^ 32 →
  let c' := arch_entry clear_bss core_end l0 l1 c in
  sr_val (sysr c') !! "ttbr0_el2"%string = Some l0 ∧ sr_val (sysr c') !! "sctlr_el2"%string = Some SCTLR_FLAG ∧
  hw_translate (ram c') 4 l0 va =
  Some (va, if va <? 0x40000000 then Z.lor (Z.lor READ WRITE) IO else Z.lor READ WRITE, Size1G).
Proof using All.
  intros Hid Hva. unfold arch_entry. cbv zeta.
  assert (x (exec (arch_entry_head core_end) c) 0%nat = 0) as -> by exact Hid. cbn [Z.eqb].
  pose proof (boot_pt_init_table (clear_bss (exec (arch_entry_head core_end) c))) as Ht. revert Ht.
  generalize (exec (boot_pt_init l0 l1) (clear_bss (exec (arch_entry_head core_end) c))). intros c1 Ht.
  split_and!; [by simplify_map_eq..|]. apply (boot_identity (ram c1) va Ht Hva).
Qed.

End boot_pt.
