(* ===== verification/ZoneOps.v ===== *)
(** * Zones (src/src/zone.rs, src/src/arch/aarch64/zone.rs, the zone part of
    src/src/device/irqchip/gicv3/vgic.rs and src/src/arch/aarch64/mm.rs) *)

From S2P Require Import Prelude HvError Addr Region PtIface BTreeMap MemorySet CpuSet Mmio Config.
From S2P Require Import Sys.

(** ** Operations on one zone *)

Section zone.
  Context {PT : Type}.
  Implicit Types (z : Zone PT).

Definition set_mmio (m : list MMIOConfig) z : Zone PT :=
  mkZone (z_id z) m (z_cpu_set z) (z_irq_bitmap z) (z_gpm z).
Definition set_cpu_set (c : CpuSet) z : Zone PT :=
  mkZone (z_id z) (z_mmio z) c (z_irq_bitmap z) (z_gpm z).
Definition set_irq_bitmap (b : list Z) z : Zone PT :=
  mkZone (z_id z) (z_mmio z) (z_cpu_set z) b (z_gpm z).
Definition set_gpm (g : MemorySet PT) z : Zone PT :=
  mkZone (z_id z) (z_mmio z) (z_cpu_set z) (z_irq_bitmap z) g.

(** [mmio_region_register] on the vector: the first entry with this start is
    updated in place; an entry of another size is a panic. *)
Fixpoint register_in {S E} (start size : Z) (h : MMIOHandler) (a : Z) (l : list MMIOConfig) :
    M S E (list MMIOConfig) :=
  match l with
  | [] => hret [mkMMIOConfig (mkMMIORegion start size) h a]
  | c :: l' =>
      if mr_start (region c) =? start then
        if negb (mr_size (region c) =? size) then hpanic PExplicit
        else hret (mkMMIOConfig (region c) h a :: l')
      else let* rest := register_in start size h a l' in hret (c :: rest)
  end.

Definition mmio_region_register {S E} (z : Zone PT) (start size : Z) (h : MMIOHandler) (a : Z) :
    M S E (Zone PT) :=
  let* l := register_in start size h a (z_mmio z) in
  hret (set_mmio l z).

Fixpoint remove_in (start : Z) (l : list MMIOConfig) : list MMIOConfig :=
  match l with
  | [] => []
  | c :: l' => if mr_start (region c) =? start then l' else c :: remove_in start l'
  end.

Definition mmio_region_remove (z : Zone PT) (start : Z) : Zone PT :=
  set_mmio (remove_in start (z_mmio z)) z.

Fixpoint find_in {S E} (addr size : Z) (l : list MMIOConfig) :
    M S E (option (MMIORegion * MMIOHandler * Z)) :=
  match l with
  | [] => hret None
  | c :: l' =>
      let* b := contains_region (region c) addr size in
      if b then hret (Some (region c, handler c, arg c)) else find_in addr size l'
  end.

Definition find_mmio_region {S E} (z : Zone PT) (addr size : Z) :
    M S E (option (MMIORegion * MMIOHandler * Z)) :=
  find_in addr size (z_mmio z).

(** [self.irq_bitmap[idx]] *)
Definition irq_word {S E} (z : Zone PT) (idx : Z) : M S E Z :=
  match z_irq_bitmap z !! Z.to_nat idx with
  | Some w => hret w
  | None => hpanic PIndex
  end.

Definition irq_in_zone {S E} (z : Zone PT) (irq_id : Z) : M S E bool :=
  let idx := irq_id / 32 in
  let bit_pos := irq_id mod 32 in
  let* w := irq_word z idx in
  hret (negb (Z.land w (Z.shiftl 1 bit_pos) =? 0)).

Definition insert_irq_to_bitmap {S E} (z : Zone PT) (irq : Z) : M S E (Zone PT) :=
  hassert (irq <? 1024) ;;;
  let irq_index := irq / 32 in
  let irq_bit := irq mod 32 in
  let* w := irq_word z irq_index in
  hret (set_irq_bitmap
          (<[Z.to_nat irq_index := Z.lor w (Z.shiftl 1 irq_bit)]> (z_irq_bitmap z)) z).

(** The second loop of [irq_bitmap_init] only prints. *)
Fixpoint irq_bitmap_init {S E} (z : Zone PT) (irqs : list Z) : M S E (Zone PT) :=
  match irqs with
  | [] => hret z
  | irq :: irqs' => let* z' := insert_irq_to_bitmap z irq in irq_bitmap_init z' irqs'
  end.

(** [config.cpus().iter().for_each(|cpu_id| zone.cpu_set.set_bit(cpu_id))] *)
Fixpoint set_cpus_of {S E} (z : Zone PT) (ids : list Z) : M S E (Zone PT) :=
  match ids with
  | [] => hret z
  | i :: ids' =>
      let* cs := set_bit (z_cpu_set z) i in set_cpus_of (set_cpu_set cs z) ids'
  end.

End zone.

(** ** Operations that use the page tables *)

Section zone_mem.
  Context {W PT : Type} {G : GenericPageTable W PT}.

(** Running a [MemorySet] operation on the zone's [gpm]. *)
Definition with_gpm {A} (z : Zone PT) (m : M (W * MemorySet PT) HvError A) :
    M W HvError (A * Zone PT) := λ w,
  match m (w, z_gpm z) with
  | ROk a s => ROk (a, set_gpm s.2 z) s.1
  | RErr e s => RErr e s.1
  | RPanic p => RPanic p
  | RHang => RHang
  end.

(** One iteration of the loop of [pt_init]. *)
Definition pt_init_one (z : Zone PT) (r : HvConfigMemoryRegion) : M W HvError (Zone PT) :=
  let flags := Z.lor (Z.lor READ WRITE) EXECUTE in
  let flags := if mem_type r =? MEM_TYPE_IO then Z.lor flags IO else flags in
  if (mem_type r =? MEM_TYPE_RAM) || (mem_type r =? MEM_TYPE_IO) then
    let* '(_, z') := with_gpm z (ms_insert (new_with_offset_mapper
                        (virtual_start r) (physical_start r) (cr_size r) flags)) in
    hret z'
  else if mem_type r =? MEM_TYPE_VIRTIO then
    mmio_region_register z (physical_start r) (cr_size r) h_virtio (physical_start r)
  else hpanic PExplicit.

Fixpoint pt_init (z : Zone PT) (regions : list HvConfigMemoryRegion) : M W HvError (Zone PT) :=
  match regions with
  | [] => hret z
  | r :: regions' => let* z' := pt_init_one z r in pt_init z' regions'
  end.

End zone_mem.

(** ** Operations on the global state *)

Section zones.
  Context {W PT D : Type} {G : GenericPageTable W PT}.
  Abbreviation sys := (sys W PT D).

Definition with_w {E A} (m : M W E A) : M sys E A := zoom s_w set_w m.

(** *** The physical address range (src/src/arch/aarch64/mm.rs) *)

Definition PARANGE_TABLE : list Z := [32; 36; 40; 42; 44; 48].

(** [setup_parange] up to the wait for the other CPUs. *)
Definition setup_parange_begin {E} : M sys E unit :=
  let* v := with_regs (read_sysreg "ID_AA64MMFR0_EL1") in
  let temp_parange := Z.land v 0xf in
  hmodify (λ s, set_par (mkPar (Z.min (min_parange (s_par s)) temp_parange)
                               (parange_ok_cpus (s_par s) + 1)) s).

Definition get_parange {E} : M sys E Z :=
  let* p := hgets s_par in
  hassert (parange_ok_cpus p =? MAX_CPU_NUM) ;;;
  hret (min_parange p).

Definition get_parange_bits {E} : M sys E Z :=
  let* p := hgets s_par in
  hassert (parange_ok_cpus p =? MAX_CPU_NUM) ;;;
  match PARANGE_TABLE !! Z.to_nat (min_parange p) with
  | Some b => hret b
  | None => hpanic PIndex
  end.

Definition is_s2_pt_level3 {E} : M sys E bool :=
  let* b := get_parange_bits in hret (b <? 44).

Definition new_s2_memory_set : M sys HvError (MemorySet PT) :=
  let* l3 := is_s2_pt_level3 in
  with_w (ms_new (if l3 then 3 else 4)).

(** *** Zone::new *)

Definition zone_new (zoneid : Z) : M sys HvError (Zone PT) :=
  let* gpm := new_s2_memory_set in
  hret (mkZone zoneid [] (mkCpuSet MAX_CPU_NUM 0) (replicate 32 0) gpm).

(** *** GIC addresses (src/src/device/irqchip/gicv3/mod.rs) *)

Definition PER_GICR_SIZE : Z := 0x20000.

Definition gic {E} : M sys E Gic := let* g := hgets s_gic in ounwrap g.
Definition host_gicd_base {E} : M sys E Z := let* g := gic in hret (gicd_base g).
Definition host_gicd_size {E} : M sys E Z := let* g := gic in hret (gicd_size g).
Definition host_gicr_size {E} : M sys E Z := let* g := gic in hret (gicr_size g).
Definition host_gicr_base {E} (id : Z) : M sys E Z :=
  hassert (id <? MAX_CPU_NUM) ;;;
  let* g := gic in
  let* o := umul id PER_GICR_SIZE in
  uadd (gicr_base g) o.

(** [for cpu in 0..MAX_CPU_NUM] of [vgicv3_mmio_init] *)
Fixpoint register_gicrs {E} (z : Zone PT) (base : Z) (cpus : list Z) : M sys E (Zone PT) :=
  match cpus with
  | [] => hret z
  | cpu :: cpus' =>
      let* o := umul cpu PER_GICR_SIZE in
      let* b := uadd base o in
      let* z' := mmio_region_register z b PER_GICR_SIZE h_gicr cpu in
      register_gicrs z' base cpus'
  end.

Definition vgicv3_mmio_init {E} (z : Zone PT) (arch : HvArchZoneConfig) : M sys E (Zone PT) :=
  let* gicd_base := if cfg_gicd_base arch =? 0 then host_gicd_base else hret (cfg_gicd_base arch) in
  let* gicr_base := if cfg_gicr_base arch =? 0 then host_gicr_base 0 else hret (cfg_gicr_base arch) in
  let* gicd_size := if cfg_gicd_size arch =? 0 then host_gicd_size else hret (cfg_gicd_size arch) in
  let* z := mmio_region_register z gicd_base gicd_size h_gicd 0 in
  register_gicrs z gicr_base (seqZ 0 MAX_CPU_NUM).

(** [Zone::mmio_init] *)
Definition mmio_init {E} (z : Zone PT) (arch : HvArchZoneConfig) : M sys E (Zone PT) :=
  vgicv3_mmio_init z arch.

(** *** remove_zone *)

(** [zone_list.remove(idx)] of the first zone with the id; [None]: not found. *)
Fixpoint remove_first {E} (zid : Z) (l : list Z) : M sys E (option (Z * list Z)) :=
  match l with
  | [] => hret None
  | p :: l' =>
      let* z := read_zone p in
      if z_id z =? zid then hret (Some (p, l'))
      else
        let* o := remove_first zid l' in
        hret (match o with Some (q, rest) => Some (q, p :: rest) | None => None end)
  end.

(** Dropping the last [Arc] drops the zone: its [gpm] is cleared and freed. *)
Definition zone_drop (p : Z) : M sys HvError unit :=
  let* z := read_zone p in
  let* _r := with_w (with_gpm z ms_drop) in
  hmodify (λ s, set_heap (delete p (s_heap s)) s).

Definition remove_zone (zid : Z) : M sys HvError unit :=
  let* l := hgets s_zone_list in
  let* o := remove_first zid l in
  let* '(p, l') := ounwrap o in
  hmodify (set_zone_list l') ;;;
  (* the strong count: the references left and [removed_zone] itself *)
  let* refs := hgets (λ s, zone_refs s p + 1) in
  hassert (refs =? 1) ;;;
  zone_drop p.

(** *** zone_create *)

(** [Arc::new]: a heap cell that no pointer refers to. *)
Definition fresh_ptr (h : gmap Z (Zone PT)) : Z := map_fold (λ k _ m, Z.max (k + 1) m) 1 h.

Definition arc_new {E} (z : Zone PT) : M sys E Z :=
  let* h := hgets s_heap in
  let p := fresh_ptr h in
  hmodify (λ s, set_heap (<[p := z]> (s_heap s)) s) ;;;
  hret p.

(** The guest address of the device tree: the last region that holds it. *)
Fixpoint find_dtb_ipa {E} (dtb : Z) (ipa : Z) (regions : list HvConfigMemoryRegion) : M sys E Z :=
  match regions with
  | [] => hret ipa
  | r :: regions' =>
      let* ipa' :=
        (if physical_start r <=? dtb then
           let* e := uadd (physical_start r) (cr_size r) in
           if dtb <? e then
             let* a := uadd (virtual_start r) dtb in usub a (physical_start r)
           else hret ipa
         else hret ipa) in
      find_dtb_ipa dtb ipa' regions'
  end.

(** The closure run for each CPU of the new zone. *)
Definition assign_cpu {E} (p : Z) (cs : CpuSet) (entry dtb_ipa : Z) (cpuid : Z) : M sys E unit :=
  mod_cpu_data cpuid (set_pc_zone (Some p)) ;;;
  let* f := first_cpu cs in
  let* first := ounwrap f in
  (if cpuid =? first then mod_cpu_data cpuid (set_boot_cpu true) else hret tt) ;;;
  mod_cpu_data cpuid (set_cpu_on_entry entry) ;;;
  mod_cpu_data cpuid (set_dtb_ipa dtb_ipa).

Fixpoint for_each {S E A} (f : A → M S E unit) (l : list A) : M S E unit :=
  match l with
  | [] => hret tt
  | x :: l' => f x ;;; for_each f l'
  end.

(** [psci::error::INVALID_ADDRESS] is a constant of the crate [psci]. *)
Context (psci_invalid_address : Z).

Definition zone_create (config : HvZoneConfig) : M sys HvError Z :=
  let* o := find_zone (zone_id config) in
  match o with
  | Some _ => hv_result_err EEXIST
  | None =>
      let* z := zone_new (zone_id config) in
      let* regions := memory_regions config in
      let* z := hunwrap (with_w (pt_init z regions)) in
      let* z := mmio_init z (arch config) in
      let* irqs := interrupts config in
      let* z := irq_bitmap_init z irqs in
      let* z := set_cpus_of z (cpus config) in
      let* dtb_ipa := find_dtb_ipa (dtb_load_paddr config) psci_invalid_address regions in
      let cpu_set := z_cpu_set z in
      let* p := arc_new z in
      let* ids := cpu_iter cpu_set in
      for_each (assign_cpu p cpu_set (entry_point config) dtb_ipa) ids ;;;
      add_zone p ;;;
      hret p
  end.

End zones.
