(* ===== verification/Gic.v ===== *)
(** * The physical GICv3: CPU interface and list registers
    (src/src/device/irqchip/gicv3/mod.rs, gicd.rs, gicr.rs, src/src/arch/aarch64/ipi.rs)

    Virtual interrupts are delivered through list registers: [inject_irq] looks
    for a free one. [ICH_ELRSR_EL2] and [ICH_VTR_EL2] are the hardware's report of
    which list registers are free and how many there are. *)

From S2P Require Import Prelude HvError Addr Mmio Sys.

Local Open Scope string_scope.
Local Open Scope Z_scope.

(** *** gicd.rs, gicr.rs: register offsets *)

Definition GICD_CTLR : Z := 0x0000.
Definition GICD_CTLR_ARE_NS : Z := Z.shiftl 1 5.
Definition GICD_CTLR_GRP1NS_ENA : Z := Z.shiftl 1 1.
Definition GICD_TYPER : Z := 0x0004.
Definition GICD_IIDR : Z := 0x0008.
Definition GICD_IGROUPR : Z := 0x0080.
Definition GICD_ISENABLER : Z := 0x0100.
Definition GICD_ICENABLER : Z := 0x0180.
Definition GICD_ISPENDR : Z := 0x0200.
Definition GICD_ICPENDR : Z := 0x0280.
Definition GICD_ISACTIVER : Z := 0x0300.
Definition GICD_ICACTIVER : Z := 0x0380.
Definition GICD_IPRIORITYR : Z := 0x0400.
Definition GICD_ITARGETSR : Z := 0x0800.
Definition GICD_ICFGR : Z := 0x0c00.
Definition GICD_IROUTER : Z := 0x6000.
Definition GICDV3_CIDR0 : Z := 0xfff0.
Definition GICDV3_PIDR0 : Z := 0xffe0.
Definition GICDV3_PIDR4 : Z := 0xffd0.

Definition GICR_IIDR : Z := 0x0004.
Definition GICR_TYPER : Z := 0x0008.
Definition GICR_WAKER : Z := 0x0014.
Definition GICR_SYNCR : Z := 0x00c0.
Definition GICR_SGI_BASE : Z := 0x10000.
Definition GICR_IGROUPR : Z := GICD_IGROUPR.
Definition GICR_ISENABLER : Z := GICD_ISENABLER.
Definition GICR_IPRIORITYR : Z := GICD_IPRIORITYR.
Definition GICR_TYPER_LAST : Z := Z.shiftl 1 4.

Definition SGI_IPI_ID : Z := 7.

Definition is_spi (irqn : Z) : bool := (31 <? irqn) && (irqn <? 1020).
Definition is_sgi (irqn : Z) : bool := irqn <? 16.

(** *** List registers *)

Definition lr_names : list string :=
  ["ich_lr0_el2"; "ich_lr1_el2"; "ich_lr2_el2"; "ich_lr3_el2";
   "ich_lr4_el2"; "ich_lr5_el2"; "ich_lr6_el2"; "ich_lr7_el2";
   "ich_lr8_el2"; "ich_lr9_el2"; "ich_lr10_el2"; "ich_lr11_el2";
   "ich_lr12_el2"; "ich_lr13_el2"; "ich_lr14_el2"; "ich_lr15_el2"].

(** Beyond register 15 the code is [loop {}]. *)
Definition read_lr {E} (id : Z) : M sysregs E Z :=
  match lr_names !! Z.to_nat id with
  | Some r => read_sysreg r
  | None => hhang
  end.

Definition write_lr {E} (id val : Z) : M sysregs E unit :=
  match lr_names !! Z.to_nat id with
  | Some r => write_sysreg r val
  | None => hhang
  end.

Definition LR_VIRTIRQ_MASK : Z := Z.shiftl 1 32 - 1.

(** The scan of [inject_irq]: [None] when the interrupt is already in a list
    register in use, else the first free one, if any. *)
Fixpoint scan_lrs {E} (elsr irq_id : Z) (free : option Z) (ids : list Z) :
    M sysregs E (option (option Z)) :=
  match ids with
  | [] => hret (Some free)
  | i :: ids' =>
      if 0 <? Z.land (Z.shiftl 1 i) elsr then
        scan_lrs elsr irq_id (match free with None => Some i | Some f => Some f end) ids'
      else
        let* lr_val := read_lr i in
        if Z.land lr_val LR_VIRTIRQ_MASK =? irq_id then hret None
        else scan_lrs elsr irq_id free ids'
  end.

(** The value written: the interrupt id, group 1, pending, and for a hardware
    interrupt the physical id too. *)
Definition lr_value (irq_id : Z) (is_hardware : bool) : Z :=
  let val := Z.lor (Z.lor irq_id (Z.shiftl 1 60)) (Z.shiftl 1 62) in
  if negb (is_sgi (irq_id mod U32)) && is_hardware then
    Z.lor (Z.lor val (Z.shiftl 1 61)) (Z.shiftl irq_id 32 mod U64)
  else val.

Definition inject_irq {E} (irq_id : Z) (is_hardware : bool) : M sysregs E unit :=
  let* elsr := read_sysreg "ich_elrsr_el2" in
  let* vtr := read_sysreg "ich_vtr_el2" in
  let lr_num := Z.land vtr 0xf + 1 in
  let* r := scan_lrs elsr irq_id None (seqZ 0 lr_num) in
  match r with
  | None => hret tt
  | Some None => hpanic PExplicit
  | Some (Some free_ir) => write_lr free_ir (lr_value irq_id is_hardware)
  end.

(** *** Acknowledging and deactivating *)

Definition pending_irq {E} : M sysregs E (option Z) :=
  let* iar := read_sysreg "icc_iar1_el1" in
  hret (if 0x3fe <=? iar then None else Some iar).

Definition deactivate_irq {E} (irq_id : Z) : M sysregs E unit :=
  write_sysreg "icc_eoir1_el1" irq_id ;;;
  (if irq_id <? 16 then write_sysreg "icc_dir_el1" irq_id else hret tt).

(** *** Initialisation *)

Fixpoint clear_lrs {E} (ids : list Z) : M sysregs E unit :=
  match ids with
  | [] => hret tt
  | i :: ids' => write_lr i 0 ;;; clear_lrs ids'
  end.

Definition gicv3_clear_pending_irqs {E} : M sysregs E unit :=
  let* vtr := read_sysreg "ich_vtr_el2" in
  let lr_num := Z.land vtr 0xf + 1 in
  clear_lrs (seqZ 0 lr_num) ;;;
  let num_priority_bits := Z.shiftr vtr 29 + 1 in
  (if 5 <=? num_priority_bits then write_sysreg "ICH_AP1R0_EL2" 0 else hret tt) ;;;
  (if 6 <=? num_priority_bits then write_sysreg "ICH_AP1R1_EL2" 0 else hret tt) ;;;
  (if 6 <? num_priority_bits then
     write_sysreg "ICH_AP1R2_EL2" 0 ;;; write_sysreg "ICH_AP1R3_EL2" 0
   else hret tt).

(** The SMC at the start only reads the SDEI version that is printed. *)
Definition gicc_init {E} : M sysregs E unit :=
  write_sysreg "icc_ctlr_el1" 0x2 ;;;
  let* pmr := read_sysreg "icc_pmr_el1" in
  write_sysreg "icc_pmr_el1" 0xf0 ;;;
  write_sysreg "icc_igrpen1_el1" 0x1 ;;;
  gicv3_clear_pending_irqs ;;;
  let vmcr := Z.lor (Z.lor (Z.shiftl (Z.land pmr 0xff) 24) (Z.shiftl 1 1)) (Z.shiftl 1 9) in
  write_sysreg "ich_vmcr_el2" vmcr ;;;
  write_sysreg "ich_hcr_el2" 0x1.

(** *** Software-generated interrupts (ipi.rs) *)

(** [1 << cpu_id] is checked; the affinity fields are 0. *)
Definition arch_send_event {E} (cpu_id sgi_num : Z) : M sysregs E unit :=
  let sgi_id := Z.shiftl sgi_num 24 mod U64 in
  if cpu_id <? 64 then
    write_sysreg "icc_sgi1r_el1" (Z.lor sgi_id (Z.shiftl 1 cpu_id))
  else hpanic POverflow.

(** ** Facts *)

(** The list registers the hardware reports: bit [i] of ELRSR set means free. *)
Definition lr_count (x : sysregs) : Z := Z.land (default 0 (sr_val x !! "ich_vtr_el2")) 0xf + 1.
Definition lr_free (x : sysregs) (i : Z) : bool :=
  Z.testbit (default 0 (sr_val x !! "ich_elrsr_el2")) i.
Definition lr_val (x : sysregs) (i : Z) : Z :=
  match lr_names !! Z.to_nat i with
  | Some r => default 0 (sr_val x !! r)
  | None => 0
  end.

(** The interrupt is held by a list register in use. *)
Definition held (x : sysregs) (irq : Z) : Prop :=
  ∃ i, 0 ≤ i < lr_count x ∧ lr_free x i = false ∧ lr_val x i mod U32 = irq.

(** [i] is the lowest free list register. *)
Definition first_free (x : sysregs) (i : Z) : Prop :=
  0 ≤ i < lr_count x ∧ lr_free x i = true ∧ ∀ j, 0 ≤ j < i → lr_free x j = false.

Lemma lr_count_range x : 1 ≤ lr_count x ≤ 16.
Proof.
  unfold lr_count. change 0xf with (2 ^ 4 - 1). rewrite land_ones_mod by lia.
  pose proof (Z.mod_pos_bound (default 0 (sr_val x !! "ich_vtr_el2")) (2 ^ 4)). lia.
Qed.

Lemma lr_names_lookup i : 0 ≤ i < 16 → ∃ r, lr_names !! Z.to_nat i = Some r.
Proof. intros Hi. apply lookup_lt_is_Some. simpl. lia. Qed.

Lemma lr_names_inj : NoDup lr_names.
Proof. by apply (bool_decide_unpack (NoDup lr_names)); vm_compute. Qed.

Lemma read_lr_eq {E} x i : 0 ≤ i < 16 → read_lr (E:=E) i x = ROk (lr_val x i) x.
Proof. intros Hi. unfold read_lr, lr_val. by destruct (lr_names_lookup i Hi) as [r ->]. Qed.

Lemma shiftl_land_pos i y : 0 ≤ i → 0 ≤ y → (0 <? Z.land (Z.shiftl 1 i) y) = Z.testbit y i.
Proof.
  intros Hi Hy. rewrite Z.land_comm, <- (land_bit y i Hi).
  assert (0 ≤ Z.land y (Z.shiftl 1 i)) by (apply Z.land_nonneg; by left).
  destruct (Z.eqb_spec (Z.land y (Z.shiftl 1 i)) 0) as [->|]; [done|].
  apply Z.ltb_lt. lia.
Qed.

Lemma scan_lrs_spec {E} x irq free ids :
  (∀ i, i ∈ ids → 0 ≤ i < 16) → 0 ≤ default 0 (sr_val x !! "ich_elrsr_el2") →
  ∃ r, scan_lrs (E:=E) (default 0 (sr_val x !! "ich_elrsr_el2")) irq free ids x = ROk r x ∧
    match r with
    | None => ∃ i, i ∈ ids ∧ lr_free x i = false ∧ lr_val x i mod U32 = irq
    | Some f => (∀ i, i ∈ ids → lr_free x i = false → lr_val x i mod U32 ≠ irq) ∧
                f = match free with
                    | Some _ => free
                    | None => head (filter (λ i, lr_free x i = true) ids)
                    end
    end.
Proof.
  intros His Hpos. revert free. induction ids as [|i ids IH]; intros free.
  { exists (Some free). simpl. split; [done|]. split; [set_solver|]. by destruct free. }
  simpl. rewrite shiftl_land_pos by (done || apply His; set_solver). fold (lr_free x i).
  assert (∀ i, i ∈ ids → 0 ≤ i < 16) as His' by set_solver.
  destruct (lr_free x i) eqn:Hf.
  - destruct (IH His' (match free with None => Some i | Some f => Some f end)) as (r & Hr & Hspec).
    exists r. split; [done|]. destruct r as [f|]; [|set_solver].
    destruct Hspec as [Hno ->]. split.
    + intros j [->|Hj]%elem_of_cons ?; [congruence|auto].
    + destruct free; [done|]. by rewrite filter_cons_True.
  - unfold hbind. rewrite read_lr_eq by (apply His; set_solver).
    change LR_VIRTIRQ_MASK with (2 ^ 32 - 1). rewrite land_ones_mod by lia. fold U32.
    destruct (Z.eqb_spec (lr_val x i mod U32) irq) as [Heq|Hne].
    + exists None. split; [done|]. exists i. set_solver.
    + destruct (IH His' free) as (r & Hr & Hspec). exists r. split; [done|].
      destruct r as [f|]; [|set_solver]. destruct Hspec as [Hno ->]. split.
      * intros j [->|Hj]%elem_of_cons ?; auto.
      * destruct free; [done|]. rewrite filter_cons_False; [done|congruence].
Qed.

Lemma head_filter_first (p : Z → bool) k n :
  0 ≤ n →
  match head (filter (λ i, p i = true) (seqZ k n)) with
  | Some i => k ≤ i < k + n ∧ p i = true ∧ ∀ j, k ≤ j < i → p j = false
  | None => ∀ j, k ≤ j < k + n → p j = false
  end.
Proof.
  intros Hn. revert k. pattern n. apply natlike_ind; [|clear n Hn|done].
  { intros k. simpl. lia. }
  intros n Hn IH k. rewrite seqZ_cons by lia. replace (Z.pred (Z.succ n)) with n by lia.
  rewrite filter_cons. destruct (decide (p k = true)) as [Hp|Hp]; simpl.
  - split; [lia|]. split; [done|]. lia.
  - apply not_true_is_false in Hp. specialize (IH (Z.succ k)).
    destruct (head (filter (λ i, p i = true) (seqZ (Z.succ k) n))) as [i|].
    + destruct IH as (Hi & Hpi & Hlt). split; [lia|]. split; [done|]. intros j Hj.
      destruct (decide (j = k)) as [->|]; [done|]. apply Hlt. lia.
    + intros j Hj. destruct (decide (j = k)) as [->|]; [done|]. apply IH. lia.
Qed.

(** The three behaviours of [inject_irq]. *)
Lemma inject_irq_cases {E} x irq hw :
  0 ≤ default 0 (sr_val x !! "ich_elrsr_el2") →
  (held x irq ∧ inject_irq (E:=E) irq hw x = ROk tt x) ∨
  (¬ held x irq ∧ (∃ i r, first_free x i ∧ lr_names !! Z.to_nat i = Some r ∧
     inject_irq (E:=E) irq hw x =
     ROk tt (mkSysregs (<[r := lr_value irq hw]> (sr_val x)) (sr_log x ++ [(r, lr_value irq hw)])))) ∨
  (¬ held x irq ∧ (∀ i, 0 ≤ i < lr_count x → lr_free x i = false) ∧
   inject_irq (E:=E) irq hw x = RPanic PExplicit).
Proof.
  intros Hpos. pose proof (lr_count_range x) as Hc.
  destruct (scan_lrs_spec (E:=E) x irq None (seqZ 0 (lr_count x))) as (r & Hr & Hspec); [|done|].
  { intros i. rewrite elem_of_seqZ. lia. }
  assert (inject_irq (E:=E) irq hw x =
          match r with
          | None => ROk tt x
          | Some None => RPanic PExplicit
          | Some (Some i) => write_lr i (lr_value irq hw) x
          end) as Heq.
  { unfold inject_irq, hbind at 1, read_sysreg, hgets. unfold hbind at 1.
    fold (lr_count x). unfold hbind. rewrite Hr. by destruct r as [[i|]|]. }
  rewrite Heq. destruct r as [f|].
  - destruct Hspec as [Hno ->].
    assert (¬ held x irq) as Hnh.
    { intros (i & Hi & Hf & Hv). eapply Hno; [|done..]. rewrite elem_of_seqZ. lia. }
    pose proof (head_filter_first (lr_free x) 0 (lr_count x) ltac:(lia)) as Hh. right.
    destruct (head _) as [i|].
    + left. split; [done|]. destruct Hh as (Hi & Hf & Hlt).
      destruct (lr_names_lookup i) as [r Hr']; [lia|]. exists i, r. split; [done|]. split; [done|].
      unfold write_lr. by rewrite Hr'.
    + right. split; [done|]. split; [|done]. intros i Hi. apply Hh. lia.
  - left. destruct Hspec as (i & Hi & Hf & Hv). split; [|done]. exists i.
    rewrite elem_of_seqZ in Hi. split_and!; [lia|lia|done|done].
Qed.

(** After a successful injection the interrupt is in a list register, pending. *)
Lemma lr_value_vintid irq hw : 0 ≤ irq < U32 → lr_value irq hw mod U32 = irq.
Proof.
  intros Hi. unfold lr_value.
  assert (∀ x, x mod U32 = Z.land x (Z.ones 32)) as Hm by (intros; by rewrite Z.land_ones).
  assert (Z.land irq (Z.ones 32) = irq) as Hirq by (rewrite <- Hm; by apply Z.mod_small).
  assert (Z.land (Z.shiftl irq 32 mod U64) (Z.ones 32) = 0) as Hhi.
  { rewrite <- Hm. unfold U64, U32. rewrite Z.mod_mod_divide by (by exists (2 ^ 32)).
    rewrite Z.shiftl_mul_pow2 by lia. by apply Z.mod_mul. }
  rewrite Hm. destruct (_ && _); rewrite !Z.land_lor_distr_l, ?Hirq, ?Hhi; simpl;
    by rewrite ?Z.lor_0_r.
Qed.

Lemma lr_value_pending irq hw : 0 ≤ irq < U32 → Z.testbit (lr_value irq hw) 62 = true.
Proof.
  intros Hi. unfold lr_value. destruct (_ && _); rewrite !Z.lor_spec; simpl;
    by rewrite ?orb_true_r.
Qed.
