(* ===== verification/Event.v ===== *)
(** * Inter-processor events (src/src/event.rs)

    One FIFO queue of event ids per CPU, and an SGI that tells the CPU to look. *)

From S2P Require Import Prelude HvError Addr Mmio Sys Gic.


Definition IPI_EVENT_WAKEUP : Z := 0.
Definition IPI_EVENT_SHUTDOWN : Z := 1.
Definition IPI_EVENT_VIRTIO_INJECT_IRQ : Z := 2.
Definition IPI_EVENT_WAKEUP_VIRTIO_DEVICE : Z := 3.

(** *** impl EventManager *)

Definition EventManager_new (max_cpus : Z) : list (list Z) := replicate (Z.to_nat max_cpus) [].

(** [None]: no such queue. *)
Definition EventManager_add_event (em : list (list Z)) (cpu event_id : Z) : option (list (list Z)) :=
  match em !! Z.to_nat cpu with
  | Some q => Some (<[Z.to_nat cpu := q ++ [event_id]]> em)
  | None => None
  end.

Definition EventManager_fetch_event (em : list (list Z)) (cpu : Z) : option Z * list (list Z) :=
  match em !! Z.to_nat cpu with
  | Some (e :: q) => (Some e, <[Z.to_nat cpu := q]> em)
  | Some [] => (None, em)
  | None => (None, em)
  end.

Section event.
  Context {W PT D : Type}.
  Abbreviation sys := (sys W PT D).

(** [EVENT_MANAGER.call_once]: only the first call has an effect. *)
Definition event_init {E} (max_cpus : Z) : M sys E unit :=
  let* e := hgets s_events in
  match e with
  | Some _ => hret tt
  | None => hmodify (set_events (Some (EventManager_new max_cpus)))
  end.

(** The result is [Some(())] or [None]; [send_event] ignores it. *)
Definition add_event {E} (cpu event_id : Z) : M sys E (option unit) :=
  let* o := hgets s_events in
  let* em := ounwrap o in
  match EventManager_add_event em cpu event_id with
  | Some em' => hmodify (set_events (Some em')) ;;; hret (Some tt)
  | None => hret None
  end.

Definition fetch_event {E} (cpu : Z) : M sys E (option Z) :=
  let* o := hgets s_events in
  let* em := ounwrap o in
  let '(e, em') := EventManager_fetch_event em cpu in
  hmodify (set_events (Some em')) ;;; hret e.

Definition send_event {E} (cpu_id ipi_int_id event_id : Z) : M sys E unit :=
  let* _r := add_event cpu_id event_id in
  with_regs (arch_send_event cpu_id ipi_int_id).

End event.

(** ** Facts *)

(** The queue of a CPU. *)
Definition queue (em : list (list Z)) (cpu : Z) : list Z := default [] (em !! Z.to_nat cpu).

Lemma add_event_queue em em' cpu ev :
  EventManager_add_event em cpu ev = Some em' →
  length em' = length em ∧ queue em' cpu = queue em cpu ++ [ev] ∧
  ∀ c, Z.to_nat c ≠ Z.to_nat cpu → queue em' c = queue em c.
Proof.
  unfold EventManager_add_event, queue. destruct (em !! Z.to_nat cpu) as [q|] eqn:E; [|done].
  intros [= <-]. split; [apply length_insert|]. split.
  - rewrite list_lookup_insert_eq; [done|]. by eapply lookup_lt_Some.
  - intros c Hc. by rewrite list_lookup_insert_ne.
Qed.

Lemma fetch_event_queue em cpu e em' :
  EventManager_fetch_event em cpu = (e, em') →
  e = head (queue em cpu) ∧ queue em' cpu = tail (queue em cpu) ∧ length em' = length em ∧
  ∀ c, Z.to_nat c ≠ Z.to_nat cpu → queue em' c = queue em c.
Proof.
  unfold EventManager_fetch_event, queue.
  destruct (em !! Z.to_nat cpu) as [[|x q]|] eqn:E; intros [= <- <-]; rewrite ?E; try done.
  simpl. split; [done|]. split; [|split; [apply length_insert|]].
  - rewrite list_lookup_insert_eq; [done|]. by eapply lookup_lt_Some.
  - intros c Hc. by rewrite list_lookup_insert_ne.
Qed.

(** Sending [n] events and fetching [n] times gives them back in order. *)
Fixpoint add_all (em : list (list Z)) (cpu : Z) (evs : list Z) : option (list (list Z)) :=
  match evs with
  | [] => Some em
  | e :: evs' =>
      match EventManager_add_event em cpu e with
      | Some em' => add_all em' cpu evs'
      | None => None
      end
  end.

Fixpoint fetch_all (em : list (list Z)) (cpu : Z) (n : nat) : list (option Z) * list (list Z) :=
  match n with
  | O => ([], em)
  | S n' =>
      let '(e, em') := EventManager_fetch_event em cpu in
      let '(es, em'') := fetch_all em' cpu n' in (e :: es, em'')
  end.

Lemma add_all_queue evs em cpu em' :
  add_all em cpu evs = Some em' → queue em' cpu = queue em cpu ++ evs.
Proof.
  revert em. induction evs as [|e evs IH]; simpl; intros em.
  { intros [= <-]. by rewrite app_nil_r. }
  destruct (EventManager_add_event em cpu e) as [em1|] eqn:E; [|done]. intros H.
  rewrite (IH em1 H). apply add_event_queue in E as (_ & -> & _). by rewrite <- app_assoc.
Qed.

Lemma fetch_all_queue n em cpu :
  (n ≤ length (queue em cpu))%nat →
  (fetch_all em cpu n).1 = Some <$> take n (queue em cpu).
Proof.
  revert em. induction n as [|n IH]; simpl; intros em Hn; [done|].
  destruct (EventManager_fetch_event em cpu) as [e em'] eqn:E.
  apply fetch_event_queue in E as (-> & Hq & _).
  destruct (queue em cpu) as [|x q]; [simpl in Hn; lia|]. simpl in Hq, Hn.
  pose proof (IH em') as IHn. rewrite Hq in IHn.
  destruct (fetch_all em' cpu n) as [es em'']. simpl in *. rewrite IHn by lia. done.
Qed.
