(* ===== verification/Virtio.v ===== *)
(** * The virtio trampoline (src/src/device/virtio_trampoline.rs)

    Guests' virtio accesses become requests in a ring shared with the root zone's
    backend; results come back through a second ring and per-CPU configuration
    cells. The backend runs concurrently: what it does to the shared memory while
    the hypervisor spins is a list [env] of changes, one per turn of a spin loop;
    when the list is used up the loop spins for ever. *)

From S2P Require Import Prelude HvError Addr BTreeMap CpuSet Mmio Sys Gic Event.


Definition QUEUE_NOTIFY : Z := 0x50.
Definition MAX_REQ : Z := 32.
Definition MAX_DEVS : Z := 4.
Definition MAX_CPUS : Z := 16.
Definition IRQ_WAKEUP_VIRTIO_DEVICE : Z := 32 + 0x20.

(** [HvisorDeviceReq::new] *)
Definition req_new (cpu addr size value zone : Z) (is_write : bool) (need_int : Z) : HvisorDeviceReq :=
  mkReq cpu addr size value zone (if is_write then 1 else 0) need_int.

(** [a + b] on u32. *)
Definition uadd32 {S E} (a b : Z) : M S E Z :=
  if a + b <? U32 then hret (a + b) else hpanic POverflow.

Definition set_req (front rear : Z) (l : list HvisorDeviceReq) (b : VirtioBridge) : VirtioBridge :=
  mkBridge front rear (res_front b) (res_rear b) l (res_list b) (cfg_flags b) (cfg_values b)
    (mmio_addrs b) (mmio_avail b) (need_wakeup_flag b).
Definition set_res_front (f : Z) (b : VirtioBridge) : VirtioBridge :=
  mkBridge (req_front b) (req_rear b) f (res_rear b) (req_list b) (res_list b) (cfg_flags b)
    (cfg_values b) (mmio_addrs b) (mmio_avail b) (need_wakeup_flag b).

Section virtio.
  Context {W PT D : Type}.
  Abbreviation sys := (sys W PT D).

(** *** impl VirtioBridgeRegion *)

Definition VirtioBridgeRegion_default : VirtioBridgeRegion := mkBridgeRegion 0 false.

Definition set_base_addr {E} (base_addr : Z) : M sys E unit :=
  hmodify (set_bridge (mkBridgeRegion base_addr true)).

(** [region()] and [immut_region()] *)
Definition bridge {E} : M sys E VirtioBridge :=
  let* b := hgets s_bridge in
  if negb (is_enable b) then hpanic PExplicit else hgets s_region.

Definition is_req_list_full {E} : M sys E bool :=
  let* r := bridge in
  let* n := uadd32 (req_rear r) 1 in
  hret (Z.land n (MAX_REQ - 1) =? req_front r).

Definition is_req_list_empty {E} : M sys E bool :=
  let* r := bridge in hret (req_rear r =? req_front r).

Definition is_res_list_empty {E} : M sys E bool :=
  let* r := bridge in hret (res_rear r =? res_front r).

Definition push_req {E} (req : HvisorDeviceReq) : M sys E unit :=
  let* r := bridge in
  let idx := req_rear r mod MAX_REQ in
  let l := <[Z.to_nat idx := req]> (req_list r) in
  let* n := uadd32 (req_rear r) 1 in
  hmodify (set_region (set_req (req_front r) (n mod MAX_REQ) l r)).

Definition need_wakeup {E} : M sys E bool :=
  let* r := bridge in hret (need_wakeup_flag r =? 1).

(** [cfg_flags[cpu_id]], [cfg_values[cpu_id]] of the slices of [MAX_CPUS] *)
Definition cfg_at {E} (f : VirtioBridge → list Z) (cpu_id : Z) : M sys E Z :=
  let* r := bridge in
  if cpu_id <? MAX_CPUS then hret (default 0 (f r !! Z.to_nat cpu_id)) else hpanic PIndex.

(** *** The spin loops *)

Abbreviation env := (list (VirtioBridge → VirtioBridge)).

Definition env_step {E} (f : VirtioBridge → VirtioBridge) : M sys E unit :=
  hmodify (λ s, set_region (f (s_region s)) s).

(** [while dev.is_req_list_full() { drop(dev); dev = VIRTIO_BRIDGE.lock() }] *)
Fixpoint wait_not_full {E} (e : env) : M sys E env :=
  let* full := is_req_list_full in
  if negb full then hret e else
  match e with
  | [] => hhang
  | f :: e' => env_step f ;;; wait_not_full e'
  end.

(** [while cfg_flags[cpu_id] == old_cfg_flag { .. }] *)
Fixpoint wait_cfg {E} (cpu_id old : Z) (e : env) : M sys E env :=
  let* f := cfg_at cfg_flags cpu_id in
  if negb (f =? old) then hret e else
  match e with
  | [] => hhang
  | g :: e' => env_step g ;;; wait_cfg cpu_id old e'
  end.

Definition mmio_virtio_handler (e : env) (mmio : MMIOAccess) (base : Z) : M sys HvError MMIOAccess :=
  let need_interrupt := if address mmio =? QUEUE_NOTIFY then 1 else 0 in
  let* addr := uadd (address mmio) base in
  let mmio := set_address addr mmio in
  let* e := wait_not_full e in
  let* cpu_id := this_cpu_id in
  let* zid := this_zone_id in
  let hreq := req_new cpu_id (address mmio) (acc_size mmio) (value mmio) (zid mod U32)
                (is_write mmio) need_interrupt in
  let* old_cfg_flag := cfg_at cfg_flags cpu_id in
  push_req hreq ;;;
  let* wake := need_wakeup in
  (if wake then
     let* rp := root_zone in
     let* rz := read_zone rp in
     let* f := first_cpu (z_cpu_set rz) in
     let* root_cpu := ounwrap f in
     send_event root_cpu SGI_IPI_ID IPI_EVENT_WAKEUP_VIRTIO_DEVICE
   else hret tt) ;;;
  if need_interrupt =? 0 then
    let* _e := wait_cfg cpu_id old_cfg_flag e in
    if negb (is_write mmio) then
      let* v := cfg_at cfg_values cpu_id in hret (set_value v mmio)
    else hret mmio
  else hret mmio.

(** *** Interrupts for virtio guests *)

(** [irq_list[1..=len]] of a [[u64; MAX_DEVS + 1]] *)
Definition irq_slice {S E} (l : list Z) : M S E (list Z) :=
  let len := default 0 (l !! 0%nat) in
  if len + 1 <=? MAX_DEVS + 1 then hret (take (Z.to_nat len) (drop 1 l)) else hpanic PIndex.

Fixpoint inject_all {E} (irqs : list Z) : M sys E unit :=
  match irqs with
  | [] => hret tt
  | i :: irqs' => with_regs (inject_irq i false) ;;; inject_all irqs'
  end.

Definition handle_virtio_irq {E} : M sys E unit :=
  let* cpu := this_cpu_id in
  let* m := hgets s_virtio_irqs in
  let* irq_list := ounwrap (bt_get cpu m) in
  let* irqs := irq_slice irq_list in
  inject_all irqs ;;;
  hmodify (λ s, set_virtio_irqs (bt_insert cpu (<[0%nat := 0]> irq_list) (s_virtio_irqs s)) s).

(** One turn of the loop of [hv_virtio_inject_irq] (src/src/hypercall/mod.rs). *)
Definition inject_result {E} : M sys E unit :=
  let* r := bridge in
  let front := res_front r in
  let* res := match res_list r !! Z.to_nat front with
              | Some x => hret x
              | None => hpanic PIndex
              end in
  let* o := find_zone (target_zone res) in
  let* p := ounwrap o in
  let* z := read_zone p in
  let* f := first_cpu (z_cpu_set z) in
  let* target_cpu := ounwrap f in
  let* m := hgets s_virtio_irqs in
  let irq_list := default (replicate (Z.to_nat (MAX_DEVS + 1)) 0) (bt_get target_cpu m) in
  hmodify (λ s, set_virtio_irqs (bt_insert target_cpu irq_list (s_virtio_irqs s)) s) ;;;
  let* pending := irq_slice irq_list in
  (if negb (bool_decide (irq_id res ∈ pending)) then
     let len := default 0 (irq_list !! 0%nat) in
     hassert (len + 1 <? MAX_DEVS) ;;;
     let irq_list := <[Z.to_nat (len + 1) := irq_id res]> irq_list in
     let irq_list := <[0%nat := len + 1]> irq_list in
     hmodify (λ s, set_virtio_irqs (bt_insert target_cpu irq_list (s_virtio_irqs s)) s) ;;;
     send_event target_cpu SGI_IPI_ID IPI_EVENT_VIRTIO_INJECT_IRQ
   else hret tt) ;;;
  let* n := uadd32 front 1 in
  hmodify (λ s, set_region (set_res_front (Z.land n (MAX_REQ - 1)) (s_region s)) s).

(** [while !dev.is_res_list_empty() { .. }] *)
Fixpoint inject_results {E} (fuel : nat) : M sys E unit :=
  let* empty := is_res_list_empty in
  if empty then hret tt else
  match fuel with
  | O => hhang
  | S fuel' => inject_result ;;; inject_results fuel'
  end.

End virtio.
