(* ===== verification/Vgic.v ===== *)
(** * The virtual GICv3 (src/src/device/irqchip/gicv3/vgic.rs)

    Guests see the distributor and the redistributors through trapped accesses;
    the handlers let an access through only for the interrupts of the zone. *)

From S2P Require Import Prelude HvError Addr PtIface MemorySet CpuSet Mmio Config Sys ZoneOps Gic.

(** [reg_range(base, n, size).contains(&reg)]: the half-open range stops [size]
    bytes before the last register. *)
Definition reg_range_contains (base n size reg : Z) : bool :=
  (base <=? reg) && (reg <? base + (n - 1) * size).

Section vgic.
  Context {W PT D : Type} {G : GenericPageTable W PT} {B : Bus D}.
  Abbreviation sys := (sys W PT D).

(** [for irq in 0..irqs_per_reg] of [restrict_bitmask_access]: the bits of the
    register that belong to interrupts of the zone. *)
Fixpoint access_mask_loop {E} (z : Zone PT) (bits_per_irq first_irq irq_bits : Z)
    (irqs : list Z) (mask : Z) : M sys E Z :=
  match irqs with
  | [] => hret mask
  | irq :: irqs' =>
      let* b := irq_in_zone z ((first_irq + irq) mod U32) in
      access_mask_loop z bits_per_irq first_irq irq_bits irqs'
        (if b then Z.lor mask (Z.shiftl irq_bits (irq * bits_per_irq)) else mask)
  end.

Definition access_mask {E} (z : Zone PT) (reg_index bits_per_irq : Z) : M sys E Z :=
  let irqs_per_reg := 32 / bits_per_irq in
  let irq_bits := Z.shiftl 1 bits_per_irq - 1 in
  let* first_irq := umul reg_index irqs_per_reg in
  access_mask_loop z bits_per_irq first_irq irq_bits (seqZ 0 irqs_per_reg) 0.

Definition restrict_bitmask_access (mmio : MMIOAccess) (reg_index bits_per_irq : Z)
    (is_poke : bool) (gicd_base : Z) : M sys HvError MMIOAccess :=
  let* p := this_zone in
  let* z := read_zone p in
  let* access_mask := access_mask z reg_index bits_per_irq in
  if negb (is_write mmio) then
    let* mmio := with_bus (mmio_perform_access gicd_base mmio) in
    hret (set_value (Z.land (value mmio) access_mask) mmio)
  else if negb is_poke then
    let access_val := value mmio in
    let mmio := set_is_write false mmio in
    let* mmio := with_bus (mmio_perform_access gicd_base mmio) in
    let mmio := set_is_write true mmio in
    let mmio := set_value (Z.land (value mmio) (unot64 access_mask)) mmio in
    let mmio := set_value (Z.lor (value mmio) (Z.land access_val access_mask)) mmio in
    with_bus (mmio_perform_access gicd_base mmio)
  else
    let mmio := set_value (Z.land (value mmio) access_mask) mmio in
    with_bus (mmio_perform_access gicd_base mmio).

Definition vgicv3_redist_handler (mmio : MMIOAccess) (cpu : Z) : M sys HvError MMIOAccess :=
  let* gicr_base := host_gicr_base cpu in
  if address mmio =? GICR_TYPER then
    let* mmio := with_bus (mmio_perform_access gicr_base mmio) in
    hret (if cpu =? MAX_CPU_NUM - 1 then set_value (Z.lor (value mmio) GICR_TYPER_LAST) mmio else mmio)
  else if (address mmio =? GICR_IIDR) || ((0xffd0 <=? address mmio) && (address mmio <=? 0xfffc)) then
    with_bus (mmio_perform_access gicr_base mmio)
  else if address mmio =? GICR_SYNCR then hret (set_value 0 mmio)
  else
    let* t := this_zone in
    let* c := get_cpu_data cpu in
    let* q := ounwrap (pc_zone c) in
    if t =? q then with_bus (mmio_perform_access gicr_base mmio) else hret mmio.

Definition vgicv3_handle_irq_ops (mmio : MMIOAccess) (irq : Z) : M sys HvError MMIOAccess :=
  let* p := this_zone in
  let* z := read_zone p in
  if negb (is_spi irq) then hret mmio else
  let* b := irq_in_zone z irq in
  if negb b then hret mmio else
  let* base := host_gicd_base in
  with_bus (mmio_perform_access base mmio).

Definition vgicv3_dist_misc_access (mmio : MMIOAccess) (gicd_base : Z) : M sys HvError MMIOAccess :=
  let reg := address mmio in
  if reg_range_contains GICDV3_PIDR0 4 4 reg || reg_range_contains GICDV3_PIDR4 4 4 reg ||
     reg_range_contains GICDV3_CIDR0 4 4 reg ||
     (reg =? GICD_CTLR) || (reg =? GICD_TYPER) || (reg =? GICD_IIDR)
  then
    if negb (is_write mmio) then with_bus (mmio_perform_access gicd_base mmio) else hret mmio
  else hpanic PTodo.

(** [(reg - base) as u32] *)
Definition vgicv3_dist_handler (mmio : MMIOAccess) (_arg : Z) : M sys HvError MMIOAccess :=
  let* gicd_base := host_gicd_base in
  let reg := address mmio in
  if reg_range_contains GICD_IROUTER 1024 8 reg then
    vgicv3_handle_irq_ops mmio ((reg - GICD_IROUTER) mod U32 / 8)
  else if reg_range_contains GICD_ITARGETSR 1024 1 reg then
    vgicv3_handle_irq_ops mmio ((reg - GICD_ITARGETSR) mod U32)
  else if reg_range_contains GICD_ICENABLER 32 4 reg || reg_range_contains GICD_ISENABLER 32 4 reg ||
          reg_range_contains GICD_ICPENDR 32 4 reg || reg_range_contains GICD_ISPENDR 32 4 reg ||
          reg_range_contains GICD_ICACTIVER 32 4 reg || reg_range_contains GICD_ISACTIVER 32 4 reg then
    restrict_bitmask_access mmio (Z.land reg 0x7f / 4) 1 true gicd_base
  else if reg_range_contains GICD_IGROUPR 32 4 reg then
    restrict_bitmask_access mmio (Z.land reg 0x7f / 4) 1 false gicd_base
  else if reg_range_contains GICD_ICFGR 64 4 reg then
    restrict_bitmask_access mmio (Z.land reg 0xff / 4) 2 false gicd_base
  else if reg_range_contains GICD_IPRIORITYR 255 4 reg then
    restrict_bitmask_access mmio (Z.land reg 0x3ff / 4) 8 false gicd_base
  else vgicv3_dist_misc_access mmio gicd_base.

(** [Zone::arch_irqchip_reset] (gicv3/mod.rs): disable and deactivate the zone's
    interrupts, skipping the private ones of word 0. *)
Fixpoint reset_words {E} (gicd_base idx : Z) (words : list Z) : M D E unit :=
  match words with
  | [] => hret tt
  | mask :: words' =>
      (if idx =? 0 then hret tt else
         let* a := uadd gicd_base GICD_ICENABLER in
         let* a := uadd a (idx * 4) in
         hmodify (bus_write a 4 mask) ;;;
         let* a := uadd gicd_base GICD_ICACTIVER in
         let* a := uadd a (idx * 4) in
         hmodify (bus_write a 4 mask)) ;;;
      reset_words gicd_base (idx + 1) words'
  end.

Definition arch_irqchip_reset {E} (z : Zone PT) : M sys E unit :=
  let* base := host_gicd_base in
  with_bus (reset_words base 0 (z_irq_bitmap z)).

(** [enable_gic_are_ns] (gicd.rs) *)
Definition enable_gic_are_ns {E} : M sys E unit :=
  let* base := host_gicd_base in
  let* a := uadd base GICD_CTLR in
  with_bus (hmodify (bus_write a 4 (Z.lor GICD_CTLR_ARE_NS GICD_CTLR_GRP1NS_ENA))).

(** [while gicr_waker.read_volatile() & 0x04 != 0 {}] *)
Fixpoint wait_waker {E} (fuel : nat) (addr : Z) : M D E unit :=
  let* d := hget in
  let '(v, d') := bus_read addr 4 d in
  hput d' ;;;
  if Z.land v 0x04 =? 0 then hret tt else
  match fuel with
  | O => hhang
  | S fuel' => wait_waker fuel' addr
  end.

(** A read-modify-write of a 32-bit register. *)
Definition rmw32 {E} (addr : Z) (f : Z → Z) : M D E unit :=
  let* d := hget in
  let '(v, d') := bus_read addr 4 d in
  hput (bus_write addr 4 (f v) d').

(** [enable_ipi] (gicr.rs) *)
Definition enable_ipi {E} (fuel : nat) : M sys E unit :=
  let* id := this_cpu_id in
  let* b := host_gicr_base id in
  let* base := uadd b GICR_SGI_BASE in
  let* gicr_waker := uadd base GICR_WAKER in
  with_bus (rmw32 gicr_waker (λ v, Z.land v (U32 - 1 - 0x02)) ;;; wait_waker fuel gicr_waker) ;;;
  let* gicr_igroupr0 := uadd base GICR_IGROUPR in
  with_bus (rmw32 gicr_igroupr0 (λ v, Z.lor v (Z.shiftl 1 SGI_IPI_ID))) ;;;
  let* gicr_isenabler0 := uadd base GICR_ISENABLER in
  with_bus (hmodify (bus_write gicr_isenabler0 4 (Z.shiftl 1 SGI_IPI_ID))) ;;;
  let* gicr_ipriorityr0 := uadd base GICR_IPRIORITYR in
  let reg := SGI_IPI_ID / 4 in
  let offset := SGI_IPI_ID mod 4 * 8 in
  let mask := Z.shiftl (Z.shiftl 1 8 - 1) offset in
  with_bus (rmw32 (gicr_ipriorityr0 + 4 * reg)
    (λ prio, Z.lor (Z.land prio (U32 - 1 - mask)) (Z.shiftl 0x01 offset))).

(** [primary_init_early] (gicv3/mod.rs): [GIC.call_once] from the root zone's
    configuration. *)
Definition gic_init_early {E} (root : HvArchZoneConfig) : M sys E unit :=
  let* g := hgets s_gic in
  match g with
  | Some _ => hret tt
  | None => hmodify (set_gic (Some (mkGic (cfg_gicd_base root) (cfg_gicr_base root)
                                         (cfg_gicd_size root) (cfg_gicr_size root))))
  end.

End vgic.
