(* ===== verification/Hypercall.v ===== *)
(** * CPUs and hypercalls (src/src/arch/aarch64/cpu.rs, src/src/percpu.rs,
    src/src/hypercall/mod.rs) *)

From S2P Require Import Prelude HvError Addr Region PtIface BTreeMap MemorySet CpuSet Mmio Config.
From S2P Require Import Sys ZoneOps Gic Event Virtio Vgic.

(** [run] and [idle] have type [!]: they leave the handler by [vmreturn]. A
    computation that may do so has this error type. *)
Inductive leave : Type := VmReturn.

(** A [HvResult] as a value. *)
Definition try_hv {S E A} (m : M S HvError A) : M S E (A + HvError) := λ s,
  match m s with
  | ROk a s' => ROk (inl a) s'
  | RErr e s' => ROk (inr e) s'
  | RPanic p => RPanic p
  | RHang => RHang
  end.

Definition zero_regs : list string :=
  ["CNTKCTL_EL1"; "PMCR_EL0"; "SP_EL0"; "SP_EL1"; "SPSR_EL1"; "AFSR0_EL1"; "AFSR1_EL1";
   "AMAIR_EL1"; "CONTEXTIDR_EL1"; "CPACR_EL1"; "CSSELR_EL1"; "ESR_EL1"; "FAR_EL1"; "MAIR_EL1";
   "PAR_EL1"; "TCR_EL1"; "TPIDRRO_EL0"; "TPIDR_EL0"; "TPIDR_EL1"; "TTBR0_EL1"; "TTBR1_EL1";
   "VBAR_EL1"; "CNTVOFF_EL2"; "CNTP_CTL_EL0"; "CNTP_CVAL_EL0"; "CNTP_TVAL_EL0"; "CNTV_CTL_EL0";
   "CNTV_CVAL_EL0"; "CNTV_TVAL_EL0"]%string.

(** Running an operation on a [MemorySet] that is a local variable. *)
Definition ms_exec {W PT A} (ms : MemorySet PT) (m : M (W * MemorySet PT) HvError A) :
    M W HvError (MemorySet PT) := λ w,
  match m (w, ms) with
  | ROk _ s => ROk s.2 s.1
  | RErr e s => RErr e s.1
  | RPanic p => RPanic p
  | RHang => RHang
  end.

Section hypercall.
  Context {W PT D : Type} {G : GenericPageTable W PT} {B : Bus D}.
  Abbreviation sys := (sys W PT D).

(** *** impl ArchCpu *)

(** [GeneralRegisters::clear] *)
Definition clear_guest {E} : M sys E unit := hmodify (set_guest (mkRegs 0 (replicate 31 0))).

Definition set_usr {E} (i v : Z) : M sys E unit :=
  hmodify (λ s, set_guest (mkRegs (exit_reason (s_guest s)) (<[Z.to_nat i := v]> (usr (s_guest s)))) s).

Definition reset_vm_regs {E} : M sys E unit :=
  for_each (λ r, with_regs (write_sysreg r 0)) zero_regs ;;;
  with_regs (write_sysreg "SCTLR_EL1"
    (Z.lor (Z.lor (Z.lor (Z.shiftl 1 11) (Z.shiftl 1 20)) (Z.shiftl 3 22)) (Z.shiftl 3 28))).

(** [activate_vmm]: the computed fields of VTCR_EL2 and the bits set in HCR_EL2. *)
Definition activate_vmm {E} : M sys E unit :=
  let* ps := get_parange in
  let* l3 := is_s2_pt_level3 in
  let* bits := get_parange_bits in
  with_regs (write_sysreg "VTCR_EL2.PS" ps) ;;;
  with_regs (write_sysreg "VTCR_EL2.SL0" (if l3 then 1 else 2)) ;;;
  with_regs (write_sysreg "VTCR_EL2.T0SZ" (64 - (if l3 then 39 else bits))) ;;;
  for_each (λ r, with_regs (write_sysreg r 1))
    ["HCR_EL2.RW"; "HCR_EL2.TSC"; "HCR_EL2.VM"; "HCR_EL2.IMO"; "HCR_EL2.FMO"]%string.

Definition cpu_reset {E} (entry dtb : Z) : M sys E unit :=
  with_regs (write_sysreg "ELR_EL2" entry) ;;;
  with_regs (write_sysreg "SPSR_EL2" 0x3c5) ;;;
  clear_guest ;;;
  set_usr 0 dtb ;;;
  reset_vm_regs ;;;
  activate_vmm.

(** [MemorySet::activate] of a stage-2 table, with [S2PTInstr::activate] *)
Definition activate {E} (ms : MemorySet PT) : M sys E unit :=
  with_regs (write_sysreg "VTTBR_EL2.BADDR" (gpt_root_paddr (ms_pt ms)) ;;; tlbi "vmalls12e1is").

(** [PerCpu::activate_gpm] *)
Definition activate_gpm {E} : M sys E unit :=
  let* c := this_cpu_data in
  let* p := ounwrap (pc_zone c) in
  let* z := read_zone p in
  activate (z_gpm z).

Definition vmreturn {A} : M sys leave A := herr VmReturn.

(** [ArchCpu::run] of the CPU with id [cpuid] *)
Definition cpu_run {A} (cpuid : Z) : M sys leave A :=
  let* id := this_cpu_id in
  hassert (id =? cpuid) ;;;
  activate_gpm ;;;
  let* c := this_cpu_data in
  cpu_reset (cpu_on_entry c) (dtb_ipa c) ;;;
  mod_cpu_data cpuid (set_psci_on true) ;;;
  vmreturn.

(** [PARKING_MEMORY_SET.call_once(..)]: the page with [1: wfi; b 1b] is mapped at 0;
    [parking_page] is the address of the static [PARKING_INST_PAGE]. *)
Definition parking_code : list Z := [0x7f; 0x20; 0x03; 0xd5; 0xff; 0xff; 0xff; 0x17].

Definition parking_init {E} (parking_page : Z) : M sys E unit :=
  let* o := hgets s_parking in
  match o with
  | Some _ => hret tt
  | None =>
      hmodify (λ s, set_parking_page (parking_code ++ drop 8 (s_parking_page s)) s) ;;;
      let* gpm := hunwrap new_s2_memory_set in
      let* pa := virt_to_phys parking_page in
      let r := new_with_offset_mapper 0 pa PAGE_SIZE (Z.lor (Z.lor READ WRITE) IO) in
      let* gpm := hunwrap (with_w (ms_exec gpm (ms_insert r))) in
      hmodify (set_parking (Some gpm))
  end.

(** [ArchCpu::idle] *)
Definition cpu_idle {A} (parking_page : Z) (cpuid : Z) : M sys leave A :=
  let* id := this_cpu_id in
  hassert (id =? cpuid) ;;;
  mod_cpu_data cpuid (set_psci_on false) ;;;
  parking_init parking_page ;;;
  let* c := this_cpu_data in
  cpu_reset 0 (dtb_ipa c) ;;;
  let* o := hgets s_parking in
  let* gpm := ounwrap o in
  activate gpm ;;;
  vmreturn.

(** *** Hypercalls *)

Inductive HyperCallCode : Type := HvVirtioInit | HvVirtioInjectIrq | HvZoneStart | HvZoneShutdown.

(** [HyperCallCode::try_from] *)
Definition hypercall_code (code : Z) : option HyperCallCode :=
  if code =? 0 then Some HvVirtioInit
  else if code =? 1 then Some HvVirtioInjectIrq
  else if code =? 2 then Some HvZoneStart
  else if code =? 3 then Some HvZoneShutdown
  else None.

Definition hv_virtio_init (shared_region_addr : Z) : M sys HvError Z :=
  let* root := is_this_root_zone in
  if negb root then hv_result_err EPERM else
  hassert (shared_region_addr mod PAGE_SIZE =? 0) ;;;
  set_base_addr shared_region_addr ;;;
  hret 0.

Definition hv_virtio_inject_irq : M sys HvError Z :=
  let* root := is_this_root_zone in
  if negb root then hv_result_err EPERM else
  let* _r := bridge in
  inject_results 32 ;;;
  hret 0.

Context (psci_invalid_address : Z).

Definition hv_zone_start (config : HvZoneConfig) : M sys HvError Z :=
  let* root := is_this_root_zone in
  if negb root then hv_result_err EPERM else
  let* p := zone_create psci_invalid_address config in
  let* z := read_zone p in
  let* f := first_cpu (z_cpu_set z) in
  let* boot_cpu := ounwrap f in
  let* target_data := get_cpu_data boot_cpu in
  if negb (psci_on target_data) then
    send_event boot_cpu SGI_IPI_ID IPI_EVENT_WAKEUP ;;; hret 0
  else hv_result_err EBUSY.

(** The closure run for each CPU of the zone that is shut down. *)
Definition release_cpu {E} (cpu_id : Z) : M sys E unit :=
  mod_cpu_data cpu_id (set_pc_zone None) ;;;
  mod_cpu_data cpu_id (set_cpu_on_entry INVALID_ADDRESS) ;;;
  send_event cpu_id SGI_IPI_ID IPI_EVENT_SHUTDOWN.

Definition hv_zone_shutdown (zone_id : Z) : M sys HvError Z :=
  let* root := is_this_root_zone in
  if negb root then hv_result_err EPERM else
  if zone_id =? 0 then hv_result_err EINVAL else
  let* o := find_zone zone_id in
  match o with
  | None => hv_result_err EEXIST
  | Some p =>
      let* z := read_zone p in
      let* ids := cpu_iter (z_cpu_set z) in
      for_each release_cpu ids ;;;
      arch_irqchip_reset z ;;;
      remove_zone zone_id ;;;
      hret 0
  end.

(** [HyperCall::hypercall]; the configuration that [HvZoneStart] reads through
    the guest pointer [arg0] is the function [config_at]. *)
Definition hypercall (config_at : Z → HvZoneConfig) (code arg0 : Z) : M sys HvError Z :=
  match hypercall_code code with
  | None => hret 0
  | Some HvVirtioInit => hv_virtio_init arg0
  | Some HvVirtioInjectIrq => hv_virtio_inject_irq
  | Some HvZoneStart => hv_zone_start (config_at arg0)
  | Some HvZoneShutdown => hv_zone_shutdown arg0
  end.

End hypercall.
