(* ===== verification/Trap.v ===== *)
(** * Traps from guests (src/src/arch/aarch64/trap.rs), the interrupt entry of
    src/src/device/irqchip/gicv3/mod.rs, [check_events] of src/src/event.rs and
    [mmio_handle_access] of src/src/memory/mmio.rs *)

From S2P Require Import Prelude HvError Addr PtIface MemorySet CpuSet Mmio Config Sys ZoneOps Gic.
From S2P Require Import Event Virtio Vgic Hypercall.

Definition EXIT_REASON_EL2_ABORT : Z := 0x0.
Definition EXIT_REASON_EL2_IRQ : Z := 0x1.
Definition EXIT_REASON_EL1_ABORT : Z := 0x2.
Definition EXIT_REASON_EL1_IRQ : Z := 0x3.

Definition SMC_TYPE_MASK : Z := 0x3F000000.
Definition SMC_ARCH_SC : Z := 0x0.
Definition SMC_STANDARD_SC : Z := 0x4000000.

Definition PSCI_VERSION_1_1 : Z := 0x10001.
Definition PSCI_TOS_NOT_PRESENT_MP : Z := 2.
Definition ARM_SMCCC_VERSION_1_0 : Z := 0x10000.

Definition PSCI_VERSION : Z := 0x84000000.
Definition PSCI_CPU_SUSPEND_32 : Z := 0x84000001.
Definition PSCI_CPU_OFF_32 : Z := 0x84000002.
Definition PSCI_CPU_ON_32 : Z := 0x84000003.
Definition PSCI_AFFINITY_INFO_32 : Z := 0x84000004.
Definition PSCI_MIG_INFO_TYPE : Z := 0x84000006.
Definition PSCI_SYSTEM_OFF : Z := 0x84000008.
Definition PSCI_FEATURES : Z := 0x8400000a.
Definition PSCI_CPU_SUSPEND_64 : Z := 0xc4000001.
Definition PSCI_CPU_OFF_64 : Z := 0xc4000002.
Definition PSCI_CPU_ON_64 : Z := 0xc4000003.
Definition PSCI_AFFINITY_INFO_64 : Z := 0xc4000004.
Definition SMCCC_VERSION : Z := 0x80000000.
Definition SMCCC_ARCH_FEATURES : Z := 0x80000001.

(** Exception classes of ESR_EL2. *)
Definition EC_HVC64 : Z := 0x16.
Definition EC_SMC64 : Z := 0x17.
Definition EC_TrappedMsrMrs : Z := 0x18.
Definition EC_InstrAbortLowerEL : Z := 0x20.
Definition EC_DataAbortLowerEL : Z := 0x24.

(** [ESR_EL2.read(EC)], [ESR_EL2.read(IL)], [ESR_EL2.read(ISS)] *)
Definition esr_ec (esr : Z) : Z := Z.land (Z.shiftr esr 26) 0x3f.
Definition esr_il (esr : Z) : Z := Z.land (Z.shiftr esr 25) 0x1.
Definition esr_iss (esr : Z) : Z := Z.land esr 0x1ffffff.

(** [x as i32 as usize] *)
Definition as_i32_usize (x : Z) : Z :=
  let l := x mod U32 in if l <? 2 ^ 31 then l else l + (U64 - U32).

(** [((value << (32 - 8 * size)) as i32) as usize >> (32 - 8 * size)] *)
Definition sign_extend {S E} (v size : Z) : M S E Z :=
  let* sh := usub 32 (8 * size) in
  hret (Z.shiftr (as_i32_usize (Z.shiftl v sh mod U64)) sh).

Definition psci_emulate_features_info (code : Z) : Z :=
  if (code =? PSCI_VERSION) || (code =? PSCI_CPU_SUSPEND_32) || (code =? PSCI_CPU_SUSPEND_64) ||
     (code =? PSCI_CPU_OFF_32) || (code =? PSCI_CPU_ON_32) || (code =? PSCI_CPU_ON_64) ||
     (code =? PSCI_AFFINITY_INFO_32) || (code =? PSCI_AFFINITY_INFO_64) ||
     (code =? PSCI_FEATURES) || (code =? SMCCC_VERSION)
  then 0 else U64 - 1.

Definition handle_arch_smc (code : Z) : Z :=
  if code =? SMCCC_VERSION then ARM_SMCCC_VERSION_1_0
  else U64 - 1.

Section trap.
  Context {W PT D : Type} {G : GenericPageTable W PT} {B : Bus D}.
  Abbreviation sys := (sys W PT D).
  (** The psci crate's constant, the address of the parking page, the guest memory a
      configuration pointer refers to, and what the virtio backend does while a
      CPU spins. *)
  Context (psci_invalid_address parking_page : Z) (config_at : Z → HvZoneConfig).
  Context (e : list (VirtioBridge → VirtioBridge)).

(** [regs.usr[i]] *)
Definition get_usr {E} (i : Z) : M sys E Z :=
  let* g := hgets s_guest in
  match usr g !! Z.to_nat i with
  | Some v => hret v
  | None => hpanic PIndex
  end.

Definition arch_skip_instruction {E} : M sys E unit :=
  let* pc := with_regs (read_sysreg "ELR_EL2") in
  let* esr := with_regs (read_sysreg "ESR_EL2") in
  let ins := if esr_il esr =? 0 then 2 else if esr_il esr =? 1 then 4 else 0 in
  let* pc := uadd pc ins in
  with_regs (write_sysreg "ELR_EL2" pc).

(** *** check_events and gicv3_handle_irq_el1 *)

Definition check_events : M sys leave bool :=
  let* cpu_data := this_cpu_data in
  let* ev := fetch_event (pc_id cpu_data) in
  match ev with
  | Some ev =>
      if ev =? IPI_EVENT_WAKEUP then cpu_run (pc_id cpu_data)
      else if ev =? IPI_EVENT_SHUTDOWN then cpu_idle parking_page (pc_id cpu_data)
      else if ev =? IPI_EVENT_VIRTIO_INJECT_IRQ then handle_virtio_irq ;;; hret true
      else if ev =? IPI_EVENT_WAKEUP_VIRTIO_DEVICE then
        with_regs (inject_irq IRQ_WAKEUP_VIRTIO_DEVICE false) ;;; hret true
      else hret false
  | None => hret false
  end.

(** The timer counter is only printed. *)
Definition gicv3_handle_irq_el1 : M sys leave unit :=
  let* o := with_regs pending_irq in
  match o with
  | None => hret tt
  | Some irq_id =>
      if irq_id <? 8 then
        with_regs (deactivate_irq irq_id) ;;;
        let* ipi_handled := if irq_id =? SGI_IPI_ID then check_events else hret false in
        if negb ipi_handled then with_regs (inject_irq irq_id false) else hret tt
      else if irq_id <? 16 then with_regs (deactivate_irq irq_id)
      else with_regs (deactivate_irq irq_id) ;;; with_regs (inject_irq irq_id true)
  end.

(** *** Data aborts: emulated MMIO *)

Definition call_handler (h : MMIOHandler) (mmio : MMIOAccess) (arg : Z) : M sys HvError MMIOAccess :=
  match h with
  | h_virtio => mmio_virtio_handler e mmio arg
  | h_gicd => vgicv3_dist_handler mmio arg
  | h_gicr => vgicv3_redist_handler mmio arg
  | h_generic => with_bus (mmio_generic_handler mmio arg)
  end.

Definition mmio_handle_access (mmio : MMIOAccess) : M sys HvError MMIOAccess :=
  let* p := this_zone in
  let* z := read_zone p in
  let* r := find_mmio_region z (address mmio) (acc_size mmio) in
  match r with
  | Some (region, h, arg) =>
      let* a := usub (address mmio) (mr_start region) in
      call_handler h (set_address a mmio) arg
  | None => hv_result_err EINVAL
  end.

Definition handle_dabt : M sys leave unit :=
  let* esr := with_regs (read_sysreg "ESR_EL2") in
  let iss := esr_iss esr in
  let is_write := negb (Z.land (Z.shiftr iss 6) 0x1 =? 0) in
  let srt := Z.land (Z.shiftr iss 16) 0x1f in
  let sse := negb (Z.land (Z.shiftr iss 21) 0x1 =? 0) in
  let sas := Z.land (Z.shiftr iss 22) 0x3 in
  let size := Z.shiftl 1 sas in
  let* hpfar := with_regs (read_sysreg "HPFAR_EL2") in
  let* far := with_regs (read_sysreg "FAR_EL2") in
  let address := Z.lor (Z.land far 0xfff) (Z.shiftl hpfar 8 mod U64) in
  let* v := if srt =? 31 then hret 0 else get_usr srt in
  let* r := try_hv (mmio_handle_access (mkAccess address size is_write v)) in
  match r with
  | inl mmio =>
      (if negb is_write && negb (srt =? 31) then
         let* v := if sse then sign_extend (value mmio) size else hret (value mmio) in
         set_usr srt v
       else hret tt) ;;;
      arch_skip_instruction
  | inr _ => hpanic PExplicit
  end.

(** *** System registers, HVC, SMC *)

(** The only trapped register is ICC_SGI1R_EL1. *)
Definition handle_sysreg : M sys leave unit :=
  let* esr := with_regs (read_sysreg "ESR_EL2") in
  let rt := Z.land (Z.shiftr esr 5) 0x1f in
  let* val := get_usr rt in
  let* c := this_cpu_data in
  (if negb (psci_on c) then hret tt else with_regs (write_sysreg "icc_sgi1r_el1" val)) ;;;
  arch_skip_instruction.

(** [e.code()] is negative; [result as u64] wraps it. *)
Definition handle_hvc : M sys leave unit :=
  let* code := get_usr 0 in
  let* arg0 := get_usr 1 in
  let* _arg1 := get_usr 2 in
  let* _c := this_cpu_data in
  let* r := try_hv (hypercall psci_invalid_address config_at code arg0) in
  set_usr 0 (match r with inl ret => ret | inr e => HvError.code e mod U64 end).

Definition psci_emulate_cpu_on {E} : M sys E Z :=
  let* mpidr := get_usr 1 in
  let cpu := mpidr_to_cpuid mpidr in
  let* target_data := get_cpu_data cpu in
  if negb (psci_on target_data) then
    let* entry := get_usr 2 in
    mod_cpu_data cpu (set_cpu_on_entry entry) ;;;
    mod_cpu_data cpu (set_psci_on true) ;;;
    send_event cpu SGI_IPI_ID IPI_EVENT_WAKEUP ;;;
    hret 0
  else hret (U64 - 1 - 3).

(** The CPUs other than this one when the zone powers off. *)
Definition stop_cpu {E} (cpu_id : Z) : M sys E unit :=
  mod_cpu_data cpu_id (set_pc_zone None) ;;;
  send_event cpu_id SGI_IPI_ID IPI_EVENT_SHUTDOWN.

Definition handle_psci_smc (code arg0 : Z) : M sys leave Z :=
  if code =? PSCI_VERSION then hret PSCI_VERSION_1_1
  else if (code =? PSCI_CPU_SUSPEND_32) || (code =? PSCI_CPU_SUSPEND_64) then
    gicv3_handle_irq_el1 ;;; hret 0
  else if (code =? PSCI_CPU_OFF_32) || (code =? PSCI_CPU_OFF_64) then hpanic PTodo
  else if (code =? PSCI_AFFINITY_INFO_32) || (code =? PSCI_AFFINITY_INFO_64) then
    let* c := get_cpu_data arg0 in hret (if psci_on c then 0 else 1)
  else if code =? PSCI_MIG_INFO_TYPE then hret PSCI_TOS_NOT_PRESENT_MP
  else if code =? PSCI_FEATURES then
    let* a := get_usr 1 in hret (psci_emulate_features_info a)
  else if (code =? PSCI_CPU_ON_32) || (code =? PSCI_CPU_ON_64) then psci_emulate_cpu_on
  else if code =? PSCI_SYSTEM_OFF then
    let* p := this_zone in
    let* z := read_zone p in
    let* is_root := is_this_root_zone in
    let* c := this_cpu_data in
    let* ids := cpu_iter_except (z_cpu_set z) (pc_id c) in
    for_each stop_cpu ids ;;;
    let* id := this_cpu_id in
    mod_cpu_data id (set_pc_zone None) ;;;
    hunwrap (remove_zone (z_id z)) ;;;
    (* psci::system_off() does not return *)
    (if is_root then hhang else hret tt) ;;;
    let* c := this_cpu_data in
    cpu_idle parking_page (pc_id c)
  else hret 0.

Definition handle_smc : M sys leave unit :=
  let* code := get_usr 0 in
  let* arg0 := get_usr 1 in
  let* _arg1 := get_usr 2 in
  let* _arg2 := get_usr 3 in
  let* _c := this_cpu_data in
  let* result :=
    (if Z.land code SMC_TYPE_MASK =? SMC_ARCH_SC then hret (handle_arch_smc code)
     else if Z.land code SMC_TYPE_MASK =? SMC_STANDARD_SC then handle_psci_smc code arg0
     else hret 0) in
  set_usr 0 result ;;;
  arch_skip_instruction.

(** [handle_iabt] only prints and then is [loop {}]. *)
Definition handle_iabt {A} : M sys leave A := hhang.

Definition arch_handle_trap_el1 : M sys leave unit :=
  let* esr := with_regs (read_sysreg "ESR_EL2") in
  let ec := esr_ec esr in
  if ec =? EC_HVC64 then handle_hvc
  else if ec =? EC_SMC64 then handle_smc
  else if ec =? EC_TrappedMsrMrs then handle_sysreg
  else if ec =? EC_DataAbortLowerEL then handle_dabt
  else if ec =? EC_InstrAbortLowerEL then handle_iabt
  else hhang.

(** [arch_handle_exit] has type [!]: every exit that is handled ends in
    [vmreturn]; EL2 aborts and interrupts and unknown reasons are [loop {}]. *)
Definition arch_handle_exit {A} : M sys leave A :=
  let* g := hgets s_guest in
  (if exit_reason g =? EXIT_REASON_EL1_IRQ then gicv3_handle_irq_el1
   else if exit_reason g =? EXIT_REASON_EL1_ABORT then arch_handle_trap_el1
   else hhang) ;;;
  vmreturn.

End trap.
