(* ===== verification/El2.v ===== *)
(** * The trap vector and exits from EL2

    The vector table of src/src/arch/aarch64/trap.S with [install_trap_vector], the
    activation of the hypervisor's own table, and what
    src/src/arch/aarch64/trap.rs does when the hypervisor itself traps or an exit has an
    unknown reason: it prints a line and stops. *)

From S2P Require Import Prelude HvError Mmio Sys Gic Trap Asm Console.

(** ** The vector table *)

(** [_hyp_trap_vector]: sixteen slots of 128 bytes; [None] is [ventry .], a branch to
    itself, and [Some r] is [handle_vmexit r]. *)
Definition hyp_trap_vector : list (option Z) :=
  [None; None; None; None;
   Some EXIT_REASON_EL2_ABORT; Some EXIT_REASON_EL2_IRQ; None; None;
   Some EXIT_REASON_EL1_ABORT; Some EXIT_REASON_EL1_IRQ; None; None;
   None; None; None; None].

Definition install_trap_vector (vector : Z) : M sysregs HvError unit := write_sysreg "VBAR_EL2" vector.

(** [S1PTInstr::activate] (src/src/arch/aarch64/s1pt.rs): the table of the hypervisor
    itself. *)
Definition s1_activate (root_paddr : Z) : M sysregs HvError unit :=
  write_sysreg "TTBR0_EL2" root_paddr ;;; tlbi "alle2".

(** What the architecture distinguishes: where the exception comes from and its kind. *)
Inductive origin : Type := CurrentSP0 | CurrentSPx | Lower64 | Lower32.
Inductive trap_kind : Type := Synchronous | Irq | Fiq | SError.

(** The offset from VBAR_EL2 at which the CPU continues. *)
Definition vector_offset (o : origin) (k : trap_kind) : Z :=
  match o with CurrentSP0 => 0x000 | CurrentSPx => 0x200 | Lower64 => 0x400 | Lower32 => 0x600 end +
  match k with Synchronous => 0x000 | Irq => 0x080 | Fiq => 0x100 | SError => 0x180 end.

(** The code of a slot fits in it: with [bl] and [b .] it has 22 instructions of 4 bytes. *)
Lemma vector_slot_fits r : 4 * (Z.of_nat (length (handle_vmexit r)) + 2) ≤ 128.
Proof. unfold handle_vmexit. cbn [length]. lia. Qed.

(** A 64-bit guest's exceptions and interrupts reach the slots of the two EL1 reasons, the
    hypervisor's own those of the EL2 reasons, and everything else stops the CPU. *)
Lemma vector_dispatch o k :
  hyp_trap_vector !! Z.to_nat (vector_offset o k / 128) =
  Some (match o, k with
        | Lower64, Synchronous => Some EXIT_REASON_EL1_ABORT
        | Lower64, Irq => Some EXIT_REASON_EL1_IRQ
        | CurrentSPx, Synchronous => Some EXIT_REASON_EL2_ABORT
        | CurrentSPx, Irq => Some EXIT_REASON_EL2_IRQ
        | _, _ => None
        end).
Proof. by destruct o, k. Qed.

(** ** Exits from EL2 *)

Definition EC_InstrAbortCurrentEL : Z := 0x21.
Definition EC_DataAbortCurrentEL : Z := 0x25.

(** [{:#x?}] of an unsigned integer. *)
Definition hex_digit (d : Z) : Z := if d <? 10 then 48 + d else 87 + d.
Fixpoint hex_digits (fuel : nat) (v : Z) : list Z :=
  match fuel with
  | O => []
  | S fuel' => (if v <? 16 then [] else hex_digits fuel' (v / 16)) ++ [hex_digit (v mod 16)]
  end.
Definition hex (v : Z) : list Z := chars "0x" ++ hex_digits 16 v.

Example hex_page : hex 0x80000fa0 = chars "0x80000fa0".
Proof. reflexivity. Qed.

Section el2.
  Context {S E : Type} (console_putchar : Z → M S E unit).

(** [arch_handle_trap_el2]: the [loop {}] of a data abort comes before its message. *)
Definition el2_message (esr elr far : Z) : option (list Z) :=
  let ec := esr_ec esr in
  if ec =? EC_HVC64 then Some (chars "EL2 Exception: HVC64 call, ELR_EL2: " ++ hex elr)
  else if ec =? EC_SMC64 then Some (chars "EL2 Exception: SMC64 call, ELR_EL2: " ++ hex elr)
  else if ec =? EC_DataAbortCurrentEL then None
  else if ec =? EC_InstrAbortCurrentEL then
    Some (chars "EL2 Exception: Instruction Abort, ELR_EL2: " ++ hex elr ++ chars ", FAR_EL2: " ++ hex far)
  else Some (chars "Unhandled EL2 Exception: EC=" ++ hex 1).

Definition arch_handle_trap_el2 (esr elr far : Z) : M S E unit :=
  match el2_message esr elr far with
  | Some text => println console_putchar text ;;; hhang
  | None => hhang
  end.

(** [arch_dump_exit]: [error!] of the reason, where the maximal level admits it. *)
Definition arch_dump_exit (admitted : bool) (cpu_id : Z) (line : Z) (reason elr : Z) : M S E unit :=
  (if admitted then
     log console_putchar cpu_id
       (mkRecord LError (Some line) (chars "hvisor::arch::aarch64::trap")
          (chars "Unsupported Exit:" ++ hex reason ++ chars ", elr=" ++ hex elr))
   else hret tt) ;;; hhang.

End el2.
