(* ===== verification/SysFrame.v ===== *)
(** * What the operations of the hypervisor leave alone

    [keeps f]: [f] reads parts of the global state other than the page-table world,
    the device bus, the registers, the per-CPU array and the parking table. The
    operations a CPU runs at boot after the root zone exists change only those, so
    they keep every such [f]. *)

From S2P Require Import Prelude HvError Addr Region PtIface BTreeMap MemorySet CpuSet Mmio Config.
From S2P Require Import Sys ZoneOps Gic Event Vgic Hypercall Stable.

Section keeps.
  Context {W PT D X : Type} {G : GenericPageTable W PT} {B : Bus D}.
  Abbreviation sys := (sys W PT D).
  Implicit Types (s : sys) (f : sys → X).

Record keeps f : Prop := {
  k_w w s : f (set_w w s) = f s;
  k_bus d s : f (set_bus d s) = f s;
  k_regs r s : f (set_regs r s) = f s;
  k_guest g s : f (set_guest g s) = f s;
  k_cpus c s : f (set_cpus c s) = f s;
  k_page p s : f (set_parking_page p s) = f s;
  k_parking p s : f (set_parking p s) = f s
}.

  Context (f : sys → X) (Hf : keeps f) (x : X).
  Abbreviation kept := (stable (λ s : sys, f s = x)).

Lemma kept_with_w {E A} (m : M W E A) : kept (with_w m).
Proof using Hf. apply stable_zoom. intros s Hs. case_match; rewrite ?(k_w _ Hf); done. Qed.

Lemma kept_with_bus {E A} (m : M D E A) : kept (with_bus m).
Proof using Hf. apply stable_zoom. intros s Hs. case_match; rewrite ?(k_bus _ Hf); done. Qed.

Lemma kept_with_regs {E A} (m : M sysregs E A) : kept (with_regs m).
Proof using Hf. apply stable_zoom. intros s Hs. case_match; rewrite ?(k_regs _ Hf); done. Qed.

Lemma kept_get_cpu {E} i : kept (get_cpu_data (E:=E) i).
Proof. unfold get_cpu_data. solve_stable. Qed.

#[local] Hint Resolve kept_with_w kept_with_bus kept_with_regs kept_get_cpu : stable.

Lemma kept_mod_cpu {E} i g : kept (mod_cpu_data (E:=E) i g).
Proof using Hf.
  unfold mod_cpu_data. solve_stable. apply stable_modify. intros s Hs. by rewrite (k_cpus _ Hf).
Qed.

Lemma kept_this_cpu_id {E} : kept (this_cpu_id (E:=E)).
Proof using Hf. unfold this_cpu_id. solve_stable. Qed.

#[local] Hint Resolve kept_mod_cpu kept_this_cpu_id : stable.

Lemma kept_this_cpu_data {E} : kept (this_cpu_data (E:=E)).
Proof using Hf. unfold this_cpu_data. solve_stable. Qed.

Lemma kept_read_zone {E} p : kept (read_zone (E:=E) p).
Proof. unfold read_zone. solve_stable. Qed.

#[local] Hint Resolve kept_this_cpu_data kept_read_zone : stable.

(** *** Running and parking a CPU *)

Lemma kept_parange_bits {E} : kept (get_parange_bits (E:=E)).
Proof. unfold get_parange_bits. solve_stable. Qed.

#[local] Hint Resolve kept_parange_bits : stable.

Lemma kept_level3 {E} : kept (is_s2_pt_level3 (E:=E)).
Proof. unfold is_s2_pt_level3. solve_stable. Qed.

#[local] Hint Resolve kept_level3 : stable.

Lemma kept_for_each {E A} (g : A → M sys E unit) l : (∀ a, kept (g a)) → kept (for_each g l).
Proof. intros Hg. induction l; simpl; solve_stable. Qed.

Lemma kept_cpu_reset {E} entry dtb : kept (cpu_reset (E:=E) entry dtb).
Proof using Hf.
  assert (∀ g : sys → GeneralRegisters, kept (hmodify (E:=E) (λ s, set_guest (g s) s))) as Hg.
  { intros g. apply stable_modify. intros s Hs. by rewrite (k_guest _ Hf). }
  unfold cpu_reset, clear_guest, set_usr, reset_vm_regs, activate_vmm, get_parange.
  solve_stable; try apply kept_for_each; solve_stable; apply Hg.
Qed.

#[local] Hint Resolve kept_cpu_reset : stable.

Lemma kept_activate {E} ms : kept (activate (E:=E) ms).
Proof using Hf. unfold activate. solve_stable. Qed.

#[local] Hint Resolve kept_activate : stable.

Lemma kept_cpu_run {A} cpuid : kept (cpu_run (A:=A) cpuid).
Proof using Hf. unfold cpu_run, activate_gpm, vmreturn. solve_stable. Qed.

Lemma kept_parking_init {E} page : kept (parking_init (E:=E) page).
Proof using Hf.
  unfold parking_init, new_s2_memory_set, virt_to_phys.
  assert (∀ g : sys → list Z, kept (hmodify (E:=E) (λ s, set_parking_page (g s) s))) as Hg.
  { intros g. apply stable_modify. intros s Hs. by rewrite (k_page _ Hf). }
  assert (∀ m, kept (hmodify (E:=E) (set_parking m))) as Hm.
  { intros m. apply stable_modify. intros s Hs. by rewrite (k_parking _ Hf). }
  solve_stable; auto.
Qed.

#[local] Hint Resolve kept_parking_init : stable.

Lemma kept_cpu_idle {A} page cpuid : kept (cpu_idle (A:=A) page cpuid).
Proof using Hf. unfold cpu_idle, vmreturn. solve_stable. Qed.

(** *** The interrupt controller *)

Lemma kept_enable_ipi {E} poll : kept (enable_ipi (E:=E) poll).
Proof using Hf. unfold enable_ipi, host_gicr_base, gic. solve_stable. Qed.

Lemma kept_gic_are_ns {E} : kept (enable_gic_are_ns (E:=E)).
Proof using Hf. unfold enable_gic_are_ns, host_gicd_base, gic. solve_stable. Qed.

End keeps.

#[export] Hint Resolve kept_with_w kept_with_bus kept_with_regs kept_get_cpu kept_mod_cpu
  kept_this_cpu_id kept_this_cpu_data kept_read_zone kept_cpu_run kept_cpu_idle kept_enable_ipi
  kept_gic_are_ns : stable.

(** ** Making a zone *)

Section create.
  Context {W PT D : Type} {G : GenericPageTable W PT} (psci_invalid_address : Z).
  Abbreviation sys := (sys W PT D).

(** *** The id of the zone object *)

Abbreviation has_id zid := (λ z : Zone PT, z_id z = zid).

Lemma register_id {S E} zid z start size h a :
  z_id z = zid → yields (has_id zid) (mmio_region_register (S:=S) (E:=E) (PT:=PT) z start size h a).
Proof.
  intros Hz. unfold mmio_region_register. eapply yields_bind; [apply yields_any|]. intros l _.
  by apply yields_ret.
Qed.

Lemma pt_init_id zid regions z : z_id z = zid → yields (has_id zid) (pt_init (W:=W) z regions).
Proof.
  revert z. induction regions as [|r rs IH]; intros z Hz; [by apply yields_ret|].
  eapply (yields_bind (has_id zid)); [|intros z' Hz'; by apply IH]. unfold pt_init_one.
  destruct (_ || _); [|destruct (_ =? _)].
  - eapply (yields_bind (λ x, has_id zid x.2)); [|intros [[] z'] Hz'; by apply yields_ret].
    intros w. unfold with_gpm. by destruct (ms_insert _ _).
  - by apply register_id.
  - done.
Qed.

Lemma mmio_init_id {E} zid z a : z_id z = zid → yields (has_id zid) (mmio_init (W:=W) (D:=D) (E:=E) z a).
Proof.
  intros Hz. unfold mmio_init, vgicv3_mmio_init. do 3 (eapply yields_bind; [apply yields_any|intros ? _]).
  eapply yields_bind; [by apply register_id|]. intros z' Hz'. revert z' Hz'.
  generalize (seqZ 0 MAX_CPU_NUM). intros l. induction l as [|c l IH]; intros z' Hz'; [by apply yields_ret|].
  do 2 (eapply yields_bind; [apply yields_any|intros ? _]).
  eapply yields_bind; [by apply register_id|]. intros z'' Hz''. by apply IH.
Qed.

Lemma irq_init_id {S E} zid z irqs : z_id z = zid → yields (has_id zid) (irq_bitmap_init (S:=S) (E:=E) z irqs).
Proof.
  revert z. induction irqs as [|i l IH]; intros z Hz; [by apply yields_ret|].
  eapply (yields_bind (has_id zid)); [|intros z' Hz'; by apply IH]. unfold insert_irq_to_bitmap.
  do 2 (eapply yields_bind; [apply yields_any|intros ? _]). by apply yields_ret.
Qed.

Lemma set_cpus_id {S E} zid z ids : z_id z = zid → yields (has_id zid) (set_cpus_of (S:=S) (E:=E) z ids).
Proof.
  revert z. induction ids as [|i l IH]; intros z Hz; [by apply yields_ret|].
  eapply yields_bind; [apply yields_any|]. intros cs _. by apply IH.
Qed.

(** *** The zone is listed *)

Definition listed (zid : Z) (s : sys) : Prop :=
  ∃ p z, p ∈ s_zone_list s ∧ s_heap s !! p = Some z ∧ z_id z = zid.

Lemma zones_kept : keeps (λ s : sys, (s_heap s, s_zone_list s)).
Proof. by split. Qed.

(** Code that does not mention the state's type only reads it. *)
Lemma stable_first_cpu {S E} (I : S → Prop) cs : stable I (first_cpu (E:=E) cs).
Proof.
  unfold first_cpu. generalize (all_ids cs). intros l.
  induction l as [|i l IH]; simpl; unfold contains_cpu, ushl1; solve_stable.
Qed.

Lemma stable_cpu_iter {S E} (I : S → Prop) cs : stable I (cpu_iter (E:=E) cs).
Proof.
  unfold cpu_iter. generalize (all_ids cs). intros l.
  induction l as [|i l IH]; simpl; unfold contains_cpu, ushl1; solve_stable.
Qed.

Lemma kept_assign {X E} (f : sys → X) x p cs entry ipa i :
  keeps f → stable (λ s, f s = x) (assign_cpu (E:=E) p cs entry ipa i).
Proof.
  intros Hf. unfold assign_cpu. pose proof (λ i g, kept_mod_cpu (E:=E) f Hf x i g).
  apply stable_bind; [auto|intros _]. apply stable_bind; [apply stable_first_cpu|intros o].
  solve_stable; try (apply stable_modify; intros s Hs; by rewrite (k_cpus _ Hf)).
Qed.

(** The end of [zone_create]. *)
Lemma create_listed {E} zid z cs entry ipa (s : sys) :
  z_id z = zid →
  wlp (E:=E) (let* p := arc_new z in
       let* ids := cpu_iter cs in
       for_each (assign_cpu p cs entry ipa) ids ;;; add_zone p ;;; hret p)
    (λ _ s', listed zid s') s.
Proof.
  intros Hz. apply wlp_bind. set (p := fresh_ptr (s_heap s)). change (wlp (E:=E)
    (let* ids := cpu_iter cs in for_each (assign_cpu p cs entry ipa) ids ;;; add_zone p ;;; hret p)
    (λ _ s', listed zid s') (set_heap (<[p := z]> (s_heap s)) s)).
  set (I := λ s' : sys, (s_heap s', s_zone_list s') = (<[p := z]> (s_heap s), s_zone_list s)).
  eapply wlp_bind, (wlp_stable I); [apply stable_cpu_iter|done|]. intros ids s1 Hs1.
  eapply wlp_bind, (wlp_stable I); [|exact Hs1|].
  { apply (kept_for_each (λ s' : sys, (s_heap s', s_zone_list s'))). intros i. apply kept_assign, zones_kept. }
  intros _ s2 [= Hh Hl]. exists p, z. simpl. rewrite Hh, Hl. split_and!; [|apply lookup_insert_eq|done].
  apply elem_of_app. right. by left.
Qed.

Lemma zone_create_listed config s :
  wlp (zone_create psci_invalid_address config) (λ _ s', listed (zone_id config) s') s.
Proof.
  unfold zone_create. eapply wlp_bind, wlp_yields; [apply yields_any|]. intros [q|] s0 _; [done|].
  eapply wlp_bind, (wlp_yields (has_id (zone_id config))).
  { eapply yields_bind; [apply yields_any|]. intros ms _. by apply yields_ret. }
  intros z1 s1 H1. eapply wlp_bind, wlp_yields; [apply yields_any|]. intros regions s2 _.
  eapply wlp_bind, (wlp_yields (has_id (zone_id config))); [by apply yields_unwrap, yields_zoom, pt_init_id|].
  intros z2 s3 H2. eapply wlp_bind, wlp_yields; [by apply mmio_init_id|].
  intros z3 s4 H3. eapply wlp_bind, wlp_yields; [apply yields_any|]. intros irqs s5 _.
  eapply wlp_bind, wlp_yields; [by apply irq_init_id|].
  intros z4 s6 H4. eapply wlp_bind, wlp_yields; [by apply set_cpus_id|].
  intros z5 s7 H5. eapply wlp_bind, wlp_yields; [apply yields_any|]. intros ipa s8 _.
  apply (create_listed (zone_id config) z5). by rewrite H5, H4.
Qed.

(** *** The rest of the state is not touched *)

Section any_state.
  Context {S E : Type} (I : S → Prop).

Lemma stable_register (z : Zone PT) start size h a : stable (E:=E) I (mmio_region_register z start size h a).
Proof.
  unfold mmio_region_register. apply stable_bind; [|intros; apply stable_ret].
  induction (z_mmio z) as [|c l IH]; simpl; solve_stable.
Qed.

Lemma stable_irq_init (z : Zone PT) irqs : stable (E:=E) I (irq_bitmap_init z irqs).
Proof.
  revert z. induction irqs as [|i l IH]; intros z; simpl; [apply stable_ret|].
  apply stable_bind; [|auto]. unfold insert_irq_to_bitmap, irq_word. solve_stable.
Qed.

Lemma stable_set_cpus (z : Zone PT) ids : stable (E:=E) I (set_cpus_of z ids).
Proof.
  revert z. induction ids as [|i l IH]; intros z; simpl; [apply stable_ret|].
  apply stable_bind; [|auto]. unfold set_bit, ushl1. solve_stable.
Qed.

Lemma stable_regions c : stable (E:=E) I (memory_regions c).
Proof. unfold memory_regions, slice_to. solve_stable. Qed.

Lemma stable_interrupts c : stable (E:=E) I (interrupts c).
Proof. unfold interrupts, slice_to. solve_stable. Qed.

End any_state.

#[local] Hint Resolve stable_register stable_irq_init stable_set_cpus stable_regions stable_interrupts
  stable_cpu_iter : stable.

Lemma stable_find_zone {E} (I : sys → Prop) zid : stable (E:=E) I (find_zone zid).
Proof.
  unfold find_zone. apply stable_bind; [apply stable_gets|]. intros l.
  induction l as [|p l IH]; simpl; unfold read_zone; solve_stable.
Qed.

Lemma stable_mmio_init {E} (I : sys → Prop) z a : stable (E:=E) I (mmio_init (PT:=PT) z a).
Proof.
  unfold mmio_init, vgicv3_mmio_init, host_gicd_base, host_gicr_base, host_gicd_size, gic. solve_stable.
Qed.

Lemma stable_find_dtb {E} (I : sys → Prop) dtb ipa regions : stable (E:=E) I (find_dtb_ipa dtb ipa regions).
Proof. revert ipa. induction regions as [|r l IH]; intros ipa; simpl; solve_stable. Qed.

(** The part of the state that making and removing zones works on. *)
Record zone_free (I : sys → Prop) : Prop := {
  zf_w w s : I s → I (set_w w s);
  zf_cpus c s : I s → I (set_cpus c s);
  zf_heap h s : I s → I (set_heap h s);
  zf_list l s : I s → I (set_zone_list l s)
}.

Section zone_free.
  Context (I : sys → Prop) (HI : zone_free I).

Lemma free_with_w {E A} (m : M W E A) : stable I (with_w m).
Proof using HI. apply stable_zoom. intros s Hs. case_match; try done; by apply zf_w. Qed.

Lemma free_mod_cpu {E} i g : stable I (mod_cpu_data (E:=E) i g).
Proof using HI.
  unfold mod_cpu_data, get_cpu_data. solve_stable. apply stable_modify. intros s. by apply zf_cpus.
Qed.

Lemma free_for_each {E A} (g : A → M sys E unit) l : (∀ a, stable I (g a)) → stable I (for_each g l).
Proof using. intros Hg. induction l; simpl; solve_stable. Qed.

Lemma free_assign {E} p cs entry ipa i : stable I (assign_cpu (E:=E) p cs entry ipa i).
Proof using HI.
  unfold assign_cpu. pose proof (λ i g, free_mod_cpu (E:=E) i g).
  apply stable_bind; [auto|intros _]. apply stable_bind; [apply stable_first_cpu|intros o].
  solve_stable; try (apply stable_modify; intros s; by apply zf_cpus).
Qed.

Lemma free_zone_create config : stable I (zone_create psci_invalid_address config).
Proof using HI.
  unfold zone_create. apply stable_bind; [apply stable_find_zone|]. intros [q|]; [apply stable_err|].
  apply stable_bind.
  { unfold zone_new, new_s2_memory_set, is_s2_pt_level3, get_parange_bits. solve_stable; apply free_with_w. }
  intros z1. apply stable_bind; [apply stable_regions|]. intros regions.
  apply stable_bind; [apply stable_unwrap, free_with_w|]. intros z2.
  apply stable_bind; [apply stable_mmio_init|]. intros z3.
  apply stable_bind; [apply stable_interrupts|]. intros irqs.
  apply stable_bind; [apply stable_irq_init|]. intros z4.
  apply stable_bind; [apply stable_set_cpus|]. intros z5.
  apply stable_bind; [apply stable_find_dtb|]. intros ipa.
  apply stable_bind.
  { unfold arc_new. solve_stable. apply stable_modify. intros s. by apply zf_heap. }
  intros p. apply stable_bind; [apply stable_cpu_iter|]. intros ids.
  apply stable_bind; [apply free_for_each; intros i; apply free_assign|]. intros _.
  unfold add_zone. solve_stable. apply stable_modify. intros s. by apply zf_list.
Qed.

Lemma free_remove_first {E} zid l : stable I (remove_first (E:=E) zid l).
Proof using. induction l as [|p l IH]; simpl; unfold read_zone; solve_stable. Qed.

Lemma free_remove_zone zid : stable I (remove_zone zid).
Proof using HI.
  pose proof @free_remove_first. pose proof @free_with_w. unfold remove_zone, zone_drop, read_zone.
  solve_stable; apply stable_modify; intros s; [by apply zf_list|by apply zf_heap].
Qed.

End zone_free.

Lemma zone_create_kept {X} (f : sys → X) x config :
  keeps f → (∀ h s, f (set_heap h s) = f s) → (∀ l s, f (set_zone_list l s) = f s) →
  stable (λ s, f s = x) (zone_create psci_invalid_address config).
Proof.
  intros Hf Hheap Hlist. apply free_zone_create. split; intros; rewrite ?Hheap, ?Hlist, ?(k_w _ Hf), ?(k_cpus _ Hf); done.
Qed.

End create.
