(* ===== verification/Boot.v ===== *)
(** * The boot protocol (src/src/main.rs)

    [rust_main] on every CPU, from [arch_entry] (src/src/arch/aarch64/entry.rs) to
    [run_vm]: the CPUs meet at counters in shared memory. One step of the machine
    is one CPU going from one synchronisation point of the code to the next; a CPU
    that spins in [wait_for] cannot move. What the code does between the points is
    the record [actions]: [Boot.v] is about the protocol, [BootSys.v] gives the
    actions of the hypervisor. *)

From S2P Require Import Prelude Addr.

(** Where a CPU is in [rust_main]. *)
Inductive pc : Type :=
| PcOff                 (* held by the firmware until [cpu_start] *)
| PcEntry               (* arch_entry: clear_bss on CPU 0 *)
| PcLoad                (* MASTER_CPU.load() == -1 *)
| PcClaim               (* MASTER_CPU.store(cpuid); heap::init *)
| PcNew                 (* PerCpu::new *)
| PcWake (k : nat)      (* wakeup_secondary_cpus, at CPU k *)
| PcEnter               (* ENTERED_CPUS.fetch_add *)
| PcWaitEntered         (* wait_for entered_cpus() >= MAX_CPU_NUM *)
| PcCheck               (* assert_eq!(entered_cpus(), MAX_CPU_NUM) *)
| PcParange             (* setup_parange up to the wait *)
| PcWaitParange
| PcEarly               (* primary_init_early / wait for INIT_EARLY_OK *)
| PcPerCpu              (* per_cpu_init, irqchip::percpu_init, INITED_CPUS.fetch_add *)
| PcWaitInited
| PcLate                (* primary_init_late / wait for INIT_LATE_OK *)
| PcRun                 (* cpu.run_vm() *)
| PcGuest               (* in the guest *)
| PcDead (at_rank : nat). (* panicked, or never came back, at that point *)

Definition NCPU : nat := Z.to_nat MAX_CPU_NUM.

(** How far a CPU has come. *)
Definition rank (p : pc) : nat :=
  match p with
  | PcOff => 0 | PcEntry => 1 | PcLoad => 2 | PcClaim => 3 | PcNew => 4
  | PcWake k => 5 + k
  | PcEnter => 10 | PcWaitEntered => 11 | PcCheck => 12 | PcParange => 13 | PcWaitParange => 14
  | PcEarly => 15 | PcPerCpu => 16 | PcWaitInited => 17 | PcLate => 18 | PcRun => 19
  | PcGuest => 20
  | PcDead r => r
  end.

Record cpu_state : Type := mkCpuState { c_pc : pc; c_primary : bool }.

(** What the code does between the synchronisation points; [None]: it panics or
    does not return. [a_par] is [PARANGE_OK_CPUS]. *)
Record actions (S : Type) : Type := mkActions {
  a_clear_bss : S → S;
  a_new : nat → S → S;
  a_parange : nat → S → S;
  a_par : S → Z;
  a_early : nat → S → option S;
  a_percpu : nat → S → option S;
  a_late : nat → S → option S;
  a_run : nat → S → option S
}.
Arguments a_clear_bss {S} _ _.
Arguments a_new {S} _ _ _.
Arguments a_parange {S} _ _ _.
Arguments a_par {S} _ _.
Arguments a_early {S} _ _ _.
Arguments a_percpu {S} _ _ _.
Arguments a_late {S} _ _ _.
Arguments a_run {S} _ _ _.

Record boot (S : Type) : Type := mkBoot {
  b_sys : S;
  b_master : Z;      (* MASTER_CPU *)
  b_entered : Z;     (* ENTERED_CPUS *)
  b_early : Z;       (* INIT_EARLY_OK *)
  b_inited : Z;      (* INITED_CPUS *)
  b_late : Z;        (* INIT_LATE_OK *)
  b_cpus : list cpu_state
}.
Arguments mkBoot {S} _ _ _ _ _ _ _.
Arguments b_sys {S} _.
Arguments b_master {S} _.
Arguments b_entered {S} _.
Arguments b_early {S} _.
Arguments b_inited {S} _.
Arguments b_late {S} _.
Arguments b_cpus {S} _.

Section machine.
  Context {S : Type} (act : actions S).
  Implicit Types (b : boot S) (i : nat).

Definition set_sys (s : S) b : boot S :=
  mkBoot s (b_master b) (b_entered b) (b_early b) (b_inited b) (b_late b) (b_cpus b).
Definition set_cpu i (c : cpu_state) b : boot S :=
  mkBoot (b_sys b) (b_master b) (b_entered b) (b_early b) (b_inited b) (b_late b)
    (<[i := c]> (b_cpus b)).

(** CPU [i] goes on at [p]. *)
Definition go i (p : pc) b : boot S :=
  match b_cpus b !! i with
  | Some c => set_cpu i (mkCpuState p (c_primary c)) b
  | None => b
  end.

(** [clear_bss]: the counters are in .bss, [MASTER_CPU] (initially -1) is not. *)
Definition clear_bss b : boot S :=
  mkBoot (a_clear_bss act (b_sys b)) (b_master b) 0 0 0 0 (b_cpus b).

Definition fetch_add (x : Z) : Z := (x + 1) mod U32.

Definition inc_entered b : boot S :=
  mkBoot (b_sys b) (b_master b) (fetch_add (b_entered b)) (b_early b) (b_inited b) (b_late b) (b_cpus b).
Definition inc_inited b : boot S :=
  mkBoot (b_sys b) (b_master b) (b_entered b) (b_early b) (fetch_add (b_inited b)) (b_late b) (b_cpus b).
Definition store_early b : boot S :=
  mkBoot (b_sys b) (b_master b) (b_entered b) 1 (b_inited b) (b_late b) (b_cpus b).
Definition store_late b : boot S :=
  mkBoot (b_sys b) (b_master b) (b_entered b) (b_early b) (b_inited b) 1 (b_cpus b).
Definition store_master (m : Z) b : boot S :=
  mkBoot (b_sys b) m (b_entered b) (b_early b) (b_inited b) (b_late b) (b_cpus b).

(** [cpu_start(k)]: the firmware starts a CPU that is off; AlreadyOn is ignored. *)
Definition start_cpu (k : nat) b : boot S :=
  match b_cpus b !! k with
  | Some c => match c_pc c with PcOff => go k PcEntry b | _ => b end
  | None => b
  end.

(** An action that may not come back. *)
Definition attempt i (r : nat) (o : option S) (k : boot S → boot S) b : boot S :=
  match o with
  | Some s => k (set_sys s b)
  | None => go i (PcDead r) b
  end.

(** One step of CPU [i]; [None]: it is off, spins, or is done. *)
Definition step_cpu i b : option (boot S) :=
  match b_cpus b !! i with
  | None => None
  | Some c =>
      match c_pc c with
      | PcOff => None
      | PcEntry => Some (go i PcLoad (if (i =? 0)%nat then clear_bss b else b))
      | PcLoad => Some (go i (if b_master b =? -1 then PcClaim else PcNew) b)
      | PcClaim => Some (set_cpu i (mkCpuState PcNew true) (store_master (Z.of_nat i) b))
      | PcNew =>
          Some (go i (if c_primary c then PcWake 0 else PcEnter) (set_sys (a_new act i (b_sys b)) b))
      | PcWake k =>
          if (k <? NCPU)%nat then
            Some (go i (PcWake (k + 1)) (if (k =? i)%nat then b else start_cpu k b))
          else Some (go i PcEnter b)
      | PcEnter => Some (go i PcWaitEntered (inc_entered b))
      | PcWaitEntered => if b_entered b <? MAX_CPU_NUM then None else Some (go i PcCheck b)
      | PcCheck =>
          Some (go i (if b_entered b =? MAX_CPU_NUM then PcParange else PcDead 12) b)
      | PcParange => Some (go i PcWaitParange (set_sys (a_parange act i (b_sys b)) b))
      | PcWaitParange =>
          if a_par act (b_sys b) <? MAX_CPU_NUM then None else Some (go i PcEarly b)
      | PcEarly =>
          if c_primary c then
            Some (attempt i 15 (a_early act i (b_sys b)) (λ b, go i PcPerCpu (store_early b)) b)
          else if b_early b <? 1 then None else Some (go i PcPerCpu b)
      | PcPerCpu =>
          Some (attempt i 16 (a_percpu act i (b_sys b)) (λ b, go i PcWaitInited (inc_inited b)) b)
      | PcWaitInited => if b_inited b <? MAX_CPU_NUM then None else Some (go i PcLate b)
      | PcLate =>
          if c_primary c then
            Some (attempt i 18 (a_late act i (b_sys b)) (λ b, go i PcRun (store_late b)) b)
          else if b_late b <? 1 then None else Some (go i PcRun b)
      | PcRun => Some (attempt i 19 (a_run act i (b_sys b)) (go i PcGuest) b)
      | PcGuest | PcDead _ => None
      end
  end.

(** The interleavings: any CPU that can move may move. *)
Inductive steps : nat → boot S → boot S → Prop :=
| steps_refl b : steps 0 b b
| steps_next n i b b1 b2 : steps n b b1 → step_cpu i b1 = Some b2 → steps (1 + n) b b2.

(** A schedule, executed; a CPU that cannot move is passed over. *)
Fixpoint run_schedule (l : list nat) b : boot S :=
  match l with
  | [] => b
  | i :: l' => run_schedule l' (default b (step_cpu i b))
  end.

(** The machine at reset: the CPUs in [on] start, the counters hold anything. *)
Definition reset_state (s : S) (e1 e2 e3 e4 : Z) (on : list nat) : boot S :=
  mkBoot s (-1) e1 e2 e3 e4
    ((λ i, mkCpuState (if decide (i ∈ on) then PcEntry else PcOff) false) <$> seq 0 NCPU).

End machine.
