(* ===== verification/BootInv.v ===== *)
(** * The invariant of the boot protocol

    With CPU 0 as the only CPU that the firmware starts, every reachable state of
    the machine of [Boot] satisfies [inv]: the counters count the CPUs that have
    passed their point, no CPU is ahead of a barrier that another has not reached,
    and there is one primary. *)

From S2P Require Import Prelude Addr Boot.

(** What the boot code relies on: only [setup_parange] counts in PARANGE_OK_CPUS
    (and clearing .bss resets it), [P] holds once .bss is cleared, and what the
    early initialisation establishes ([Q]) survives the later steps. *)
Record actions_ok {S} (act : actions S) (P Q : S → Prop) : Prop := {
  ok_clear s : a_par act (a_clear_bss act s) = 0 ∧ P (a_clear_bss act s);
  ok_new i s : a_par act (a_new act i s) = a_par act s ∧ (P s → P (a_new act i s));
  ok_parange i s : a_par act (a_parange act i s) = a_par act s + 1 ∧ (P s → P (a_parange act i s));
  ok_early i s s' : a_early act i s = Some s' → P s → a_par act s' = a_par act s ∧ P s' ∧ Q s';
  ok_percpu i s s' : a_percpu act i s = Some s' → P s → a_par act s' = a_par act s ∧ P s' ∧ (Q s → Q s');
  ok_late i s s' : a_late act i s = Some s' → P s → a_par act s' = a_par act s ∧ P s' ∧ (Q s → Q s');
  ok_run i s s' : a_run act i s = Some s' → P s → a_par act s' = a_par act s ∧ P s' ∧ (Q s → Q s')
}.

(** ** Ranks and counts *)

Definition rk (L : list cpu_state) (i : nat) : nat :=
  match L !! i with Some c => rank (c_pc c) | None => 0 end.

(** The CPUs that are past rank [t]. *)
Definition cnt (t : nat) (L : list cpu_state) : Z :=
  Z.of_nat (length (filter (λ c, (t < rank (c_pc c))%nat) L)).

Lemma rk_some L i c : L !! i = Some c → rk L i = rank (c_pc c).
Proof. unfold rk. by intros ->. Qed.

Lemma rk_insert L i j c :
  (i < length L)%nat → rk (<[i:=c]> L) j = if decide (j = i) then rank (c_pc c) else rk L j.
Proof.
  intros Hi. unfold rk. destruct (decide (j = i)) as [->|Hne].
  - by rewrite list_lookup_insert_eq.
  - by rewrite list_lookup_insert_ne.
Qed.

Lemma cnt_le t L : 0 ≤ cnt t L ≤ Z.of_nat (length L).
Proof.
  unfold cnt. pose proof (length_filter (λ c, (t < rank (c_pc c))%nat) L). lia.
Qed.

Lemma cnt_insert t L i c c' :
  L !! i = Some c → (rank (c_pc c) ≤ rank (c_pc c'))%nat →
  cnt t (<[i:=c']> L) =
  cnt t L + (if decide (rank (c_pc c) ≤ t < rank (c_pc c'))%nat then 1 else 0).
Proof.
  intros Hi Hr. unfold cnt. revert i Hi. induction L as [|x L IH]; intros [|i] Hi; try done; simpl in *.
  - injection Hi as ->. rewrite !filter_cons.
    repeat case_decide; simpl; lia.
  - specialize (IH i Hi). rewrite !filter_cons. destruct (decide (t < rank (c_pc x))%nat); simpl; lia.
Qed.

(** Everyone is past [t] iff the count is the number of CPUs. *)
Lemma cnt_full t L : cnt t L = Z.of_nat (length L) ↔ ∀ i, (i < length L)%nat → (t < rk L i)%nat.
Proof.
  unfold cnt. split.
  - intros Hc i Hi. destruct (lookup_lt_is_Some_2 L i Hi) as [c Hc'].
    rewrite (rk_some _ _ _ Hc'). revert i Hi Hc'. induction L as [|x L IH]; intros i Hi Hx; [done|].
    rewrite filter_cons in Hc. pose proof (length_filter (λ c, (t < rank (c_pc c))%nat) L).
    case_decide; simpl in *; [|lia]. destruct i as [|i]; simpl in *; [by simplify_eq|].
    apply (IH ltac:(lia) i); [lia|done].
  - induction L as [|x L IH]; intros H; [done|]. rewrite filter_cons, decide_True.
    + simpl. rewrite Nat2Z.inj_succ, IH; [lia|]. intros i Hi. apply (H (S i)). simpl. lia.
    + apply (H 0%nat). simpl. lia.
Qed.

Lemma cnt_zero t L : (∀ i, (rk L i ≤ t)%nat) → cnt t L = 0.
Proof.
  intros H. unfold cnt. induction L as [|x L IH]; [done|]. rewrite filter_cons, decide_False.
  - apply IH. intros i. apply (H (S i)).
  - specialize (H 0%nat). unfold rk in H. simpl in H. lia.
Qed.

(** Someone is not past [t] yet. *)
Lemma cnt_missing t L : cnt t L < Z.of_nat (length L) → ∃ i, (i < length L)%nat ∧ (rk L i ≤ t)%nat.
Proof.
  intros Hlt. destruct (decide (Exists (λ i, (rk L i ≤ t)%nat) (seq 0 (length L)))) as [He|Hne].
  - apply Exists_exists in He as (i & Hi%elem_of_seq & Hr). exists i. lia.
  - exfalso. assert (cnt t L = Z.of_nat (length L)); [|lia]. apply cnt_full. intros i Hi.
    destruct (decide (t < rk L i)%nat); [done|]. exfalso. apply Hne, Exists_exists.
    exists i. split; [apply elem_of_seq; lia|lia].
Qed.

(** ** The invariant *)

Definition shape_ok (i : nat) (p : pc) : Prop :=
  match p with
  | PcOff => i ≠ 0%nat
  | PcClaim => i = 0%nat
  | PcWake k => i = 0%nat ∧ (k ≤ NCPU)%nat
  | PcDead r => (15 ≤ r ≤ 19)%nat ∧ r ≠ 17%nat
  | _ => True
  end.

Section inv.
  Context {S : Type} (act : actions S) (P Q : S → Prop) (HA : actions_ok act P Q).
  Implicit Types (b : boot S) (i : nat).

Record inv b : Prop := {
  i_len : length (b_cpus b) = NCPU;
  i_shape i c : b_cpus b !! i = Some c → shape_ok i (c_pc c);
  i_prim i c : b_cpus b !! i = Some c → (c_primary c = true ↔ i = 0%nat ∧ (3 < rank (c_pc c))%nat);
  i_master : b_master b = if decide (3 < rk (b_cpus b) 0)%nat then 0 else -1;
  i_off i : (0 < i < NCPU)%nat → (rk (b_cpus b) i = 0%nat ↔ (rk (b_cpus b) 0 < 6 + i)%nat);
  i_entered : (1 < rk (b_cpus b) 0)%nat → b_entered b = cnt 10 (b_cpus b);
  i_par : (1 < rk (b_cpus b) 0)%nat → a_par act (b_sys b) = cnt 13 (b_cpus b);
  i_inited : (1 < rk (b_cpus b) 0)%nat → b_inited b = cnt 16 (b_cpus b);
  i_early : (1 < rk (b_cpus b) 0)%nat → b_early b = if decide (15 < rk (b_cpus b) 0)%nat then 1 else 0;
  i_late : (1 < rk (b_cpus b) 0)%nat → b_late b = if decide (18 < rk (b_cpus b) 0)%nat then 1 else 0;
  i_bar1 i : (11 < rk (b_cpus b) i)%nat → cnt 10 (b_cpus b) = MAX_CPU_NUM;
  i_bar2 i : (14 < rk (b_cpus b) i)%nat → cnt 13 (b_cpus b) = MAX_CPU_NUM;
  i_bar3 i : (15 < rk (b_cpus b) i)%nat → (15 < rk (b_cpus b) 0)%nat;
  i_bar4 i : (17 < rk (b_cpus b) i)%nat → cnt 16 (b_cpus b) = MAX_CPU_NUM;
  i_bar5 i : (18 < rk (b_cpus b) i)%nat → (18 < rk (b_cpus b) 0)%nat;
  i_root : (15 < rk (b_cpus b) 0)%nat → Q (b_sys b);
  i_pre : (1 < rk (b_cpus b) 0)%nat → P (b_sys b)
}.

(** 1 if going from rank [r] to [r'] passes [t]. *)
Definition bump (r r' t : nat) : Z := if decide (r ≤ t < r')%nat then 1 else 0.

(** A CPU goes from [c] to [c'] and the counters follow: every step but CPU 0
    clearing the counters and CPU 0 starting another CPU. *)
Lemma inv_advance b i c c' sys' m' e' ea' in' la' :
  let r := rank (c_pc c) in
  let r' := rank (c_pc c') in
  inv b → b_cpus b !! i = Some c → (1 ≤ r ≤ r')%nat → (1 < rk (b_cpus b) 0)%nat →
  shape_ok i (c_pc c') → (c_primary c' = true ↔ i = 0%nat ∧ (3 < r')%nat) →
  m' = (if decide (i = 0%nat ∧ (3 < r')%nat) then 0 else b_master b) →
  (i = 0%nat → (9 ≤ r ∨ r' ≤ 6)%nat) →
  ((11 < r')%nat → (11 < r)%nat ∨ MAX_CPU_NUM ≤ b_entered b) →
  ((14 < r')%nat → (14 < r)%nat ∨ MAX_CPU_NUM ≤ a_par act (b_sys b)) →
  ((15 < r')%nat → (15 < r)%nat ∨ i = 0%nat ∨ 1 ≤ b_early b) →
  ((17 < r')%nat → (17 < r)%nat ∨ MAX_CPU_NUM ≤ b_inited b) →
  ((18 < r')%nat → (18 < r)%nat ∨ i = 0%nat ∨ 1 ≤ b_late b) →
  e' = b_entered b + bump r r' 10 →
  a_par act sys' = a_par act (b_sys b) + bump r r' 13 →
  in' = b_inited b + bump r r' 16 →
  ea' = (if decide (i = 0%nat ∧ (15 < r')%nat) then 1 else b_early b) →
  la' = (if decide (i = 0%nat ∧ (18 < r')%nat) then 1 else b_late b) →
  ((15 < rk (<[i:=c']> (b_cpus b)) 0)%nat → Q sys') → P sys' →
  inv (mkBoot sys' m' e' ea' in' la' (<[i:=c']> (b_cpus b))).
Proof.
  intros r r' Hinv Hi Hr H0 Hshape Hprim Hm Hoff G1 G2 G3 G4 G5 He Hp Hin Hea Hla HQ HP.
  pose proof Hinv as [I1 I2 I3 I4 I5 I6 I7 I8 I9 I10 I11 I12 I13 I14 I15 I16 I17].
  set (L := b_cpus b) in *. pose proof (lookup_lt_Some _ _ _ Hi) as Hil.
  pose proof (rk_some _ _ _ Hi) as Hri. fold r in Hri.
  assert (∀ t, cnt t (<[i:=c']> L) = cnt t L + bump r r' t) as Hc.
  { intros t. apply cnt_insert; [done|]. unfold r, r' in Hr. lia. }
  assert (∀ j, rk (<[i:=c']> L) j = if decide (j = i) then r' else rk L j) as Hrk
    by (intros j; by apply rk_insert).
  assert (∀ t, cnt t L = MAX_CPU_NUM → cnt t (<[i:=c']> L) = MAX_CPU_NUM) as Hmono.
  { intros t Ht. pose proof (cnt_le t (<[i:=c']> L)) as Hle. rewrite length_insert, I1 in Hle.
    rewrite Hc in *. unfold bump in *. unfold NCPU, MAX_CPU_NUM in *. case_decide; lia. }
  assert (∀ t x, x = cnt t L → MAX_CPU_NUM ≤ x → cnt t L = MAX_CPU_NUM) as Hge.
  { intros t x -> Hx. pose proof (cnt_le t L) as Hle. rewrite I1 in Hle.
    unfold NCPU, MAX_CPU_NUM in *. lia. }
  assert (rk (<[i:=c']> L) 0 = if decide (i = 0%nat) then r' else rk L 0) as Hrk0.
  { rewrite Hrk. destruct (decide (i = 0%nat)), (decide (0%nat = i)); congruence || lia. }
  assert (rk L 0 ≤ rk (<[i:=c']> L) 0)%nat as Hup.
  { rewrite Hrk0. case_decide; [subst; lia|lia]. }
  split; simpl; fold L.
  - by rewrite length_insert.
  - intros j d [(<- & -> & _)|[Hne Hj]]%list_lookup_insert_Some; [done|by apply I2].
  - intros j d [(<- & -> & _)|[Hne Hj]]%list_lookup_insert_Some; [done|by apply I3].
  - rewrite Hm, I4, Hrk0. repeat case_decide; subst; lia.
  - intros j Hj. rewrite Hrk, Hrk0. specialize (I5 j Hj).
    destruct (decide (j = i)) as [->|Hji]; destruct (decide (i = 0%nat)) as [->|]; try lia.
    rewrite Hri in I5. specialize (Hoff eq_refl). unfold NCPU, MAX_CPU_NUM in Hj. lia.
  - intros _. by rewrite He, I6, Hc.
  - intros _. by rewrite Hp, I7, Hc.
  - intros _. by rewrite Hin, I8, Hc.
  - intros _. rewrite Hea, I9, Hrk0 by done. repeat case_decide; try done; subst; try lia.
  - intros _. rewrite Hla, I10, Hrk0 by done. repeat case_decide; try done; subst; try lia.
  - intros j. rewrite Hrk. intros Hj. apply Hmono. case_decide as Hji; [|by eapply I11].
    destruct (G1 Hj) as [?|?]; [apply (I11 i); lia|by eapply Hge, H; apply I6].
  - intros j. rewrite Hrk. intros Hj. apply Hmono. case_decide as Hji; [|by eapply I12].
    destruct (G2 Hj) as [?|?]; [apply (I12 i); lia|by eapply Hge, H; apply I7].
  - intros j. rewrite Hrk. intros Hj. enough (i = 0%nat ∧ (15 < r')%nat ∨ (15 < rk L 0)%nat) as [[-> ?]|?].
    + rewrite Hrk0. by rewrite decide_True.
    + lia.
    + case_decide as Hji; [|right; by eapply I13].
      destruct (G3 Hj) as [?|[?|Hb]]; [right; apply (I13 i); lia|by left|right].
      rewrite I9 in Hb by done. case_decide; lia.
  - intros j. rewrite Hrk. intros Hj. apply Hmono. case_decide as Hji; [|by eapply I14].
    destruct (G4 Hj) as [?|?]; [apply (I14 i); lia|by eapply Hge, H; apply I8].
  - intros j. rewrite Hrk. intros Hj. enough (i = 0%nat ∧ (18 < r')%nat ∨ (18 < rk L 0)%nat) as [[-> ?]|?].
    + rewrite Hrk0. by rewrite decide_True.
    + lia.
    + case_decide as Hji; [|right; by eapply I15].
      destruct (G5 Hj) as [?|[?|Hb]]; [right; apply (I15 i); lia|by left|right].
      rewrite I10 in Hb by done. case_decide; lia.
  - exact HQ.
  - done.
Qed.

(** ** Consequences *)

Lemma inv_started b i : inv b → (0 < rk (b_cpus b) i)%nat → i = 0%nat ∨ (1 < rk (b_cpus b) 0)%nat.
Proof.
  intros I Hi. destruct (decide (i = 0%nat)); [by left|right].
  destruct (decide (i < NCPU)%nat).
  - pose proof (i_off _ I i ltac:(lia)). lia.
  - unfold rk in Hi. rewrite lookup_ge_None_2 in Hi; [lia|]. rewrite (i_len _ I). lia.
Qed.

Lemma inv_all_past b t i : inv b → cnt t (b_cpus b) = MAX_CPU_NUM → (i < NCPU)%nat → (t < rk (b_cpus b) i)%nat.
Proof.
  intros I Hc Hi. apply cnt_full; [|by rewrite (i_len _ I)]. by rewrite Hc, (i_len _ I).
Qed.

Lemma inv_bound b i c : inv b → b_cpus b !! i = Some c → (i < NCPU)%nat.
Proof. intros I Hi. rewrite <- (i_len _ I). by eapply lookup_lt_Some. Qed.

(** Until the last CPU has left [setup_parange], CPU 0 has not initialised. *)
Lemma inv_before_root b i c :
  inv b → b_cpus b !! i = Some c → (rank (c_pc c) ≤ 13)%nat → (rk (b_cpus b) 0 ≤ 15)%nat.
Proof.
  intros I Hi Hr. destruct (decide (rk (b_cpus b) 0 ≤ 15)%nat); [done|].
  pose proof (inv_all_past _ 13 i I (i_bar2 _ I 0 ltac:(lia)) (inv_bound _ _ _ I Hi)) as H.
  rewrite (rk_some _ _ _ Hi) in H. lia.
Qed.

Lemma go_eq b i c p : b_cpus b !! i = Some c → go i p b = set_cpu i (mkCpuState p (c_primary c)) b.
Proof. unfold go. by intros ->. Qed.

Lemma fetch_add_small x : 0 ≤ x ≤ MAX_CPU_NUM → fetch_add x = x + 1.
Proof. intros H. unfold fetch_add, MAX_CPU_NUM in *. apply Z.mod_small. unfold U32. lia. Qed.

Lemma inv_counter_bound b t : inv b → 0 ≤ cnt t (b_cpus b) ≤ MAX_CPU_NUM.
Proof. intros I. pose proof (cnt_le t (b_cpus b)) as H. rewrite (i_len _ I) in H. done. Qed.

(** ** The two steps that [inv_advance] does not cover *)

(** CPU 0 enters and clears the counters. *)
Lemma inv_clear b c :
  inv b → b_cpus b !! 0%nat = Some c → c_pc c = PcEntry → inv (go 0 PcLoad (clear_bss act b)).
Proof using HA.
  intros I Hc Hp. rewrite (go_eq _ _ c) by done. pose proof (lookup_lt_Some _ _ _ Hc) as Hl.
  pose proof (rk_some _ _ _ Hc) as Hr. rewrite Hp in Hr. simpl in Hr.
  set (L' := <[0%nat:=mkCpuState PcLoad (c_primary c)]> (b_cpus b)).
  assert (∀ j, rk L' j = if decide (j = 0%nat) then 2%nat else rk (b_cpus b) j) as Hrk
    by (intros; by apply rk_insert).
  assert (∀ j, j ≠ 0%nat → rk (b_cpus b) j = 0%nat) as Hz.
  { intros j Hj. destruct (decide (rk (b_cpus b) j = 0%nat)); [done|].
    destruct (inv_started b j I); lia. }
  assert (∀ j, (rk L' j ≤ 2)%nat) as Hle by (intros j; rewrite Hrk; case_decide; [lia|rewrite Hz; lia]).
  assert (∀ t, (2 ≤ t)%nat → cnt t L' = 0) as Hcnt
    by (intros t Ht; apply cnt_zero; intros j; specialize (Hle j); lia).
  pose proof I as [I1 I2 I3 I4 I5 _ _ _ _ _ _ _ _ _ _ _ _].
  split; simpl; fold L'; rewrite ?Hrk; simpl; try (intros _; by rewrite ?Hcnt by lia);
    try (intros j Hj; specialize (Hle j); lia); try lia.
  - unfold L'. by rewrite length_insert.
  - intros j d [(<- & <- & _)|[Hne Hj]]%list_lookup_insert_Some; [done|by apply I2].
  - intros j d [(<- & <- & _)|[Hne Hj]]%list_lookup_insert_Some; [|by apply I3].
    simpl. rewrite (I3 _ _ Hc), Hp. simpl. lia.
  - rewrite I4, Hr. done.
  - intros j Hj. rewrite !Hrk. specialize (I5 j Hj). rewrite Hr in I5. repeat case_decide; lia.
  - intros _. rewrite Hcnt by lia. apply (ok_clear _ _ _ HA).
  - intros _. apply (ok_clear _ _ _ HA).
Qed.

(** CPU 0 starts CPU [k]. *)
Lemma inv_wake b k c :
  inv b → b_cpus b !! 0%nat = Some c → c_pc c = PcWake k → (0 < k < NCPU)%nat →
  inv (go 0 (PcWake (k + 1)) (start_cpu k b)).
Proof using.
  intros I Hc Hp Hk. pose proof (rk_some _ _ _ Hc) as Hr. rewrite Hp in Hr. simpl in Hr.
  pose proof I as [I1 I2 I3 I4 I5 I6 I7 I8 I9 I10 I11 I12 I13 I14 I15 I16 I17].
  destruct (lookup_lt_is_Some_2 (b_cpus b) k) as [d Hd]; [lia|].
  pose proof (proj2 (I5 k ltac:(lia)) ltac:(lia)) as Hoff. rewrite (rk_some _ _ _ Hd) in Hoff.
  assert (start_cpu k b = set_cpu k (mkCpuState PcEntry (c_primary d)) b) as ->.
  { unfold start_cpu. rewrite Hd. destruct (c_pc d) eqn:E; try done; try (by rewrite (go_eq _ _ d)).
    specialize (I2 _ _ Hd). rewrite E in I2. simpl in *. lia. }
  rewrite (go_eq _ _ c) by (simpl; by rewrite list_lookup_insert_ne by lia).
  set (L1 := <[k:=mkCpuState PcEntry (c_primary d)]> (b_cpus b)).
  set (L' := <[0%nat:=mkCpuState (PcWake (k + 1)) (c_primary c)]> L1).
  assert (L1 !! 0%nat = Some c) as Hc1 by (unfold L1; by rewrite list_lookup_insert_ne by lia).
  assert (k < 4)%nat as Hk4 by (unfold NCPU, MAX_CPU_NUM in Hk; lia).
  assert (∀ t, (10 ≤ t)%nat → cnt t L' = cnt t (b_cpus b)) as Hcnt.
  { intros t Ht. unfold L', L1. erewrite cnt_insert; [|exact Hc1|rewrite Hp; simpl; lia].
    erewrite cnt_insert; [|exact Hd|simpl; lia]. rewrite Hp, Hoff. simpl.
    rewrite !decide_False by lia. lia. }
  assert (∀ j, rk L' j = if decide (j = 0%nat) then (6 + k)%nat else if decide (j = k) then 1%nat else rk (b_cpus b) j) as Hrk.
  { intros j. unfold L', L1. rewrite !rk_insert; [simpl|lia|rewrite length_insert; lia].
    repeat case_decide; lia. }
  assert (∀ j, (rk (b_cpus b) j ≤ 11)%nat) as Hlow.
  { intros j. destruct (decide (rk (b_cpus b) j ≤ 11)%nat); [done|].
    pose proof (inv_all_past _ 10 0 I (I11 j ltac:(lia)) ltac:(lia)). lia. }
  assert (∀ j, (rk L' j ≤ 11)%nat) as Hlow'
    by (intros j; rewrite Hrk; specialize (Hlow j); repeat case_decide; lia).
  split; simpl; fold L1 L'; rewrite ?(Hrk 0%nat); simpl; rewrite ?Hcnt by lia;
    try (intros j Hj; specialize (Hlow' j); lia); try lia;
    try (intros _; rewrite ?I6, ?I7, ?I8, ?I9, ?I10, ?Hr by lia; by repeat case_decide; lia).
  - unfold L', L1. by rewrite !length_insert.
  - intros j x [(<- & <- & _)|[_ [(<- & <- & _)|[_ Hj]]%list_lookup_insert_Some]]%list_lookup_insert_Some;
      [simpl; lia|done|by apply I2].
  - intros j x [(<- & <- & _)|[_ [(<- & <- & _)|[_ Hj]]%list_lookup_insert_Some]]%list_lookup_insert_Some;
      [..|by apply I3]; simpl.
    + rewrite (I3 _ _ Hc), Hp. simpl. lia.
    + rewrite (I3 _ _ Hd), Hoff. lia.
  - rewrite I4, Hr. by repeat case_decide; lia.
  - intros j Hj. rewrite !Hrk. specialize (I5 j Hj). rewrite Hr in I5. repeat case_decide; lia.
  - intros _. apply I17. lia.
Qed.

(** ** Every step *)

Lemma root_kept b i c c' :
  inv b → b_cpus b !! i = Some c → (i = 0%nat → (15 < rank (c_pc c'))%nat → (15 < rank (c_pc c))%nat) →
  (15 < rk (<[i:=c']> (b_cpus b)) 0)%nat → Q (b_sys b).
Proof using.
  intros I Hi Hk. rewrite rk_insert by (by eapply lookup_lt_Some). case_decide as H0.
  - subst i. intros H. apply I. rewrite (rk_some _ _ _ Hi). by apply Hk.
  - apply I.
Qed.

(** The state after a step, as [inv_advance] wants it. *)
Ltac step_state Hi :=
  unfold attempt, go, set_sys, inc_entered, inc_inited, store_early, store_late, store_master;
  simpl; rewrite ?Hi; unfold set_cpu; simpl.

Ltac advance I Hi Hp Hprim Hm :=
  step_state Hi;
  eapply (inv_advance _ _ _ _ _ _ _ _ _ _ I Hi); simpl; rewrite ?Hp; simpl; unfold bump;
  repeat (rewrite decide_True by lia); repeat (rewrite decide_False by lia);
  rewrite ?Z.add_0_r; try lia; try done; try (rewrite Hprim; lia);
  try (apply (i_pre _ I); lia); try (rewrite Hm, decide_True by lia; done); try (repeat case_decide; destruct_and?; subst; lia).

Lemma inv_step_setup b b' i c :
  inv b → b_cpus b !! i = Some c → (rank (c_pc c) ≤ 9)%nat → step_cpu act i b = Some b' → inv b'.
Proof using HA.
  intros I Hi Hle Hs. unfold step_cpu in Hs. rewrite Hi in Hs.
  pose proof (i_shape _ I _ _ Hi) as Hshape. pose proof (i_prim _ I _ _ Hi) as Hprim.
  pose proof (rk_some _ _ _ Hi) as Hr. pose proof (inv_bound _ _ _ I Hi) as Hb.
  assert (∀ c', (rank (c_pc c') ≤ 15)%nat → (15 < rk (<[i:=c']> (b_cpus b)) 0)%nat → Q (b_sys b)) as HQ.
  { intros c' Hc'. apply (root_kept _ _ c); [done..|lia]. }
  pose proof (i_master _ I) as Hm.
  destruct (c_pc c) eqn:Hp; try done; simpl in *; try lia.
  all: pose proof (inv_started _ i I ltac:(lia)) as H0.
  - injection Hs as <-. destruct (i =? 0)%nat eqn:E.
    + apply Nat.eqb_eq in E as ->. by eapply inv_clear.
    + apply Nat.eqb_neq in E. advance I Hi Hp Hprim Hm. apply HQ. simpl. lia.
  - injection Hs as <-. destruct (decide (i = 0%nat)) as [->|Hne].
    + rewrite Hr in Hm. simpl in Hm. rewrite Hm. simpl. advance I Hi Hp Hprim Hm. apply HQ. simpl. lia.
    + pose proof (i_off _ I i ltac:(lia)). rewrite decide_True in Hm by lia. rewrite Hm. simpl.
      advance I Hi Hp Hprim Hm. apply HQ. simpl. lia.
  - subst i. injection Hs as <-. advance I Hi Hp Hprim Hm. apply HQ. simpl. lia.
  - injection Hs as <-. pose proof (inv_before_root _ _ _ I Hi) as Hbr. rewrite Hp in Hbr. specialize (Hbr ltac:(simpl; lia)).
    assert (∀ c', (rank (c_pc c') ≤ 15)%nat → ¬ (15 < rk (<[i:=c']> (b_cpus b)) 0)%nat) as Hno.
    { intros c' Hc'. rewrite rk_insert by (rewrite (i_len _ I); lia).
      destruct (decide (0%nat = i)); lia. }
    destruct (decide (i = 0%nat)) as [->|Hne], (c_primary c) eqn:Hpr.
    2, 3: exfalso; intuition (done || lia).
    all: advance I Hi Hp Hprim Hm; rewrite ?(proj1 (ok_new _ _ _ HA _ _)), ?Hpr; try done.
    all: try (apply (ok_new _ _ _ HA), (i_pre _ I); lia).
    all: try (intros H; exfalso; revert H; apply Hno; simpl; lia).
    all: intuition (done || lia).
  - destruct Hshape as [-> Hk]. destruct (k <? NCPU)%nat eqn:Hkn; injection Hs as <-.
    + apply Nat.ltb_lt in Hkn. destruct (k =? 0)%nat eqn:Hk0.
      * apply Nat.eqb_eq in Hk0 as ->. advance I Hi Hp Hprim Hm. apply HQ. simpl. lia.
      * apply Nat.eqb_neq in Hk0. eapply inv_wake; [done..|lia].
    + apply Nat.ltb_ge in Hkn. assert (k = 4)%nat as -> by (unfold NCPU, MAX_CPU_NUM in *; lia).
      advance I Hi Hp Hprim Hm. apply HQ. simpl. lia.
Qed.

Lemma inv_step_late b b' i c :
  inv b → b_cpus b !! i = Some c → (10 ≤ rank (c_pc c))%nat → step_cpu act i b = Some b' → inv b'.
Proof using HA.
  intros I Hi Hle Hs. unfold step_cpu in Hs. rewrite Hi in Hs.
  pose proof (i_shape _ I _ _ Hi) as Hshape. pose proof (i_prim _ I _ _ Hi) as Hprim.
  pose proof (rk_some _ _ _ Hi) as Hr. pose proof (inv_bound _ _ _ I Hi) as Hb.
  assert (1 < rk (b_cpus b) 0)%nat as H0 by (destruct (inv_started _ i I) as [->|]; lia).
  assert (i = 0%nat → c_primary c = true) as Hpr0 by (intros ->; apply Hprim; lia).
  assert (i ≠ 0%nat → c_primary c = false) as Hpr1
    by (intros Hne; apply not_true_is_false; intros H; apply Hprim in H as [? _]; lia).
  pose proof (λ c', root_kept _ _ c c' I Hi) as HQ. pose proof (i_master _ I) as Hm.
  pose proof (i_pre _ I H0) as HP. pose proof (i_early _ I H0) as Hea. pose proof (i_late _ I H0) as Hla.
  pose proof (i_entered _ I H0) as He. pose proof (i_inited _ I H0) as Hin.
  pose proof (i_par _ I H0) as Hpar. pose proof (inv_counter_bound _ 10 I) as Hb1.
  pose proof (inv_counter_bound _ 16 I) as Hb2.
  destruct (c_pc c) eqn:Hp; try done; simpl in *; try lia.
  - unfold NCPU, MAX_CPU_NUM in Hshape. lia.
  - injection Hs as <-. advance I Hi Hp Hprim Hm.
    + rewrite fetch_add_small; lia.
    + apply HQ. simpl. lia.
  - destruct (b_entered b <? MAX_CPU_NUM) eqn:E; [done|]. injection Hs as <-.
    advance I Hi Hp Hprim Hm. apply HQ. simpl. lia.
  - injection Hs as <-. rewrite He, (i_bar1 _ I i), Z.eqb_refl by lia.
    advance I Hi Hp Hprim Hm. apply HQ. simpl. lia.
  - injection Hs as <-. pose proof (inv_before_root _ _ _ I Hi) as Hbr. rewrite Hp in Hbr.
    specialize (Hbr ltac:(simpl; lia)). advance I Hi Hp Hprim Hm.
    + apply (ok_parange _ _ _ HA).
    + rewrite rk_insert by (rewrite (i_len _ I); lia). simpl. destruct (decide (0%nat = i)); lia.
    + by apply (ok_parange _ _ _ HA).
  - destruct (a_par act (b_sys b) <? MAX_CPU_NUM) eqn:E; [done|]. injection Hs as <-.
    advance I Hi Hp Hprim Hm. apply HQ. simpl. lia.
  - destruct (decide (i = 0%nat)) as [->|Hne]; [rewrite (Hpr0 eq_refl) in Hs|rewrite (Hpr1 Hne) in Hs].
    + injection Hs as <-. unfold attempt.
      destruct (a_early act 0 (b_sys b)) as [s'|] eqn:Ha; [destruct (ok_early _ _ _ HA _ _ _ Ha HP) as (? & ? & ?)|];
        advance I Hi Hp Hprim Hm. apply HQ. simpl. lia.
    + destruct (b_early b <? 1) eqn:E; [done|]. injection Hs as <-.
      advance I Hi Hp Hprim Hm. apply HQ. simpl. lia.
  - injection Hs as <-. unfold attempt.
    destruct (a_percpu act i (b_sys b)) as [s'|] eqn:Ha; [destruct (ok_percpu _ _ _ HA _ _ _ Ha HP) as (? & ? & HQ')|];
      advance I Hi Hp Hprim Hm.
    + rewrite fetch_add_small; lia.
    + intros HH. apply HQ'. revert HH. apply HQ. simpl. lia.
    + apply HQ. simpl. lia.
  - destruct (b_inited b <? MAX_CPU_NUM) eqn:E; [done|]. injection Hs as <-.
    advance I Hi Hp Hprim Hm. apply HQ. simpl. lia.
  - destruct (decide (i = 0%nat)) as [->|Hne]; [rewrite (Hpr0 eq_refl) in Hs|rewrite (Hpr1 Hne) in Hs].
    + injection Hs as <-. unfold attempt.
      destruct (a_late act 0 (b_sys b)) as [s'|] eqn:Ha; [destruct (ok_late _ _ _ HA _ _ _ Ha HP) as (? & ? & HQ')|];
        advance I Hi Hp Hprim Hm.
      * intros HH. apply HQ'. revert HH. apply HQ. simpl. lia.
      * apply HQ. simpl. lia.
    + destruct (b_late b <? 1) eqn:E; [done|]. injection Hs as <-.
      advance I Hi Hp Hprim Hm. apply HQ. simpl. lia.
  - injection Hs as <-. unfold attempt.
    destruct (a_run act i (b_sys b)) as [s'|] eqn:Ha; [destruct (ok_run _ _ _ HA _ _ _ Ha HP) as (? & ? & HQ')|];
      advance I Hi Hp Hprim Hm.
    + intros HH. apply HQ'. revert HH. apply HQ. simpl. lia.
    + apply HQ. simpl. lia.
Qed.

Lemma inv_step b b' i : inv b → step_cpu act i b = Some b' → inv b'.
Proof using HA.
  intros I Hs. destruct (b_cpus b !! i) as [c|] eqn:Hi; [|by unfold step_cpu in Hs; rewrite Hi in Hs].
  destruct (decide (rank (c_pc c) ≤ 9)%nat); [by eapply inv_step_setup|].
  eapply inv_step_late; [done..| |done]. lia.
Qed.

Lemma inv_steps n b b' : inv b → steps act n b b' → inv b'.
Proof using HA. intros I H. induction H as [|? ? ? ? ? ? IH Hs]; [done|]. eapply inv_step, Hs. by apply IH. Qed.

(** Only CPU 0 is on at reset; the counters hold anything. *)
Lemma inv_reset s e1 e2 e3 e4 : inv (reset_state s e1 e2 e3 e4 [0%nat]).
Proof using.
  assert (∀ i c, b_cpus (reset_state s e1 e2 e3 e4 [0%nat]) !! i = Some c →
    c = mkCpuState (if decide (i = 0%nat) then PcEntry else PcOff) false) as Hl.
  { intros i c. simpl. do 4 (destruct i as [|i]; [by intros [= <-]|]). done. }
  assert (∀ i, rk (b_cpus (reset_state s e1 e2 e3 e4 [0%nat])) i = if decide (i = 0%nat) then 1%nat else 0%nat) as Hr.
  { intros i. do 4 (destruct i as [|i]; [done|]). done. }
  split; try (intros i; rewrite !Hr; simpl; repeat case_decide; lia); rewrite ?Hr; simpl; try lia; try done.
  - intros i c ->%Hl. simpl. by case_decide.
  - intros i c ->%Hl. simpl. case_decide; simpl; lia.
Qed.

(** ** What the invariant gives *)

(** A CPU about to run a guest: everyone is initialised, the root zone is there,
    CPU 0 is the one primary. *)
Lemma inv_safe b i :
  inv b → (18 < rk (b_cpus b) i)%nat →
  (∀ j, (j < NCPU)%nat → (16 < rk (b_cpus b) j)%nat) ∧ Q (b_sys b) ∧ b_master b = 0 ∧
  (∀ j c, b_cpus b !! j = Some c → (c_primary c = true ↔ j = 0%nat)).
Proof using.
  intros I Hi. pose proof (i_bar5 _ I i Hi) as H0. pose proof (i_bar4 _ I i ltac:(lia)) as H4.
  split_and!.
  - intros j Hj. by apply inv_all_past.
  - apply I. lia.
  - rewrite (i_master _ I). by rewrite decide_True by lia.
  - intros j c Hj. rewrite (i_prim _ I _ _ Hj). split; [by intros [? _]|]. intros ->. split; [done|].
    rewrite (rk_some _ _ _ Hj) in H0. lia.
Qed.

(** ** Termination: every step moves a CPU on *)

Definition weight (c : cpu_state) : nat :=
  2 * rank (c_pc c) + match c_pc c with PcDead _ => 1 | _ => 0 end.
Definition total b : nat := sum_list_with weight (b_cpus b).

Lemma sum_insert (L : list cpu_state) i c c' :
  L !! i = Some c → (sum_list_with weight (<[i:=c']> L) + weight c = sum_list_with weight L + weight c')%nat.
Proof using.
  clear. revert i. induction L as [|x L IH]; intros [|i] Hi; simplify_eq/=; [lia|]. specialize (IH i Hi). lia.
Qed.

Lemma sum_bound (L : list cpu_state) m :
  (∀ i c, L !! i = Some c → (weight c ≤ m)%nat) → (sum_list_with weight L ≤ m * length L)%nat.
Proof using.
  clear. induction L as [|x L IH]; intros H; simpl; [lia|].
  pose proof (H 0%nat x eq_refl). specialize (IH (λ i, H (Datatypes.S i))). lia.
Qed.

Lemma total_bound b : inv b → (total b ≤ 160)%nat.
Proof using.
  intros I. pose proof (sum_bound (b_cpus b) 40) as Hs. rewrite (i_len _ I) in Hs. apply Hs.
  intros i c Hi. pose proof (i_shape _ I _ _ Hi) as Hsh. unfold weight.
  destruct (c_pc c); simpl in *; unfold NCPU, MAX_CPU_NUM in *; lia.
Qed.

Lemma total_go b i c p :
  b_cpus b !! i = Some c → (weight c < weight (mkCpuState p (c_primary c)))%nat →
  (total b < total (go i p b))%nat.
Proof using.
  intros Hi Hw. rewrite (go_eq _ _ _ _ Hi). unfold total, set_cpu. simpl.
  pose proof (sum_insert _ _ _ (mkCpuState p (c_primary c)) Hi). lia.
Qed.

Lemma start_cpu_total b k i : b_cpus b !! i ≠ None → k ≠ i →
  (total b ≤ total (start_cpu k b))%nat ∧ b_cpus (start_cpu k b) !! i = b_cpus b !! i.
Proof using.
  intros Hi Hk. unfold start_cpu. destruct (b_cpus b !! k) as [c|] eqn:Hc; [|done].
  destruct (c_pc c) eqn:Hp; try done. split.
  - pose proof (total_go b k c PcEntry Hc) as H. unfold weight in H. rewrite Hp in H. simpl in H. lia.
  - rewrite (go_eq _ _ _ _ Hc). simpl. by rewrite list_lookup_insert_ne.
Qed.

Lemma step_total b b' i : inv b → step_cpu act i b = Some b' → (total b < total b')%nat.
Proof using.
  intros I Hs. unfold step_cpu in Hs. destruct (b_cpus b !! i) as [c|] eqn:Hi; [|done].
  pose proof (i_shape _ I _ _ Hi) as Hsh.
  assert (∀ b1 p, total b1 = total b → b_cpus b1 !! i = Some c →
    (weight c < weight (mkCpuState p (c_primary c)))%nat → (total b < total (go i p b1))%nat) as Hgo.
  { intros b1 p <- Hb1. by apply total_go. }
  destruct (c_pc c) eqn:Hp; simpl in *; try done; repeat case_match; simplify_eq; unfold attempt;
    repeat case_match; try (apply Hgo; [done|done|unfold weight; rewrite Hp; simpl; lia]).
  - unfold total. simpl. pose proof (sum_insert _ _ _ (mkCpuState PcNew true) Hi) as H.
    unfold weight in H at 2 4. rewrite Hp in H. simpl in H. lia.
  - destruct (start_cpu_total b k i) as [Ht Hl]; [by rewrite Hi|by apply Nat.eqb_neq|].
    eapply Nat.le_lt_trans; [exact Ht|]. apply (total_go _ _ c); [by rewrite Hl|].
    unfold weight. rewrite Hp. simpl. lia.
  - apply Hgo; [done..|]. unfold weight. rewrite Hp. simpl. unfold NCPU, MAX_CPU_NUM in Hsh. lia.
Qed.

(** No run has more than 158 steps. *)
Lemma steps_total n b b' : inv b → steps act n b b' → (n + total b ≤ total b')%nat.
Proof using HA.
  intros I H. induction H as [|n i b b1 b2 H IH Hs]; [done|].
  pose proof (step_total _ _ _ (inv_steps _ _ _ I H) Hs). specialize (IH I). lia.
Qed.

(** ** Progress *)

(** Where a CPU that cannot move is. *)
Definition blocked b i c : Prop :=
  match c_pc c with
  | PcOff | PcGuest | PcDead _ => True
  | PcWaitEntered => b_entered b < MAX_CPU_NUM
  | PcWaitParange => a_par act (b_sys b) < MAX_CPU_NUM
  | PcEarly => c_primary c = false ∧ b_early b < 1
  | PcWaitInited => b_inited b < MAX_CPU_NUM
  | PcLate => c_primary c = false ∧ b_late b < 1
  | _ => False
  end.

Lemma step_blocked b i c : b_cpus b !! i = Some c → step_cpu act i b = None → blocked b i c.
Proof using.
  intros Hi Hs. unfold step_cpu in Hs. rewrite Hi in Hs. unfold blocked.
  destruct (c_pc c); try done; repeat case_match; try done; simplify_eq; try (split; [done|]); lia.
Qed.

(** Case analysis on where a CPU that cannot move is. *)
Ltac waiting Hall j Hj :=
  let Hbl := fresh "Hbl" in let Hsh := fresh "Hsh" in let Hnd := fresh "Hnd" in
  let Hpr := fresh "Hpr" in let Hr := fresh "Hr" in
  destruct (Hall j Hj) as (? & _ & Hbl & Hr & Hsh & Hnd & Hpr);
  rewrite Hr in *; unfold blocked in Hbl;
  destruct (c_pc _) eqn:?; simpl in *; try done; try lia; try (exfalso; by eapply Hnd);
  try (destruct Hbl as [Hbl _]; rewrite (proj2 Hpr) in Hbl by lia; done).

(** A CPU that cannot move and that is not behind a barrier someone else has
    passed: everybody waits, so nobody is missing. *)
Lemma inv_progress b :
  inv b → (∀ i, step_cpu act i b = None) →
  (∀ i c r, b_cpus b !! i = Some c → c_pc c ≠ PcDead r) →
  ∀ i c, b_cpus b !! i = Some c → c_pc c = PcGuest.
Proof using.
  intros I Hstuck Hdead. assert (0 < NCPU)%nat as HN by (unfold NCPU, MAX_CPU_NUM; lia).
  assert (∀ j, (j < NCPU)%nat → ∃ c, b_cpus b !! j = Some c ∧ blocked b j c ∧
    rk (b_cpus b) j = rank (c_pc c) ∧ shape_ok j (c_pc c) ∧ (∀ r, c_pc c ≠ PcDead r) ∧
    (c_primary c = true ↔ j = 0%nat ∧ (3 < rank (c_pc c))%nat)) as Hall.
  { intros j Hj. destruct (lookup_lt_is_Some_2 (b_cpus b) j) as [c Hc]; [by rewrite (i_len _ I)|].
    exists c. split_and!; [done|by apply step_blocked|by apply rk_some|by apply I|intros r; by eapply Hdead|by apply I]. }
  assert (∀ t, (∀ j, (j < NCPU)%nat → (t < rk (b_cpus b) j)%nat) → cnt t (b_cpus b) = MAX_CPU_NUM) as Hfull.
  { intros t Ht. transitivity (Z.of_nat (length (b_cpus b))); [|by rewrite (i_len _ I)].
    apply cnt_full. intros j Hj. apply Ht. by rewrite <- (i_len _ I). }
  assert (10 < rk (b_cpus b) 0)%nat as H0 by waiting Hall 0%nat HN.
  assert (1 < rk (b_cpus b) 0)%nat as H1 by lia.
  assert (∀ j, (j < NCPU)%nat → (10 < rk (b_cpus b) j)%nat) as A1.
  { intros j Hj. assert (j ≠ 0%nat → rk (b_cpus b) j ≠ 0%nat) as Hon.
    { intros Hne. pose proof (i_off _ I j ltac:(lia)). unfold NCPU, MAX_CPU_NUM in *. lia. }
    waiting Hall j Hj. }
  pose proof (i_entered _ I H1) as He. rewrite (Hfull 10%nat A1) in He.
  assert (∀ j, (j < NCPU)%nat → (13 < rk (b_cpus b) j)%nat) as A2
    by (intros j Hj; specialize (A1 j Hj); waiting Hall j Hj).
  pose proof (i_par _ I H1) as Hpar. rewrite (Hfull 13%nat A2) in Hpar.
  assert (15 < rk (b_cpus b) 0)%nat as H2 by (specialize (A2 _ HN); waiting Hall 0%nat HN).
  pose proof (i_early _ I H1) as Hea. rewrite decide_True in Hea by lia.
  assert (∀ j, (j < NCPU)%nat → (16 < rk (b_cpus b) j)%nat) as A3
    by (intros j Hj; specialize (A2 j Hj); waiting Hall j Hj).
  pose proof (i_inited _ I H1) as Hin. rewrite (Hfull 16%nat A3) in Hin.
  assert (18 < rk (b_cpus b) 0)%nat as H3 by (specialize (A3 _ HN); waiting Hall 0%nat HN).
  pose proof (i_late _ I H1) as Hla. rewrite decide_True in Hla by lia.
  intros i c Hi. pose proof (inv_bound _ _ _ I Hi) as Hb. specialize (A3 i Hb).
  pose proof (step_blocked _ _ _ Hi (Hstuck i)) as Hbl. pose proof (Hdead _ _ 0%nat Hi) as Hnd.
  unfold blocked in Hbl. rewrite (rk_some _ _ _ Hi) in A3.
  destruct (c_pc c) eqn:Hp; simpl in *; try done; try lia. by destruct (Hdead _ _ at_rank Hi).
Qed.

End inv.

(** ** Schedules *)

Section schedule.
  Context {S : Type} (act : actions S).

(** The number of steps a schedule takes. *)
Fixpoint taken (l : list nat) (b : boot S) : nat :=
  match l with
  | [] => 0
  | i :: l' => match step_cpu act i b with
               | Some b' => 1 + taken l' b'
               | None => taken l' b
               end
  end.

Lemma steps_before n i b b1 b2 : step_cpu act i b = Some b1 → steps act n b1 b2 → steps act (1 + n) b b2.
Proof.
  intros Hs H. induction H as [|n j b1 b2 b3 H IH Hj]; [eapply steps_next; [apply steps_refl|done]|].
  eapply steps_next; [by apply IH|done].
Qed.

Lemma run_steps l b : steps act (taken l b) b (run_schedule act l b).
Proof.
  revert b. induction l as [|i l IH]; intros b; simpl; [apply steps_refl|].
  destruct (step_cpu act i b) as [b'|] eqn:Hs; simpl; [by eapply steps_before|apply IH].
Qed.

End schedule.
