(* ===== verification/BootSys.v ===== *)
(** * What the CPUs do between the synchronisation points of the boot

    The actions of [Boot] for the aarch64 hypervisor: the code of [rust_main]
    (src/src/main.rs) and what it calls, on a machine whose CPUs each have their own
    system and guest registers. *)

From S2P Require Import Prelude PhysMem HvError Addr Frame FramePool Region PtIface BTreeMap MemorySet CpuSet Mmio.
From S2P Require Import Config Platform Sys ZoneOps Gic Event Vgic Hypercall Stable SysFrame Boot BootInv.

(** The global state, the registers of every CPU and [HV_ROOT_ZONE_CONFIG]. The
    registers inside [m_sys] are those of the CPU that ran last. *)
Record machine (W PT D : Type) : Type := mkMachine {
  m_sys : sys W PT D;
  m_cpu : gmap nat (sysregs * GeneralRegisters);
  m_config : option HvZoneConfig
}.
Arguments mkMachine {W PT D} _ _ _.
Arguments m_sys {W PT D} _.
Arguments m_cpu {W PT D} _.
Arguments m_config {W PT D} _.

Section actions.
  Context {T PT D : Type} {HB : BitAlloc T} {G : GenericPageTable (world T) PT} {B : Bus D}.
  Abbreviation sys := (sys (world T) PT D).
  Abbreviation machine := (machine (world T) PT D).

(** The platform, the linker's [__core_end], the address of [PARKING_INST_PAGE], the
    crate constant of [zone_create] and how often the redistributor is polled. *)
  Context (plat : platform) (core_end parking_page psci_invalid_address : Z) (poll : nat).

(** *** One CPU of the machine *)

Definition cpu_regs (i : nat) (m : machine) : sysregs * GeneralRegisters :=
  default (mkSysregs ∅ [], mkRegs 0 (replicate 31 0)) (m_cpu m !! i).

Definition load_cpu (i : nat) (m : machine) : sys :=
  set_guest (cpu_regs i m).2 (set_regs (cpu_regs i m).1 (m_sys m)).

Definition save_cpu (i : nat) (s : sys) (m : machine) : machine :=
  mkMachine s (<[i := (s_regs s, s_guest s)]> (m_cpu m)) (m_config m).

Definition on_cpu {E A} (i : nat) (f : M sys E A) : M machine E A :=
  zoom (load_cpu i) (save_cpu i) f.

Definition on_config {E A} (f : M (option HvZoneConfig) E A) : M machine E A :=
  zoom m_config (λ c m, mkMachine (m_sys m) (m_cpu m) c) f.

(** *** The code *)

(** [clear_bss]: the statics whose initial value is zero bytes: [PARANGE_OK_CPUS],
    the [Once] cells, the parking page and the virtio bridge's base address. *)
Definition sys_clear_bss (m : machine) : machine :=
  let s := m_sys m in
  mkMachine
    (set_par (mkPar (min_parange (s_par s)) 0)
       (set_events None (set_gic None (set_bridge (mkBridgeRegion 0 false)
          (set_parking None (set_parking_page (replicate 4096 0) s))))))
    (m_cpu m) None.

(** [PerCpu::new(cpuid)] *)
Definition sys_percpu_new (i : nat) (m : machine) : machine :=
  let s := m_sys m in
  mkMachine (set_cpus (<[Z.of_nat i := percpu_new (Z.of_nat i)]> (s_cpus s)) s) (m_cpu m) (m_config m).

(** The machine after code that returns. *)
Definition returned {E A} (r : res machine E A) : option machine :=
  match r with ROk _ m => Some m | _ => None end.

(** [primary_init_early] of main.rs, up to the store of [INIT_EARLY_OK] *)
Definition primary_init_early (i : nat) : M machine HvError unit :=
  on_cpu i (with_w (frame_init core_end)) ;;;
  on_cpu i (with_w frame_test) ;;;
  on_cpu i (event_init MAX_CPU_NUM) ;;;
  let* root_config := on_config (root_zone_config plat) in
  on_cpu i (gic_init_early (arch root_config)) ;;;
  let* config := on_config (root_zone_config plat) in
  let* _p := hunwrap (on_cpu i (zone_create psci_invalid_address config)) in
  hret tt.

(** [device::irqchip::percpu_init]; [per_cpu_init] only warns. *)
Definition irqchip_percpu_init {E} : M sys E unit :=
  with_regs gicc_init ;;; enable_ipi poll.

(** [device::irqchip::primary_init_late] *)
Definition irqchip_primary_init_late {E} : M sys E unit :=
  enable_gic_are_ns ;;; with_regs (write_sysreg "daifclr" 0xf).

(** [PerCpu::run_vm]; neither [idle] nor [run] returns. *)
Definition run_vm (cpuid : Z) : M sys leave unit :=
  let* c := get_cpu_data cpuid in
  (if boot_cpu c then hret tt else cpu_idle parking_page cpuid) ;;;
  cpu_run cpuid.

Definition entered_guest {A} (r : res machine leave A) : option machine :=
  match r with RErr VmReturn m => Some m | _ => None end.

Definition boot_actions : actions machine := {|
  a_clear_bss := sys_clear_bss;
  a_new := sys_percpu_new;
  a_parange i m := default m (returned (on_cpu (E:=HvError) i setup_parange_begin m));
  a_par m := parange_ok_cpus (s_par (m_sys m));
  a_early i m := returned (primary_init_early i m);
  a_percpu i m := returned (on_cpu (E:=HvError) i irqchip_percpu_init m);
  a_late i m := returned (on_cpu (E:=HvError) i irqchip_primary_init_late m);
  a_run i m := entered_guest (on_cpu i (run_vm (Z.of_nat i)) m)
|}.

(** ** The actions meet what the protocol relies on *)

(** The statics that are initialised once, by [primary_init_early]. *)
Definition root_gic : Gic :=
  let a := ROOT_ARCH_ZONE_CONFIG plat in
  mkGic (cfg_gicd_base a) (cfg_gicr_base a) (cfg_gicd_size a) (cfg_gicr_size a).

(** Not yet set, or set to its one value. *)
Definition unset_or {A} (v : A) (o : option A) : Prop := o = None ∨ o = Some v.

Definition boot_pre (m : machine) : Prop :=
  unset_or (root_config plat) (m_config m) ∧ unset_or root_gic (s_gic (m_sys m)) ∧
  unset_or (EventManager_new MAX_CPU_NUM) (s_events (m_sys m)).

(** The early initialisation is done: the root zone is listed, the event queues
    are empty and there, the GIC's addresses are the platform's. *)
Definition boot_root (m : machine) : Prop :=
  listed 0 (m_sys m) ∧ s_gic (m_sys m) = Some root_gic ∧
  s_events (m_sys m) = Some (EventManager_new MAX_CPU_NUM).

(** The parts of the state that boot code fixes. *)
Definition statics (s : sys) : parange * option Gic * option (list (list Z)) :=
  (s_par s, s_gic s, s_events s).
Definition fixed (s : sys) := (statics s, s_heap s, s_zone_list s).

Lemma statics_kept : keeps statics.
Proof using. by split. Qed.

Lemma fixed_kept : keeps fixed.
Proof using. by split. Qed.

Lemma on_cpu_kept {X E A} (f : sys → X) x c i (g : M sys E A) :
  keeps f → stable (λ s, f s = x) g → stable (λ m, f (m_sys m) = x ∧ m_config m = c) (on_cpu i g).
Proof using.
  intros Hf Hg. apply stable_zoom. intros m [Hm Hc]. specialize (Hg (load_cpu i m)).
  assert (f (load_cpu i m) = x) as Hl
    by (unfold load_cpu; by rewrite (k_guest _ Hf), (k_regs _ Hf)).
  specialize (Hg Hl). by destruct (g (load_cpu i m)).
Qed.

(** Code that keeps everything but the registers, the bus, the page tables and the
    per-CPU data. *)
Lemma kept_action {E A} i (g : M sys E A) m m' r :
  (∀ x, stable (λ s, fixed s = x) g) →
  on_cpu i g m = r → (∃ a, r = ROk a m') ∨ (∃ e, r = RErr e m') → boot_pre m →
  parange_ok_cpus (s_par (m_sys m')) = parange_ok_cpus (s_par (m_sys m)) ∧ boot_pre m' ∧
  (boot_root m → boot_root m').
Proof using.
  intros Hg Hr Hcase Hpre.
  pose proof (on_cpu_kept _ _ _ i g fixed_kept (Hg _) m (conj eq_refl eq_refl)) as H1.
  assert (fixed (m_sys m') = fixed (m_sys m) ∧ m_config m' = m_config m) as [[= Hp Hg' He Hh Hl] Hc]
    by (rewrite Hr in H1; by destruct Hcase as [[a ->]|[e ->]]).
  split_and!; [by rewrite Hp|unfold boot_pre; by rewrite Hc, Hg', He|].
  intros ((p & z & Hz & Hid) & HG & HE). split_and!; [|by rewrite Hg'|by rewrite He].
  exists p, z. by rewrite Hh, Hl.
Qed.

Lemma returned_some {E A} (r : res machine E A) m : returned r = Some m → ∃ a, r = ROk a m.
Proof using. destruct r; intros [= <-]. eauto. Qed.

  Context (Hfits : platform_fits plat = true).

(** What one call of the initialisation leaves in the statics. *)
Definition statics_are (par : parange) g e c (m : machine) : Prop :=
  statics (m_sys m) = (par, g, e) ∧ m_config m = c.

Lemma event_init_step {E} i par g e c m :
  statics_are par g e c m → unset_or (EventManager_new MAX_CPU_NUM) e →
  wlp (E:=E) (on_cpu i (event_init MAX_CPU_NUM))
    (λ _, statics_are par g (Some (EventManager_new MAX_CPU_NUM)) c) m.
Proof using.
  intros [[= H1 H2 H3] H4] [He|He]; subst; apply wlp_zoom; unfold wlp, event_init, hbind, hgets;
    simpl; rewrite He; (split; [unfold statics; simpl; by rewrite ?He|done]).
Qed.

Lemma gic_init_step {E} i par g e c m :
  statics_are par g e c m → unset_or root_gic g →
  wlp (E:=E) (on_cpu i (gic_init_early (ROOT_ARCH_ZONE_CONFIG plat)))
    (λ _, statics_are par (Some root_gic) e c) m.
Proof using.
  intros [[= H1 H2 H3] H4] [Hg|Hg]; subst; apply wlp_zoom; unfold wlp, gic_init_early, hbind, hgets;
    simpl; rewrite Hg; (split; [unfold statics; simpl; by rewrite ?Hg|done]).
Qed.

Lemma config_step {E} par g e c m :
  statics_are par g e c m → unset_or (root_config plat) c →
  wlp (E:=E) (on_config (root_zone_config plat))
    (λ r m', r = root_config plat ∧ statics_are par g e (Some (root_config plat)) m') m.
Proof using Hfits.
  intros [Hs Hc] Hu. apply wlp_zoom. unfold wlp. rewrite Hc, root_zone_config_once by done.
  by destruct Hu as [->| ->].
Qed.

Lemma primary_init_early_ok i m :
  boot_pre m →
  wlp (primary_init_early i)
    (λ _ m', s_par (m_sys m') = s_par (m_sys m) ∧ boot_pre m' ∧ boot_root m') m.
Proof using Hfits.
  intros (Hc & Hg & He). unfold primary_init_early.
  set (par := s_par (m_sys m)). set (g := s_gic (m_sys m)) in *. set (e := s_events (m_sys m)) in *.
  set (c := m_config m) in *.
  assert (∀ E (x : M (world T) E unit), stable (statics_are par g e c) (on_cpu i (with_w x))) as Hw.
  { intros E x. apply on_cpu_kept; [apply statics_kept|apply kept_with_w, statics_kept]. }
  do 2 (eapply wlp_bind, wlp_stable; [apply Hw|done|intros _ ? ?]).
  eapply wlp_bind, wlp_mono; [by eapply event_init_step|]. intros ? m1 H1.
  eapply wlp_bind, wlp_mono; [eapply config_step; [exact H1|done]|]. intros r m2 [-> H2].
  eapply wlp_bind, wlp_mono; [eapply gic_init_step; [exact H2|done]|]. intros ? m3 H3.
  eapply wlp_bind, wlp_mono; [eapply config_step; [exact H3|by right]|]. intros r m4 [-> H4].
  eapply wlp_bind, wlp_unwrap, wlp_mono; [eapply (wlp_and _ _ (λ _ m', listed 0 (m_sys m')))|].
  { eapply wlp_stable; [|exact H4|intros ? ? Hx; exact Hx]. apply on_cpu_kept; [apply statics_kept|].
    by apply zone_create_kept; [apply statics_kept|..]. }
  { apply wlp_zoom, (zone_create_listed psci_invalid_address (root_config plat)). }
  intros p m5 [[[= H5 H6 H7] H8] Hl]. unfold wlp, hret, boot_pre, boot_root.
  rewrite H6, H7, H8. split_and!; try done; by right.
Qed.

Lemma boot_actions_ok : actions_ok boot_actions boot_pre boot_root.
Proof using Hfits.
  split; simpl.
  - intros m. split; [done|]. split_and!; by left.
  - done.
  - done.
  - intros i m m' Hr Hpre. pose proof (returned_some _ _ Hr) as [a Ha].
    pose proof (primary_init_early_ok i m Hpre) as H. unfold wlp in H. rewrite Ha in H.
    destruct H as (-> & ?). done.
  - intros i m m' Hr Hpre. pose proof (returned_some _ _ Hr) as [a Ha].
    eapply kept_action; [|exact Ha|eauto|done]. intros x. pose proof fixed_kept.
    unfold irqchip_percpu_init. solve_stable.
  - intros i m m' Hr Hpre. pose proof (returned_some _ _ Hr) as [a Ha].
    eapply kept_action; [|exact Ha|eauto|done]. intros x. pose proof fixed_kept.
    unfold irqchip_primary_init_late. solve_stable.
  - intros i m m' Hr Hpre. unfold entered_guest in Hr.
    destruct (on_cpu i (run_vm (Z.of_nat i)) m) as [|[] s| |] eqn:Ha; simplify_eq.
    eapply kept_action; [|exact Ha|eauto|done]. intros x. pose proof fixed_kept.
    unfold run_vm. solve_stable.
Qed.

End actions.
