(* ===== verification/RvPte.v ===== *)
(** * Page-table entries of the riscv64 port

    The trait [GenericPTE] of src/src/arch/riscv64/paging.rs differs from the
    aarch64 one: [set_flags] is not told the size of the page, and [flags] always
    returns. [RvPTE] is that trait; [rv_as_pte] reads it as the aarch64 trait, so
    that the page-table theory of [PagingWf], [PagingSpec] and [PagingLoop]
    applies to it. [Sv39] holds what the two entry types ([RvS1pt], [RvS2pt])
    share: the layout of an entry. *)

From S2P Require Import Prelude Addr Region Pte.

Class RvPTE : Type := {
  rv_addr : Z → Z;
  rv_flags : Z → Z;
  rv_is_unused : Z → bool;
  rv_is_present : Z → bool;
  rv_is_huge : Z → bool;
  rv_set_addr : Z → Z → Z;    (* entry, paddr *)
  rv_set_flags : Z → Z → Z;   (* entry, flags *)
  rv_set_table : Z → Z → Z;   (* entry, paddr *)
  rv_clear : Z → Z
}.

(** The aarch64 trait: the flags are always there, the size is ignored. *)
Definition rv_as_pte (R : RvPTE) : GenericPTE := {|
  pte_addr := rv_addr;
  pte_flags e := Some (rv_flags e);
  pte_is_unused := rv_is_unused;
  pte_is_present := rv_is_present;
  pte_is_huge := rv_is_huge;
  pte_set_addr := rv_set_addr;
  pte_set_flags e fl _ := rv_set_flags e fl;
  pte_set_table := rv_set_table;
  pte_clear := rv_clear
|}.

(** [flags.remove(MemFlags::NO_HUGEPAGES)] *)
Definition flags_remove (fl x : Z) : Z := Z.land fl (unot64 x).

(** What the riscv64 page-table code relies on: the laws of the aarch64 trait,
    and that an entry does not remember [NO_HUGEPAGES]. *)
Class RvPTELaws (R : RvPTE) : Type := {
  rv_pte_laws :: GenericPTELaws (rv_as_pte R);
  rv_no_huge_law e fl : rv_set_flags e (flags_remove fl NO_HUGEPAGES) = rv_set_flags e fl
}.

(** ** The layout of an Sv39 entry *)

Module Sv39.

Definition PTE_PPN_MASK : Z := 0x3FFFFFFFFFFC00.
Definition PPN_MASK : Z := 0xFFFFFFFFFFF000.

(** An attribute word around the page number of an address. *)
Definition word (attr paddr : Z) : Z :=
  Z.lor (Z.land attr (unot64 PTE_PPN_MASK)) (Z.shiftr (Z.land paddr PPN_MASK) 2).

Lemma ppn_shift paddr :
  Z.shiftr (Z.land paddr PPN_MASK) 2 = Z.land (Z.shiftr paddr 2) PTE_PPN_MASK.
Proof. by rewrite Z.shiftr_land. Qed.

Lemma word_u64 attr paddr : is_u64 (word attr paddr).
Proof. unfold word. rewrite ppn_shift. apply lor_u64; by apply land_u64_r. Qed.

(** The page number survives whatever the attributes are. *)
Lemma word_ppn attr paddr :
  Z.land (word attr paddr) PTE_PPN_MASK = Z.shiftr (Z.land paddr PPN_MASK) 2.
Proof.
  unfold word. rewrite Z.land_lor_distr_l, ppn_shift, <- !Z.land_assoc.
  change (Z.land (unot64 PTE_PPN_MASK) PTE_PPN_MASK) with 0.
  by rewrite Z.land_diag, Z.land_0_r.
Qed.

(** [addr] of an entry: the page number shifted back. *)
Lemma word_addr attr paddr :
  Z.shiftl (Z.land (word attr paddr) PTE_PPN_MASK) 2 = Z.land paddr PPN_MASK.
Proof.
  rewrite word_ppn. apply Z.bits_inj'. intros i Hi. rewrite Z.shiftl_spec by done.
  destruct (Z.lt_ge_cases i 2) as [Hlt|Hge].
  - rewrite Z.testbit_neg_r by lia. rewrite Z.land_spec. symmetry. apply andb_false_iff. right.
    assert (i = 0 ∨ i = 1) as [->| ->] by lia; done.
  - rewrite Z.shiftr_spec by lia. by replace (i - 2 + 2) with i by lia.
Qed.

(** Masks below the page number only see the attributes. *)
Lemma word_attr attr paddr x :
  Z.land (unot64 PTE_PPN_MASK) x = x → Z.land PTE_PPN_MASK x = 0 →
  Z.land (word attr paddr) x = Z.land attr x.
Proof.
  intros H1 H2. unfold word. rewrite Z.land_lor_distr_l, ppn_shift, <- !Z.land_assoc, H1, H2.
  by rewrite Z.land_0_r, Z.lor_0_r.
Qed.

(** Replacing the attributes of an entry whose page number was set. *)
Lemma word_set attr low paddr :
  Z.land low PTE_PPN_MASK = 0 →
  Z.lor (Z.land attr (unot64 PTE_PPN_MASK))
        (Z.land (Z.lor low (Z.shiftr (Z.land paddr PPN_MASK) 2)) PTE_PPN_MASK) = word attr paddr.
Proof.
  intros Hlow. rewrite Z.land_lor_distr_l, Hlow, Z.lor_0_l, ppn_shift, <- Z.land_assoc.
  unfold word. by rewrite Z.land_diag, ppn_shift.
Qed.

(** Bits 0..6 lie below the page number. *)
Lemma low_bits e : Z.land (Z.land e 0x7f) PTE_PPN_MASK = 0.
Proof. rewrite <- Z.land_assoc. change (Z.land 0x7f PTE_PPN_MASK) with 0. apply Z.land_0_r. Qed.

Lemma ppn_mask_id paddr :
  paddr mod PAGE_SIZE = 0 → 0 ≤ paddr < 2 ^ 48 → Z.land paddr PPN_MASK = paddr.
Proof.
  intros Ha Hr. change PPN_MASK with (Z.land (2 ^ 56 - 1) (unot64 (2 ^ 12 - 1))).
  rewrite Z.land_assoc, land_ones_mod, Z.mod_small by lia.
  rewrite land_not_low by (unfold U64; lia). change (2 ^ 12) with PAGE_SIZE. lia.
Qed.

(** An entry is terminal when one of R, W and X is set. *)
Definition usable (fl : Z) : bool := contains fl READ || contains fl WRITE || contains fl EXECUTE.

Definition format (norm : Z → Z) : EntryFormat := mkFormat PPN_MASK norm usable.

Lemma format_is_ok norm : format_ok (format norm).
Proof. split; [done|apply ppn_mask_id]. Qed.

(** Removing [NO_HUGEPAGES] does not change another flag. *)
Lemma contains_remove fl y :
  Z.land (unot64 NO_HUGEPAGES) y = y →
  contains (flags_remove fl NO_HUGEPAGES) y = contains fl y.
Proof. intros Hy. unfold contains, flags_remove. by rewrite <- Z.land_assoc, Hy. Qed.

End Sv39.
