(* ===== verification/RvS2pt.v ===== *)
(** * Stage-2 entries of the riscv64 port (src/src/arch/riscv64/s2pt.rs)

    [DescriptorAttr], [PageTableEntry] and the activation of the guests' table. *)

From S2P Require Import Prelude Addr Region Pte RvPte.

Module RvS2PT.
Import Sv39.

(** ** [DescriptorAttr] *)

Definition VALID : Z := Z.shiftl 1 0.
Definition READABLE : Z := Z.shiftl 1 1.
Definition WRITABLE : Z := Z.shiftl 1 2.
Definition EXECUTABLE : Z := Z.shiftl 1 3.
Definition USER : Z := Z.shiftl 1 4.
Definition GLOBAL : Z := Z.shiftl 1 5.
Definition ACCESSED : Z := Z.shiftl 1 6.
Definition DIRTY : Z := Z.shiftl 1 7.

Definition ALL : Z :=
  Z.lor VALID (Z.lor READABLE (Z.lor WRITABLE (Z.lor EXECUTABLE
    (Z.lor USER (Z.lor GLOBAL (Z.lor ACCESSED DIRTY)))))).
Definition from_bits_truncate (bits : Z) : Z := Z.land bits ALL.

(** [impl From<DescriptorAttr> for MemFlags] *)
Definition attr_to_flags (attr : Z) : Z :=
  let flags := 0 in
  if negb (contains attr VALID) then flags else
  let flags := if contains attr READABLE then Z.lor flags READ else flags in
  let flags := if contains attr WRITABLE then Z.lor flags WRITE else flags in
  let flags := if contains attr EXECUTABLE then Z.lor flags EXECUTE else flags in
  let flags := if contains attr USER then Z.lor flags Region.USER else flags in
  flags.

(** [impl From<MemFlags> for DescriptorAttr] *)
Definition flags_to_attr (flags : Z) : Z :=
  let attr := (Z.lor VALID USER) in
  let attr := if contains flags READ then Z.lor attr READABLE else attr in
  let attr := if contains flags WRITE then Z.lor attr WRITABLE else attr in
  let attr := if contains flags EXECUTE then Z.lor attr EXECUTABLE else attr in
  let attr := if contains flags Region.USER then Z.lor attr USER else attr in
  attr.

(** ** [PageTableEntry] *)

Definition addr (e : Z) : Z := Z.shiftl (Z.land e PTE_PPN_MASK) 2.
Definition entry_flags (e : Z) : Z := attr_to_flags (from_bits_truncate e).
Definition is_unused (e : Z) : bool := e =? 0.
Definition is_present (e : Z) : bool := contains (from_bits_truncate e) VALID.
Definition is_huge (e : Z) : bool :=
  contains (from_bits_truncate e) READABLE || contains (from_bits_truncate e) WRITABLE ||
  contains (from_bits_truncate e) EXECUTABLE.

(** [self.0.get_bits(0..7)]: bits 0 to 6. *)
Definition set_addr (e paddr : Z) : Z :=
  Z.lor (Z.land e 0x7f) (Z.shiftr (Z.land paddr PPN_MASK) 2).

Definition set_flags (e flags : Z) : Z :=
  Z.lor (Z.land (flags_to_attr flags) (unot64 PTE_PPN_MASK)) (Z.land e PTE_PPN_MASK).

Definition set_table (e paddr : Z) : Z :=
  let e := set_addr e paddr in
  Z.lor (Z.land VALID (unot64 PTE_PPN_MASK)) (Z.land e PTE_PPN_MASK).

Definition clear (e : Z) : Z := 0.

(** [BitField::set_bits]: the value must fit the range of bits. *)
Definition set_bits {S E} (bits lo hi value : Z) : M S E Z :=
  hassert (Z.shiftr value (hi - lo) =? 0) ;;;
  hret (Z.lor (Z.land bits (unot64 (Z.shiftl (Z.ones (hi - lo)) lo))) (Z.shiftl value lo)).

(** [S2PTInstr::activate]: the value written to HGATP. *)
Definition hgatp_bits {S E} (root_paddr : Z) : M S E Z :=
  let bits := 0 in
  let mode := 8 in
  let vmid := 0 in
  let* bits := set_bits bits 60 64 mode in
  let* bits := set_bits bits 44 58 vmid in
  set_bits bits 0 44 (Z.shiftr root_paddr 12).

#[global] Instance rv_s2_pte : RvPTE := {|
  rv_addr := addr;
  rv_flags := entry_flags;
  rv_is_unused := is_unused;
  rv_is_present := is_present;
  rv_is_huge := is_huge;
  rv_set_addr := set_addr;
  rv_set_flags := set_flags;
  rv_set_table := set_table;
  rv_clear := clear
|}.

(** ** The laws *)

(** The flags an entry remembers. *)
Definition norm_flags (fl : Z) : Z :=
  Z.lor (if contains fl READ then READ else 0)
    (Z.lor (if contains fl WRITE then WRITE else 0)
       (Z.lor (if contains fl EXECUTE then EXECUTE else 0)
          Region.USER)).

Lemma s2_set_table_word e paddr : set_table e paddr = word VALID paddr.
Proof. apply word_set, low_bits. Qed.

Lemma s2_set_flags_word e paddr fl : set_flags (set_addr e paddr) fl = word (flags_to_attr fl) paddr.
Proof. apply word_set, low_bits. Qed.

Lemma s2_word_truncate attr paddr : from_bits_truncate (word attr paddr) = Z.land attr ALL.
Proof. by apply word_attr. Qed.

Lemma s2_flags_to_attr_facts fl :
  let a := Z.land (flags_to_attr fl) ALL in
  a ≠ 0 ∧ contains a VALID = true ∧ attr_to_flags a = norm_flags fl ∧
  contains a READABLE || contains a WRITABLE || contains a EXECUTABLE = usable fl.
Proof.
  unfold flags_to_attr, norm_flags, usable.
  destruct (contains fl READ), (contains fl WRITE), (contains fl EXECUTE),
    (contains fl Region.USER); vm_compute; done.
Qed.

(** A leaf with none of READ, WRITE and EXECUTE reads as a pointer to a table. *)
Lemma s2_leaf_is_huge e paddr fl : is_huge (set_flags (set_addr e paddr) fl) = usable fl.
Proof.
  rewrite s2_set_flags_word. unfold is_huge. rewrite s2_word_truncate. apply s2_flags_to_attr_facts.
Qed.

#[global] Instance rv_s2_laws : GenericPTELaws (rv_as_pte rv_s2_pte).
Proof.
  refine {| pte_format := format norm_flags; pte_format_ok := format_is_ok norm_flags |}; try done.
  - intros paddr Ha Hr. unfold table_entry; cbn. unfold is_present, is_huge, addr.
    rewrite s2_set_table_word, s2_word_truncate, word_addr, ppn_mask_id by done.
    split_and!; try done; [apply word_u64|].
    intros Hz. pose proof (s2_word_truncate VALID paddr) as H. by rewrite Hz in H.
  - intros paddr fl huge Hp Hfl. unfold leaf_entry; cbn. rewrite s2_leaf_is_huge.
    rewrite s2_set_flags_word. unfold is_present, entry_flags, addr.
    rewrite s2_word_truncate, word_addr. destruct (s2_flags_to_attr_facts fl) as (H1 & H2 & H3 & _).
    split_and!; try done; [apply word_u64|..|by rewrite H3].
    intros Hz. apply H1. by rewrite <- (s2_word_truncate _ paddr), Hz.
  - intros e paddr fl huge. unfold leaf_entry; cbn. by rewrite !s2_set_flags_word.
Defined.

#[global] Instance rv_s2_rv_laws : RvPTELaws rv_s2_pte.
Proof.
  refine {| rv_pte_laws := rv_s2_laws |}. intros e fl. cbn. unfold set_flags, flags_to_attr.
  by rewrite !contains_remove.
Defined.

End RvS2PT.
