(* ===== verification/RvPaging.v ===== *)
(** * The page-table code of the riscv64 port (src/src/arch/riscv64/paging.rs)

    [Level3PageTableImmut], [Level3PageTableUnlocked] and [Level3PageTable] over
    the trait [RvPTE]. The error, page-size and region types are declared there
    as in the aarch64 port and are shared with it ([Pte], [Region]). The constant
    [TEMPORARY_MAPPING_BASE], which the file imports from the memory module, is
    not declared there: it is the parameter [temp_base]. *)

From S2P Require Import Prelude PhysMem HvError Addr Frame Region Pte Paging RvPte.

Module Rv.

Definition ENTRY_COUNT : Z := 512.

Definition p3_index (vaddr : Z) : Z := Z.land (Z.shiftr vaddr (12 + 18)) (ENTRY_COUNT - 1).
Definition p2_index (vaddr : Z) : Z := Z.land (Z.shiftr vaddr (12 + 9)) (ENTRY_COUNT - 1).
Definition p1_index (vaddr : Z) : Z := Z.land (Z.shiftr vaddr 12) (ENTRY_COUNT - 1).

(** A table is a slice of [ENTRY_COUNT] entries: its base address. *)
Definition table_of_mut (paddr : Z) : Z := paddr.
Definition table_index {S E} (table idx : Z) : M S E Z :=
  if (0 <=? idx) && (idx <? ENTRY_COUNT) then hret (table + 8 * idx) else hpanic PIndex.

Record Level3PageTableImmut : Type := mkImmut { root : Frame }.

Record Level3PageTableUnlocked : Type := mkUnlocked {
  inner : Level3PageTableImmut;
  intrm_tables : list Frame
}.

(** [Level3PageTable] adds only the lock. *)
Abbreviation Level3PageTable := Level3PageTableUnlocked.

Definition root_paddr (pt : Level3PageTableImmut) : Z := start_paddr (root pt).

(** [npages]: the number of pages [sz] bytes take. *)
Definition npages {S E} (sz : Z) : M S E Z :=
  if Z.land sz 0xfff =? 0 then hret (Z.shiftr sz 12) else uadd (Z.shiftr sz 12) 1.

Section Paging.
  Context {T : Type} {HB : BitAlloc T} {R : RvPTE} (temp_base : Z).

Definition next_table_mut {S} (entry : Z) : M S PagingError Z :=
  if negb (rv_is_present entry) then herr NotMapped
  else if rv_is_huge entry then herr MappedToHugePage
  else hret (table_of_mut (rv_addr entry)).

(** *** impl Level3PageTableImmut *)

(** The fuel is that of the search in [Frame::new_16]. *)
Definition immut_new {E} (fuel : nat) : M (world T) E Level3PageTableImmut :=
  let* root := hunwrap (frame_new_16 fuel) in
  hret (mkImmut root).

Definition immut_from_root {S E} (root_paddr : Z) : M S E Level3PageTableImmut :=
  let* root := frame_from_paddr root_paddr in
  hret (mkImmut root).

Definition get_entry_mut (pt : Level3PageTableImmut) (vaddr : Z) :
    M (world T) PagingError (Z * PageSize) :=
  let p3 := table_of_mut (root_paddr pt) in
  let* p3e := table_index p3 (p3_index vaddr) in
  let* e3 := load p3e in
  if rv_is_huge e3 then hret (p3e, Size1G) else
  let* p2 := next_table_mut e3 in
  let* p2e := table_index p2 (p2_index vaddr) in
  let* e2 := load p2e in
  if rv_is_huge e2 then hret (p2e, Size2M) else
  let* p1 := next_table_mut e2 in
  let* p1e := table_index p1 (p1_index vaddr) in
  hret (p1e, Size4K).

Definition query (pt : Level3PageTableImmut) (vaddr : Z) :
    M (world T) PagingError (Z * Z * PageSize) :=
  let* '(entry, size) := get_entry_mut pt vaddr in
  let* e := load entry in
  if rv_is_unused e then herr NotMapped else
  let off := ps_page_offset size vaddr in
  let* pa := uadd (rv_addr e) off in
  hret (pa, rv_flags e, size).

(** *** impl Level3PageTableUnlocked *)

Definition pts : Type := world T * Level3PageTableUnlocked.

Definition with_world {E A} (m : M (world T) E A) : M pts E A :=
  zoom fst (λ w s, (w, s.2)) m.

Definition unlocked_new {E} (fuel : nat) : M (world T) E Level3PageTableUnlocked :=
  let* inner := immut_new fuel in
  hret (mkUnlocked inner []).

Definition unlocked_from_root {S E} (root_paddr : Z) : M S E Level3PageTableUnlocked :=
  let* inner := immut_from_root root_paddr in
  hret (mkUnlocked inner []).

Definition push_intrm {E} (f : Frame) : M pts E unit :=
  hmodify (λ s, (s.1, mkUnlocked (inner s.2) (intrm_tables s.2 ++ [f]))).

Definition alloc_intrm_table : M pts HvError Z :=
  let* frame := with_world frame_new_zero in
  let paddr := start_paddr frame in
  push_intrm frame ;;; hret paddr.

Definition next_table_mut_or_create (slot : Z) (allocator : M pts HvError Z) :
    M pts PagingError Z :=
  let* entry := with_world (load slot) in
  if rv_is_unused entry then
    let* paddr := map_err (λ _, NoMemory) allocator in
    with_world (store slot (rv_set_table entry paddr)) ;;;
    hret (table_of_mut paddr)
  else next_table_mut entry.

(** [flags : &mut MemFlags] is passed in and out. *)
Definition get_entry_mut_or_create (page : Page) (flags : Z) : M pts PagingError (Z * Z) :=
  let vaddr := page_vaddr page in
  let* pt := hgets snd in
  let p3 := table_of_mut (root_paddr (inner pt)) in
  let* p3e := table_index p3 (p3_index vaddr) in
  if decide (page_sz page = Size1G) then hret (p3e, flags_remove flags NO_HUGEPAGES) else
  let* p2 := next_table_mut_or_create p3e alloc_intrm_table in
  let* p2e := table_index p2 (p2_index vaddr) in
  if decide (page_sz page = Size2M) then hret (p2e, flags_remove flags NO_HUGEPAGES) else
  let* p1 := next_table_mut_or_create p2e alloc_intrm_table in
  let* p1e := table_index p1 (p1_index vaddr) in
  hret (p1e, flags).

(** A page at [temp_base] may be mapped over. *)
Definition map_page (page : Page) (paddr flags : Z) : M pts PagingError Z :=
  let* '(entry, flags) := get_entry_mut_or_create page flags in
  let* e := with_world (load entry) in
  if negb (rv_is_unused e) && negb (page_vaddr page =? temp_base) then herr AlreadyMapped else
  let e := rv_set_addr e (ps_align_down (page_sz page) paddr) in
  let e := rv_set_flags e flags in
  with_world (store entry e) ;;;
  hret entry.

Definition unmap_page (vaddr : Z) : M pts PagingError (Z * PageSize) :=
  let* pt := hgets snd in
  let* '(entry, size) := with_world (get_entry_mut (inner pt) vaddr) in
  let* e := with_world (load entry) in
  if rv_is_unused e then herr NotMapped else
  let paddr := rv_addr e in
  with_world (store entry (rv_clear e)) ;;;
  hret (paddr, size).

Definition update (vaddr paddr flags : Z) : M pts PagingError PageSize :=
  let* pt := hgets snd in
  let* '(entry, size) := with_world (get_entry_mut (inner pt) vaddr) in
  let* e := with_world (load entry) in
  let e := rv_set_addr e paddr in
  let e := rv_set_flags e flags in
  with_world (store entry e) ;;;
  hret size.

(** *** impl GenericPageTable for Level3PageTable *)

Definition choose_page_size (fl vaddr paddr sz : Z) : PageSize :=
  if ps_is_aligned Size1G vaddr && ps_is_aligned Size1G paddr &&
     (page_size Size1G <=? sz) && negb (contains fl NO_HUGEPAGES) then Size1G
  else if ps_is_aligned Size2M vaddr && ps_is_aligned Size2M paddr &&
     (page_size Size2M <=? sz) && negb (contains fl NO_HUGEPAGES) then Size2M
  else Size4K.

(** The [while size > 0] loop of [map]. *)
Fixpoint map_loop (fuel : nat) (region : MemoryRegion) (vaddr sz : Z) : M pts HvError unit :=
  if sz <=? 0 then hret tt else
  match fuel with
  | O => hhang
  | S fuel' =>
      let paddr := map_fn (mapper region) vaddr in
      let ps := choose_page_size (flags region) vaddr paddr sz in
      let* page := new_aligned vaddr ps in
      let* _slot := map_err paging_to_hv (map_page page paddr (flags region)) in
      let* vaddr' := uadd vaddr (page_size ps) in
      let* sz' := usub sz (page_size ps) in
      map_loop fuel' region vaddr' sz'
  end.

Definition map (region : MemoryRegion) : M pts HvError unit :=
  hassert (is_aligned (start region)) ;;;
  hassert (is_aligned (size region)) ;;;
  map_loop (loop_fuel (size region)) region (start region) (size region).

(** The [while size > 0] loop of [unmap]; a misaligned page is [loop {}]. *)
Fixpoint unmap_loop (fuel : nat) (vaddr sz : Z) : M pts HvError unit :=
  if sz <=? 0 then hret tt else
  match fuel with
  | O => hhang
  | S fuel' =>
      let* '(_, ps) := map_err paging_to_hv (unmap_page vaddr) in
      if negb (ps_is_aligned ps vaddr) then hhang else
      hassert (ps_is_aligned ps vaddr) ;;;
      hassert (page_size ps <=? sz) ;;;
      let* vaddr' := uadd vaddr (page_size ps) in
      let* sz' := usub sz (page_size ps) in
      unmap_loop fuel' vaddr' sz'
  end.

Definition unmap (region : MemoryRegion) : M pts HvError unit :=
  unmap_loop (loop_fuel (size region)) (start region) (size region).

(** [Level3PageTable::clone_from]: only the root table is copied. *)
Definition clone_from {E} (fuel : nat) (src : Level3PageTableImmut) :
    M (world T) E Level3PageTable :=
  let* pt := unlocked_new fuel in
  hmodify (λ w, set_mem (copy_entries 512 (root_paddr (inner pt)) (root_paddr src) (w_mem w)) w) ;;;
  hret pt.

(** [GenericPageTable::clone] *)
Definition clone {E} (fuel : nat) (pt : Level3PageTable) : M (world T) E Level3PageTable :=
  clone_from fuel (inner pt).

(** Dropping the object drops the root frames and the tracked tables. *)
Definition pt_drop {E} (pt : Level3PageTable) : M (world T) E unit :=
  frame_drop (root (inner pt)) ;;; drop_frames (intrm_tables pt).

End Paging.

(** *** [walk] and [dump]: the calls of [func], in order *)

Section walk.
  Context {R : RvPTE}.

(** One visited entry: level, index, address and entry. *)
Abbreviation visit := (Z * Z * Z * Z)%type.

(** The [for] loop over the entries of one table; [n] counts the present ones,
    and [sub] is the recursive call. *)
Fixpoint walk_entries (m : mem) (sub : Z → Z → list visit) (level start_vaddr limit table : Z)
    (count : nat) (i n : Z) : list visit :=
  match count with
  | O => []
  | S count' =>
      let entry := read64 m (table + 8 * i) in
      let vaddr := start_vaddr + Z.shiftl i (12 + (3 - level) * 9) in
      if rv_is_present entry then
        let below := if (level <? 2) && negb (rv_is_huge entry) then sub (rv_addr entry) vaddr else [] in
        (level, i, vaddr, entry) :: below ++
        if limit <=? n + 1 then []
        else walk_entries m sub level start_vaddr limit table count' (i + 1) (n + 1)
      else walk_entries m sub level start_vaddr limit table count' (i + 1) n
  end.

(** [depth] bounds the recursion: levels 0, 1 and 2. *)
Fixpoint walk (depth : nat) (m : mem) (table level start_vaddr limit : Z) : list visit :=
  match depth with
  | O => []
  | S depth' =>
      walk_entries m (λ t va, walk depth' m t (level + 1) va limit) level start_vaddr limit table
        512 0 0
  end.

Definition dump (m : mem) (pt : Level3PageTableImmut) (limit : Z) : list visit :=
  walk 3 m (root_paddr pt) 0 0 limit.

End walk.

End Rv.
