(* ===== verification/RvPagingSpec.v ===== *)
(** * The riscv64 page tables against the aarch64 ones

    [Level3PageTable] is simulated by [HvPageTable] with three levels: every
    operation of the riscv64 code is the operation of the aarch64 code on the
    entry format of the port, as long as it does not map the page at
    [TEMPORARY_MAPPING_BASE]. The contract of the page-table trait and the
    theorems on address spaces carry over. *)

From S2P Require Import Prelude PhysMem HvError Addr Frame Region Pte PtIface Paging PagingWf.
From S2P Require Import PagingSpec PagingLoop PtInstance Sim FramePool RvPte RvPaging.

(** The table seen as an [HvPageTable] of level 3. *)
Definition to_immut (pt : Rv.Level3PageTableImmut) : HvPageTableImmut := mkImmut (Rv.root pt) 3.
Definition to_hv (pt : Rv.Level3PageTable) : HvPageTable :=
  mkUnlocked (to_immut (Rv.inner pt)) (Rv.intrm_tables pt).

Section sim.
  Context {T : Type} {HB : BitAlloc T} {R : RvPTE} (temp_base : Z).

#[local] Instance as_pte : GenericPTE := rv_as_pte R.

Definition abs (s : Rv.pts (T:=T)) : pts (T:=T) := (s.1, to_hv s.2).

(** ** The operations that do not map *)

Lemma rv_get_entry_mut pt va :
  get_entry_mut (T:=T) (to_immut pt) va = Rv.get_entry_mut pt va.
Proof. reflexivity. Qed.

Lemma rv_query pt va (w : world T) : query (to_immut pt) va w = Rv.query pt va w.
Proof. reflexivity. Qed.

Lemma sim_with_world {E A} (m : M (world T) E A) : sim abs eq (Rv.with_world m) (with_world m).
Proof. by apply sim_zoom. Qed.

Lemma sim_table_index {E} t i : sim (E:=E) abs eq (Rv.table_index t i) (table_index t i).
Proof. unfold Rv.table_index, table_index. change Rv.ENTRY_COUNT with ENTRY_COUNT. solve_sim. Qed.

Lemma sim_next e : sim abs eq (Rv.next_table_mut e) (next_table_mut e).
Proof. unfold Rv.next_table_mut, next_table_mut. cbn. solve_sim. Qed.

Lemma sim_alloc : sim abs eq Rv.alloc_intrm_table alloc_intrm_table.
Proof.
  apply sim_bind_eq; [apply sim_with_world|]. intros f.
  apply sim_bind_eq; [by apply sim_modify|]. intros _. by apply sim_ret.
Qed.

#[local] Hint Resolve sim_with_world sim_table_index sim_next sim_alloc : sim.

Lemma sim_next_or_create slot m m' :
  sim abs eq m m' →
  sim abs eq (Rv.next_table_mut_or_create slot m) (next_table_mut_or_create slot m').
Proof. intros Hm. unfold Rv.next_table_mut_or_create, next_table_mut_or_create. cbn. solve_sim. Qed.

#[local] Hint Resolve sim_next_or_create : sim.

(** Reading the table object. *)
Lemma sim_object {E B B'} (Q : B → B' → Prop) (k : Rv.Level3PageTable → M Rv.pts E B) k' :
  (∀ pt, sim abs Q (k pt) (k' (to_hv pt))) →
  sim abs Q (hbind (hgets snd) k) (hbind (hgets snd) k').
Proof.
  intros Hk. apply (sim_bind abs (λ pt pt', pt' = to_hv pt)); [by apply sim_gets|].
  intros pt ? ->. apply Hk.
Qed.

Lemma sim_unmap_page va : sim abs eq (Rv.unmap_page va) (unmap_page va).
Proof.
  apply sim_object. intros pt.
  change (get_entry_mut (inner (to_hv pt)) va) with (Rv.get_entry_mut (T:=T) (Rv.inner pt) va).
  cbn. solve_sim.
Qed.

(** [update] gives the aarch64 entry the size, which is ignored. *)
Lemma sim_update va paddr fl : sim abs eq (Rv.update va paddr fl) (update va paddr fl).
Proof.
  apply sim_object. intros pt.
  change (get_entry_mut (inner (to_hv pt)) va) with (Rv.get_entry_mut (T:=T) (Rv.inner pt) va).
  cbn. solve_sim.
Qed.

#[local] Hint Resolve sim_unmap_page : sim.

Lemma sim_unmap_loop fuel va sz : sim abs eq (Rv.unmap_loop fuel va sz) (unmap_loop fuel va sz).
Proof. revert va sz. induction fuel; intros va sz; cbn [Rv.unmap_loop unmap_loop]; solve_sim. Qed.

Lemma sim_unmap r : sim abs eq (Rv.unmap r) (unmap r).
Proof. apply sim_unmap_loop. Qed.

(** ** Mapping *)

(** The flags [get_entry_mut_or_create] leaves for a page size. *)
Definition page_flags (ps : PageSize) (fl : Z) : Z :=
  match ps with Size4K => fl | _ => flags_remove fl NO_HUGEPAGES end.

(** The slot is that of the aarch64 code, the flags those of the page size. *)
Lemma sim_create page fl :
  sim abs (λ r slot, r = (slot, page_flags (page_sz page) fl))
    (Rv.get_entry_mut_or_create page fl) (get_entry_mut_or_create page).
Proof.
  apply sim_object. intros pt. cbn [level inner to_hv to_immut Z.eqb Pos.eqb].
  intros s. cbn [hbind hret]. revert s.
  apply sim_bind_eq; [apply sim_table_index|]. intros p3e.
  destruct (page_sz page) eqn:Hsz; cbn [decide]; solve_sim.
Qed.

Section laws.
  Context {RL : RvPTELaws R}.

(** Away from [temp_base] the two [map_page] agree: [NO_HUGEPAGES] is not part of
    an entry. *)
Lemma sim_map_page page paddr fl :
  page_vaddr page ≠ temp_base →
  sim abs eq (Rv.map_page temp_base page paddr fl) (map_page page paddr fl).
Proof using RL.
  intros Hne%Z.eqb_neq. eapply sim_bind; [apply sim_create|]. intros ? slot ->.
  rewrite Hne. apply sim_bind_eq; [apply sim_with_world|]. intros e. rewrite andb_true_r. cbn.
  assert (rv_set_flags (rv_set_addr e (ps_align_down (page_sz page) paddr))
            (page_flags (page_sz page) fl) =
          rv_set_flags (rv_set_addr e (ps_align_down (page_sz page) paddr)) fl) as ->.
  { destruct (page_sz page); [done|apply rv_no_huge_law..]. }
  solve_sim.
Qed.

Lemma sim_map_loop fuel r va sz :
  (∀ x, va ≤ x < va + sz → x ≠ temp_base) →
  sim abs eq (Rv.map_loop temp_base fuel r va sz) (map_loop fuel r va sz).
Proof using RL.
  revert va sz. induction fuel as [|fuel IH]; intros va sz Hx; cbn [Rv.map_loop map_loop].
  { solve_sim. }
  destruct (Z.leb_spec sz 0); [solve_sim|].
  set (ps := choose_page_size (flags r) va (map_fn (mapper r) va) sz).
  change (Rv.choose_page_size (flags r) va (map_fn (mapper r) va) sz) with ps.
  pose proof (page_size_pos ps) as Hps.
  apply (sim_bind _ (λ p p', p' = p ∧ page_vaddr p = va)).
  { unfold new_aligned. apply sim_bind_eq; [apply sim_assert|]. intros _. by apply sim_ret. }
  intros page ? [-> Hpage].
  apply sim_bind_eq; [apply sim_map_err, sim_map_page; rewrite Hpage; apply Hx; lia|]. intros _.
  eapply sim_bind; [apply sim_uadd_val|]. intros va' ? [-> ->].
  eapply sim_bind; [apply sim_usub_val|]. intros sz' ? [-> ->].
  apply IH. intros x Hr. apply Hx. lia.
Qed.

(** [map] of a region that does not contain [temp_base]. *)
Lemma sim_map r :
  (∀ x, start r ≤ x < start r + size r → x ≠ temp_base) →
  sim abs eq (Rv.map temp_base r) (map r).
Proof using RL.
  intros Hx. apply sim_bind_eq; [apply sim_assert|]. intros _.
  apply sim_bind_eq; [apply sim_assert|]. intros _. by apply sim_map_loop.
Qed.

End laws.

End sim.

(** ** The riscv64 tables keep the contract of the trait *)

Section instance.
  Context {T : Type} {HB : BitAlloc T} {HL : BitAllocLaws T}.
  Context {R : RvPTE} {RL : RvPTELaws R}.
  (** The search of [Frame::new_16], and [TEMPORARY_MAPPING_BASE]. *)
  Context (fuel : nat) (temp_base : Z).

#[local] Existing Instance as_pte.

(** [impl GenericPageTable for Level3PageTable]; [new] takes no level there. *)
Definition rv_gpt : GenericPageTable (world T) Rv.Level3PageTable := {|
  gpt_new _ := Rv.unlocked_new fuel;
  gpt_map := Rv.map temp_base;
  gpt_unmap := Rv.unmap;
  gpt_query va := λ s, Rv.with_world (Rv.query (Rv.inner s.2) va) s;
  gpt_clone := λ s, Rv.with_world (Rv.clone fuel s.2) s;
  gpt_root_paddr pt := Rv.root_paddr (Rv.inner pt);
  gpt_drop := Rv.pt_drop
|}.

Context (n : Z) (Htemp : ¬ 0 ≤ temp_base < va_limit 3).

Definition rv_ok (s : Rv.pts (T:=T)) : Prop := pt_ok n 3 (abs s).
Definition rv_view (s : Rv.pts (T:=T)) : view := translate 3 (abs s).
Definition rv_step (s s' : Rv.pts (T:=T)) : Prop := pt_step n (abs s) (abs s').

#[global] Instance rv_step_preorder : PreOrder rv_step.
Proof. split; [intros s; apply pt_step_refl|intros s1 s2 s3; apply pt_step_trans]. Qed.

Lemma rv_map_law s r :
  rv_ok s → region_mappable pte_format (va_limit 3) r →
  wp (Rv.map temp_base r)
    (λ _ s', rv_ok s' ∧ rv_step s s' ∧
       mapped_range pte_format (va_limit 3) r (start r) (start r + size r) (rv_view s) (rv_view s'))
    (λ e s', map_error e ∧ rv_ok s' ∧ rv_step s s' ∧
       ∃ x, start r ≤ x < start r + size r ∧
            mapped_range pte_format (va_limit 3) r (start r) x (rv_view s) (rv_view s')) s.
Proof using HL RL Htemp.
  intros Hok Hr. eapply wp_mono.
  { eapply (sim_wp abs); [apply sim_map|by apply (map_spec n 3 (abs s) r)].
    { exact RL. }
    destruct Hr as (_ & _ & _ & H0 & H1 & Hlim & _). intros x Hx ->. lia. }
  - done.
  - done.
Qed.

Lemma rv_unmap_law s r :
  rv_ok s → 0 ≤ start r → 0 ≤ size r → start r + size r ≤ va_limit 3 →
  covered (start r) (start r + size r) (rv_view s) →
  wp (Rv.unmap r)
    (λ _ s', rv_ok s' ∧ rv_step s s' ∧
       unmapped_range (va_limit 3) (start r) (start r + size r) (rv_view s) (rv_view s'))
    (λ _ _, False) s.
Proof using RL.
  intros Hok H0 H1 Hlim Hc. eapply wp_mono.
  { eapply (sim_wp abs); [apply sim_unmap|by apply (unmap_spec n 3 (abs s) r)]. }
  - intros _ s' (A & B & _ & D). done.
  - done.
Qed.

Lemma rv_query_law s va :
  rv_ok s → 0 ≤ va < va_limit 3 →
  gpt_query (GenericPageTable:=rv_gpt) va s =
  match rv_view s va with Some x => ROk x s | None => RErr NotMapped s end.
Proof using RL.
  intros [tb Hinv] Hva. cbn. unfold Rv.with_world, zoom. rewrite <- rv_query.
  pose proof (query_hw n 3 (abs s) tb va Hinv Hva) as Hq. cbn in Hq. rewrite Hq.
  destruct s as [w pt]. by destruct (rv_view (w, pt) va) eqn:E; unfold rv_view in E; cbn in E;
    rewrite E.
Qed.

Definition rv_gpt_laws : @GenericPageTableLaws (world T) Rv.Level3PageTable rv_gpt.
Proof using HL RL Htemp n.
  refine (@Build_GenericPageTableLaws _ _ rv_gpt (va_limit 3) pte_format rv_ok rv_view rv_step _
            pte_format_ok _ rv_map_law rv_unmap_law rv_query_law _).
  - by apply va_limit_u64; lia.
  - intros w pt. apply wpp_bind. eapply wpp_mono; [apply frame_drop_total|].
    intros _ w' _. apply drop_frames_total.
Defined.

(** ** A new table *)

(** Every byte of a free frame is zero. *)
Definition pool_clean (w : world T) : Prop :=
  ∀ j b, free w j = true → in_frame w j b → rd8 (w_mem w) b = 0.

(** [Level3PageTable::new] takes four contiguous free frames or panics (the
    [expect]). The table is empty if the pool was clean: the root is not cleared. *)
Lemma rv_new_spec {E} w :
  fa_inv n (w_fa w) → (free_count n w < fuel)%nat → pool_clean w →
  match Rv.unlocked_new (E:=E) fuel w with
  | ROk pt w' =>
      rv_ok (w', pt) ∧ Rv.intrm_tables pt = [] ∧ frame_count (Rv.root (Rv.inner pt)) = 4 ∧
      (∀ va, 0 ≤ va < va_limit 3 → rv_view (w', pt) va = None) ∧ pool_clean w'
  | RPanic p => p = PUnwrap
  | _ => False
  end.
Proof using HL RL.
  intros Hinv Hfuel Hclean. unfold Rv.unlocked_new, Rv.immut_new, hbind, hunwrap.
  pose proof (frame_new_16_spec n fuel w Hinv Hfuel) as Hs. unfold wp in Hs.
  destruct (frame_new_16 fuel w) as [f w'|e w'| |]; try done.
  destruct Hs as (i & -> & Hall & Hb & Hinv' & Hf & Hscrub). cbn.
  assert (∀ b j, free w j = true → in_frame w j b → rd8 (w_mem w') b = 0) as Hzero.
  { intros b j Hj Hin. destruct (Hscrub b) as [->|[-> _]]; [by eapply Hclean|done]. }
  assert (fa_used n (w_fa w') (base w + i * PAGE_SIZE)) as Hu.
  { exists i. split; [apply (proj2 (proj2 (proj2 (proj2 Hinv)))), Hall; lia|].
    split; [unfold base in Hb; unfold base; by rewrite Hb|].
    change (free w' i = false). rewrite Hf, bool_decide_true by lia. apply andb_false_r. }
  destruct (fresh_root_wf 3 (w_mem w') (base w + i * PAGE_SIZE)) as [Hwf Htr].
  { lia. } { by eapply fa_used_range. }
  { intros b Hin. apply (Hzero b i); [apply Hall; lia|exact Hin]. }
  split; [|split; [done|split; [done|split; [exact Htr|]]]].
  - exists {[(0%nat, 0) := base w + i * PAGE_SIZE]}. split; try done; [by left|..].
    + intros a t [_ <-]%lookup_singleton_Some. left.
    + intros t Ht. unfold owned in Ht; simpl in Ht. apply list_elem_of_singleton in Ht as ->. done.
  - intros j b. rewrite Hf. intros [Hj _]%andb_true_iff Hin. apply (Hzero b j Hj).
    unfold in_frame in *. by rewrite <- Hb.
Qed.

End instance.

(** ** [dump] *)

Section dump.
  Context {R : RvPTE}.

Lemma walk_entries_level m sub level start limit table count i n lv j va e :
  (∀ t va' lv' j' va'' e', (lv', j', va'', e') ∈ sub t va' → level < lv') →
  (lv, j, va, e) ∈ Rv.walk_entries m sub level start limit table count i n →
  level ≤ lv ∧ (lv = level → va = start + Z.shiftl j (12 + (3 - level) * 9)).
Proof.
  intros Hsub. revert i n. induction count as [|count IH]; intros i n; simpl.
  { by intros ?%not_elem_of_nil. }
  destruct (rv_is_present _); [|apply IH]. rewrite elem_of_cons, elem_of_app. intros [Heq|[Hin|Hin]].
  - injection Heq as -> -> -> ->. done.
  - destruct (_ && _); [|by apply not_elem_of_nil in Hin]. apply Hsub in Hin. lia.
  - destruct (_ <=? _); [by apply not_elem_of_nil in Hin|]. by apply IH in Hin.
Qed.

Lemma walk_level depth m table level start limit lv j va e :
  (lv, j, va, e) ∈ Rv.walk depth m table level start limit →
  level ≤ lv ∧ (lv = level → va = start + Z.shiftl j (12 + (3 - level) * 9)).
Proof.
  revert table level start lv j va e. induction depth as [|depth IH]; intros ??????? ; cbn [Rv.walk].
  { by intros ?%not_elem_of_nil. }
  apply walk_entries_level. intros t va' lv' j' va'' e' Hin. apply IH in Hin. lia.
Qed.

Lemma dump_shift j : 0 + Z.shiftl j (12 + (3 - 0) * 9) = j * 2 ^ 39.
Proof. rewrite Z.add_0_l. apply Z.shiftl_mul_pow2. lia. Qed.

Lemma p3_index_shift j : Rv.p3_index (j * 2 ^ 39) = 0.
Proof.
  unfold Rv.p3_index, Rv.ENTRY_COUNT. replace (512 - 1) with (2 ^ 9 - 1) by lia.
  rewrite land_ones_mod, Z.shiftr_div_pow2 by lia.
  replace (j * 2 ^ 39) with (j * 2 ^ 9 * 2 ^ (12 + 18)) by lia.
  rewrite Z.div_mul by lia. apply Z.mod_mul. lia.
Qed.

(** The address [dump] prints for an entry of the root table is 2^9 times too
    large (the root is level 0 here, and the shift is that of a four-level table):
    the table's own walk of that address starts with entry 0. *)
Lemma dump_root_address m pt limit j va e :
  (0, j, va, e) ∈ Rv.dump m pt limit → va = j * 2 ^ 39 ∧ Rv.p3_index va = 0.
Proof.
  unfold Rv.dump. intros Hin. destruct (walk_level _ _ _ _ _ _ _ _ _ _ Hin) as [_ Hva].
  specialize (Hva eq_refl). rewrite dump_shift in Hva. subst va. split; [done|apply p3_index_shift].
Qed.

End dump.
