(* ===== verification/RvCpu.v ===== *)
(** * CPUs, SBI calls and traps of the riscv64 port

    From src/src/arch/riscv64: csr.rs (control and status registers), cpu.rs
    ([ArchCpu]), entry.rs (the initial stack), sbi.rs and trap.rs; and the PLIC
    object of src/src/device/irqchip/plic/mod.rs. The firmware behind [ecall] and
    the crates [sbi_rt], [riscv_decode] and the instruction [hlvx.hu] are
    parameters. The CSRs are a map from CSR number to value: a write stores the
    value as it is. *)

From S2P Require Import Prelude Addr.

Module RvCpu.

(** ** csr.rs *)

Definition CSR_SCAUSE : Z := 0x142.
Definition CSR_STVEC : Z := 0x105.
Definition CSR_SCOUNTEREN : Z := 0x106.
Definition CSR_SEPC : Z := 0x141.
Definition CSR_SSCRATCH : Z := 0x140.
Definition CSR_SIE : Z := 0x104.
Definition CSR_SIP : Z := 0x144.
Definition CSR_VSTVEC : Z := 0x205.
Definition CSR_VSSCRATCH : Z := 0x240.
Definition CSR_VSEPC : Z := 0x241.
Definition CSR_VSCAUSE : Z := 0x242.
Definition CSR_VSTVAL : Z := 0x243.
Definition CSR_VSATP : Z := 0x280.
Definition CSR_HSTATUS : Z := 0x600.
Definition CSR_HEDELEG : Z := 0x602.
Definition CSR_HIDELEG : Z := 0x603.
Definition CSR_HIE : Z := 0x604.
Definition CSR_HTIMEDELTA : Z := 0x605.
Definition CSR_HCOUNTEREN : Z := 0x606.
Definition CSR_HTVAL : Z := 0x643.
Definition CSR_HVIP : Z := 0x645.
Definition CSR_HTINST : Z := 0x64A.
Definition CSR_HGATP : Z := 0x680.
Definition CSR_HENVCFG : Z := 0x60A.

(** ** State *)

Record ArchCpu : Type := mkCpu {
  x : list Z;        (* x0 to x31 *)
  hstatus : Z;
  sstatus : Z;
  sepc : Z;
  stack_top : Z;
  cpuid : Z
}.

(** The CPU structure of this hart, its CSRs, and the timer values passed to the
    firmware, the latest first. *)
Record rv : Type := mkRv { r_cpu : ArchCpu; r_csr : gmap Z Z; r_timer : list Z }.

Definition set_cpu (c : ArchCpu) (s : rv) : rv := mkRv c (r_csr s) (r_timer s).
Definition set_csrs (m : gmap Z Z) (s : rv) : rv := mkRv (r_cpu s) m (r_timer s).

Definition csr (n : Z) (m : gmap Z Z) : Z := default 0 (m !! n).

(** The macros [read_csr!], [write_csr!], [set_csr!] and [clear_csr!]. *)
Definition read_csr {E} (n : Z) : M rv E Z := hgets (λ s, csr n (r_csr s)).
Definition write_csr {E} (n v : Z) : M rv E unit :=
  hmodify (λ s, set_csrs (<[n := v]> (r_csr s)) s).
Definition set_csr {E} (n v : Z) : M rv E unit :=
  hmodify (λ s, set_csrs (<[n := Z.lor (csr n (r_csr s)) v]> (r_csr s)) s).
Definition clear_csr {E} (n v : Z) : M rv E unit :=
  hmodify (λ s, set_csrs (<[n := Z.land (csr n (r_csr s)) (unot64 v)]> (r_csr s)) s).

Definition with_sepc (v : Z) (c : ArchCpu) : ArchCpu :=
  mkCpu (x c) (hstatus c) (sstatus c) v (stack_top c) (cpuid c).
Definition with_x (i : nat) (v : Z) (c : ArchCpu) : ArchCpu :=
  mkCpu (<[i := v]> (x c)) (hstatus c) (sstatus c) (sepc c) (stack_top c) (cpuid c).

(** [current_cpu.x[i]] and [current_cpu.x[i] = v]: the array has 32 entries. *)
Definition get_x {E} (i : nat) : M rv E Z :=
  λ s, match x (r_cpu s) !! i with Some v => ROk v s | None => RPanic PIndex end.
Definition put_x {E} (i : nat) (v : Z) : M rv E unit :=
  λ s, match x (r_cpu s) !! i with
       | Some _ => ROk tt (set_cpu (with_x i v (r_cpu s)) s)
       | None => RPanic PIndex
       end.
(** [current_cpu.sepc += n] *)
Definition add_sepc {E} (n : Z) : M rv E unit :=
  let* pc := hgets (λ s, sepc (r_cpu s)) in
  let* pc' := uadd pc n in
  hmodify (λ s, set_cpu (with_sepc pc' (r_cpu s)) s).

(** ** cpu.rs and entry.rs *)

Definition ArchCpu_new (cpuid : Z) : ArchCpu := mkCpu (replicate 32 0) 0 0 0 0 cpuid.
Definition get_cpuid (c : ArchCpu) : Z := cpuid c.

(** [ArchCpu::stack_top]; [core_end] is [PER_CPU_ARRAY_PTR]. *)
Definition stack_top_of {S E} (core_end cpuid : Z) : M S E Z :=
  let* i := uadd cpuid 1 in
  let* o := umul i PER_CPU_SIZE in
  let* t := uadd core_end o in
  usub t 8.

(** [arch_entry]: the stack pointer the assembly sets up; the sums wrap. *)
Definition arch_entry_sp (core_end a0 : Z) : Z :=
  let t1 := PER_CPU_SIZE in
  let t2 := (a0 * t1) mod U64 in
  let t2 := (t1 + t2) mod U64 in
  (core_end + t2) mod U64.

Definition HSTATUS_INIT : Z := Z.lor (Z.shiftl 1 7) (Z.shiftl 2 32).
Definition SSTATUS_INIT : Z :=
  Z.lor (Z.shiftl 1 8) (Z.lor (Z.shiftl 1 63) (Z.lor (Z.shiftl 3 13) (Z.shiftl 3 15))).

(** [ArchCpu::init]; [self_ptr] is the address of the structure. *)
Definition cpu_init {E} (self_ptr core_end entry cpu_id dtb : Z) : M rv E unit :=
  write_csr CSR_SSCRATCH self_ptr ;;;
  let* id := hgets (λ s, cpuid (r_cpu s)) in
  let* top := stack_top_of core_end id in
  hmodify (λ s, let c := r_cpu s in
     set_cpu (mkCpu (x c) HSTATUS_INIT SSTATUS_INIT entry top (cpuid c)) s) ;;;
  put_x 10 cpu_id ;;;
  put_x 11 dtb ;;;
  set_csr CSR_HIDELEG (Z.lor (Z.shiftl 1 2) (Z.lor (Z.shiftl 1 6) (Z.shiftl 1 10))) ;;;
  set_csr CSR_HEDELEG
    (Z.lor (Z.shiftl 1 8) (Z.lor (Z.shiftl 1 12) (Z.lor (Z.shiftl 1 13) (Z.shiftl 1 15)))) ;;;
  set_csr CSR_HCOUNTEREN (Z.shiftl 1 1) ;;;
  set_csr CSR_SCOUNTEREN (Z.shiftl 1 1) ;;;
  write_csr CSR_HTIMEDELTA 0 ;;;
  set_csr CSR_HENVCFG (Z.shiftl 1 63) ;;;
  set_csr CSR_SIE (Z.lor (Z.shiftl 1 9) (Z.lor (Z.shiftl 1 5) (Z.shiftl 1 1))) ;;;
  write_csr CSR_HIE 0 ;;;
  write_csr CSR_VSTVEC 0 ;;;
  write_csr CSR_VSSCRATCH 0 ;;;
  write_csr CSR_VSEPC 0 ;;;
  write_csr CSR_VSCAUSE 0 ;;;
  write_csr CSR_VSTVAL 0 ;;;
  write_csr CSR_HVIP 0 ;;;
  write_csr CSR_VSATP 0.

(** [ArchCpu::idle]: [wfi] returns when an interrupt is pending. *)
Definition cpu_idle {E} : M rv E unit := clear_csr CSR_SIP (Z.shiftl 1 1).

(** [this_cpu_arch]: the address of the structure. *)
Definition this_cpu_arch {E} : M rv E Z :=
  let* sscratch := read_csr CSR_SSCRATCH in
  if sscratch =? 0 then hpanic PExplicit else hret sscratch.

Definition HV_PHY_BASE : Z := 0x80200000.

(** [cpu_start]; [hart_start] of [sbi_rt] says whether the firmware accepted. *)
Definition cpu_start {S E} (hart_start : Z → Z → Z → bool) (cpuid start_addr opaque : Z) :
    M S E unit :=
  if hart_start cpuid HV_PHY_BASE opaque then hret tt else hpanic PExplicit.

(** ** sbi.rs *)

Definition SET_TIMER : Z := 0x54494D45.
Definition EXTID_HSM : Z := 0x48534D.
Definition SEND_IPI : Z := 0x735049.

(** [console_getchar]: the firmware returns a byte, or a value above 0xff. *)
Definition console_getchar (answer : Z) : option Z := if answer <=? 0xff then Some answer else None.

(** The firmware's other services, on whatever state it keeps: [console_putchar] and
    [system_reset] of [sbi_rt], and an [ecall] with one argument. *)
Section services.
  Context {S E : Type} (fw_putchar : Z → S → S) (fw_reset : Z → Z → S → S) (ecall1 : Z → Z → Z → Z * Z).

Definition console_putchar (c : Z) : M S E unit := hmodify (fw_putchar c).

(** [Shutdown] is 0, [NoReason] 0 and [SystemFailure] 1; [unreachable!()] follows. *)
Definition shutdown (failure : bool) : M S E unit :=
  (if negb failure then hmodify (fw_reset 0 0) else hmodify (fw_reset 0 1)) ;;; hpanic PExplicit.

Record SbiRet : Type := mkSbiRet { error : Z; value : Z }.

Definition sbi_call_1 (eid fid arg0 : Z) : SbiRet :=
  let '(error, value) := ecall1 eid fid arg0 in mkSbiRet error value.

End services.

(** [sbi_rt::set_timer] *)
Definition set_timer {E} (timer : Z) : M rv E unit :=
  hmodify (λ s, mkRv (r_cpu s) (r_csr s) (timer :: r_timer s)).

(** [hvip::clear_vstip] and [sie::set_stimer] of the crate [riscv]. *)
Definition clear_vstip {E} : M rv E unit := clear_csr CSR_HVIP (Z.shiftl 1 6).
Definition set_stimer {E} : M rv E unit := set_csr CSR_SIE (Z.shiftl 1 5).

Section sbi.
  (** The firmware's answer to [ecall] with a7, a6 and a0 to a4. *)
  Context (ecall : Z → Z → Z → Z → Z → Z → Z → Z * Z).

Definition sbi_call_5 {E} (eid fid arg0 arg1 arg2 arg3 arg4 : Z) : M rv E (Z * Z) :=
  if eid =? SET_TIMER then
    set_timer arg0 ;;; clear_vstip ;;; set_stimer ;;; hret (0, 0)
  else hret (ecall eid fid arg0 arg1 arg2 arg3 arg4).

Definition sbi_vs_handler {E} : M rv E unit :=
  let* a7 := get_x 17 in
  let* a6 := get_x 16 in
  let* a0 := get_x 10 in
  let* a1 := get_x 11 in
  let* a2 := get_x 12 in
  let* a3 := get_x 13 in
  let* a4 := get_x 14 in
  let* ret := sbi_call_5 a7 a6 a0 a1 a2 a3 a4 in
  add_sepc 4 ;;;
  put_x 10 ret.1 ;;;
  put_x 11 ret.2.

(** ** trap.rs *)

Definition ECALL_VU : Z := 8.
Definition ECALL_VS : Z := 10.
Definition LOAD_GUEST_PAGE_FAULT : Z := 21.
Definition STORE_GUEST_PAGE_FAULT : Z := 23.

(** [trap::init]: [vector] is the address of [_hyp_trap_vector], mode Direct is 0. *)
Definition trap_init {E} (vector : Z) : M rv E unit := write_csr CSR_STVEC vector.

(** The instructions of the guest: [hlvx.hu] loads 16 bits. *)
Context (hlvxhu : Z → Z).

Definition u32 (v : Z) : Z := v mod 2 ^ 32.

Definition read_inst {S E} (addr : Z) : M S E Z :=
  let ins := u32 (hlvxhu addr) in
  if Z.land ins 3 =? 3 then
    let* a2 := uadd addr 2 in
    hret (Z.lor ins (u32 (Z.shiftl (u32 (hlvxhu a2)) 16)))
  else hret ins.

(** [riscv_decode::instruction_length] and [riscv_decode::decode]. *)
Context {Instruction : Type} (instruction_length : Z → Z) (decode : Z → option Instruction).

Definition decode_inst {S E} (inst : Z) : M S E (Z * option Instruction) :=
  let i1 := inst mod 2 ^ 16 in
  let len := instruction_length i1 in
  if len =? 2 then hret (len, decode i1)
  else if len =? 4 then hret (len, decode inst)
  else hpanic PExplicit.

(** [todo!()] *)
Definition guest_page_fault_handler {E} : M rv E unit := hpanic PTodo.
Definition interrupts_arch_handle {E} : M rv E unit := hpanic PTodo.
Definition handle_eirq {E} : M rv E unit := hpanic PTodo.
Definition handle_ssi {E} : M rv E unit := hpanic PTodo.

Definition sync_exception_handler {E} : M rv E unit :=
  let* trap_code := read_csr CSR_SCAUSE in
  let* hs := read_csr CSR_HSTATUS in
  if Z.land hs (Z.shiftl 1 7) =? 0 then hpanic PExplicit else
  let* trap_value := read_csr CSR_HTVAL in
  let* trap_ins := read_csr CSR_HTINST in
  let* trap_pc := read_csr CSR_SEPC in
  if trap_code =? ECALL_VU then hret tt
  else if trap_code =? ECALL_VS then sbi_vs_handler ;;; add_sepc 4
  else if trap_code =? LOAD_GUEST_PAGE_FAULT then guest_page_fault_handler
  else if trap_code =? STORE_GUEST_PAGE_FAULT then guest_page_fault_handler
  else
    let* raw_inst := read_inst trap_pc in
    add_sepc 4 ;;;
    hpanic PExplicit.

End sbi.

(** ** plic/mod.rs *)

Definition PLIC_MAX_CONTEXT : nat := 64.

Record Plic : Type := mkPlic { plic_base : Z; plic_size : Z; claim_complete : list Z }.

Definition Plic_new (base size : Z) : Plic := mkPlic base size (replicate PLIC_MAX_CONTEXT 0).

(** [PLIC.call_once]: the first call wins. *)
Definition init_plic {E} (plic_base plic_size : Z) : M (option Plic) E unit :=
  hmodify (λ o, match o with Some p => Some p | None => Some (Plic_new plic_base plic_size) end).

(** [plic::init_early]; [node] is what [host_fdt.find_node] answers for /soc/plic: the
    first register range of the node, with its size, where the tree has them. *)
Definition plic_init_early {E} (node : option (option (Z * option Z))) : M (option Plic) E unit :=
  let* plic_info := ounwrap node in
  let* reg := ounwrap plic_info in
  let* size := ounwrap reg.2 in
  init_plic reg.1 size.

(** A node with a register range gives the PLIC its base and size and clears every
    context, unless it was set before; anything missing is a panic. *)
Lemma plic_init_early_spec {E} node o :
  plic_init_early (E:=E) node o =
  match node with
  | Some (Some (base, Some size)) => ROk tt (Some (default (Plic_new base size) o))
  | _ => RPanic PUnwrap
  end.
Proof. by destruct node as [[[? [?|]]|]|], o. Qed.

End RvCpu.
