(* ===== verification/RvAsm.v ===== *)
(** * The assembly of the riscv64 port

    The trap vector and the entry of a guest, [_hyp_trap_vector] and [vcpu_arch_entry] of
    src/src/arch/riscv64/trap.S, and [arch_entry] of entry.rs, as lists of instructions
    with an executable meaning; and a trap as a whole, from the guest's registers through
    the handlers of [RvCpu] and back. *)

From stdpp Require Import functions.
From S2P Require Import Prelude PhysMem Addr RvCpu.

Module RvAsm.
Import RvCpu.

(** ** Instructions *)

Inductive insn : Type :=
| Csrrw (d : nat) (n : Z) (s : nat)        (* csrrw d, n, s *)
| Csrr (d : nat) (n : Z)                   (* csrr d, n *)
| Csrw (n : Z) (s : nat)                   (* csrw n, s *)
| Sd (s : nat) (off : Z) (b : nat)         (* sd s, off(b) *)
| Ld (d : nat) (off : Z) (b : nat)         (* ld d, off(b) *)
| Mv (d s : nat)                           (* mv d, s *)
| Li (d : nat) (v : Z)                     (* li d, v; la d, symbol *)
| Mul (d a b : nat)                        (* mul d, a, b *)
| Add (d a b : nat).                       (* add d, a, b *)

Record hart : Type := mkHart { hx : nat → Z; hcsr : gmap Z Z; hram : mem }.

(** x0 is zero, whatever is written to it. *)
Definition rx (c : hart) (i : nat) : Z := if decide (i = 0%nat) then 0 else hx c i.
Definition wx (d : nat) (v : Z) (c : hart) : hart := mkHart (<[d := v]> (hx c)) (hcsr c) (hram c).
Definition wcsr (n v : Z) (c : hart) : hart := mkHart (hx c) (<[n := v]> (hcsr c)) (hram c).

Definition exec1 (i : insn) (c : hart) : hart :=
  match i with
  | Csrrw d n s => let v := rx c s in wx d (csr n (hcsr c)) (wcsr n v c)
  | Csrr d n => wx d (csr n (hcsr c)) c
  | Csrw n s => wcsr n (rx c s) c
  | Sd s off b => mkHart (hx c) (hcsr c) (write64 (hram c) ((rx c b + off) mod U64) (rx c s))
  | Ld d off b => wx d (read64 (hram c) ((rx c b + off) mod U64)) c
  | Mv d s => wx d (rx c s) c
  | Li d v => wx d v c
  | Mul d a b => wx d ((rx c a * rx c b) mod U64) c
  | Add d a b => wx d ((rx c a + rx c b) mod U64) c
  end.

Fixpoint exec (l : list insn) (c : hart) : hart :=
  match l with
  | [] => c
  | i :: l' => exec l' (exec1 i c)
  end.

Lemma rv_exec_app l1 l2 c : exec (l1 ++ l2) c = exec l2 (exec l1 c).
Proof. revert c. induction l1 as [|i l1 IH]; intros c; [done|]. apply IH. Qed.

(** ** The code *)

Definition CSR_SSTATUS : Z := 0x100.

(** [sd xk, k*8(b)] for the registers [ks], and [ld xk, k*8(b)]. *)
Definition sds (ks : list nat) (b : nat) : list insn := (λ k, Sd k (Z.of_nat k * 8) b) <$> ks.
Definition lds (ks : list nat) (b : nat) : list insn := (λ k, Ld k (Z.of_nat k * 8) b) <$> ks.

(** The macro [VM_EXIT]; sp is x2, t0 is x5, a0 is x10. *)
Definition VM_EXIT : list insn :=
  [Csrrw 31 CSR_SSCRATCH 31] ++ sds (seq 0 31) 31 ++
  [Mv 2 31; Csrrw 31 CSR_SSCRATCH 31; Sd 31 (31 * 8) 2;
   Csrr 5 CSR_HSTATUS; Sd 5 (32 * 8) 2;
   Csrr 5 CSR_SSTATUS; Sd 5 (33 * 8) 2;
   Csrr 5 CSR_SEPC; Sd 5 (34 * 8) 2;
   Ld 2 (35 * 8) 2; Csrr 10 CSR_SSCRATCH].

(** The macro [VM_ENTRY], up to [sret]. *)
Definition VM_ENTRY : list insn :=
  [Csrr 31 CSR_SSCRATCH;
   Ld 1 (32 * 8) 31; Csrw CSR_HSTATUS 1;
   Ld 1 (33 * 8) 31; Csrw CSR_SSTATUS 1;
   Ld 1 (34 * 8) 31; Csrw CSR_SEPC 1] ++ lds (seq 0 32) 31.

(** [arch_entry], up to the call of [rust_main]; t0 to t2 are x5 to x7. *)
Definition rv_arch_entry (core_end : Z) : list insn :=
  [Li 5 core_end; Li 6 PER_CPU_SIZE; Mul 7 10 6; Add 7 6 7; Add 2 5 7].

(** [vcpu_arch_entry], the end of the trap vector; [ArchCpu::run] calls it. *)
Definition vcpu_arch_entry (c : hart) : hart := exec VM_ENTRY c.
Definition cpu_run (c : hart) : hart := vcpu_arch_entry c.

(** ** The CPU structure in memory *)

Definition word (m : mem) (p : Z) (k : nat) : Z := read64 m (p + 8 * Z.of_nat k).

(** The [ArchCpu] ([repr(C)]) at [p]. *)
Definition load_cpu (m : mem) (p : Z) : ArchCpu :=
  mkCpu (word m p <$> seq 0 32) (word m p 32) (word m p 33) (word m p 34) (word m p 35) (word m p 36).

Definition cpu_words (c : ArchCpu) : list Z := x c ++ [hstatus c; sstatus c; sepc c; stack_top c; cpuid c].

Definition store_words (m : mem) (p : Z) (ws : list Z) : mem :=
  foldl (λ m kw, write64 m (p + 8 * Z.of_nat kw.1) kw.2) m (imap pair ws).

Definition store_cpu (m : mem) (p : Z) (c : ArchCpu) : mem := store_words m p (cpu_words c).

(** ** A trap *)

(** [_hyp_trap_vector]: the registers are saved, the handler runs on the structure whose
    address is in a0 and on the CSRs, then the guest is entered. [bltz] looks at the sign
    of scause. What the compiled handler leaves in the registers is [junk]. *)
Definition hyp_trap_vector {E} (sync interrupt : M rv E unit) (junk : nat → Z) (timer : list Z) (c : hart) :
    res (hart * list Z) E unit :=
  let c1 := exec VM_EXIT c in
  let a0 := rx c1 10 in
  let handler := if 2 ^ 63 <=? csr CSR_SCAUSE (hcsr c1) then interrupt else sync in
  match handler (mkRv (load_cpu (hram c1) a0) (hcsr c1) timer) with
  | ROk _ s => ROk tt (vcpu_arch_entry (mkHart junk (r_csr s) (store_cpu (hram c1) a0 (r_cpu s))), r_timer s)
  | RErr e s => RErr e (mkHart junk (r_csr s) (store_cpu (hram c1) a0 (r_cpu s)), r_timer s)
  | RPanic p => RPanic p
  | RHang => RHang
  end.

(** ** What the code does *)

(** The registers x0 to x31 and the CSRs hold 64-bit values. *)
Definition u64_hart (c : hart) : Prop :=
  (∀ i, (i < 32)%nat → is_u64 (rx c i)) ∧ ∀ n v, hcsr c !! n = Some v → is_u64 v.

(** The structure does not wrap around. *)
Definition in_space (p : Z) : Prop := 0 ≤ p ∧ p + 8 * 37 < U64.

Lemma csr_u64 c n : u64_hart c → is_u64 (csr n (hcsr c)).
Proof.
  intros [_ H]. unfold csr. destruct (hcsr c !! n) eqn:Hn; [by eapply H|]. unfold is_u64, U64. simpl. lia.
Qed.

Lemma rx_wx d v c i : d ≠ 0%nat → rx (wx d v c) i = if decide (i = d) then v else rx c i.
Proof.
  intros Hd. unfold rx, wx. cbn [hx]. unfold insert, fn_insert.
  destruct (decide (i = 0%nat)) as [->|Hi]; [by rewrite decide_False by done|].
  destruct (decide (i = d)) as [->|Hid]; [by rewrite decide_True|]. by rewrite decide_False by done.
Qed.

Lemma wx_u64 d v c : d ≠ 0%nat → is_u64 v → u64_hart c → u64_hart (wx d v c).
Proof. intros Hd Hv [H1 H2]. split; [|done]. intros i Hi. rewrite rx_wx by done. case_decide; auto. Qed.

Lemma wcsr_u64 n v c : is_u64 v → u64_hart c → u64_hart (wcsr n v c).
Proof. intros Hv [H1 H2]. split; [done|]. cbn [wcsr hcsr].
  intros k w [[_ <-]|[_ H]]%lookup_insert_Some; [done|by eapply H2].
Qed.

Lemma word_write m p j v k :
  is_u64 v → word (write64 m (p + 8 * Z.of_nat j) v) p k = if decide (k = j) then v else word m p k.
Proof.
  intros Hv. unfold word. case_decide as Hk; [subst; by apply read_write64|]. apply read_write64_ne. lia.
Qed.

Lemma rv_word_addr p k : in_space p → (k < 37)%nat → (p + Z.of_nat k * 8) mod U64 = p + 8 * Z.of_nat k.
Proof. intros [H1 H2] Hk. rewrite Z.mod_small by lia. lia. Qed.

Lemma sds_spec ks b c p :
  rx c b = p → in_space p → Forall (λ k, (k < 32)%nat) ks → u64_hart c →
  let c' := exec (sds ks b) c in
  hx c' = hx c ∧ hcsr c' = hcsr c ∧
  ∀ k, word (hram c') p k = if decide (k ∈ ks) then rx c k else word (hram c) p k.
Proof.
  intros Hp Hs Hks Hu. revert c Hp Hu. induction Hks as [|j ks Hj Hks IH]; intros c Hp Hu.
  { split_and!; [done..|]. intros k. by rewrite decide_False by apply not_elem_of_nil. }
  set (c1 := exec1 (Sd j (Z.of_nat j * 8) b) c). destruct (IH c1) as (H1 & H2 & H3); [done|done|].
  split_and!; [done|done|]. intros k. cbn [sds fmap list_fmap exec]. fold (sds ks b). fold c1. rewrite H3.
  unfold c1 at 2. cbn [exec1 hram]. rewrite Hp, (rv_word_addr p j Hs ltac:(lia)), word_write by (by apply Hu).
  destruct (decide (k ∈ ks)) as [Hk|Hk]; [by rewrite decide_True by (by right)|].
  destruct (decide (k = j)) as [->|Hkj]; [by rewrite decide_True by (by left)|].
  rewrite decide_False; [done|]. intros [?|?]%elem_of_cons; done.
Qed.

Lemma lds_spec ks b c p :
  rx c b = p → in_space p → Forall (λ k, (k < 37)%nat) ks → b ∉ ks →
  let c' := exec (lds ks b) c in
  hram c' = hram c ∧ hcsr c' = hcsr c ∧
  ∀ k, hx c' k = if decide (k ∈ ks) then word (hram c) p k else hx c k.
Proof.
  intros Hp Hs Hks. revert c Hp. induction Hks as [|j ks Hj Hks IH]; intros c Hp Hb.
  { split_and!; [done..|]. intros k. by rewrite decide_False by apply not_elem_of_nil. }
  apply not_elem_of_cons in Hb as [Hbj Hb]. set (c1 := exec1 (Ld j (Z.of_nat j * 8) b) c).
  destruct (IH c1) as (H1 & H2 & H3); [|done|].
  { unfold rx in *. unfold c1. cbn [exec1 wx hx]. by rewrite fn_lookup_insert_ne. }
  split_and!; [done|done|]. intros k. cbn [lds fmap list_fmap exec]. fold (lds ks b). fold c1. rewrite H3.
  change (hram c1) with (hram c). destruct (decide (k ∈ ks)) as [Hk|Hk]; [by rewrite decide_True by (by right)|].
  unfold c1. cbn [exec1 wx hx]. rewrite Hp, (rv_word_addr p j Hs Hj). fold (word (hram c) p j).
  destruct (decide (k = j)) as [->|Hkj].
  - by rewrite fn_lookup_insert, decide_True by (by left).
  - rewrite fn_lookup_insert_ne by done. rewrite decide_False; [done|]. intros [?|?]%elem_of_cons; done.
Qed.

Lemma word_store m p ws k :
  Forall is_u64 ws → word (store_words m p ws) p k = default (word m p k) (ws !! k).
Proof.
  intros Hws. unfold store_words. induction ws as [|w ws IH] using rev_ind; [done|].
  apply Forall_app in Hws as [Hws Hw]. apply Forall_cons in Hw as [Hw _].
  rewrite imap_app, foldl_app. simpl. rewrite Nat.add_0_r, word_write by done.
  destruct (decide (k = length ws)) as [->|Hk].
  - by rewrite lookup_app_r, Nat.sub_diag by lia.
  - rewrite IH by done. destruct (decide (k < length ws)%nat).
    + by rewrite lookup_app_l.
    + rewrite (lookup_ge_None_2 ws) by lia. rewrite lookup_app_r by lia.
      destruct (k - length ws)%nat as [|j] eqn:E; [lia|done].
Qed.

(** The structure as it is in memory is the one that was stored. *)
Definition cpu_u64 (c : ArchCpu) : Prop := length (x c) = 32%nat ∧ Forall is_u64 (cpu_words c).

Lemma load_store_cpu m p c : cpu_u64 c → load_cpu (store_cpu m p c) p = c.
Proof.
  intros [Hl Hu]. destruct c as [xs h ss pc st id]. simpl in Hl. unfold load_cpu, store_cpu. f_equal;
    try (rewrite word_store by done; unfold cpu_words; cbn [x hstatus sstatus sepc stack_top cpuid];
         rewrite lookup_app_r by lia; rewrite Hl; done).
  apply list_eq. intros k. rewrite list_lookup_fmap. destruct (decide (k < 32)%nat) as [Hk|Hk].
  - rewrite lookup_seq_lt by done. simpl. rewrite word_store by done. unfold cpu_words. cbn [x].
    rewrite lookup_app_l by (rewrite Hl; lia). destruct (lookup_lt_is_Some_2 xs k) as [v ->]; [lia|done].
  - rewrite lookup_seq_ge by lia. simpl. symmetry. apply lookup_ge_None_2. lia.
Qed.

(** The guest's registers. *)
Definition guest_x (c : hart) : list Z := rx c <$> seq 0 32.

(** The end of [VM_EXIT], with the address of the structure in x31 and the guest's x31 in
    sscratch. *)
Definition vm_exit_tail : list insn :=
  [Mv 2 31; Csrrw 31 CSR_SSCRATCH 31; Sd 31 (31 * 8) 2;
   Csrr 5 CSR_HSTATUS; Sd 5 (32 * 8) 2;
   Csrr 5 CSR_SSTATUS; Sd 5 (33 * 8) 2;
   Csrr 5 CSR_SEPC; Sd 5 (34 * 8) 2;
   Ld 2 (35 * 8) 2; Csrr 10 CSR_SSCRATCH].

Lemma vm_exit_tail_spec c p :
  u64_hart c → in_space p → rx c 31 = p →
  let c' := exec vm_exit_tail c in
  hcsr c' = <[CSR_SSCRATCH := p]> (hcsr c) ∧ rx c' 10 = p ∧ rx c' 2 = word (hram c) p 35 ∧
  ∀ k, word (hram c') p k =
    if decide (k = 34%nat) then csr CSR_SEPC (hcsr c) else
    if decide (k = 33%nat) then csr CSR_SSTATUS (hcsr c) else
    if decide (k = 32%nat) then csr CSR_HSTATUS (hcsr c) else
    if decide (k = 31%nat) then csr CSR_SSCRATCH (hcsr c) else word (hram c) p k.
Proof.
  intros Hu Hs Hp c'. set (q := <[CSR_SSCRATCH := p]> (hcsr c)).
  assert (∀ n, n ≠ CSR_SSCRATCH → csr n q = csr n (hcsr c)) as Hq.
  { intros n Hn. unfold csr, q. by rewrite lookup_insert_ne. }
  assert (csr CSR_SSCRATCH q = p) as Hqs by (unfold csr, q; by rewrite lookup_insert_eq).
  set (m1 := write64 (hram c) (p + 8 * Z.of_nat 31) (csr CSR_SSCRATCH (hcsr c))).
  set (m2 := write64 m1 (p + 8 * Z.of_nat 32) (csr CSR_HSTATUS q)).
  set (m3 := write64 m2 (p + 8 * Z.of_nat 33) (csr CSR_SSTATUS q)).
  set (m4 := write64 m3 (p + 8 * Z.of_nat 34) (csr CSR_SEPC q)).
  pose proof (λ k, rv_word_addr p k Hs) as Ha.
  assert (c' = mkHart (<[10%nat := csr CSR_SSCRATCH q]> (<[2%nat := word m4 p 35]> (<[5%nat := csr CSR_SEPC q]>
    (<[5%nat := csr CSR_SSTATUS q]> (<[5%nat := csr CSR_HSTATUS q]> (<[31%nat := csr CSR_SSCRATCH (hcsr c)]>
    (<[2%nat := p]> (hx c)))))))) q m4) as ->.
  { unfold c', m4, m3, m2, m1, word, q. rewrite <- !Ha by lia. rewrite <- Hp. reflexivity. }
  assert (∀ k, word m4 p k =
    if decide (k = 34%nat) then csr CSR_SEPC (hcsr c) else
    if decide (k = 33%nat) then csr CSR_SSTATUS (hcsr c) else
    if decide (k = 32%nat) then csr CSR_HSTATUS (hcsr c) else
    if decide (k = 31%nat) then csr CSR_SSCRATCH (hcsr c) else word (hram c) p k) as Hw.
  { intros k. unfold m4, m3, m2, m1. rewrite !Hq by done. rewrite !word_write by (by apply csr_u64). done. }
  split_and!; [done|exact Hqs|exact (Hw 35%nat)|exact Hw].
Qed.

(** [VM_EXIT] saves the guest's registers and the three CSRs in the structure whose
    address is in sscratch, passes that address in a0 and switches to the CPU's stack. *)
Lemma vm_exit_saves c p :
  u64_hart c → in_space p → hcsr c !! CSR_SSCRATCH = Some p →
  let c' := exec VM_EXIT c in
  load_cpu (hram c') p =
    mkCpu (guest_x c) (csr CSR_HSTATUS (hcsr c)) (csr CSR_SSTATUS (hcsr c)) (csr CSR_SEPC (hcsr c))
      (word (hram c) p 35) (word (hram c) p 36) ∧
  rx c' 10 = p ∧ rx c' 2 = word (hram c) p 35 ∧ hcsr c' = hcsr c.
Proof.
  intros Hu Hs Hp. unfold VM_EXIT. rewrite !rv_exec_app.
  set (c1 := wx 31 (csr CSR_SSCRATCH (hcsr c)) (wcsr CSR_SSCRATCH (rx c 31) c)).
  change (exec [Csrrw 31 CSR_SSCRATCH 31] c) with c1.
  assert (rx c1 31 = p) as H31 by (unfold c1; rewrite rx_wx by done; unfold csr; by rewrite Hp).
  assert (∀ k, (k < 31)%nat → rx c1 k = rx c k) as Hlow.
  { intros k Hk. unfold c1. rewrite rx_wx by done. by rewrite decide_False by lia. }
  assert (u64_hart c1) as Hu1 by (apply wx_u64; [done|by apply csr_u64|apply wcsr_u64; [apply Hu; lia|done]]).
  destruct (sds_spec (seq 0 31) 31 c1 p H31 Hs) as (Hx & Hc & Hm); [|done|].
  { apply Forall_seq. lia. }
  revert Hx Hc Hm. cbv zeta. generalize (exec (sds (seq 0 31) 31) c1). intros c2 Hx Hc Hm.
  assert (csr CSR_SSCRATCH (hcsr c2) = rx c 31) as Hsc by (rewrite Hc; unfold csr; cbn [c1 wx wcsr hcsr]; by rewrite lookup_insert_eq).
  assert (rx c2 31 = p) as H31' by (unfold rx in *; by rewrite Hx).
  assert (∀ n, n ≠ CSR_SSCRATCH → csr n (hcsr c2) = csr n (hcsr c)) as Hcsr.
  { intros n Hn. rewrite Hc. unfold csr. cbn [c1 wx wcsr hcsr]. by rewrite lookup_insert_ne. }
  assert (<[CSR_SSCRATCH := p]> (hcsr c2) = hcsr c) as Hback.
  { rewrite Hc. cbn [c1 wx wcsr hcsr]. rewrite insert_insert_eq. by apply insert_id. }
  assert (u64_hart c2) as Hu2.
  { split; [|rewrite Hc; apply Hu1]. intros i Hi. unfold rx. rewrite Hx. by apply Hu1. }
  destruct (vm_exit_tail_spec c2 p Hu2 Hs H31') as (T1 & T2 & T3 & T4). fold vm_exit_tail. cbv zeta in *.
  revert T1 T2 T3 T4. generalize (exec vm_exit_tail c2). intros c3 T1 T2 T3 T4.
  split_and!; [|exact T2|rewrite T3, Hm; done|by rewrite T1].
  unfold load_cpu. rewrite !T4. cbn [decide]. rewrite !Hcsr by done. f_equal; [|by rewrite Hm..].
  apply list_fmap_ext. intros k j [-> Hk]%lookup_seq. rewrite Nat.add_0_l, T4.
  rewrite !decide_False by lia. destruct (decide (k = 31%nat)) as [->|Hne]; [done|].
  rewrite Hm, decide_True by (apply elem_of_seq; lia). apply Hlow. lia.
Qed.

(** [VM_ENTRY] loads the guest's registers and the three CSRs from the structure. *)
Lemma vm_entry_loads c p :
  in_space p → hcsr c !! CSR_SSCRATCH = Some p →
  let c' := exec VM_ENTRY c in
  let g := load_cpu (hram c) p in
  guest_x c' = <[0%nat := 0]> (x g) ∧ hram c' = hram c ∧
  hcsr c' = <[CSR_SEPC := sepc g]> (<[CSR_SSTATUS := sstatus g]> (<[CSR_HSTATUS := hstatus g]> (hcsr c))).
Proof.
  intros Hs Hp. unfold VM_ENTRY. rewrite rv_exec_app. cbv zeta.
  set (q := <[CSR_SEPC := word (hram c) p 34]> (<[CSR_SSTATUS := word (hram c) p 33]>
    (<[CSR_HSTATUS := word (hram c) p 32]> (hcsr c)))).
  set (c1 := mkHart (<[1%nat := word (hram c) p 34]> (<[1%nat := word (hram c) p 33]> (<[1%nat := word (hram c) p 32]>
    (<[31%nat := p]> (hx c))))) q (hram c)).
  assert (exec [Csrr 31 CSR_SSCRATCH; Ld 1 (32 * 8) 31; Csrw CSR_HSTATUS 1; Ld 1 (33 * 8) 31; Csrw CSR_SSTATUS 1;
    Ld 1 (34 * 8) 31; Csrw CSR_SEPC 1] c = c1) as ->.
  { assert (csr CSR_SSCRATCH (hcsr c) = p) as Hc by (unfold csr; by rewrite Hp).
    unfold c1, q, word. rewrite <- !(rv_word_addr p _ Hs) by lia. rewrite <- Hc. reflexivity. }
  change (lds (seq 0 32) 31) with (lds (seq 0 31) 31 ++ [Ld 31 (Z.of_nat 31 * 8) 31]). rewrite rv_exec_app.
  destruct (lds_spec (seq 0 31) 31 c1 p eq_refl Hs) as (H1 & H2 & H3); [apply Forall_seq; lia| |].
  { rewrite elem_of_seq. lia. }
  revert H1 H2 H3. cbv zeta. generalize (exec (lds (seq 0 31) 31) c1). intros c2 H1 H2 H3.
  assert (rx c2 31 = p) as H31 by (unfold rx; cbn [decide]; by rewrite H3).
  cbn [exec exec1]. rewrite H31, (rv_word_addr p 31 Hs) by lia. fold (word (hram c2) p 31). rewrite H1.
  change (hram c1) with (hram c) in *. split_and!; [|done|done].
  unfold guest_x, load_cpu. cbn [x]. apply list_eq. intros k.
  destruct (decide (k < 32)%nat) as [Hk|Hk].
  - destruct (decide (k = 0%nat)) as [->|H0]; [reflexivity|].
    rewrite list_lookup_insert_ne by done. rewrite !list_lookup_fmap, !lookup_seq_lt by done.
    cbn [fmap option_fmap option_map]. rewrite Nat.add_0_l, rx_wx by done. f_equal.
    destruct (decide (k = 31%nat)) as [->|H31']; [done|]. unfold rx. rewrite decide_False by done.
    by rewrite H3, decide_True by (apply elem_of_seq; lia).
  - rewrite !lookup_ge_None_2; [done|..]; rewrite ?length_insert, length_fmap, length_seq; lia.
Qed.

(** The initial stack pointer. *)
Lemma rv_entry_stack core_end c : rx (exec (rv_arch_entry core_end) c) 2 = arch_entry_sp core_end (rx c 10).
Proof. reflexivity. Qed.

(** A trap whose handler returns: the guest continues with the registers and CSRs the
    handler has left in the CPU structure, and the structure stays where it is. *)
Lemma trap_returns {E} (sync interrupt : M rv E unit) junk timer c p s :
  u64_hart c → in_space p → hcsr c !! CSR_SSCRATCH = Some p → csr CSR_SCAUSE (hcsr c) < 2 ^ 63 →
  sync (mkRv (mkCpu (guest_x c) (csr CSR_HSTATUS (hcsr c)) (csr CSR_SSTATUS (hcsr c)) (csr CSR_SEPC (hcsr c))
                (word (hram c) p 35) (word (hram c) p 36)) (hcsr c) timer) = ROk tt s →
  cpu_u64 (r_cpu s) → r_csr s !! CSR_SSCRATCH = Some p →
  ∃ c', hyp_trap_vector sync interrupt junk timer c = ROk tt (c', r_timer s) ∧
    guest_x c' = <[0%nat := 0]> (x (r_cpu s)) ∧ load_cpu (hram c') p = r_cpu s ∧
    hcsr c' = <[CSR_SEPC := sepc (r_cpu s)]> (<[CSR_SSTATUS := sstatus (r_cpu s)]>
                (<[CSR_HSTATUS := hstatus (r_cpu s)]> (r_csr s))).
Proof.
  intros Hu Hs Hp Hcause Hsync Hg Hp'. destruct (vm_exit_saves c p Hu Hs Hp) as (H1 & H2 & _ & H4).
  unfold hyp_trap_vector. cbv zeta in *. rewrite H2, H4, (proj2 (Z.leb_gt _ _)) by done. rewrite H1, Hsync.
  set (c2 := mkHart junk (r_csr s) _). destruct (vm_entry_loads c2 p Hs Hp') as (E1 & E2 & E3). cbv zeta in *.
  assert (load_cpu (hram c2) p = r_cpu s) as Hl by (by apply load_store_cpu). rewrite Hl in E1, E3.
  exists (vcpu_arch_entry c2). unfold vcpu_arch_entry. split_and!; [done|done|by rewrite E2|done].
Qed.

End RvAsm.
