(* ===== verification/RvMm.v ===== *)
(** * The hypervisor's own address space on riscv64 (src/src/arch/riscv64/mm.rs)

    [init_hv_page_table] identity-maps the memory and the devices the device tree
    names. The device tree (crate [fdt]) is a parameter: what its queries answer. *)

From stdpp Require Import strings.
From S2P Require Import Prelude HvError Addr Region Pte PtIface BTreeMap MemorySet MemoryDrop.

Open Scope Z_scope.

(** A [reg] entry: starting address and, if the tree gives one, size. *)
Definition fdt_reg : Type := Z * option Z.

Record Fdt : Type := mkFdt {
  memory_regions : list fdt_reg;                      (* fdt.memory().regions() *)
  find_all_nodes : string → list (option fdt_reg)     (* the first reg of each node *)
}.

Definition RW : Z := Z.lor READ WRITE.
Definition RWX : Z := Z.lor (Z.lor READ WRITE) EXECUTE.

(** What is mapped of a device: its address and size, identity mapped. *)
Definition identity_region (paddr size fl : Z) : MemoryRegion :=
  new_with_offset_mapper paddr paddr size fl.

Section mm.
  Context {W PT : Type} {G : GenericPageTable W PT}.
  Abbreviation mss := (W * MemorySet PT)%type.

(** One [for node in fdt.find_all_nodes(..)] loop; [size_of] is what the loop makes
    of the size. *)
Fixpoint probe (size_of : Z → M mss HvError Z) (fl : Z) (nodes : list (option fdt_reg)) :
    M mss HvError unit :=
  match nodes with
  | [] => hret tt
  | node :: nodes' =>
      match node with
      | None => hret tt
      | Some (paddr, sz) =>
          let* sz := ounwrap sz in
          let* size := size_of sz in
          ms_insert (identity_region paddr size fl)
      end ;;;
      probe size_of fl nodes'
  end.

(** The insertions, in the order of the code. *)
Definition map_devices (fdt : Fdt) : M mss HvError unit :=
  let* mem_region := ounwrap (head (memory_regions fdt)) in
  let* sz := ounwrap mem_region.2 in
  ms_insert (identity_region mem_region.1 sz RWX) ;;;
  probe hret RW (find_all_nodes fdt "/soc/virtio_mmio") ;;;
  probe (λ sz, uadd sz 0x1000) RWX (find_all_nodes fdt "/soc/test") ;;;
  probe align_up RW (find_all_nodes fdt "/soc/uart") ;;;
  probe hret RW (find_all_nodes fdt "/soc/clint") ;;;
  probe hret RW (find_all_nodes fdt "/soc/plic") ;;;
  probe hret RW (find_all_nodes fdt "/soc/pci").

(** Dropping the set that was being built, and going on with [r]. *)
Definition dropped (s1 : mss) (r : W → res (W * option (MemorySet PT)) HvError unit) :
    res (W * option (MemorySet PT)) HvError unit :=
  match ms_drop s1 with
  | ROk _ (w', _) => r w'
  | RErr _ _ => RPanic PUnwrap
  | RPanic p => RPanic p
  | RHang => RHang
  end.

(** [init_hv_page_table]: the state also has [HV_PT]; an early return drops the
    set that was being built, and so does a [call_once] that is not the first. *)
Definition init_hv_page_table (fdt : Fdt) : M (W * option (MemorySet PT)) HvError unit :=
  λ s, match ms_new 3 s.1 with
       | ROk hv_pt w =>
           match map_devices fdt (w, hv_pt) with
           | ROk _ (w', hv_pt') =>
               match s.2 with
               | Some old => dropped (w', hv_pt') (λ w'', ROk tt (w'', Some old))
               | None => ROk tt (w', Some hv_pt')
               end
           | RErr e s1 => dropped s1 (λ w', RErr e (w', s.2))
           | RPanic p => RPanic p
           | RHang => RHang
           end
       | RErr e w => RErr e (w, s.2)
       | RPanic p => RPanic p
       | RHang => RHang
       end.

(** ** What is mapped *)

(** The size a loop makes of a size, when it does not overflow. *)
Definition node_region (size_of : Z → Z) (fl : Z) (node : option fdt_reg) : list MemoryRegion :=
  match node with
  | Some (paddr, Some sz) => [identity_region paddr (size_of sz) fl]
  | _ => []
  end.

Definition node_regions (size_of : Z → Z) (fl : Z) (nodes : list (option fdt_reg)) :
    list MemoryRegion :=
  concat (node_region size_of fl <$> nodes).

(** The regions of a device tree. *)
Definition fdt_regions (fdt : Fdt) : list MemoryRegion :=
  match head (memory_regions fdt) with
  | Some (a, Some sz) => [identity_region a sz RWX]
  | _ => []
  end ++
  node_regions id RW (find_all_nodes fdt "/soc/virtio_mmio") ++
  node_regions (λ sz, sz + 0x1000) RWX (find_all_nodes fdt "/soc/test") ++
  node_regions round_up RW (find_all_nodes fdt "/soc/uart") ++
  node_regions id RW (find_all_nodes fdt "/soc/clint") ++
  node_regions id RW (find_all_nodes fdt "/soc/plic") ++
  node_regions id RW (find_all_nodes fdt "/soc/pci").

Context {GL : GenericPageTableLaws W PT}.
Implicit Types (s : mss).

(** From [m] to [m'] the non-empty regions of [rs] are added and nothing else. *)
Definition added (rs : list MemoryRegion) (m m' : gmap Z MemoryRegion) : Prop :=
  ∀ k r, m' !! k = Some r ↔ m !! k = Some r ∨ (r ∈ rs ∧ k = start r ∧ size r ≠ 0).

Lemma added_nil m : added [] m m.
Proof. intros k r. split; [by left|]. intros [?|[?%not_elem_of_nil _]]; done. Qed.

Lemma added_app rs rs' m m' m'' : added rs m m' → added rs' m' m'' → added (rs ++ rs') m m''.
Proof. intros H1 H2 k r. rewrite (H2 k r), (H1 k r), elem_of_app. tauto. Qed.

Lemma added_one m r : m !! start r = None → size r ≠ 0 → added [r] m (<[start r := r]> m).
Proof.
  intros Hno Hsz k r'. rewrite lookup_insert_Some, list_elem_of_singleton. split.
  - intros [[<- <-]|[_ ?]]; auto.
  - intros [Hk|(-> & -> & _)]; [|by left]. right. split; [|done]. intros <-. congruence.
Qed.

Definition all_mappable (rs : list MemoryRegion) : Prop :=
  Forall (region_mappable gpt_format gpt_limit) rs.

(** What a part of the probing does: it ends in a set with the regions [rs] added,
    or fails leaving a table that can still be used. *)
Definition adds (rs : list MemoryRegion) (m : M mss HvError unit) : Prop :=
  all_mappable rs → ∀ s, ms_inv s →
    wpe m (λ _ s', ms_inv s' ∧ added rs (ms_map s) (ms_map s')) (λ _ s', ms_weak s') s.

Lemma adds_bind rs rs' m k : adds rs m → adds rs' k → adds (rs ++ rs') (m ;;; k).
Proof.
  intros Hm Hk [H1 H2]%Forall_app s Hs. apply wpe_bind.
  eapply wpe_mono; [by apply Hm| |done]. intros _ s1 [Hs1 Hm1].
  eapply wpe_mono; [by apply Hk| |done]. intros _ s2 [Hs2 Hm2]. split; [done|by eapply added_app].
Qed.

Lemma adds_insert r : adds [r] (ms_insert r).
Proof using GL.
  intros Hr s Hs. apply Forall_cons in Hr as [Hr _]. apply wpe_wp.
  eapply wp_mono; [by apply ms_insert_spec| |].
  2:{ intros e s' (_ & [(_ & -> & _)|(_ & _ & Hp)]); [by apply ms_inv_weak|].
      by eapply insert_failed_weak. }
  intros _ s' (Hs' & _ & Hmap). split; [done|].
  destruct (Z.eqb_spec (size r) 0) as [Hz|Hnz].
  - subst. intros k r'. rewrite list_elem_of_singleton. split; [by left|].
    intros [?|(-> & _ & ?)]; done.
  - destruct Hmap as [Hfree ->]. apply added_one; [|done].
    destruct (ms_map s !! start r) as [r'|] eqn:E; [|done]. exfalso.
    destruct (proj1 (ms_regions_ok _ Hs) _ _ E) as (Heq & Hsz & _). apply (Hfree _ _ E).
    destruct Hr as (_ & _ & _ & _ & Hs0 & _). exists (start r). unfold in_region. lia.
Qed.

Lemma adds_ret : adds [] (hret tt).
Proof. intros _ s Hs. split; [done|apply added_nil]. Qed.

(** A computation of the size, whenever it returns. *)
Definition sizes (f : Z → M mss HvError Z) (g : Z → Z) : Prop :=
  ∀ sz s, is_u64 sz →
          match f sz s with
          | ROk v s' => v = g sz ∧ s' = s
          | RPanic _ => True
          | RErr _ _ | RHang => False
          end.

(** The sizes are [usize] values. *)
Definition nodes_wf (nodes : list (option fdt_reg)) : Prop :=
  ∀ paddr sz, Some (paddr, Some sz) ∈ nodes → is_u64 sz.

Lemma adds_probe f g fl nodes :
  sizes f g → nodes_wf nodes → adds (node_regions g fl nodes) (probe f fl nodes).
Proof using GL.
  intros Hf. induction nodes as [|node nodes IH]; intros Hwf; [apply adds_ret|]. simpl.
  change (node_regions g fl (node :: nodes)) with (node_region g fl node ++ node_regions g fl nodes).
  apply adds_bind; [|apply IH; intros p z Hz; apply (Hwf p); by right]. destruct node as [[paddr [sz|]]|]; simpl.
  - intros Hr s Hs. apply wpe_bind. simpl. apply wpe_bind. specialize (Hf sz s (Hwf paddr sz ltac:(by left))). unfold wpe at 1.
    destruct (f sz s) as [v s'| | |]; try done. destruct Hf as [-> ->]. by apply adds_insert.
  - by intros _ s Hs.
  - apply adds_ret.
Qed.

Lemma sizes_id : sizes hret id.
Proof. by intros sz s. Qed.

Lemma sizes_add : sizes (λ sz, uadd sz 0x1000) (λ sz, sz + 0x1000).
Proof. intros sz s _. unfold uadd. by destruct (_ <? _). Qed.

Lemma sizes_align_up : sizes align_up round_up.
Proof.
  intros sz s Hsz. destruct (Z.lt_ge_cases (sz + PAGE_SIZE) U64) as [Hlt|Hge].
  - rewrite align_up_ok; [done|apply Hsz|done].
  - unfold align_up, hbind, uadd. by rewrite (proj2 (Z.ltb_ge _ _)).
Qed.

Record fdt_wf (fdt : Fdt) : Prop := {
  fdt_nodes p : nodes_wf (find_all_nodes fdt p)
}.

Lemma map_devices_spec fdt : fdt_wf fdt → adds (fdt_regions fdt) (map_devices fdt).
Proof using GL.
  intros [Hwf] Hr s Hs. unfold map_devices, fdt_regions in *.
  destruct (head (memory_regions fdt)) as [[a [sz|]]|]; try done.
  apply wpe_bind. simpl. apply wpe_bind. simpl. revert Hr s Hs.
  apply adds_bind; [apply adds_insert|].
  repeat (apply adds_bind; [by apply adds_probe; auto using sizes_id, sizes_add, sizes_align_up|]).
  by apply adds_probe; auto using sizes_id.
Qed.


(** What the device tree names is mapped to itself: an address of a region
    translates to the same address with the region's flags. *)
Lemma identity_query s r va :
  ms_inv s → ms_map s !! start r = Some r → (∃ sz fl, r = identity_region (start r) sz fl) →
  in_region r va → va < 2 ^ 48 →
  ∃ ps, page_table_query va s = ROk (va, ef_norm gpt_format (flags r), ps) s.
Proof using GL.
  intros Hs Hr (sz & fl & Heq) Hin H48.
  destruct (proj1 (ms_regions_ok _ Hs) _ _ Hr) as (_ & _ & (_ & _ & _ & H0 & _ & Hlim & _)).
  assert (0 ≤ va < gpt_limit) as Hva by (unfold in_region in Hin; lia).
  assert (mapper r = Offset 0) as Hm.
  { rewrite Heq. unfold identity_region, new_with_offset_mapper, wrapping_sub. simpl.
    by rewrite Z.sub_diag. }
  assert (map_fn (mapper r) va = va) as Hmf.
  { rewrite Hm. simpl. unfold wrapping_sub. rewrite Z.sub_0_r. apply Z.mod_small.
    pose proof gpt_limit_u64. lia. }
  rewrite (ms_query_view s va Hs Hva). destruct (ms_exact _ Hs va Hva) as [Hex _].
  destruct (region_view_offset _ r _ _ _ va 0 gpt_format_ok Hm eq_refl ltac:(by rewrite Hmf)
              (Hex _ _ Hr Hin)) as [ps Hv].
  exists ps. rewrite Hmf in Hv. unfold ms_view in *. by rewrite Hv.
Qed.

(** The whole initialisation, given what [MemorySet::new] gives. *)
Lemma init_hv_page_table_spec fdt w :
  fdt_wf fdt → all_mappable (fdt_regions fdt) →
  wpe (ms_new 3) (λ ms w1, ms_inv (w1, ms) ∧ ms_map (w1, ms) = ∅) (λ _ _, True) w →
  match init_hv_page_table fdt (w, None) with
  | ROk _ (w', Some ms) =>
      ms_inv (w', ms) ∧
      ∀ k r, ms_map (w', ms) !! k = Some r ↔ r ∈ fdt_regions fdt ∧ k = start r ∧ size r ≠ 0
  | ROk _ (_, None) => False
  | RErr _ (_, hv) => hv = None
  | RPanic _ => True
  | RHang => False
  end.
Proof using GL.
  intros Hwf Hmap Hnew. unfold init_hv_page_table, wpe in *. simpl.
  destruct (ms_new 3 w) as [ms w1| | |]; try done. destruct Hnew as [Hinv Hempty].
  pose proof (map_devices_spec fdt Hwf Hmap (w1, ms) Hinv) as Hd. unfold wpe in Hd.
  destruct (map_devices fdt (w1, ms)) as [[] [w2 ms2]|e s2| |]; try done.
  - destruct Hd as [Hinv2 Had]. split; [done|]. intros k r. rewrite (Had k r), Hempty.
    rewrite lookup_empty. split; [intros [?|?]; done|by right].
  - pose proof (ms_drop_weak s2 Hd) as Hdrop. unfold wpp in Hdrop. unfold dropped.
    by destruct (ms_drop s2) as [[] [w3 ms3]| | |].
Qed.

(** Every region of a device tree is identity mapped. *)
Lemma fdt_regions_identity fdt r :
  r ∈ fdt_regions fdt → ∃ sz fl, r = identity_region (start r) sz fl.
Proof.
  assert (∀ g fl nodes, r ∈ node_regions g fl nodes → ∃ sz fl, r = identity_region (start r) sz fl)
    as Hn.
  { intros g fl nodes. unfold node_regions. intros Hin. apply list_elem_of_In, in_concat in Hin as (l & Hl & Hr).
    apply list_elem_of_In, list_elem_of_fmap in Hl as (node & -> & _). apply list_elem_of_In in Hr.
    destruct node as [[p [sz|]]|]; simpl in Hr; try by apply not_elem_of_nil in Hr.
    apply list_elem_of_singleton in Hr as ->. by eexists _, _. }
  unfold fdt_regions. rewrite !elem_of_app. intros [Hm|Hrest].
  - destruct (head (memory_regions fdt)) as [[a [sz|]]|]; try by apply not_elem_of_nil in Hm.
    apply list_elem_of_singleton in Hm as ->. by eexists _, _.
  - destruct Hrest as [?|[?|[?|[?|[?|?]]]]]; by eapply Hn.
Qed.

End mm.
