(* ===== verification/Demo.v ===== *)
(** * Concrete instances for the witnesses

    A small machine: a pool of 64 frames from 0x40200000 managed by the first-fit
    bitmap [BitSet], stage-2 page tables with three levels, and plain memory as the
    device bus. *)

From S2P Require Import Prelude PhysMem HvError Addr Frame Region Pte S2pt PtIface Paging PagingWf.
From S2P Require Import PagingSpec PagingLoop PtInstance BTreeMap MemorySet.
Export S2PT(s2_pte, s2_pte_laws).

Definition demo_fa : FrameAllocator (gset Z) := mkFA 0x40200000 (ba_insert 0 64 ba_default).
Definition demo_world : world (gset Z) := mkW ∅ demo_fa.

Lemma demo_fa_test j : ba_test (fa_inner demo_fa) j = bool_decide (0 ≤ j < 64).
Proof.
  unfold demo_fa. cbn [fa_inner]. rewrite ba_insert_law by (unfold BA_CAP; lia).
  by rewrite ba_default_law, orb_false_r.
Qed.

Lemma demo_fa_inv : fa_inv 64 demo_fa.
Proof.
  unfold fa_inv. unfold PAGE_SIZE, BA_CAP. split_and!; try done.
  intros j. rewrite demo_fa_test. by intros Hj%bool_decide_eq_true.
Qed.

Lemma demo_free : has_free demo_world.
Proof. exists 0. by rewrite demo_fa_test. Qed.

(** The state after [HvPageTable::new(3)]. *)
Definition run_new (w : world (gset Z)) : world (gset Z) * HvPageTable :=
  match unlocked_new (E:=HvError) 3 w with
  | ROk pt w' => (w', pt)
  | _ => (w, mkUnlocked (mkImmut (mkFrame 0 0) 0) [])
  end.
Definition demo_s : world (gset Z) * HvPageTable := run_new demo_world.

Lemma L3 : 3%nat = 3%nat ∨ 3%nat = 4%nat.
Proof. by left. Qed.

Lemma demo_new : new_pt_post (P:=s2_pte) 64 3 demo_world demo_s.2 demo_s.1.
Proof.
  pose proof (unlocked_new_spec (P:=s2_pte) (E:=HvError) 64 3 L3 demo_world demo_fa_inv demo_free) as H.
  unfold demo_s, run_new. unfold wp in H. change (Z.of_nat 3) with 3 in H.
  by destruct (unlocked_new 3 demo_world).
Qed.

Lemma demo_pt_ok : pt_ok (P:=s2_pte) 64 3 demo_s.
Proof. destruct demo_new as [H _]. by destruct demo_s. Qed.

(** Two regions of guest memory: 4M of RAM and an IO page. *)
Definition demo_ram : MemoryRegion :=
  new_with_offset_mapper 0x40000000 0x50000000 0x400000 (Z.lor (Z.lor READ WRITE) EXECUTE).
Definition demo_io : MemoryRegion :=
  new_with_offset_mapper 0x9000000 0x9000000 0x1000 (Z.lor (Z.lor READ WRITE) IO).

Lemma demo_mappable v p sz fl :
  v mod PAGE_SIZE = 0 → sz mod PAGE_SIZE = 0 → 0 ≤ v → 0 ≤ sz → v + sz ≤ va_limit 3 →
  region_mappable (pte_format (P:=s2_pte)) (va_limit 3) (new_with_offset_mapper v p sz fl).
Proof. intros. split_and!; try done. apply mapper_ok_offset. Qed.

Lemma demo_ram_mappable : region_mappable (pte_format (P:=s2_pte)) (va_limit 3) demo_ram.
Proof. by apply demo_mappable. Qed.
Lemma demo_io_mappable : region_mappable (pte_format (P:=s2_pte)) (va_limit 3) demo_io.
Proof. by apply demo_mappable. Qed.

(** An empty address space over the new table. *)
#[global] Instance demo_laws : GenericPageTableLaws (world (gset Z)) HvPageTable :=
  hv_gpt_laws (P:=s2_pte) 64 3 L3.

Definition demo_ms : world (gset Z) * MemorySet HvPageTable := (demo_s.1, mkMS bt_empty demo_s.2).

Lemma demo_ms_inv : ms_inv demo_ms.
Proof.
  split.
  - constructor.
  - unfold demo_ms, pt_part. simpl. destruct demo_new as [H _]. exact H.
  - by split.
  - intros va Hva. split; [done|]. intros _. destruct demo_new as (_ & _ & _ & Hn & _).
    by apply Hn.
Qed.
