(* ===== verification/PteProps.v ===== *)
(** * Properties of the page-table entries of both stages *)

From S2P Require Import Prelude Addr Region Pte S2pt S1pt.

(** C22: a stage-2 leaf written with [set_addr] and [set_flags] reads back its
    page-aligned address, READ, WRITE and IO as given, its size bit, and is present;
    the other flags (EXECUTE among them) are not kept. *)
Theorem s2_entry_roundtrip paddr fl huge :
  paddr mod PAGE_SIZE = 0 → 0 ≤ paddr < 2 ^ 48 →
  let e := S2PT.set_flags (S2PT.set_addr 0 paddr) fl huge in
  S2PT.addr e = paddr ∧ S2PT.is_huge e = huge ∧ S2PT.is_present e = true ∧
  S2PT.is_unused e = false ∧
  ∃ f, S2PT.entry_flags e = Some f ∧ contains f READ = contains fl READ ∧
       contains f WRITE = contains fl WRITE ∧ contains f IO = contains fl IO ∧
       contains f EXECUTE = false.
Proof.
  intros Ha Hr e. assert (is_u64 paddr) as Hu by (unfold is_u64, U64; lia).
  destruct (@pte_leaf_law S2PT.s2_pte S2PT.s2_pte_laws paddr fl huge Hu eq_refl) as (_ & Hz & Hp & _ & Had & Hf).
  cbn in Hp, Had, Hf. fold e in Hp, Had, Hf, Hz. rewrite phys_mask_id in Had by done.
  split_and!; try done; [apply S2PT.s2_leaf_huge|by apply Z.eqb_neq|]. exists (S2PT.norm_flags fl). split; [done|].
  unfold S2PT.norm_flags. destruct (contains fl READ), (contains fl WRITE), (contains fl IO); done.
Qed.

(** The same for the hypervisor's own stage-1 entries: the address, the size
    bit, READ, WRITE and IO read back as they were given. *)
Theorem s1_entry_roundtrip paddr fl huge :
  paddr mod PAGE_SIZE = 0 → 0 ≤ paddr < 2 ^ 48 →
  let e := S1PT.set_flags (S1PT.set_addr 0 paddr) fl huge in
  S1PT.addr e = paddr ∧ S1PT.is_huge e = huge ∧ S1PT.is_present e = true ∧
  S1PT.is_unused e = false ∧
  ∃ f, S1PT.entry_flags e = Some f ∧ contains f READ = contains fl READ ∧
       contains f WRITE = contains fl WRITE ∧ contains f IO = contains fl IO ∧
       contains f EXECUTE = false.
Proof.
  intros Ha Hr e. assert (is_u64 paddr) as Hu by (unfold is_u64, U64; lia).
  destruct (@pte_leaf_law S1PT.s1_pte S1PT.s1_pte_laws paddr fl huge Hu eq_refl) as (_ & Hz & Hp & _ & Had & Hf).
  cbn in Hp, Had, Hf. fold e in Hp, Had, Hf, Hz. rewrite phys_mask_id in Had by done.
  split_and!; try done; [apply S1PT.s1_leaf_huge|by apply Z.eqb_neq|]. exists (S1PT.norm_flags fl). split; [done|].
  unfold S1PT.norm_flags. destruct (contains fl READ), (contains fl WRITE), (contains fl IO); done.
Qed.

Lemma s2_entry_roundtrip_witness :
  let e := S2PT.set_flags (S2PT.set_addr 0 0x50200000) (Z.lor READ WRITE) true in
  S2PT.addr e = 0x50200000 ∧ S2PT.is_huge e = true ∧ S2PT.is_present e = true ∧
  S2PT.is_unused e = false ∧
  ∃ f, S2PT.entry_flags e = Some f ∧ contains f READ = contains (Z.lor READ WRITE) READ ∧
       contains f WRITE = contains (Z.lor READ WRITE) WRITE ∧
       contains f IO = contains (Z.lor READ WRITE) IO ∧ contains f EXECUTE = false.
Proof. apply (s2_entry_roundtrip 0x50200000 (Z.lor READ WRITE) true); done. Defined.

Lemma s1_entry_roundtrip_witness :
  let e := S1PT.set_flags (S1PT.set_addr 0 0x50200000) (Z.lor READ WRITE) true in
  S1PT.addr e = 0x50200000 ∧ S1PT.is_huge e = true ∧ S1PT.is_present e = true ∧
  S1PT.is_unused e = false ∧
  ∃ f, S1PT.entry_flags e = Some f ∧ contains f READ = contains (Z.lor READ WRITE) READ ∧
       contains f WRITE = contains (Z.lor READ WRITE) WRITE ∧
       contains f IO = contains (Z.lor READ WRITE) IO ∧ contains f EXECUTE = false.
Proof. apply (s1_entry_roundtrip 0x50200000 (Z.lor READ WRITE) true); done. Defined.
