(* ===== verification/FrameProps.v ===== *)
(** * Properties of the frame allocator *)

From S2P Require Import Prelude PhysMem HvError Addr Frame FramePool Demo.

Section frame.
  Context {T : Type} {HB : BitAlloc T} {HL : BitAllocLaws T}.

(** C21: [Frame::new_zero] returns a page-aligned frame of the pool that was not in
    use before and is now, keeps every frame in use in use, zeroes exactly that
    frame and touches no other byte; it fails, with ENOMEM and nothing changed in
    memory, only when no frame is free. *)
Theorem new_zero_fresh n (w : world T) :
  fa_inv n (w_fa w) →
  wp frame_new_zero
    (λ f w', fresh_frame n w w' f ∧ start_paddr f mod PAGE_SIZE = 0 ∧
       (∀ b, rd8 (w_mem w') b =
             if decide (start_paddr f ≤ b < start_paddr f + PAGE_SIZE) then 0
             else rd8 (w_mem w) b))
    (λ e w', num e = ENOMEM ∧ fa_inv n (w_fa w') ∧ fa_ext (w_fa w) (w_fa w') ∧
             w_mem w' = w_mem w ∧ ∀ j, ba_test (fa_inner (w_fa w)) j = false) w.
Proof using HL.
  intros Hinv. eapply wp_mono; [by apply frame_new_zero_spec| |done].
  intros f w' [Hf Hm]. split; [done|]. split; [|done].
  destruct Hf as (_ & Hfa & _ & Hu & _). by destruct (fa_used_range _ _ _ Hfa Hu).
Qed.

(** Dropping the frame that [Frame::new] returned never panics and gives back
    the allocator's bitmap as it was. *)
Theorem new_then_drop_restores n (w w' : world T) f :
  fa_inv n (w_fa w) → frame_new w = ROk f w' →
  wp (E:=HvError) (frame_drop f)
    (λ _ w'', w_mem w'' = w_mem w' ∧ fa_base (w_fa w'') = fa_base (w_fa w) ∧
       ∀ j, ba_test (fa_inner (w_fa w'')) j = ba_test (fa_inner (w_fa w)) j)
    (λ _ _, False) w'.
Proof using HL. apply frame_new_drop_restores. Qed.

(** With a page-aligned [__core_end] (the linker script aligns it) the pool
    that [frame::init] hands to the allocator is exactly the 4096 page frames
    between the per-CPU areas and the end of the hypervisor's memory. *)
Theorem init_pool_exact (w : world T) core_end :
  core_end mod PAGE_SIZE = 0 → 0 ≤ core_end → core_end + 0x1200000 ≤ 2 ^ 48 →
  w_fa w = FrameAllocator_empty →
  wp (E:=HvError) (frame_init core_end)
    (λ _ w', w_mem w' = w_mem w ∧ fa_base (w_fa w') = core_end + 0x200000 ∧
       fa_inv 4096 (w_fa w') ∧
       ∀ j, ba_test (fa_inner (w_fa w')) j = bool_decide (0 ≤ j < 4096))
    (λ _ _, False) w.
Proof using HL. apply frame_init_spec. Qed.

(** With a page-aligned [__core_end], [frame::init] and the self test
    [frame::test] after it always succeed: afterwards the free frames are exactly the
    4096 page frames between the per-CPU areas and the end of the hypervisor's memory,
    and no byte of memory has changed. *)
Theorem init_and_test_pool (w : world T) core_end :
  core_end mod PAGE_SIZE = 0 → 0 ≤ core_end → core_end + 0x1200000 ≤ 2 ^ 48 →
  w_fa w = FrameAllocator_empty →
  wp (E:=HvError) (frame_init core_end ;;; frame_test)
    (λ _ w', w_mem w' = w_mem w ∧ fa_base (w_fa w') = core_end + 0x200000 ∧
       fa_inv 4096 (w_fa w') ∧
       ∀ j, ba_test (fa_inner (w_fa w')) j = bool_decide (0 ≤ j < 4096))
    (λ _ _, False) w.
Proof using HL. apply init_test_spec. Qed.

End frame.

Lemma new_zero_fresh_witness :
  wp frame_new_zero
    (λ f w', fresh_frame 64 demo_world w' f ∧ start_paddr f mod PAGE_SIZE = 0 ∧
       (∀ b, rd8 (w_mem w') b =
             if decide (start_paddr f ≤ b < start_paddr f + PAGE_SIZE) then 0
             else rd8 (w_mem demo_world) b))
    (λ e w', num e = ENOMEM ∧ fa_inv 64 (w_fa w') ∧ fa_ext (w_fa demo_world) (w_fa w') ∧
             w_mem w' = w_mem demo_world ∧ ∀ j, ba_test (fa_inner (w_fa demo_world)) j = false)
    demo_world.
Proof. apply (new_zero_fresh 64 demo_world). exact demo_fa_inv. Defined.

(** The world after one frame is taken from the pool. *)
Definition demo_after : world (gset Z) :=
  mkW ∅ (mkFA 0x40200000 (ba_insert 0 64 ba_default ∖ {[0]})).

Lemma new_then_drop_restores_witness :
  wp (E:=HvError) (frame_drop (mkFrame 0x40200000 1))
    (λ _ w'', w_mem w'' = w_mem demo_after ∧ fa_base (w_fa w'') = fa_base (w_fa demo_world) ∧
       ∀ j, ba_test (fa_inner (w_fa w'')) j = ba_test (fa_inner (w_fa demo_world)) j)
    (λ _ _, False) demo_after.
Proof.
  apply (new_then_drop_restores 64 demo_world demo_after (mkFrame 0x40200000 1));
    [exact demo_fa_inv|vm_compute; reflexivity].
Defined.

Lemma init_pool_exact_witness :
  wp (E:=HvError) (frame_init 0x40800000)
    (λ _ w', w_mem w' = ∅ ∧ fa_base (w_fa w') = 0x40800000 + 0x200000 ∧
       fa_inv 4096 (w_fa w') ∧
       ∀ j, ba_test (fa_inner (w_fa w')) j = bool_decide (0 ≤ j < 4096))
    (λ _ _, False) (mkW (T:=gset Z) ∅ FrameAllocator_empty).
Proof.
  apply (init_pool_exact (mkW (T:=gset Z) ∅ FrameAllocator_empty) 0x40800000); done.
Defined.

Lemma init_and_test_pool_witness :
  wp (E:=HvError) (frame_init 0x40800000 ;;; frame_test)
    (λ _ w', w_mem w' = ∅ ∧ fa_base (w_fa w') = 0x40800000 + 0x200000 ∧
       fa_inv 4096 (w_fa w') ∧
       ∀ j, ba_test (fa_inner (w_fa w')) j = bool_decide (0 ≤ j < 4096))
    (λ _ _, False) (mkW (T:=gset Z) ∅ FrameAllocator_empty).
Proof.
  apply (init_and_test_pool (mkW (T:=gset Z) ∅ FrameAllocator_empty) 0x40800000); done.
Defined.

(** A pool at 0 in which frames 0 to 3 and 5 are in use. *)
Definition fragmented : world (gset Z) :=
  mkW ∅ (mkFA 0 (ba_insert 6 16 (ba_insert 4 5 ba_default))).

(** [Frame::new_16] looks for a 16K-aligned frame but then takes the first
    four contiguous free frames: in a fragmented pool the 16K it returns does not
    start at a multiple of 16K. *)
Theorem new_16_not_aligned :
  wp (frame_new_16 16)
    (λ f _, start_paddr f = 0x6000 ∧ frame_count f = 4 ∧ start_paddr f mod 0x4000 = 0x2000)
    (λ _ _, False) fragmented.
Proof. vm_compute. split_and!; reflexivity. Qed.
