(* ===== verification/MemoryProps.v ===== *)
(** * Properties of the memory subsystem

    The page-table operations against the hardware walk, [MemorySet] against a
    finite map of regions, and the isolation of address spaces. Witnesses use the
    concrete machine of [Demo]. *)

From S2P Require Import Prelude PhysMem HvError Addr Frame Region Pte S2pt PtIface Paging PagingWf.
From S2P Require Import PagingSpec PagingLoop PtInstance BTreeMap MemorySet Demo.

Section page_tables.
  Context {T : Type} {HB : BitAlloc T} {HL : BitAllocLaws T}.
  Context {P : GenericPTE} {PL : GenericPTELaws P}.
  Context (n : Z) (L : nat).
  Implicit Types (s : @pts T) (r : MemoryRegion).

(** C6: [HvPageTable::map] of a page-aligned region inside the table's range
    always returns. On success every address of the region, unmapped before, is
    translated by the hardware walk as the region's mapper and flags say, through
    pages that lie inside the region, and no other address changes; on failure
    the error is ENOMEM or EFAULT and exactly a first part of the region is
    mapped. Only frames the table owns or that were free are written. *)
Theorem map_correct s r :
  pt_ok n L s → region_mappable pte_format (va_limit L) r →
  wp (map r)
    (λ _ s', pt_ok n L s' ∧ pt_step n s s' ∧
       mapped_range pte_format (va_limit L) r (start r) (start r + size r)
         (translate L s) (translate L s'))
    (λ e s', map_error e ∧ pt_ok n L s' ∧ pt_step n s s' ∧
       ∃ x, start r ≤ x < start r + size r ∧
         mapped_range pte_format (va_limit L) r (start r) x (translate L s) (translate L s')) s.
Proof using HL PL. apply map_spec. Qed.

(** C7: [query] returns what the hardware walk of the same table returns: the
    output address, flags and size, or [NotMapped] where the walk faults. *)
Theorem query_is_hardware_walk s va :
  pt_ok n L s → in_range L va →
  query (inner s.2) va s.1 =
  match hw_translate (w_mem s.1) L (root_paddr (inner s.2)) va with
  | Some v => ROk v s.1
  | None => RErr NotMapped s.1
  end.
Proof using PL. intros [tb Hinv]. by apply (query_hw n L s tb). Qed.


(** C34: [update] never fails with [AlreadyMapped] or [MappedToHugePage] and does
    not look whether the address is mapped: it makes the page at which the walk
    ends (the old page if the address was mapped, otherwise a page of the size of
    the table level that had the unused entry) translate to the new address. *)
Theorem update_correct s va paddr fl :
  pt_ok n L s → in_range L va → is_u64 paddr → ef_usable pte_format fl = true →
  wp (update va paddr fl)
    (λ ps s', update_post n L s va paddr fl ps s' ∧
              (∀ pa f ps', translate L s va = Some (pa, f, ps') → ps = ps'))
    (λ e s', e = NotMapped ∧ translate L s va = None ∧ s' = s) s.
Proof using PL. apply update_spec. Qed.

(** [HvPageTable::clone_from] gives a table with its own root that translates
    every address as the source does, and leaves the source as it was. *)
Theorem clone_from_correct s :
  L = 3%nat ∨ L = 4%nat → pt_ok n L s → has_free s.1 →
  wp (E:=HvError) (clone_from (inner s.2))
    (λ pt w', intrm_tables pt = [] ∧ pt_ok n L (w', s.2) ∧
       ¬ fa_used n (w_fa s.1) (root_paddr (inner pt)) ∧
       ∀ va, in_range L va → translate L (w', pt) va = translate L s va ∧
                             translate L (w', s.2) va = translate L s va)
    (λ _ _, False) s.1.
Proof using HL PL. intros ?. by apply clone_from_spec. Qed.

(** One step of [map] takes the largest page size that the alignment of both
    addresses, the length left and the region's flags allow, and never one they
    do not allow. *)
Theorem choose_page_size_largest fl vaddr paddr sz ps :
  vaddr mod PAGE_SIZE = 0 → PAGE_SIZE ≤ sz →
  let c := choose_page_size fl vaddr paddr sz in
  (vaddr mod page_size c = 0 ∧ page_size c ≤ sz ∧
   (c ≠ Size4K → paddr mod page_size c = 0 ∧ contains fl NO_HUGEPAGES = false)) ∧
  (vaddr mod page_size ps = 0 → paddr mod page_size ps = 0 → page_size ps ≤ sz →
   contains fl NO_HUGEPAGES = false → page_size ps ≤ page_size c).
Proof. intros. split; [by apply choose_page_size_spec|by apply choose_page_size_max]. Qed.

End page_tables.

Section memory_set.
  Context {W PT : Type} {G : GenericPageTable W PT} {GL : GenericPageTableLaws W PT}.
  Implicit Types (s : W * MemorySet PT) (r : MemoryRegion).

(** C9: [MemorySet::insert] refines insertion into a finite map of disjoint
    regions: it succeeds exactly with the region added (an empty region changes
    nothing), refuses an overlapping region with EINVAL and an unchanged state,
    and if the page table gives up the regions stay as they were while a first
    part of the region stays mapped. The invariant (the table maps the regions
    and nothing else) holds after every success. *)
Theorem ms_insert_refines s r :
  ms_inv s → region_mappable gpt_format gpt_limit r →
  wp (ms_insert r)
    (λ _ s', ms_inv s' ∧ ms_step s s' ∧
       if size r =? 0 then s' = s
       else area_free (ms_map s) r ∧ ms_map s' = <[start r := r]> (ms_map s))
    (λ e s', ms_step s s' ∧
       ((num e = EINVAL ∧ s' = s ∧ ¬ area_free (ms_map s) r) ∨
        (map_error e ∧ area_free (ms_map s) r ∧ partly_mapped s r s'))) s.
Proof using GL. apply ms_insert_spec. Qed.


(** [MemorySet::clear] never panics, and leaves no region and no translation. *)
Theorem ms_clear_empties s :
  ms_inv s →
  wp ms_clear
    (λ _ s', ms_inv s' ∧ ms_step s s' ∧ ms_map s' = ∅ ∧
             ∀ va, 0 ≤ va < gpt_limit → ms_view s' va = None)
    (λ _ _, False) s.
Proof using GL. apply ms_clear_spec. Qed.

(** Looking only at the nearest region on each side, [test_free_area] is true
    exactly when no region of the set overlaps the new one. *)
Theorem test_free_area_complete s r :
  ms_inv s → region_mappable gpt_format gpt_limit r → 0 < size r →
  wp (test_free_area r) (λ b s', s' = s ∧ (b = true ↔ area_free (ms_map s) r))
     (λ _ _, False) s.
Proof using GL. apply test_free_area_spec. Qed.


End memory_set.

Section isolation.
  Context {T : Type} {HB : BitAlloc T} {HL : BitAllocLaws T}.
  Context {P : GenericPTE} {PL : GenericPTELaws P}.
  Context (n : Z) (L : nat) (HL34 : L = 3%nat ∨ L = 4%nat).

#[local] Instance laws : GenericPageTableLaws (world T) HvPageTable := hv_gpt_laws n L HL34.

(** The operations a zone's memory goes through. *)
Inductive ms_op : Type := OpInsert (r : MemoryRegion) | OpDelete (k : Z) | OpClear.

Definition run_op (o : ms_op) : M (world T * MemorySet HvPageTable) HvError unit :=
  match o with
  | OpInsert r => ms_insert r
  | OpDelete k => ms_delete k
  | OpClear => ms_clear
  end.

Definition op_ok (o : ms_op) : Prop :=
  match o with OpInsert r => region_mappable pte_format (va_limit L) r | _ => True end.

(** The other zone keeps its invariant, its frames and its translation. *)
Definition untouched (w : world T) (ms : MemorySet HvPageTable) (s' : world T * MemorySet HvPageTable) :
    Prop :=
  ms_inv (s'.1, ms) ∧ disjoint_pts (ms_pt s'.2) (ms_pt ms) ∧
  ∀ va, in_range L va → ms_view (s'.1, ms) va = ms_view (w, ms) va.

Lemma run_op_step o s :
  ms_inv s → op_ok o →
  wp (run_op o) (λ _ s', gpt_ok (pt_part s') ∧ ms_step s s')
                (λ _ s', gpt_ok (pt_part s') ∧ ms_step s s') s.
Proof using All.
  intros Hinv Ho. assert (ms_step s s) as Hrefl by (unfold ms_step; reflexivity).
  pose proof (ms_ok _ Hinv) as Hok. destruct o as [r|k|]; simpl.
  - eapply wp_mono; [by apply ms_insert_spec| |].
    + intros _ s' ([_ Hok' _ _] & Hst & _). done.
    + intros e s' (Hst & [(_ & -> & _)|(_ & _ & (_ & Hok' & _))]); done.
  - eapply wp_mono; [by apply ms_delete_spec| |].
    + intros _ s' ([_ Hok' _ _] & Hst & _). done.
    + by intros e s' (_ & -> & _).
  - eapply wp_mono; [by apply ms_clear_spec| |done].
    intros _ s' ([_ Hok' _ _] & Hst & _). done.
Qed.

Lemma step_untouched w msA msB s' :
  ms_inv (w, msB) → disjoint_pts (ms_pt msA) (ms_pt msB) →
  gpt_ok (pt_part s') → ms_step (w, msA) s' → untouched w msB s'.
Proof using All.
  intros [H1 H2 H3 H4] Hd Hok Hst. destruct s' as [w' msA'].
  destruct (pt_step_isolates n L HL34 w w' (ms_pt msA) (ms_pt msA') (ms_pt msB) H2 Hd Hst Hok)
    as (Hok' & Hd' & Htr).
  split; [|split; [done|exact Htr]]. split; [done|done|done|].
  intros va Hva. destruct (H4 va Hva) as [Hin Hout]. split.
  - intros k r Hk Hr. eapply region_view_ext; [reflexivity|reflexivity|by apply Htr|by eapply Hin].
  - intros Hno. etrans; [by apply Htr|by apply Hout].
Qed.

(** C12: isolation of address spaces: if two zones' page tables own different
    frames, any [insert], [delete] or [clear] on the one, whether it succeeds or
    fails, leaves the other's invariant, frames and translations as they were, and
    the frames stay disjoint. *)
Theorem address_space_isolation o w msA msB :
  ms_inv (w, msA) → ms_inv (w, msB) → disjoint_pts (ms_pt msA) (ms_pt msB) → op_ok o →
  wp (run_op o) (λ _ s', untouched w msB s') (λ _ s', untouched w msB s') (w, msA).
Proof using All.
  intros HA HB' Hd Ho. eapply wp_mono; [by apply run_op_step|..];
    intros ? s' [Hok Hst]; by eapply step_untouched.
Qed.

(** Two tables made one after the other own different frames. *)
Lemma new_tables_disjoint w0 w1 w2 pt1 pt2 :
  new_pt_post n L w0 pt1 w1 → new_pt_post n L w1 pt2 w2 →
  ms_inv (w2, mkMS bt_empty pt2) ∧ ms_inv (w2, mkMS bt_empty pt1) ∧ disjoint_pts pt2 pt1.
Proof using All.
  intros (Hok1 & (_ & _ & _ & Hu1 & _) & Hi1 & Hn1 & _) (Hok2 & (_ & _ & Hext & Hu & Hnu) & Hi & Hn & Hm).
  assert (owned pt1 = [root_paddr (inner pt1)]) as Ho1 by (unfold owned; by rewrite Hi1).
  assert (owned pt2 = [root_paddr (inner pt2)]) as Ho2 by (unfold owned; by rewrite Hi).
  assert (disjoint_pts pt2 pt1) as Hd.
  { intros t. rewrite Ho1, Ho2, !list_elem_of_singleton. intros -> Heq. apply Hnu.
    unfold root_paddr in Heq. rewrite Heq. exact Hu1. }
  assert (pt_step n (w1, pt2) (w2, pt2)) as Hst.
  { split; simpl; auto. intros b Hb. apply Hm. apply (Hb (root_paddr (inner pt2))).
    rewrite Ho2. left. }
  destruct (pt_step_isolates n L HL34 w1 w2 pt2 pt2 pt1 Hok1 Hd Hst Hok2) as (Hok' & _ & Htr).
  assert (∀ pt, pt_ok n L (w2, pt) → (∀ va, in_range L va → translate L (w2, pt) va = None) →
                ms_inv (w2, mkMS bt_empty pt)) as Hempty.
  { intros pt Hpt Hno. split; [constructor|done|by split|]. intros va Hva. split; [done|].
    intros _. by apply Hno. }
  split; [by apply Hempty|]. split; [|done]. apply Hempty; [done|]. intros va Hva.
  rewrite Htr by done. by apply Hn1.
Qed.

Lemma ms_new_spec w :
  fa_inv n (w_fa w) → has_free w →
  wp (ms_new (PT:=HvPageTable) (Z.of_nat L))
    (λ ms w', ms_inv (w', ms) ∧ ms_map (w', ms) = ∅ ∧ fresh_frame n w w' (root (inner (ms_pt ms))) ∧
              ∀ va, in_range L va → ms_view (w', ms) va = None)
    (λ _ _, False) w.
Proof using All.
  intros Hfa Hfree. apply wp_bind. eapply wp_mono; [by apply (unlocked_new_spec n L)| |done].
  intros pt w' (Hok & Hf & _ & Hn & _). apply wp_ret. split_and!; try done.
  split; [constructor|done|by split|]. intros va Hva. split; [done|]. intros _. by apply Hn.
Qed.

(** [MemorySet::new] gives an empty address space (when a frame is free): no
    region, no translation, and a root frame that was not in use. *)
Theorem ms_new_empty w :
  fa_inv n (w_fa w) → has_free w →
  wp (ms_new (PT:=HvPageTable) (Z.of_nat L))
    (λ ms w', ms_inv (w', ms) ∧ ms_map (w', ms) = ∅ ∧ fresh_frame n w w' (root (inner (ms_pt ms))) ∧
              ∀ va, in_range L va → ms_view (w', ms) va = None)
    (λ _ _, False) w.
Proof using All. apply ms_new_spec. Qed.

End isolation.

(** ** Witnesses *)

Lemma map_correct_witness :
  wp (map (P:=s2_pte) demo_ram)
    (λ _ s', pt_ok 64 3 s' ∧ pt_step 64 demo_s s' ∧
       mapped_range pte_format (va_limit 3) demo_ram (start demo_ram)
         (start demo_ram + size demo_ram) (translate 3 demo_s) (translate 3 s'))
    (λ e s', map_error e ∧ pt_ok 64 3 s' ∧ pt_step 64 demo_s s' ∧
       ∃ x, start demo_ram ≤ x < start demo_ram + size demo_ram ∧
         mapped_range pte_format (va_limit 3) demo_ram (start demo_ram) x
           (translate 3 demo_s) (translate 3 s')) demo_s.
Proof. apply (map_correct 64 3 demo_s demo_ram); [exact demo_pt_ok|exact demo_ram_mappable]. Defined.

Lemma query_is_hardware_walk_witness :
  query (P:=s2_pte) (inner demo_s.2) 0x1000 demo_s.1 =
  match hw_translate (w_mem demo_s.1) 3 (root_paddr (inner demo_s.2)) 0x1000 with
  | Some v => ROk v demo_s.1
  | None => RErr NotMapped demo_s.1
  end.
Proof. apply (query_is_hardware_walk 64 3 demo_s 0x1000); [exact demo_pt_ok|split; done]. Defined.


Lemma update_correct_witness :
  wp (update (P:=s2_pte) 0x1000 0x50000000 READ)
    (λ ps s', update_post 64 3 demo_s 0x1000 0x50000000 READ ps s' ∧
              (∀ pa f ps', translate 3 demo_s 0x1000 = Some (pa, f, ps') → ps = ps'))
    (λ e s', e = NotMapped ∧ translate 3 demo_s 0x1000 = None ∧ s' = demo_s) demo_s.
Proof.
  apply (update_correct 64 3 demo_s 0x1000 0x50000000 READ);
    [exact demo_pt_ok|split; done|split; done|done].
Defined.

(** After one allocation the pool of 64 frames still has a free one. *)
Lemma demo_s_free : has_free demo_s.1.
Proof. exists 63. by vm_compute. Qed.

Lemma clone_from_correct_witness :
  wp (E:=HvError) (clone_from (inner demo_s.2))
    (λ pt w', intrm_tables pt = [] ∧ pt_ok (P:=s2_pte) 64 3 (w', demo_s.2) ∧
       ¬ fa_used 64 (w_fa demo_s.1) (root_paddr (inner pt)) ∧
       ∀ va, in_range 3 va → translate (P:=s2_pte) 3 (w', pt) va = translate 3 demo_s va ∧
                             translate 3 (w', demo_s.2) va = translate 3 demo_s va)
    (λ _ _, False) demo_s.1.
Proof. apply (clone_from_correct 64 3 demo_s); [exact L3|exact demo_pt_ok|exact demo_s_free]. Defined.

Lemma choose_page_size_largest_witness :
  let c := choose_page_size READ 0x40000000 0x50000000 0x400000 in
  (0x40000000 mod page_size c = 0 ∧ page_size c ≤ 0x400000 ∧
   (c ≠ Size4K → 0x50000000 mod page_size c = 0 ∧ contains READ NO_HUGEPAGES = false)) ∧
  (0x40000000 mod page_size Size2M = 0 → 0x50000000 mod page_size Size2M = 0 →
   page_size Size2M ≤ 0x400000 → contains READ NO_HUGEPAGES = false →
   page_size Size2M ≤ page_size c).
Proof. apply (choose_page_size_largest READ 0x40000000 0x50000000 0x400000 Size2M); done. Defined.

Lemma ms_insert_refines_witness :
  wp (ms_insert demo_ram)
    (λ _ s', ms_inv s' ∧ ms_step demo_ms s' ∧
       if size demo_ram =? 0 then s' = demo_ms
       else area_free (ms_map demo_ms) demo_ram ∧
            ms_map s' = <[start demo_ram := demo_ram]> (ms_map demo_ms))
    (λ e s', ms_step demo_ms s' ∧
       ((num e = EINVAL ∧ s' = demo_ms ∧ ¬ area_free (ms_map demo_ms) demo_ram) ∨
        (map_error e ∧ area_free (ms_map demo_ms) demo_ram ∧ partly_mapped demo_ms demo_ram s'))) demo_ms.
Proof. apply (ms_insert_refines demo_ms demo_ram); [exact demo_ms_inv|exact demo_ram_mappable]. Defined.


Lemma ms_clear_empties_witness :
  wp ms_clear
    (λ _ s', ms_inv s' ∧ ms_step demo_ms s' ∧ ms_map s' = ∅ ∧
             ∀ va, 0 ≤ va < gpt_limit → ms_view s' va = None)
    (λ _ _, False) demo_ms.
Proof. apply (ms_clear_empties demo_ms). exact demo_ms_inv. Defined.

Lemma test_free_area_complete_witness :
  wp (test_free_area demo_io)
     (λ b s', s' = demo_ms ∧ (b = true ↔ area_free (ms_map demo_ms) demo_io)) (λ _ _, False) demo_ms.
Proof.
  apply (test_free_area_complete demo_ms demo_io); [exact demo_ms_inv|exact demo_io_mappable|done].
Defined.


Lemma ms_new_empty_witness :
  wp (ms_new (PT:=HvPageTable) (Z.of_nat 3))
    (λ ms w', ms_inv (w', ms) ∧ ms_map (w', ms) = ∅ ∧
              fresh_frame 64 demo_world w' (root (inner (ms_pt ms))) ∧
              ∀ va, in_range 3 va → ms_view (w', ms) va = None)
    (λ _ _, False) demo_world.
Proof. apply (ms_new_empty (P:=s2_pte) 64 3 L3 demo_world); [exact demo_fa_inv|exact demo_free]. Defined.

(** A second address space beside [demo_ms]. *)
Definition demo_s2 : world (gset Z) * HvPageTable := run_new demo_s.1.

Lemma demo_s_fa : fa_inv 64 (w_fa demo_s.1).
Proof. destruct demo_new as (_ & (_ & H & _) & _). exact H. Qed.

Lemma demo_new2 : new_pt_post (P:=s2_pte) 64 3 demo_s.1 demo_s2.2 demo_s2.1.
Proof.
  pose proof (unlocked_new_spec (P:=s2_pte) (E:=HvError) 64 3 L3 demo_s.1 demo_s_fa demo_s_free) as H.
  unfold demo_s2, run_new. unfold wp in H. change (Z.of_nat 3) with 3 in H.
  by destruct (unlocked_new 3 demo_s.1).
Qed.

Definition demo_ms2 : MemorySet HvPageTable := mkMS bt_empty demo_s2.2.

Lemma demo_both :
  ms_inv (demo_s2.1, demo_ms2) ∧ ms_inv (demo_s2.1, demo_ms.2) ∧
  disjoint_pts (ms_pt demo_ms2) (ms_pt demo_ms.2).
Proof.
  exact (new_tables_disjoint 64 3 L3 demo_world demo_s.1 demo_s2.1 demo_s.2 demo_s2.2 demo_new demo_new2).
Qed.

Lemma address_space_isolation_witness :
  wp (run_op (P:=s2_pte) (OpInsert demo_ram)) (λ _ s', untouched 64 3 L3 demo_s2.1 demo_ms.2 s')
    (λ _ s', untouched 64 3 L3 demo_s2.1 demo_ms.2 s') (demo_s2.1, demo_ms2).
Proof.
  destruct demo_both as (H1 & H2 & H3).
  apply (address_space_isolation 64 3 L3 (OpInsert demo_ram) demo_s2.1 demo_ms2 demo_ms.2);
    [exact H1|exact H2|exact H3|exact demo_ram_mappable].
Defined.

(** ** Two behaviours worth knowing *)

(** An empty address space in a pool of [k] frames. *)
Definition small_ms (k : Z) : world (gset Z) * MemorySet HvPageTable :=
  let s := run_new (mkW ∅ (mkFA 0x40200000 (ba_insert 0 k ba_default))) in (s.1, mkMS bt_empty s.2).

(** Two pages on either side of a 2M boundary. *)
Definition straddling : MemoryRegion := new_with_offset_mapper 0x1ff000 0x501ff000 0x2000 READ.

(** [MemorySet::insert] does not roll back: when the frames run out in the
    middle of a region it returns ENOMEM and records nothing, but the first page
    stays mapped for the guest, and inserting the region again fails with EFAULT. *)
Theorem insert_failure_leaves_mapping :
  wp (ms_insert straddling) (λ _ _, False)
    (λ e s1, num e = ENOMEM ∧ ms_regions s1.2 = [] ∧
       wp (page_table_query 0x1ff008) (λ x _, x = (0x501ff008, READ, Size4K)) (λ _ _, False) s1 ∧
       wp (ms_insert straddling) (λ _ _, False) (λ e2 _, num e2 = EFAULT) s1)
    (small_ms 3).
Proof. vm_compute. split_and!; reflexivity. Qed.

(** [unmap] never frees intermediate tables, so an area that is free again
    cannot always be mapped: after a 4K region is inserted and deleted, a 2M region
    at the same place passes [test_free_area] but [insert] fails with EFAULT. *)
Theorem deleted_area_refuses_huge_page :
  let small := new_with_offset_mapper 0x40000000 0x50000000 0x1000 READ in
  let huge := new_with_offset_mapper 0x40000000 0x50000000 0x200000 READ in
  wp (ms_insert small ;;; ms_delete 0x40000000)
    (λ _ s1, ms_regions s1.2 = [] ∧
       wp (test_free_area huge) (λ b _, b = true) (λ _ _, False) s1 ∧
       wp (ms_insert huge) (λ _ _, False) (λ e _, num e = EFAULT) s1)
    (λ _ _, False) (small_ms 8).
Proof. vm_compute. split_and!; reflexivity. Qed.
