(* ===== verification/HeapProps.v ===== *)
(** * The heap works

    Against the laws of the allocator: [heap::test] passes, gives back what it took and
    writes only to the heap. An allocator of page-sized slots satisfies the laws. *)

From S2P Require Import Prelude PhysMem Addr Heap.
Import Heap.

(** ** Memory of bytes *)

Definition is_bytes (m : mem) : Prop := ∀ b, 0 ≤ rd8 m b < 256.

Lemma is_bytes_wr8 m a v : is_bytes m → is_bytes (wr8 m a v).
Proof. intros H b. rewrite rd8_wr8. case_decide; [apply Z.mod_pos_bound; lia|apply H]. Qed.

Lemma is_bytes_write m a n v : is_bytes m → is_bytes (write_le m a n v).
Proof. intros H. revert a v. induction n as [|n IH]; intros a v; [done|]. by apply is_bytes_wr8. Qed.

Lemma is_bytes_copy m a l : is_bytes m → is_bytes (copy_bytes m a l).
Proof. revert m a. induction l as [|x l IH]; intros m a H; [done|]. by apply IH, is_bytes_wr8. Qed.

Lemma read_le_shift m m' a a' n :
  (∀ i, 0 ≤ i < Z.of_nat n → rd8 m (a + i) = rd8 m' (a' + i)) → read_le m a n = read_le m' a' n.
Proof.
  revert a a'. induction n as [|n IH]; intros a a' H; [done|]. cbn [read_le].
  rewrite (IH (a + 1) (a' + 1)); [|intros i Hi; rewrite <- !Z.add_assoc; apply H; lia].
  specialize (H 0). rewrite !Z.add_0_r in H. rewrite H by lia. done.
Qed.

(** A copied block has the bytes of the original, wherever both are. *)
Lemma copy_bytes_at m p q n i :
  is_bytes m → 0 ≤ i < Z.of_nat n → rd8 (copy_bytes m p (bytes_at m q n)) (p + i) = rd8 m (q + i).
Proof.
  intros Hm Hi. rewrite <- (Z2Nat.id i) by lia. erewrite rd8_copy_in.
  - apply Z.mod_small, Hm.
  - unfold bytes_at. rewrite list_lookup_fmap, lookup_seq_lt by lia. done.
Qed.

(** ** The operations *)

Section laws.
  Context {A E : Type} `{HL : AllocatorLaws A} (start : Z).
  Implicit Types h : heap A.

(** The heap is the static array. *)
Definition placed (h : heap A) : Prop := area (h_alloc h) = (start, HV_HEAP_SIZE) ∧ is_bytes (h_mem h).

Definition in_heap (b : Z) : Prop := start ≤ b < start + HV_HEAP_SIZE.
Definition same_outside (m m' : mem) : Prop := ∀ b, ¬ in_heap b → rd8 m' b = rd8 m b.

(** A page can be had while at most one block of at most a page is taken. *)
Lemma galloc_ok n align h :
  placed h → 0 < n ≤ 4096 → align ∈ [4; 8] → (size (live (h_alloc h)) ≤ 1)%nat →
  (∀ q k, live (h_alloc h) !! q = Some k → k ≤ 4096) →
  wp (galloc (E:=E) n align) (λ p h',
    placed h' ∧ h_mem h' = h_mem h ∧ live (h_alloc h') = <[p := n]> (live (h_alloc h)) ∧
    start ≤ p ∧ p + n ≤ start + HV_HEAP_SIZE ∧
    ∀ q k, live (h_alloc h) !! q = Some k → ¬ overlap p n q k) (λ _ _, False) h.
Proof.
  intros [Ha Hb] Hn Hal Hs Hk. unfold wp, galloc.
  destruct (alloc_serves n align (h_alloc h)) as [[p a] Hp]; [by rewrite Ha|done..|]. rewrite Hp.
  destruct (alloc_laws _ _ _ _ _ (proj1 Hn) Hp) as (H1 & H2 & _ & H4 & H5 & H6). rewrite Ha in H1, H2. cbn in *.
  split_and!; try done. split; [cbn; by rewrite H6|done].
Qed.

(** The block of a vector. *)
Definition block (v : Vec) : gmap Z Z := if decide (v_cap v = 0) then ∅ else {[v_ptr v := 8 * v_cap v]}.

(** A vector of [n] elements, the numbers from 0 on, that owns the only block. *)
Record holds (m0 : mem) (v : Vec) (n : nat) (h : heap A) : Prop := {
  ho_placed : placed h;
  ho_len : v_len v = Z.of_nat n;
  ho_cap : v_cap v ∈ [0; 4; 8; 16; 32; 64; 128; 256; 512];
  ho_fits : Z.of_nat n ≤ v_cap v;
  ho_live : live (h_alloc h) = block v;
  ho_in : v_cap v ≠ 0 → start ≤ v_ptr v ∧ v_ptr v + 8 * v_cap v ≤ start + HV_HEAP_SIZE;
  ho_elems : ∀ j, (j < n)%nat → read64 (h_mem h) (v_ptr v + 8 * Z.of_nat j) = Z.of_nat j;
  ho_out : same_outside m0 (h_mem h)
}.

Lemma block_small v q k : v_cap v ∈ [0; 4; 8; 16; 32; 64; 128; 256; 512] → block v !! q = Some k → k ≤ 4096.
Proof.
  intros Hc. unfold block. case_decide; [done|]. intros [_ <-]%lookup_singleton_Some. set_unfold. lia.
Qed.

Lemma block_size v : (size (block v) ≤ 1)%nat.
Proof. unfold block. case_decide; [by rewrite map_size_empty; lia|]. by rewrite map_size_singleton. Qed.

(** Growing keeps the elements: the old block is copied, then given back. *)
Lemma vec_grow_ok m0 v n h :
  holds m0 v n h → v_len v = v_cap v → (n < 500)%nat →
  wp (vec_grow (E:=E) v) (λ v' h', holds m0 v' n h' ∧ Z.of_nat n < v_cap v') (λ _ _, False) h.
Proof.
  intros [Hp Hl Hc Hf Hlv Hi He Ho] Hfull Hn. unfold vec_grow. set (cap := Z.max _ 4).
  assert (cap ∈ [4; 8; 16; 32; 64; 128; 256; 512] ∧ Z.of_nat n < cap ∧ v_cap v ≤ cap) as (Hcap & Hlt & Hle).
  { unfold cap. set_unfold. lia. }
  apply wp_bind. eapply wp_mono; [apply galloc_ok|..]; [done|set_unfold; lia|set_solver|rewrite Hlv; apply block_size
    |intros q k; rewrite Hlv; by apply block_small| |done].
  intros p h1 (Hp1 & Hm1 & Hl1 & Hs1 & Hs2 & Hov). rewrite Hlv in Hl1, Hov. set (v' := mkVec p cap (v_len v)).
  assert (cap ≠ 0) as Hcap0 by (set_unfold; lia).
  destruct (Z.eqb_spec (v_cap v) 0) as [E0|E0].
  - apply wp_bind, wp_ret, wp_ret. split; [|done].
    split; cbn [v' v_len v_cap v_ptr]; try done; [set_solver|lia| |lia|by rewrite Hm1].
    rewrite Hl1. unfold block. rewrite decide_True by done. cbn [v' v_cap v_ptr]. by rewrite decide_False.
  - apply wp_bind, wp_bind, wp_modify, wp_modify, wp_ret. split; [|done].
    specialize (Hi E0) as [Hi1 Hi2]. destruct Hp1 as [Ha1 Hb1].
    assert (block v = {[v_ptr v := 8 * v_cap v]}) as Hbl by (unfold block; by rewrite decide_False).
    assert (¬ overlap p (8 * cap) (v_ptr v) (8 * v_cap v)) as Hno.
    { apply Hov. rewrite Hbl. apply lookup_singleton_eq. }
    assert (p ≠ v_ptr v) as Hpv by (intros ->; apply Hno; unfold overlap; set_unfold; lia).
    destruct (dealloc_laws (8 * v_cap v) 8 (h_alloc h1) (v_ptr v)) as [D1 D2].
    { rewrite Hl1, lookup_insert_ne by done. rewrite Hbl. apply lookup_singleton_eq. }
    split; cbn [v' v_len v_cap v_ptr h_mem h_alloc]; try done; [|set_solver|lia| | |].
    + split; cbn [h_alloc h_mem]; [by rewrite D2|]. by apply is_bytes_copy.
    + rewrite D1, Hl1, Hbl. unfold block. cbn [v' v_cap v_ptr]. rewrite decide_False by done.
      rewrite delete_insert_ne by done. by rewrite delete_singleton_eq.
    + intros j Hj. etrans; [|exact (He j Hj)]. apply read_le_shift. intros i Hi'. rewrite <- !Z.add_assoc.
      rewrite copy_bytes_at; [by rewrite Hm1|done|]. lia.
    + intros b Hb. rewrite rd8_copy_out; [rewrite Hm1; by apply Ho|]. unfold bytes_at.
      rewrite length_fmap, length_seq. unfold in_heap in Hb. lia.
Qed.

Lemma vec_push_ok m0 v n h :
  holds m0 v n h → (n < 500)%nat →
  wp (vec_push (E:=E) v (Z.of_nat n)) (λ v' h', holds m0 v' (S n) h') (λ _ _, False) h.
Proof.
  intros Hv Hn. unfold vec_push. apply wp_bind.
  assert (wp (if v_len v =? v_cap v then vec_grow v else hret v)
            (λ v' h', holds m0 v' n h' ∧ Z.of_nat n < v_cap v') (λ (_ : E) _, False) h) as Hg.
  { destruct (Z.eqb_spec (v_len v) (v_cap v)) as [Hf|Hf]; [by apply vec_grow_ok|]. apply wp_ret. split; [done|].
    pose proof (ho_len _ _ _ _ Hv). pose proof (ho_fits _ _ _ _ Hv). lia. }
  eapply wp_mono; [exact Hg| |done]. clear v h Hv Hg. intros v h [[[Ha Hb] Hl Hc Hf Hlv Hi He Ho] Hlt].
  apply wp_bind, wp_modify, wp_ret. destruct Hi as [Hi1 Hi2]; [lia|]. rewrite Hl.
  split; cbn [v_len v_cap v_ptr h_mem h_alloc]; try done; [|lia|lia| |].
  - split; [done|]. by apply is_bytes_write.
  - intros j Hj. destruct (decide (j = n)) as [->|Hne].
    + apply read_write64. unfold is_u64, U64. lia.
    + rewrite read_write64_ne by lia. apply He. lia.
  - intros b Hb'. unfold write64. rewrite rd8_write_le_out; [by apply Ho|]. unfold in_heap in Hb'. lia.
Qed.

Lemma push_all_ok m0 v k n h :
  holds m0 v k h → (k + n ≤ 500)%nat →
  wp (push_all (E:=E) v k n) (λ v' h', holds m0 v' (k + n) h') (λ _ _, False) h.
Proof.
  revert v k h. induction n as [|n IH]; intros v k h Hv Hk; [apply wp_ret; by rewrite Nat.add_0_r|].
  apply wp_bind. eapply wp_mono; [apply vec_push_ok; [done|lia]| |done]. intros v' h' Hv'.
  rewrite Nat.add_succ_r. apply IH; [done|lia].
Qed.

Lemma check_all_ok m0 v k n h :
  holds m0 v (k + n) h → wp (check_all (E:=E) v k n) (λ _ h', h' = h) (λ _ _, False) h.
Proof.
  revert k. induction n as [|n IH]; intros k Hv; [by apply wp_ret|].
  apply wp_bind, wp_gets, wp_bind, wp_assert.
  - rewrite (ho_elems _ _ _ _ Hv) by lia. apply Z.eqb_refl.
  - apply (IH (S k)). by rewrite Nat.add_succ_comm.
Qed.

(** The value behind a fresh box. *)
Lemma box_ok h :
  placed h → live (h_alloc h) = ∅ →
  wp (box_new (E:=E) 5) (λ p h',
    placed h' ∧ live (h_alloc h') = {[p := 4]} ∧ start ≤ p ∧ p + 4 ≤ start + HV_HEAP_SIZE ∧
    read_le (h_mem h') p 4 = 5 ∧ same_outside (h_mem h) (h_mem h')) (λ _ _, False) h.
Proof.
  intros Hp Hl. unfold box_new. apply wp_bind.
  eapply wp_mono; [apply galloc_ok|..]; [done|lia|set_solver|rewrite Hl, map_size_empty; lia|by rewrite Hl| |done].
  intros p h1 ([Ha Hb] & Hm & Hl1 & H1 & H2 & _). apply wp_bind, wp_modify, wp_ret. cbn [h_mem h_alloc].
  split_and!; [|by rewrite Hl1, Hl|done|done|by rewrite read_write_le|].
  - split; [done|]. by apply is_bytes_write.
  - intros b Hb'. rewrite rd8_write_le_out; [by rewrite Hm|]. unfold in_heap in Hb'. lia.
Qed.

Lemma in_bss_heap sbss ebss p :
  sbss ≤ start → start + HV_HEAP_SIZE ≤ ebss → start ≤ p → p < start + HV_HEAP_SIZE → in_bss sbss ebss p = true.
Proof. intros. unfold in_bss. apply andb_true_iff. rewrite Z.leb_le, Z.ltb_lt. lia. Qed.

(** C35: [heap::init] followed by [heap::test] returns for every allocator that keeps its
    promises, when the static array is in the bss: no assertion fails, every block is
    given back, and no byte outside the array changes. *)
Theorem heap_test_passes sbss ebss h :
  live (h_alloc h) = ∅ → is_bytes (h_mem h) → sbss ≤ start → start + HV_HEAP_SIZE ≤ ebss →
  ∃ h', (init start ;;; test (E:=E) sbss ebss) h = ROk tt h' ∧
    live (h_alloc h') = ∅ ∧ area (h_alloc h') = (start, HV_HEAP_SIZE) ∧ same_outside (h_mem h) (h_mem h').
Proof.
  intros Hl Hb Hs He.
  assert (wp (init start ;;; test (E:=E) sbss ebss) (λ _ h', live (h_alloc h') = ∅ ∧
    area (h_alloc h') = (start, HV_HEAP_SIZE) ∧ same_outside (h_mem h) (h_mem h')) (λ _ _, False) h) as Hwp.
  2:{ unfold wp in Hwp. destruct ((init start ;;; test sbss ebss) h) as [[] h'|?|?|]; [by exists h'|done..]. }
  apply wp_bind, wp_modify. destruct (init_laws start HV_HEAP_SIZE (h_alloc h) Hl) as [I1 I2].
  change (HEAP_BLOCK * MACHINE_ALIGN) with HV_HEAP_SIZE. unfold test.
  apply wp_bind. eapply wp_mono; [by apply box_ok| |done]. intros p h1 (Hp1 & Hl1 & Hb1 & Hb2 & Hv & Ho1).
  apply wp_bind, wp_gets, wp_bind, wp_assert; [by rewrite Hv|].
  apply wp_bind, wp_assert; [apply in_bss_heap; lia|]. apply wp_bind, wp_modify.
  destruct (dealloc_laws 4 4 (h_alloc h1) p) as [D1 D2]; [rewrite Hl1; apply lookup_singleton_eq|].
  destruct Hp1 as [Ha1 Hby1].
  apply wp_bind. eapply wp_mono; [apply (push_all_ok (h_mem h) vec_new 0 500)| |done]; [|lia|].
  { split; cbn [h_alloc h_mem vec_new v_cap v_len v_ptr]; [|done|set_solver|done| |done|lia|done].
    - split; cbn [h_alloc h_mem]; [by rewrite D2|done].
    - rewrite D1, Hl1. apply delete_singleton_eq. }
  rewrite Nat.add_0_l. intros v h2 Hv2. destruct (Hv2) as [[Ha2 _] Hlen Hc Hf Hlv Hi _ Ho].
  replace (Z.to_nat (Z.min 500 (v_len v))) with 500%nat by (rewrite Hlen; done).
  apply wp_bind. eapply wp_mono; [by apply (check_all_ok (h_mem h))| |done]. intros _ h' ->.
  destruct Hi as [Hi1 Hi2]; [lia|]. apply wp_bind, wp_assert; [apply in_bss_heap; lia|].
  unfold vec_drop. rewrite (proj2 (Z.eqb_neq _ _)) by lia. apply wp_modify. cbn [h_alloc h_mem].
  assert (block v = {[v_ptr v := 8 * v_cap v]}) as Hbl by (unfold block; rewrite decide_False by lia; done).
  destruct (dealloc_laws (8 * v_cap v) 8 (h_alloc h2) (v_ptr v)) as [F1 F2].
  { rewrite Hlv, Hbl. apply lookup_singleton_eq. }
  split_and!; [|by rewrite F2|done]. rewrite F1, Hlv, Hbl. apply delete_singleton_eq.
Qed.

End laws.

(** ** An allocator *)

(** First fit over page-sized slots. *)
Record slots : Type := mkSlots { s_area : Z * Z; s_used : gmap Z Z }.

#[global] Instance overlap_dec p n q k : Decision (overlap p n q k).
Proof. unfold overlap. apply _. Defined.

Definition slot (a : slots) (i : nat) : Z :=
  (s_area a).1 + (- (s_area a).1) mod 8 + 4096 * Z.of_nat i.

Definition fits (n align : Z) (a : slots) (p : Z) : bool :=
  bool_decide (map_Forall (λ q k, ¬ overlap p n q k) (s_used a)) && (p mod align =? 0) &&
  ((s_area a).1 <=? p) && (p + n <=? (s_area a).1 + (s_area a).2).

Definition first_fit (n align : Z) (a : slots) : option Z := List.find (fits n align a) (slot a <$> seq 0 255).

#[global] Instance slots_alloc : Allocator slots := {
  a_init start size a := mkSlots (start, size) ∅;
  a_alloc n align a :=
    p ← first_fit n align a;
    Some (p, mkSlots (s_area a) (<[p := n]> (s_used a)));
  a_dealloc p n align a := mkSlots (s_area a) (delete p (s_used a))
}.

Lemma fits_spec n align a p :
  fits n align a p = true ↔
  (∀ q k, s_used a !! q = Some k → ¬ overlap p n q k) ∧ p mod align = 0 ∧ (s_area a).1 ≤ p ∧
  p + n ≤ (s_area a).1 + (s_area a).2.
Proof. unfold fits. rewrite !andb_true_iff, bool_decide_eq_true, Z.eqb_eq, !Z.leb_le. unfold map_Forall. tauto. Qed.

Lemma heap_slot_aligned a i align : align ∈ [4; 8] → slot a i mod align = 0.
Proof.
  intros Hal. unfold slot. set (s := (s_area a).1).
  assert (s + (- s) mod 8 = 8 * - ((- s) / 8)) as -> by (pose proof (Z.div_mod (- s) 8); lia).
  set_unfold. destruct Hal as [-> | [-> |[]]].
  - replace (8 * - (- s / 8) + 4096 * Z.of_nat i) with ((2 * - (- s / 8) + 1024 * Z.of_nat i) * 4) by lia.
    apply Z.mod_mul. lia.
  - replace (8 * - (- s / 8) + 4096 * Z.of_nat i) with ((- (- s / 8) + 512 * Z.of_nat i) * 8) by lia.
    apply Z.mod_mul. lia.
Qed.

(** One block of at most a page cannot reach both slot 0 and slot 3. *)
Lemma slots_serve n align a :
  (s_area a).2 = HV_HEAP_SIZE → 0 < n ≤ 4096 → align ∈ [4; 8] → (size (s_used a) ≤ 1)%nat →
  (∀ q k, s_used a !! q = Some k → k ≤ 4096) →
  fits n align a (slot a 0) = true ∨ fits n align a (slot a 3) = true.
Proof.
  intros Ha Hn Hal Hs Hk. pose proof (heap_slot_aligned a 0 align Hal) as H0. pose proof (heap_slot_aligned a 3 align Hal) as H3.
  rewrite !fits_spec. pose proof (Z.mod_pos_bound (- (s_area a).1) 8 ltac:(lia)) as Hm.
  assert (∀ i, (i < 255)%nat → (s_area a).1 ≤ slot a i ∧ slot a i + n ≤ (s_area a).1 + (s_area a).2) as Hin.
  { intros i Hi. unfold slot. rewrite Ha. unfold HV_HEAP_SIZE. lia. }
  pose proof (Hin 0%nat ltac:(lia)) as [? ?]. pose proof (Hin 3%nat ltac:(lia)) as [? ?].
  destruct (map_choose_or_empty (s_used a)) as [(q & k & Hq)|He].
  2:{ left. split_and!; try done. rewrite He. done. }
  assert (∀ q' k', s_used a !! q' = Some k' → q' = q ∧ k' = k) as Hone.
  { intros q' k' Hq'. destruct (decide (q' = q)) as [->|Hne]; [split; [done|congruence]|]. exfalso.
    assert (size (delete q (s_used a)) = 0%nat) as Hz by (rewrite map_size_delete_Some by eauto; lia).
    apply map_size_empty_inv in Hz. assert (delete q (s_used a) !! q' = Some k') as Hd by (by rewrite lookup_delete_ne).
    by rewrite Hz in Hd. }
  destruct (decide (overlap (slot a 0) n q k)) as [[O1 O2]|Hno].
  - right. split_and!; try done. intros q' k' [-> ->]%Hone [P1 P2]. specialize (Hk q k Hq). unfold slot in *. lia.
  - left. split_and!; try done. intros q' k' [-> ->]%Hone. done.
Qed.

#[global] Instance slots_laws : AllocatorLaws slots.
Proof.
  refine {| live := s_used; area := s_area |}.
  - done.
  - intros n align a p a' Hn Ha. cbn [a_alloc slots_alloc] in Ha. apply bind_Some in Ha as (p' & Hf & [= -> <-]).
    apply List.find_some in Hf as [_ Hf]. apply fits_spec in Hf as (H1 & H2 & H3 & H4). by split_and!.
  - done.
  - intros n align a Ha Hn Hal Hs Hk. cbn [a_alloc slots_alloc]. destruct (first_fit n align a) eqn:Hf; [by eexists|]. unfold first_fit in Hf.
    pose proof (List.find_none _ _ Hf) as Hnone.
    destruct (slots_serve n align a Ha Hn Hal Hs Hk) as [H|H]; rewrite Hnone in H; try done;
      apply list_elem_of_In, list_elem_of_fmap; eexists; (split; [done|]); apply elem_of_seq; lia.
Defined.

(** ** Witness *)

Definition demo_heap : heap slots := mkHeap ∅ (mkSlots (0, 0) ∅).

Lemma heap_test_passes_witness :
  ∃ h', (init 0x40500000 ;;; test (E:=unit) 0x40400000 0x40700000) demo_heap = ROk tt h' ∧
    live (h_alloc h') = ∅ ∧ area (h_alloc h') = (0x40500000, HV_HEAP_SIZE) ∧
    same_outside 0x40500000 (h_mem demo_heap) (h_mem h').
Proof.
  apply (heap_test_passes (E:=unit) 0x40500000).
  - reflexivity.
  - intros b. by vm_compute.
  - vm_compute. discriminate.
  - vm_compute. discriminate.
Defined.
