(* ===== verification/ZoneProps.v ===== *)
(** * Properties of zones: interrupts, MMIO regions and CPU sets *)

From S2P Require Import Prelude HvError Addr Region PtIface MemorySet CpuSet Mmio Config Sys.
From S2P Require Import ZoneOps.

(** ** Interrupt bitmaps *)

(** The bitmap has its 32 words of 32 bits. *)
Definition bitmap_wf (b : list Z) : Prop := length b = 32%nat ∧ ∀ w, w ∈ b → 0 ≤ w.

(** The interrupt's bit. *)
Definition irq_bit (b : list Z) (irq : Z) : bool :=
  Z.testbit (default 0 (b !! Z.to_nat (irq / 32))) (irq mod 32).

Section irqs.
  Context {PT S E : Type}.
  Implicit Types (z : Zone PT) (s : S).

Lemma irq_index_lt irq : 0 ≤ irq < 1024 → 0 ≤ irq / 32 < 32 ∧ 0 ≤ irq mod 32 < 32.
Proof.
  intros Hi. split; [|by apply Z.mod_pos_bound].
  split; [apply Z.div_pos; lia|apply Z.div_lt_upper_bound; lia].
Qed.

Lemma irq_word_eq z irq s :
  bitmap_wf (z_irq_bitmap z) → 0 ≤ irq < 1024 →
  irq_word (E:=E) z (irq / 32) s = ROk (default 0 (z_irq_bitmap z !! Z.to_nat (irq / 32))) s.
Proof.
  intros [Hl _] Hi. destruct (irq_index_lt irq Hi) as [Hd _]. unfold irq_word.
  destruct (lookup_lt_is_Some_2 (z_irq_bitmap z) (Z.to_nat (irq / 32))) as [w Hw]; [lia|].
  by rewrite Hw.
Qed.

Lemma irq_in_zone_eq z irq s :
  bitmap_wf (z_irq_bitmap z) → 0 ≤ irq < 1024 →
  irq_in_zone (E:=E) z irq s = ROk (irq_bit (z_irq_bitmap z) irq) s.
Proof.
  intros Hwf Hi. unfold irq_in_zone, hbind. rewrite irq_word_eq by done.
  destruct (irq_index_lt irq Hi) as [_ Hm]. unfold hret. by rewrite land_bit by lia.
Qed.

Lemma insert_irq_eq z irq s :
  bitmap_wf (z_irq_bitmap z) → 0 ≤ irq < 1024 →
  ∃ z', insert_irq_to_bitmap (E:=E) z irq s = ROk z' s ∧ bitmap_wf (z_irq_bitmap z') ∧
        (∀ i, 0 ≤ i < 1024 →
           irq_bit (z_irq_bitmap z') i = irq_bit (z_irq_bitmap z) i || (i =? irq)) ∧
        z_id z' = z_id z ∧ z_gpm z' = z_gpm z ∧ z_mmio z' = z_mmio z ∧ z_cpu_set z' = z_cpu_set z.
Proof.
  intros Hwf Hi. unfold insert_irq_to_bitmap, hbind, hassert.
  rewrite (proj2 (Z.ltb_lt irq 1024)) by lia. simpl. rewrite irq_word_eq by done.
  eexists. split; [done|]. simpl. destruct Hwf as [Hl Hn]. destruct (irq_index_lt irq Hi) as [Hd Hm].
  destruct (lookup_lt_is_Some_2 (z_irq_bitmap z) (Z.to_nat (irq / 32))) as [w Hw]; [lia|].
  split; [|split; [|done]].
  - split; [by rewrite length_insert|]. intros v Hv.
    apply list_elem_of_lookup in Hv as [j Hj]. apply list_lookup_insert_Some in Hj as [(_ & <- & _)|[_ Hj]].
    + rewrite Hw. simpl. apply Z.lor_nonneg. split.
      * apply Hn. by eapply list_elem_of_lookup_2.
      * rewrite Z.shiftl_1_l. apply Z.pow_nonneg. lia.
    + apply Hn. by eapply list_elem_of_lookup_2.
  - intros i Hi'. destruct (irq_index_lt i Hi') as [Hd' Hm']. unfold irq_bit.
    pose proof (Z.div_mod i 32 ltac:(lia)). pose proof (Z.div_mod irq 32 ltac:(lia)).
    destruct (decide (i / 32 = irq / 32)) as [Heq|Hne].
    + rewrite Heq, list_lookup_insert_eq by lia. simpl. rewrite Hw. simpl.
      rewrite Z.lor_spec, Z.shiftl_1_l, Z.pow2_bits_eqb by lia. f_equal.
      destruct (Z.eqb_spec (irq mod 32) (i mod 32)), (Z.eqb_spec i irq); try done; lia.
    + rewrite list_lookup_insert_ne by lia.
      rewrite (proj2 (Z.eqb_neq i irq)) by congruence. by rewrite orb_false_r.
Qed.

(** [irq_bitmap_init] succeeds for interrupt numbers below 1024, and
    afterwards [irq_in_zone] is true exactly for the configured interrupts (and
    those set before). *)
Theorem irq_bitmap_init_exact z irqs s :
  bitmap_wf (z_irq_bitmap z) → (∀ i, i ∈ irqs → 0 ≤ i < 1024) →
  ∃ z', irq_bitmap_init (E:=E) z irqs s = ROk z' s ∧
        ∀ i, 0 ≤ i < 1024 →
          irq_in_zone (E:=E) z' i s =
          ROk (irq_bit (z_irq_bitmap z) i || bool_decide (i ∈ irqs)) s.
Proof.
  intros Hwf Hirqs.
  assert (∃ z', irq_bitmap_init (E:=E) z irqs s = ROk z' s ∧ bitmap_wf (z_irq_bitmap z') ∧
    ∀ i, 0 ≤ i < 1024 →
      irq_bit (z_irq_bitmap z') i = irq_bit (z_irq_bitmap z) i || bool_decide (i ∈ irqs))
    as (z' & Hrun & Hwf' & Hbits).
  { revert z Hwf. induction irqs as [|irq irqs IH]; intros z Hwf.
    - exists z. split; [done|]. split; [done|]. intros i _. by rewrite orb_false_r.
    - simpl. unfold hbind. destruct (insert_irq_eq z irq s Hwf) as (z1 & -> & Hwf1 & Hb1 & _).
      { apply Hirqs. set_solver. }
      destruct (IH ltac:(set_solver) z1 Hwf1) as (z' & -> & Hwf' & Hb'). exists z'.
      split; [done|]. split; [done|]. intros i Hi. rewrite Hb', Hb1 by done.
      rewrite <- orb_assoc. f_equal. destruct (Z.eqb_spec i irq) as [->|Hne]; simpl.
      + symmetry. apply bool_decide_true. set_solver.
      + apply bool_decide_ext. set_solver. }
  exists z'. split; [done|]. intros i Hi. rewrite irq_in_zone_eq by done. by rewrite Hbits.
Qed.

End irqs.

(** ** MMIO regions *)

Definition cfg_ok (c : MMIOConfig) : Prop :=
  0 ≤ mr_start (region c) ∧ 0 < mr_size (region c) ∧ mr_start (region c) + mr_size (region c) < U64.

(** The access lies inside the region. *)
Definition covers (c : MMIOConfig) (addr size : Z) : bool :=
  bool_decide (mr_start (region c) ≤ addr ∧ addr + size ≤ mr_start (region c) + mr_size (region c)).

Section mmio.
  Context {PT S E : Type}.
  Implicit Types (z : Zone PT) (s : S) (l : list MMIOConfig).

Lemma find_in_eq l addr size s :
  (∀ c, c ∈ l → cfg_ok c) → 0 ≤ addr → 0 ≤ size → addr + size < U64 →
  find_in (E:=E) addr size l s =
  ROk ((λ c, (region c, handler c, arg c)) <$> List.find (λ c, covers c addr size) l) s.
Proof.
  intros Hl Ha Hs Hlt. induction l as [|c l IH]; [done|]. simpl. unfold hbind.
  destruct (Hl c) as (H0 & H1 & H2); [set_solver|].
  rewrite contains_region_spec by lia. fold (covers c addr size).
  destruct (covers c addr size); [done|]. apply IH. set_solver.
Qed.

(** Registering where no region starts appends the region. *)
Lemma register_in_fresh l start size h a s :
  (∀ c, c ∈ l → mr_start (region c) ≠ start) →
  register_in (E:=E) start size h a l s =
  ROk (l ++ [mkMMIOConfig (mkMMIORegion start size) h a]) s.
Proof.
  induction l as [|c l IH]; intros Hl; [done|]. simpl.
  rewrite (proj2 (Z.eqb_neq _ _)) by (apply Hl; set_solver). unfold hbind.
  rewrite IH by set_solver. done.
Qed.

Lemma find_app_fresh {A} (f : A → bool) (l : list A) x :
  f x = true → (∀ c, c ∈ l → f c = false) → List.find f (l ++ [x]) = Some x.
Proof.
  intros Hx. induction l as [|c l IH]; intros Hl; simpl; [by rewrite Hx|].
  rewrite Hl by set_solver. apply IH. set_solver.
Qed.

(** After [mmio_region_register] of a region that overlaps no registered one,
    [find_mmio_region] returns its handler and argument for every access that lies
    inside it, and answers every other access inside a registered region as before. *)
Theorem mmio_register_find z start size h a s :
  (∀ c, c ∈ z_mmio z → cfg_ok c) → 0 ≤ start → 0 < size → start + size < U64 →
  (∀ c, c ∈ z_mmio z → mr_start (region c) + mr_size (region c) ≤ start ∨
                       start + size ≤ mr_start (region c)) →
  ∃ z', mmio_region_register (E:=E) z start size h a s = ROk z' s ∧
    ∀ addr n, 0 ≤ addr → 0 < n → addr + n < U64 →
      (start ≤ addr → addr + n ≤ start + size →
         find_mmio_region (E:=E) z' addr n s = ROk (Some (mkMMIORegion start size, h, a)) s) ∧
      (∀ x, find_mmio_region (E:=E) z addr n s = ROk (Some x) s →
            find_mmio_region (E:=E) z' addr n s = ROk (Some x) s).
Proof.
  intros Hok H0 H1 H2 Hdis. unfold mmio_region_register, hbind. rewrite register_in_fresh.
  2:{ intros c Hc. destruct (Hok c Hc) as (? & ? & ?), (Hdis c Hc); lia. }
  eexists. split; [done|]. intros addr n Ha Hn Hlt. unfold find_mmio_region. simpl.
  assert (∀ c, c ∈ z_mmio z ++ [mkMMIOConfig (mkMMIORegion start size) h a] → cfg_ok c) as Hok'.
  { intros c [Hc|Hc]%elem_of_app; [auto|]. apply list_elem_of_singleton in Hc as ->. done. }
  rewrite !find_in_eq by (done || lia). split.
  - intros Hs He. rewrite find_app_fresh; [done| |].
    + apply bool_decide_true. simpl. lia.
    + intros c Hc. apply bool_decide_false. destruct (Hdis c Hc); lia.
  - intros x [= Hx]. f_equal. clear Hok Hok' Hdis.
    induction (z_mmio z) as [|c l IH]; simpl in *; [done|]. destruct (covers c addr n); [done|auto].
Qed.

End mmio.

(** ** CPU sets *)

(** Iterating a CPU set visits exactly the CPUs whose bit is set, each once;
    [first_cpu] is the first of them, and [iter_except] leaves out just the one. *)
Theorem cpu_set_iteration {S E} (cs : CpuSet) (s : S) id :
  cpuset_wf cs →
  cpu_iter (E:=E) cs s = ROk (cpus_of cs) s ∧ NoDup (cpus_of cs) ∧
  (∀ i, i ∈ cpus_of cs ↔ 0 ≤ i ≤ max_cpu_id cs ∧ Z.testbit (bitmap cs) i = true) ∧
  first_cpu (E:=E) cs s = ROk (head (cpus_of cs)) s ∧
  cpu_iter_except (E:=E) cs id s = ROk (filter (λ i, i ≠ id) (cpus_of cs)) s.
Proof.
  intros Hwf. split; [by apply cpu_iter_eq|]. split; [apply cpus_of_nodup|].
  split; [intros i; apply cpus_of_elem|].
  split; [by apply first_cpu_eq|by apply cpu_iter_except_eq].
Qed.

Lemma cpu_set_iteration_witness :
  cpu_iter (E:=HvError) (mkCpuSet 4 0xa) tt = ROk (cpus_of (mkCpuSet 4 0xa)) tt ∧
  NoDup (cpus_of (mkCpuSet 4 0xa)) ∧
  (∀ i, i ∈ cpus_of (mkCpuSet 4 0xa) ↔ 0 ≤ i ≤ 4 ∧ Z.testbit 0xa i = true) ∧
  first_cpu (E:=HvError) (mkCpuSet 4 0xa) tt = ROk (head (cpus_of (mkCpuSet 4 0xa))) tt ∧
  cpu_iter_except (E:=HvError) (mkCpuSet 4 0xa) 3 tt =
    ROk (filter (λ i, i ≠ 3) (cpus_of (mkCpuSet 4 0xa))) tt.
Proof. apply (cpu_set_iteration (mkCpuSet 4 0xa) tt 3). split; split; done. Defined.

(** A zone with an empty bitmap and one registered region. *)
Definition demo_zone : Zone unit :=
  mkZone 1 [mkMMIOConfig (mkMMIORegion 0x8000000 0x10000) h_gicd 0] (mkCpuSet 4 0)
    (replicate 32 0) (mkMS [] tt).

Lemma demo_bitmap_wf : bitmap_wf (z_irq_bitmap demo_zone).
Proof. split; [done|]. intros w Hw. apply elem_of_replicate in Hw as [-> _]. done. Qed.

Lemma irq_bitmap_init_exact_witness :
  ∃ z', irq_bitmap_init (E:=HvError) demo_zone [33; 64] tt = ROk z' tt ∧
        ∀ i, 0 ≤ i < 1024 →
          irq_in_zone (E:=HvError) z' i tt =
          ROk (irq_bit (z_irq_bitmap demo_zone) i || bool_decide (i ∈ [33; 64])) tt.
Proof.
  apply (irq_bitmap_init_exact demo_zone [33; 64] tt); [exact demo_bitmap_wf|].
  intros i [->|[->|[]%elem_of_nil]%elem_of_cons]%elem_of_cons; done.
Defined.

Lemma mmio_register_find_witness :
  ∃ z', mmio_region_register (E:=HvError) demo_zone 0xa000000 0x200 h_virtio 0xa000000 tt = ROk z' tt ∧
    ∀ addr n, 0 ≤ addr → 0 < n → addr + n < U64 →
      (0xa000000 ≤ addr → addr + n ≤ 0xa000000 + 0x200 →
         find_mmio_region (E:=HvError) z' addr n tt =
         ROk (Some (mkMMIORegion 0xa000000 0x200, h_virtio, 0xa000000)) tt) ∧
      (∀ x, find_mmio_region (E:=HvError) demo_zone addr n tt = ROk (Some x) tt →
            find_mmio_region (E:=HvError) z' addr n tt = ROk (Some x) tt).
Proof.
  apply (mmio_register_find demo_zone 0xa000000 0x200 h_virtio 0xa000000 tt); try done.
  - intros c Hc. apply list_elem_of_singleton in Hc as ->. done.
  - intros c Hc. apply list_elem_of_singleton in Hc as ->. simpl. lia.
Defined.
