(* ===== verification/DemoSys.v ===== *)
(** * A concrete machine for the witnesses of the run-time components

    Four CPUs, a GIC, plain memory behind the bus. [demo_sys] has a root zone
    (pointer 1, CPUs 0 and 1) and a guest zone (pointer 2, CPU 2, interrupt 33); CPU 3
    belongs to no zone. [cold_sys] is the machine before any zone is made. *)

From S2P Require Import Prelude PhysMem HvError Addr Frame Region Pte S2pt PtIface Paging.
From S2P Require Import PtInstance BTreeMap MemorySet CpuSet Mmio Config Sys ZoneOps Gic Event.
From S2P Require Import Virtio Vgic Hypercall Demo.

Abbreviation dsys := (sys (world (gset Z)) HvPageTable mem).

Definition no_pt : MemorySet HvPageTable := mkMS [] (mkUnlocked (mkImmut (mkFrame 0 0) 3) []).

Definition root_z : Zone HvPageTable :=
  mkZone 0 [mkMMIOConfig (mkMMIORegion 0x8000000 0x10000) h_gicd 0] (mkCpuSet 4 0x3)
    (replicate 32 0) no_pt.
Definition guest_z : Zone HvPageTable :=
  mkZone 1 [mkMMIOConfig (mkMMIORegion 0xa000000 0x200) h_virtio 0xa000000;
            mkMMIOConfig (mkMMIORegion 0x8000000 0x10000) h_gicd 0;
            mkMMIOConfig (mkMMIORegion 0x80c0000 0x20000) h_gicr 1;
            mkMMIOConfig (mkMMIORegion 0x8100000 0x20000) h_gicr 3]
    (mkCpuSet 4 0x4) (<[1%nat := 2]> (replicate 32 0)) no_pt.

Definition demo_bridge : VirtioBridge :=
  mkBridge 0 0 0 0 (replicate 32 (mkReq 0 0 0 0 0 0 0)) (replicate 32 (mkRes 0 0))
    (replicate 16 0) (replicate 16 0) (replicate 4 0) 0 1.

Definition demo_gic : Gic := mkGic 0x8000000 0x80a0000 0x10000 0xf60000.

Definition regs_of (l : list (string * Z)) : sysregs := mkSysregs (list_to_map l) [].

(** The machine seen from CPU [cpu]. *)
Definition demo_sys (cpu : Z) : dsys :=
  mkSys demo_world ∅ (<[1 := root_z]> (<[2 := guest_z]> ∅)) [1; 2]
    (<[0 := mkPerCpu 0 0x40000000 0 true (Some 1) true]>
     (<[1 := mkPerCpu 1 INVALID_ADDRESS 0 true (Some 1) false]>
      (<[2 := mkPerCpu 2 0x50000000 0 true (Some 2) true]>
       (<[3 := mkPerCpu 3 INVALID_ADDRESS 0 false None false]> ∅))))
    (Some (EventManager_new 4)) (mkBridgeRegion 0x7e000000 true) demo_bridge bt_empty
    (Some demo_gic) (mkPar 2 4)
    (regs_of [("MPIDR_EL1"%string, cpu); ("ich_vtr_el2"%string, 3); ("ich_elrsr_el2"%string, 0xf)])
    (mkRegs 2 (replicate 31 0)) [] None.

(** Before [zone_create]. *)
Definition cold_sys : dsys :=
  mkSys demo_world ∅ ∅ []
    (<[0 := percpu_new 0]> (<[1 := percpu_new 1]> (<[2 := percpu_new 2]> (<[3 := percpu_new 3]> ∅))))
    (Some (EventManager_new 4)) VirtioBridgeRegion_default demo_bridge bt_empty
    (Some demo_gic) (mkPar 2 4) (regs_of [("MPIDR_EL1"%string, 0)]) (mkRegs 2 (replicate 31 0)) [] None.

(** A configuration with [cpus] and one 4M memory region at [va]. *)
Definition demo_config (zid cpus va pa : Z) : HvZoneConfig :=
  mkZoneConfig zid cpus 1 (mkConfigRegion MEM_TYPE_RAM pa va 0x400000 :: replicate 15 new_empty)
    1 (33 :: replicate 31 0) va pa 0x400000 pa 0x10000 (mkArchConfig 0 0 0 0).
