(* ===== verification/GicProps.v ===== *)
(** * Properties of interrupt injection and of the virtual distributor *)

From S2P Require Import Prelude PhysMem HvError Addr Frame Region Pte S2pt PtIface Paging.
From S2P Require Import PtInstance MemorySet CpuSet Mmio Config Sys ZoneOps Gic Event Vgic.
From S2P Require Import ZoneProps Demo DemoSys.

(** ** Injection *)

(** What a write of one list register changes. *)
Lemma lr_val_insert x i r v log j :
  0 ≤ i < 16 → 0 ≤ j < 16 → lr_names !! Z.to_nat i = Some r →
  lr_val (mkSysregs (<[r := v]> (sr_val x)) log) j = if decide (j = i) then v else lr_val x j.
Proof.
  intros Hi Hj Hr. unfold lr_val. simpl. destruct (decide (j = i)) as [->|Hne].
  - by rewrite Hr, lookup_insert_eq.
  - destruct (lr_names_lookup j Hj) as [r' Hr']. rewrite Hr', lookup_insert_ne; [done|].
    intros <-. apply Hne. pose proof (NoDup_lookup _ _ _ _ lr_names_inj Hr Hr'). lia.
Qed.

(** C23: [inject_irq] never loses or duplicates an interrupt: if a list register in
    use holds it nothing changes; otherwise it is written, pending, to the lowest
    list register the hardware reports free and no other list register changes; it
    panics exactly when the interrupt is not held and every list register is in
    use. *)
Theorem inject_irq_correct {E} x irq hw :
  0 ≤ default 0 (sr_val x !! "ich_elrsr_el2"%string) → 0 ≤ irq < U32 →
  match inject_irq (E:=E) irq hw x with
  | ROk _ x' =>
      (held x irq ∧ x' = x) ∨
      (¬ held x irq ∧ ∃ i, first_free x i ∧ lr_val x' i mod U32 = irq ∧
         Z.testbit (lr_val x' i) 62 = true ∧
         ∀ j, 0 ≤ j < 16 → j ≠ i → lr_val x' j = lr_val x j)
  | RPanic _ => ¬ held x irq ∧ ∀ i, 0 ≤ i < lr_count x → lr_free x i = false
  | _ => False
  end.
Proof.
  intros Hpos Hirq. pose proof (lr_count_range x) as Hc.
  destruct (inject_irq_cases (E:=E) x irq hw Hpos) as
    [[Hh ->]|[(Hn & i & r & Hf & Hr & ->)|(Hn & Ha & ->)]]; [by left| |done].
  right. split; [done|]. exists i. assert (0 ≤ i < 16) as Hi by (destruct Hf; lia).
  split; [done|]. rewrite (lr_val_insert x i r), decide_True by done.
  split; [by apply lr_value_vintid|]. split; [by apply lr_value_pending|].
  intros j Hj Hne. by rewrite (lr_val_insert x i r), decide_False.
Qed.

Definition demo_regs : sysregs :=
  mkSysregs (<["ich_vtr_el2"%string := 3]> (<["ich_elrsr_el2"%string := 0xe]> ∅)) [].

Lemma inject_irq_correct_witness :
  match inject_irq (E:=HvError) 33 true demo_regs with
  | ROk _ x' =>
      (held demo_regs 33 ∧ x' = demo_regs) ∨
      (¬ held demo_regs 33 ∧ ∃ i, first_free demo_regs i ∧ lr_val x' i mod U32 = 33 ∧
         Z.testbit (lr_val x' i) 62 = true ∧
         ∀ j, 0 ≤ j < 16 → j ≠ i → lr_val x' j = lr_val demo_regs j)
  | RPanic _ => ¬ held demo_regs 33 ∧ ∀ i, 0 ≤ i < lr_count demo_regs → lr_free demo_regs i = false
  | _ => False
  end.
Proof. apply (inject_irq_correct demo_regs 33 true); [done|split; done]. Defined.

(** ** The access mask *)

Lemma field_bit bits irq b :
  0 ≤ bits → 0 ≤ irq → 0 ≤ b →
  Z.testbit (Z.shiftl (Z.shiftl 1 bits - 1) (irq * bits)) b =
  (irq * bits <=? b) && (b <? irq * bits + bits).
Proof.
  intros Hb Hi Hb0. rewrite Z.shiftl_spec by done.
  replace (Z.shiftl 1 bits - 1) with (Z.ones bits) by (unfold Z.ones; lia).
  destruct (Z.leb_spec (irq * bits) b) as [Hle|Hgt]; simpl.
  - rewrite Z.testbit_ones_nonneg by lia. apply eq_true_iff_eq. rewrite !Z.ltb_lt. lia.
  - by apply Z.testbit_neg_r; lia.
Qed.

Section mask.
  Context {W PT D : Type} {E : Type}.
  Implicit Types (z : Zone PT) (s : sys W PT D).

(** The bit [b] of the register belongs to an interrupt of the zone. *)
Definition owns_bit z (reg_index bits b : Z) : bool :=
  irq_bit (z_irq_bitmap z) (reg_index * (32 / bits) + b / bits).

Lemma access_mask_loop_spec z bits first irqs mask s :
  bitmap_wf (z_irq_bitmap z) → 0 < bits → 0 ≤ first →
  (∀ i, i ∈ irqs → 0 ≤ i ∧ first + i < 1024) →
  ∃ m, access_mask_loop (E:=E) z bits first (Z.shiftl 1 bits - 1) irqs mask s = ROk m s ∧
    ∀ b, 0 ≤ b →
      Z.testbit m b = true ↔
      Z.testbit mask b = true ∨
      (b / bits ∈ irqs ∧ irq_bit (z_irq_bitmap z) (first + b / bits) = true).
Proof.
  intros Hwf Hb Hf. revert mask. induction irqs as [|irq irqs IH]; intros mask Hirqs.
  { exists mask. split; [done|]. set_solver. }
  destruct (Hirqs irq) as [Hi0 Hi1]; [set_solver|].
  simpl. unfold hbind. rewrite Z.mod_small by (unfold U32; lia). rewrite irq_in_zone_eq by (done || lia).
  edestruct (IH (if irq_bit (z_irq_bitmap z) (first + irq)
                 then Z.lor mask (Z.shiftl (Z.shiftl 1 bits - 1) (irq * bits)) else mask))
    as (m & Hrun & Hm); [set_solver|].
  exists m. split; [done|]. intros b Hb0. rewrite Hm, elem_of_cons by done.
  assert ((irq * bits <=? b) && (b <? irq * bits + bits) = true ↔ b / bits = irq) as Hfield.
  { rewrite andb_true_iff, Z.leb_le, Z.ltb_lt. split.
    - intros Hr. symmetry. apply (Z.div_unique b bits irq (b - irq * bits)); lia.
    - intros <-. pose proof (Z.div_mod b bits). pose proof (Z.mod_pos_bound b bits). lia. }
  destruct (irq_bit (z_irq_bitmap z) (first + irq)) eqn:Hin.
  - rewrite Z.lor_spec, orb_true_iff, field_bit, Hfield by lia. split; [|naive_solver].
    intros [[?|Heq]|?]; [tauto| |tauto]. right. rewrite Heq. split; [by left|done].
  - split; [tauto|]. intros [?|[[Heq|?] ?]]; [tauto| |tauto]. rewrite Heq in *. congruence.
Qed.

(** The mask has exactly the bits of the zone's interrupts. *)
Lemma access_mask_spec z idx bits s :
  bitmap_wf (z_irq_bitmap z) → bits = 1 ∨ bits = 2 ∨ bits = 8 →
  0 ≤ idx → idx * (32 / bits) + 32 / bits ≤ 1024 →
  ∃ m, access_mask (E:=E) z idx bits s = ROk m s ∧ is_u64 m ∧
    ∀ b, 0 ≤ b → Z.testbit m b = (b <? 32) && owns_bit z idx bits b.
Proof.
  intros Hwf Hbits Hidx Hmax. assert (0 < bits ∧ 0 < 32 / bits ∧ 32 / bits * bits = 32) as (Hb & Hn & Hnb).
  { by destruct Hbits as [->|[->| ->]]. }
  unfold access_mask, hbind, umul. rewrite (proj2 (Z.ltb_lt _ _)) by (unfold U64; lia). simpl.
  destruct (access_mask_loop_spec z bits (idx * (32 / bits)) (seqZ 0 (32 / bits)) 0 s)
    as (m & Hrun & Hm); [done|done|nia| |].
  { intros i. rewrite elem_of_seqZ. lia. }
  assert (∀ b, 0 ≤ b → Z.testbit m b = (b <? 32) && owns_bit z idx bits b) as Hbit.
  { intros b Hb0. apply eq_true_iff_eq. rewrite Hm, Z.bits_0, andb_true_iff, Z.ltb_lt, elem_of_seqZ by done.
    unfold owns_bit. assert (b / bits < 32 / bits ↔ b < 32) as Hlt.
    { pose proof (Z.div_mod b bits ltac:(lia)). pose proof (Z.mod_pos_bound b bits Hb). nia. }
    pose proof (Z.div_pos b bits Hb0 Hb). rewrite <- Hlt. split.
    - intros [?|[? ?]]; [done|]. split; [lia|done].
    - intros [? ?]. right. split; [lia|done]. }
  exists m. split; [done|]. split; [|done].
  apply is_u64_land, Z.bits_inj'. intros b Hb0. rewrite Z.land_spec, Z.testbit_ones_nonneg by lia.
  destruct (Z.ltb_spec b 64); [by rewrite andb_true_r|]. rewrite andb_false_r, Hbit by done.
  by rewrite (proj2 (Z.ltb_ge b 32)) by lia.
Qed.

End mask.

(** ** Restricted register accesses *)

Section restrict.
  Context {W PT D : Type} {G : GenericPageTable W PT} {B : Bus D}.
  Implicit Types (z : Zone PT) (s : sys W PT D).

(** The running CPU belongs to zone [z]. *)
Definition runs_in s z : Prop :=
  ∃ p, this_zone (E:=HvError) s = ROk p s ∧ s_heap s !! p = Some z.

Lemma runs_in_read {A} s z (k : Zone PT → M (sys W PT D) HvError A) :
  runs_in s z → (let* p := this_zone in let* z := read_zone p in k z) s = k z s.
Proof.
  intros (p & Hp & Hz). unfold hbind. rewrite Hp. unfold read_zone, hbind, hgets. by rewrite Hz.
Qed.

(** Masked-in bits come from the guest, the others from the register. *)
Definition merged z (idx bits old new v : Z) : Prop :=
  ∀ b, 0 ≤ b < 32 → Z.testbit v b = if owns_bit z idx bits b then Z.testbit new b else Z.testbit old b.

Lemma perform_read base mmio (d : D) v d' :
  is_write mmio = false → acc_size mmio = 4 → base + address mmio < U64 →
  bus_read (base + address mmio) 4 d = (v, d') →
  mmio_perform_access (E:=HvError) base mmio d = ROk (set_value v mmio) d'.
Proof.
  intros Hw Hs Ha Hr. unfold mmio_perform_access, hbind, uadd.
  rewrite (proj2 (Z.ltb_lt _ _) Ha). simpl. rewrite Hw, Hs. simpl. unfold hget. by rewrite Hr.
Qed.

Lemma perform_write base mmio (d : D) :
  is_write mmio = true → acc_size mmio = 4 → base + address mmio < U64 →
  mmio_perform_access (E:=HvError) base mmio d =
  ROk mmio (bus_write (base + address mmio) 4 (value mmio mod U32) d).
Proof.
  intros Hw Hs Ha. unfold mmio_perform_access, hbind, uadd.
  rewrite (proj2 (Z.ltb_lt _ _) Ha). simpl. by rewrite Hw, Hs.
Qed.

Lemma with_bus_eq {A} (m : M D HvError A) s a d :
  m (s_bus s) = ROk a d → with_bus m s = ROk a (set_bus d s).
Proof. intros H. unfold with_bus, zoom. by rewrite H. Qed.

Lemma unot_bit m b : 0 ≤ b < 64 → is_u64 m → Z.testbit (unot64 m) b = negb (Z.testbit m b).
Proof.
  intros Hb Hm. unfold unot64. replace (U64 - 1 - m) with (Z.lnot m mod 2 ^ 64).
  - rewrite Z.mod_pow2_bits_low by lia. apply Z.lnot_spec. lia.
  - unfold Z.lnot, is_u64, U64 in *. replace (Z.pred (- m)) with (2 ^ 64 - 1 - m + (-1) * 2 ^ 64) by lia.
    rewrite Z.mod_add by lia. apply Z.mod_small. lia.
Qed.


(** A 32-bit guest read of such a register returns the register's bits for
    the zone's interrupts and zero for all others, and a write to a set/clear
    register (ISENABLER, ICENABLER, ...) passes on only the guest's bits for the
    zone's interrupts, so that it cannot touch another zone's interrupts. *)
Theorem restricted_read_and_poke s z mmio idx bits base :
  runs_in s z → bitmap_wf (z_irq_bitmap z) → bits = 1 ∨ bits = 2 ∨ bits = 8 →
  0 ≤ idx → idx * (32 / bits) + 32 / bits ≤ 1024 →
  acc_size mmio = 4 → base + address mmio < U64 →
  (is_write mmio = false → ∀ v d1 poke,
     bus_read (base + address mmio) 4 (s_bus s) = (v, d1) →
     ∃ mmio', restrict_bitmask_access mmio idx bits poke base s = ROk mmio' (set_bus d1 s) ∧
       ∀ b, 0 ≤ b < 64 → Z.testbit (value mmio') b =
         (b <? 32) && owns_bit z idx bits b && Z.testbit v b) ∧
  (is_write mmio = true →
     ∃ mmio' v, restrict_bitmask_access mmio idx bits true base s =
                ROk mmio' (set_bus (bus_write (base + address mmio) 4 v (s_bus s)) s) ∧
       ∀ b, 0 ≤ b < 32 → Z.testbit v b = owns_bit z idx bits b && Z.testbit (value mmio) b).
Proof.
  intros Hrun Hwf Hbits Hi Hmax Hs Ha.
  destruct (access_mask_spec (E:=HvError) z idx bits s Hwf Hbits Hi Hmax) as (m & Hm & Hu & Hbit).
  split.
  - intros Hw v d1 poke Hr. unfold restrict_bitmask_access. rewrite (runs_in_read s z) by done.
    unfold hbind at 1. rewrite Hm, Hw. simpl. unfold hbind.
    rewrite (with_bus_eq _ s (set_value v mmio) d1) by (by apply perform_read).
    eexists. split; [done|]. intros b Hb. simpl. rewrite Z.land_spec, Hbit by lia. apply andb_comm.
  - intros Hw. unfold restrict_bitmask_access. rewrite (runs_in_read s z) by done.
    unfold hbind at 1. rewrite Hm, Hw. simpl.
    erewrite with_bus_eq by exact (perform_write base (set_value (Z.land (value mmio) m) mmio) (s_bus s)
                                    Hw Hs Ha). simpl.
    eexists _, _. split; [done|]. intros b Hb. unfold U32. rewrite Z.mod_pow2_bits_low by lia.
    rewrite Z.land_spec, Hbit by lia. rewrite (proj2 (Z.ltb_lt b 32)) by lia. apply andb_comm.
Qed.


End restrict.

(** ** Witnesses: CPU 2 runs the guest zone, which owns interrupt 33 *)

Lemma demo_runs_in : runs_in (demo_sys 2) guest_z.
Proof. exists 2. split; reflexivity. Qed.

Lemma guest_bitmap_wf : bitmap_wf (z_irq_bitmap guest_z).
Proof.
  split; [reflexivity|]. intros w Hw. assert (forallb (Z.leb 0) (z_irq_bitmap guest_z)) as H by reflexivity.
  apply Is_true_true, forallb_forall with (x := w) in H; [lia|]. by apply list_elem_of_In.
Qed.


Lemma restricted_read_and_poke_witness :
  ∃ mmio' v,
    restrict_bitmask_access (mkAccess 0x104 4 true 0xffffffff) 1 1 true 0x8000000 (demo_sys 2) =
    ROk mmio' (set_bus (bus_write (0x8000000 + 0x104) 4 v ∅) (demo_sys 2)) ∧
    ∀ b, 0 ≤ b < 32 → Z.testbit v b = owns_bit guest_z 1 1 b && Z.testbit 0xffffffff b.
Proof.
  apply (restricted_read_and_poke (demo_sys 2) guest_z (mkAccess 0x104 4 true 0xffffffff) 1 1 0x8000000
    demo_runs_in guest_bitmap_wf); (by left) || reflexivity || lia || (vm_compute; congruence).
Defined.

