(* ===== verification/RuntimeProps.v ===== *)
(** * Properties of events, the virtio trampoline, hypercalls and traps *)

From S2P Require Import Prelude PhysMem HvError Addr Frame Region Pte S2pt PtIface Paging.
From S2P Require Import PtInstance BTreeMap MemorySet CpuSet Mmio Config Sys ZoneOps Gic Event.
From S2P Require Import Virtio Vgic Hypercall Trap ZoneProps Demo DemoSys.

(** ** Events *)

(** Events are delivered in order, to the CPU they were sent to and to no
    other: whatever events are added for a CPU whose queue was empty, fetching that
    many times returns them in the order they were added, and the queues of the
    other CPUs do not change. *)
Theorem events_fifo em em' cpu evs :
  queue em cpu = [] → add_all em cpu evs = Some em' →
  (fetch_all em' cpu (length evs)).1 = Some <$> evs ∧
  ∀ c, Z.to_nat c ≠ Z.to_nat cpu → queue em' c = queue em c.
Proof.
  intros Hq Hadd. split.
  - pose proof (add_all_queue _ _ _ _ Hadd) as Hq'. rewrite Hq in Hq'. simpl in Hq'.
    rewrite fetch_all_queue by (by rewrite Hq'). by rewrite Hq', take_ge.
  - clear Hq. revert em Hadd. induction evs as [|e evs IH]; simpl; intros em.
    { by intros [= <-]. }
    destruct (EventManager_add_event em cpu e) as [em1|] eqn:E; [|done]. intros H c Hc.
    rewrite (IH em1 H c Hc). by apply add_event_queue in E as (_ & _ & ->).
Qed.

Lemma events_fifo_witness :
  (fetch_all [[]; [2; 0]; []] 1 2).1 = Some <$> [2; 0] ∧
  ∀ c, Z.to_nat c ≠ Z.to_nat 1 → queue [[]; [2; 0]; []] c = queue [[]; []; []] c.
Proof. apply (events_fifo [[]; []; []] [[]; [2; 0]; []] 1 [2; 0]); reflexivity. Defined.

(** ** The request ring *)

(** The requests between front and rear, oldest first. *)
Definition ring (b : VirtioBridge) : list (option HvisorDeviceReq) :=
  (λ i, req_list b !! Z.to_nat ((req_front b + i) mod MAX_REQ)) <$>
  seqZ 0 ((req_rear b - req_front b) mod MAX_REQ).

Record ring_wf (b : VirtioBridge) : Prop := {
  ring_len : length (req_list b) = 32%nat;
  ring_front : 0 ≤ req_front b < MAX_REQ;
  ring_rear : 0 ≤ req_rear b < MAX_REQ
}.

(** Arithmetic of the indices. *)
Lemma ring_next f r :
  0 ≤ f < 32 → 0 ≤ r < 32 → (r - f) mod 32 ≠ 31 → ((r + 1) mod 32 - f) mod 32 = (r - f) mod 32 + 1.
Proof. intros. Z.div_mod_to_equations. lia. Qed.
Lemma ring_slot_free f r i :
  0 ≤ f < 32 → 0 ≤ r < 32 → 0 ≤ i < (r - f) mod 32 → r mod 32 ≠ (f + i) mod 32.
Proof. intros. Z.div_mod_to_equations. lia. Qed.
Lemma ring_slot_rear f r : 0 ≤ f < 32 → 0 ≤ r < 32 → (f + (r - f) mod 32) mod 32 = r mod 32.
Proof. intros. Z.div_mod_to_equations. lia. Qed.
Lemma ring_full_count f r : 0 ≤ f < 32 → 0 ≤ r < 32 → (r + 1) mod 32 = f ↔ (r - f) mod 32 = 31.
Proof. intros. Z.div_mod_to_equations. lia. Qed.

Definition ring_full (b : VirtioBridge) : Prop := (req_rear b + 1) mod MAX_REQ = req_front b.

Section virtio.
  Context {W PT D : Type}.
  Implicit Types (s : sys W PT D).

Lemma bridge_eq {E} s : is_enable (s_bridge s) = true → bridge (E:=E) s = ROk (s_region s) s.
Proof. intros H. unfold bridge, hbind, hgets. by rewrite H. Qed.

Lemma is_full_eq {E} s :
  is_enable (s_bridge s) = true → ring_wf (s_region s) →
  is_req_list_full (E:=E) s = ROk (bool_decide (ring_full (s_region s))) s.
Proof.
  intros He [Hl Hf Hr]. unfold is_req_list_full, hbind. rewrite bridge_eq by done.
  unfold uadd32. unfold MAX_REQ in *. rewrite (proj2 (Z.ltb_lt _ _)) by (unfold U32; lia). simpl.
  change (32 - 1) with (2 ^ 5 - 1). rewrite land_ones_mod by lia. unfold hret. f_equal.
  apply eq_true_iff_eq. rewrite Z.eqb_eq, bool_decide_eq_true. done.
Qed.

(** The state after [push_req] and the ring it leaves. *)
Lemma push_req_eq {E} s req :
  is_enable (s_bridge s) = true → ring_wf (s_region s) → ¬ ring_full (s_region s) →
  ∃ b, push_req (E:=E) req s = ROk tt (set_region b s) ∧ ring_wf b ∧
       ring b = ring (s_region s) ++ [Some req] ∧
       cfg_flags b = cfg_flags (s_region s) ∧ cfg_values b = cfg_values (s_region s) ∧
       res_list b = res_list (s_region s).
Proof.
  intros He Hwf Hnf. pose proof Hwf as [Hl Hf Hr]. unfold push_req, hbind. rewrite bridge_eq by done.
  unfold uadd32. unfold ring_full, MAX_REQ in *.
  rewrite (proj2 (Z.ltb_lt _ _)) by (unfold U32; lia). simpl.
  eexists. split; [reflexivity|]. set (b := s_region s) in *.
  pose proof (Z.mod_pos_bound (req_rear b + 1) 32 ltac:(lia)) as Hr'.
  split; [split; simpl; [by rewrite length_insert|done|done]|]. split; [|done].
  unfold ring; simpl. unfold MAX_REQ.
  rewrite ring_full_count in Hnf by done. rewrite ring_next by done.
  pose proof (Z.mod_pos_bound (req_rear b - req_front b) 32 ltac:(lia)) as Hn.
  set (n := (req_rear b - req_front b) mod 32) in *.
  rewrite seqZ_app by lia. rewrite fmap_app. f_equal.
  - apply list_fmap_ext. intros i j Hj. apply lookup_seqZ in Hj as [-> Hj].
    rewrite list_lookup_insert_ne; [done|]. intros Heq.
    apply (ring_slot_free (req_front b) (req_rear b) (0 + Z.of_nat i)); [done|done|fold n; lia|].
    apply Z2Nat.inj; try apply Z.mod_pos_bound; lia.
  - simpl. f_equal. rewrite !Z.add_0_l. unfold n. rewrite ring_slot_rear by done.
    apply list_lookup_insert_eq. rewrite Hl. pose proof (Z.mod_pos_bound (req_rear b) 32). lia.
Qed.

(** The request ring is a bounded FIFO: [is_req_list_full] says exactly when
    31 requests wait, and otherwise [push_req] appends the request behind all the
    waiting ones and overwrites none of them. *)
Theorem push_req_appends {E} s req :
  is_enable (s_bridge s) = true → ring_wf (s_region s) →
  is_req_list_full (E:=E) s = ROk (bool_decide (ring_full (s_region s))) s ∧
  (ring_full (s_region s) ↔ length (ring (s_region s)) = 31%nat) ∧
  (¬ ring_full (s_region s) →
   ∃ b, push_req (E:=E) req s = ROk tt (set_region b s) ∧ ring_wf b ∧
        ring b = ring (s_region s) ++ [Some req]).
Proof.
  intros He Hwf. split; [by apply is_full_eq|]. split.
  - pose proof Hwf as [Hl Hf Hr]. unfold ring, ring_full. rewrite length_fmap, length_seqZ.
    unfold MAX_REQ in *. rewrite ring_full_count by done. lia.
  - intros Hnf. destruct (push_req_eq (E:=E) s req He Hwf Hnf) as (b & Hb & Hw & Hring & _). eauto.
Qed.

End virtio.

Lemma demo_ring_wf : ring_wf demo_bridge.
Proof. split; [reflexivity|unfold MAX_REQ; simpl; lia..]. Qed.

Lemma push_req_appends_witness :
  is_req_list_full (E:=HvError) (demo_sys 2) = ROk (bool_decide (ring_full demo_bridge)) (demo_sys 2) ∧
  (ring_full demo_bridge ↔ length (ring demo_bridge) = 31%nat) ∧
  (¬ ring_full demo_bridge →
   ∃ b, push_req (E:=HvError) (mkReq 2 0xa000000 4 0 1 0 0) (demo_sys 2) =
        ROk tt (set_region b (demo_sys 2)) ∧ ring_wf b ∧
        ring b = ring demo_bridge ++ [Some (mkReq 2 0xa000000 4 0 1 0 0)]).
Proof.
  apply (push_req_appends (demo_sys 2) (mkReq 2 0xa000000 4 0 1 0 0)); [reflexivity|apply demo_ring_wf].
Defined.

(** ** Readers of the global state *)

Section readers.
  Context {W PT D E : Type}.
  Abbreviation sys := (sys W PT D).

Lemma reader_bridge : reader (S:=sys) (E:=E) bridge.
Proof. unfold bridge. solve_reader. Qed.
#[local] Hint Resolve reader_bridge : hv.

Lemma reader_read_zone p : reader (S:=sys) (E:=E) (read_zone p).
Proof. unfold read_zone. solve_reader. Qed.
#[local] Hint Resolve reader_read_zone : hv.

Lemma reader_find_zone zid : reader (S:=sys) (E:=E) (find_zone zid).
Proof.
  unfold find_zone. apply reader_bind; [apply reader_gets|]. intros l.
  induction l as [|p l IH]; simpl; solve_reader.
Qed.

Lemma reader_contains cs i : reader (S:=sys) (E:=E) (contains_cpu cs i).
Proof. unfold contains_cpu, ushl1. solve_reader. Qed.
#[local] Hint Resolve reader_contains : hv.

Lemma reader_first_cpu cs : reader (S:=sys) (E:=E) (first_cpu cs).
Proof. unfold first_cpu. induction (all_ids cs) as [|i l IH]; simpl; solve_reader. Qed.

Lemma reader_irq_slice l : reader (S:=sys) (E:=E) (irq_slice l).
Proof. unfold irq_slice. solve_reader. Qed.

(** [send_event] touches only the event queues and the system registers. *)
Lemma send_event_frame cpu ipi ev (s : sys) :
  wpp (E:=E) (send_event cpu ipi ev)
    (λ _ s', s_region s' = s_region s ∧ s_bridge s' = s_bridge s ∧ s_heap s' = s_heap s ∧
             s_zone_list s' = s_zone_list s ∧ s_cpus s' = s_cpus s) s.
Proof.
  apply wpp_bind, wpp_bind, wpp_gets, wpp_bind, wpp_unwrap_opt. intros em Hem.
  destruct (EventManager_add_event em cpu ev).
  - apply wpp_bind, wpp_modify, wpp_ret. unfold with_regs, zoom, arch_send_event, wpp.
    by destruct (cpu <? 64).
  - apply wpp_ret. unfold with_regs, zoom, arch_send_event, wpp. by destruct (cpu <? 64).
Qed.

(** ** The result ring *)

Definition res_wf (b : VirtioBridge) : Prop :=
  0 ≤ res_front b < MAX_REQ ∧ 0 ≤ res_rear b < MAX_REQ.

(** How many results wait. *)
Definition res_count (b : VirtioBridge) : Z := (res_rear b - res_front b) mod MAX_REQ.

Lemma wpp_bridge Q (s : sys) : Q (s_region s) s → wpp (E:=E) bridge Q s.
Proof.
  intros HQ. apply wpp_bind, wpp_gets. destruct (negb _); [apply wpp_panic|by apply wpp_gets].
Qed.

(** The state after one turn. *)
Definition consumed (s s' : sys) : Prop :=
  is_enable (s_bridge s') = is_enable (s_bridge s) ∧ res_wf (s_region s') ∧
  res_count (s_region s') = res_count (s_region s) - 1.

(** The end of a turn: the front moves on. *)
Lemma advance_front (s s' : sys) :
  res_wf (s_region s) → res_rear (s_region s) ≠ res_front (s_region s) →
  s_region s' = s_region s → s_bridge s' = s_bridge s →
  wpp (E:=E) (let* n := uadd32 (res_front (s_region s)) 1 in
       hmodify (λ s : sys, set_region (set_res_front (Z.land n (MAX_REQ - 1)) (s_region s)) s))
    (λ _ s'', consumed s s'') s'.
Proof.
  intros [Hf Hr] Hne Hreg Hb. apply wpp_bind. unfold uadd32. destruct (_ <? _); [|apply wpp_panic].
  apply wpp_ret, wpp_modify. unfold consumed. simpl. rewrite Hreg, Hb.
  unfold res_wf, res_count, MAX_REQ in *. simpl.
  change (32 - 1) with (2 ^ 5 - 1). rewrite land_ones_mod by lia. change (2 ^ 5) with 32.
  split; [done|]. split; [split; [by apply Z.mod_pos_bound|done]|].
  clear - Hf Hr Hne. Z.div_mod_to_equations. lia.
Qed.

(** One turn consumes one result (or panics). *)
Lemma inject_result_step (s : sys) :
  res_wf (s_region s) → res_rear (s_region s) ≠ res_front (s_region s) →
  wpp (E:=E) inject_result (λ _ s', consumed s s') s.
Proof.
  intros Hwf Hne. unfold inject_result. apply wpp_bind, wpp_bridge. cbv zeta.
  apply wpp_bind, wpp_reader; [solve_reader|]. intros res.
  apply wpp_bind, wpp_reader; [apply reader_find_zone|]. intros o.
  apply wpp_bind, wpp_reader; [apply reader_unwrap|]. intros p.
  apply wpp_bind, wpp_reader; [apply reader_read_zone|]. intros z.
  apply wpp_bind, wpp_reader; [apply reader_first_cpu|]. intros f.
  apply wpp_bind, wpp_reader; [apply reader_unwrap|]. intros cpu.
  apply wpp_bind, wpp_gets, wpp_bind, wpp_modify.
  apply wpp_bind, wpp_reader; [apply reader_irq_slice|]. intros pending.
  apply wpp_bind. destruct (negb _).
  - apply wpp_bind, wpp_assert. intros _. apply wpp_bind, wpp_modify.
    eapply wpp_mono; [apply send_event_frame|]. intros _ s' (Hreg & Hb & _).
    by apply (advance_front s).
  - apply wpp_ret. by apply (advance_front s).
Qed.

Lemma inject_results_step fuel (s : sys) :
  is_enable (s_bridge s) = true → res_wf (s_region s) → res_count (s_region s) ≤ Z.of_nat fuel →
  wpp (E:=E) (inject_results fuel)
    (λ _ s', is_enable (s_bridge s') = true ∧ res_rear (s_region s') = res_front (s_region s')) s.
Proof.
  revert s. induction fuel as [|fuel IH]; intros s He Hwf Hc.
  - assert (res_rear (s_region s) = res_front (s_region s)) as Heq.
    { unfold res_wf, res_count, MAX_REQ in *. Z.div_mod_to_equations. lia. }
    simpl. apply wpp_bind, wpp_bind, wpp_bridge, wpp_ret.
    rewrite (proj2 (Z.eqb_eq _ _) Heq). by apply wpp_ret.
  - simpl. apply wpp_bind, wpp_bind, wpp_bridge, wpp_ret.
    destruct (Z.eqb_spec (res_rear (s_region s)) (res_front (s_region s))) as [Heq|Hne]; [by apply wpp_ret|].
    apply wpp_bind. eapply wpp_mono; [by apply inject_result_step|].
    intros _ s' (He' & Hwf' & Hc'). apply IH; [congruence|done|lia].
Qed.


End readers.

(** Two results wait for zone 1. *)
Definition demo_results : VirtioBridge :=
  mkBridge 0 0 31 1 (req_list demo_bridge)
    (<[31%nat := mkRes 1 33]> (<[0%nat := mkRes 1 40]> (res_list demo_bridge)))
    (cfg_flags demo_bridge) (cfg_values demo_bridge) (mmio_addrs demo_bridge) 0 1.


(** ** Configuration accesses *)

(** The first shared state, following the backend's steps [e], in which the flag of
    [cpu] differs from [old]; [None] if there is none. *)
Fixpoint first_change (cpu old : Z) (e : list (VirtioBridge → VirtioBridge)) (b : VirtioBridge) :
    option VirtioBridge :=
  if negb (default 0 (cfg_flags b !! Z.to_nat cpu) =? old) then Some b else
  match e with
  | [] => None
  | f :: e' => first_change cpu old e' (f b)
  end.

Section config_access.
  Context {W PT D : Type}.
  Implicit Types (s : sys W PT D).

Lemma set_region_set b b' s : set_region b (set_region b' s) = set_region b s.
Proof. by destruct s. Qed.

Lemma cfg_at_eq {E} f cpu s :
  is_enable (s_bridge s) = true → cpu < MAX_CPUS →
  cfg_at (E:=E) f cpu s = ROk (default 0 (f (s_region s) !! Z.to_nat cpu)) s.
Proof.
  intros He Hc. unfold cfg_at, hbind. rewrite bridge_eq by done.
  by rewrite (proj2 (Z.ltb_lt _ _) Hc).
Qed.

Lemma wait_cfg_eq {E} cpu old e s :
  is_enable (s_bridge s) = true → cpu < MAX_CPUS →
  match first_change cpu old e (s_region s) with
  | Some b => ∃ e', wait_cfg (E:=E) cpu old e s = ROk e' (set_region b s)
  | None => wait_cfg (E:=E) cpu old e s = RHang
  end.
Proof.
  intros He Hc. revert s He. induction e as [|f e IH]; intros s He; cbn [first_change wait_cfg];
    unfold hbind; rewrite cfg_at_eq by done;
    destruct (negb (default 0 (cfg_flags (s_region s) !! Z.to_nat cpu) =? old)) eqn:Hb;
    cbv beta iota.
  - exists []. by destruct s.
  - done.
  - exists (f :: e). by destruct s.
  - specialize (IH (set_region (f (s_region s)) s) He). simpl in IH.
    unfold env_step, hmodify. destruct (first_change cpu old e (f (s_region s))) as [b|].
    + destruct IH as [e' IH]. exists e'. rewrite set_region_set in IH. exact IH.
    + exact IH.
Qed.


End config_access.

(** The backend of the witness: one idle turn, then it answers 7 to CPU 2. *)
Definition demo_backend : list (VirtioBridge → VirtioBridge) :=
  [λ b, b;
   λ b, mkBridge (req_rear b) (req_rear b) (res_front b) (res_rear b) (req_list b) (res_list b)
          (<[2%nat := 1]> (cfg_flags b)) (<[2%nat := 7]> (cfg_values b)) (mmio_addrs b) 0 0].

Definition quiet_bridge : VirtioBridge :=
  mkBridge 0 0 0 0 (req_list demo_bridge) (res_list demo_bridge) (cfg_flags demo_bridge)
    (cfg_values demo_bridge) (mmio_addrs demo_bridge) 0 0.

