(* ===== verification/ZoneLife.v ===== *)
(** * The life of a zone: what [zone_create] and the hypercalls that start and stop
    zones do to the whole state *)

From S2P Require Import Prelude PhysMem HvError Addr Frame Region Pte S2pt PtIface Paging PagingWf.
From S2P Require Import PagingSpec PagingLoop PtInstance BTreeMap MemorySet CpuSet Mmio Config Sys.
From S2P Require Import ZoneOps Gic Event Virtio Vgic Hypercall ZoneProps MemoryProps RuntimeProps.
From S2P Require Import Demo DemoSys.

(** ** Filling the second-stage table *)

(** The memory region [pt_init] makes of a configured region. *)
Definition region_of (c : HvConfigMemoryRegion) : MemoryRegion :=
  new_with_offset_mapper (virtual_start c) (physical_start c) (cr_size c)
    (if mem_type c =? MEM_TYPE_IO then Z.lor (Z.lor (Z.lor READ WRITE) EXECUTE) IO
     else Z.lor (Z.lor READ WRITE) EXECUTE).

Definition is_memory (c : HvConfigMemoryRegion) : bool :=
  (mem_type c =? MEM_TYPE_RAM) || (mem_type c =? MEM_TYPE_IO).

(** The regions of an address space after one more configured region. *)
Definition add_region (m : gmap Z MemoryRegion) (c : HvConfigMemoryRegion) : gmap Z MemoryRegion :=
  if is_memory c && negb (cr_size c =? 0) then <[virtual_start c := region_of c]> m else m.

(** Only the MMIO regions of the zone and its address space differ. *)
Definition same_zone {PT} (z z' : Zone PT) : Prop :=
  z_id z' = z_id z ∧ z_cpu_set z' = z_cpu_set z ∧ z_irq_bitmap z' = z_irq_bitmap z.

Lemma same_zone_trans {PT} (z1 z2 z3 : Zone PT) : same_zone z1 z2 → same_zone z2 z3 → same_zone z1 z3.
Proof. unfold same_zone. intuition congruence. Qed.

Lemma register_zone {PT S E} (z : Zone PT) st sz h a (s : S) :
  wpp (E:=E) (mmio_region_register z st sz h a)
    (λ z' s', s' = s ∧ same_zone z z' ∧ z_gpm z' = z_gpm z) s.
Proof.
  apply wpp_bind, wpp_reader; [|by intros l; apply wpp_ret].
  induction (z_mmio z) as [|c l IH]; simpl; solve_reader.
Qed.

Section pt_init.
  Context {W PT : Type} {G : GenericPageTable W PT} {GL : GenericPageTableLaws W PT}.
  Implicit Types (z : Zone PT) (w : W).

Definition mappable (c : HvConfigMemoryRegion) : Prop :=
  is_memory c = true → region_mappable gpt_format gpt_limit (region_of c).

Lemma pt_init_one_spec z c w :
  ms_inv (w, z_gpm z) → mappable c →
  wpe (pt_init_one z c)
    (λ z' w', same_zone z z' ∧ ms_inv (w', z_gpm z') ∧
              ms_map (w', z_gpm z') = add_region (ms_map (w, z_gpm z)) c)
    (λ _ _, True) w.
Proof using GL.
  intros Hinv Hc. unfold pt_init_one, add_region. unfold mappable in Hc. fold (is_memory c).
  destruct (is_memory c) eqn:Hm; simpl.
  - apply wpe_bind. fold (region_of c).
    pose proof (ms_insert_spec _ (region_of c) Hinv (Hc eq_refl)) as Hins.
    unfold with_gpm, wpe, wp in *.
    destruct (ms_insert (region_of c) (w, z_gpm z)) as [[] [w' g]| | |]; try done.
    destruct Hins as (Hinv' & _ & Hmap). simpl. split; [done|]. split; [done|].
    change (size (region_of c)) with (cr_size c) in Hmap. destruct (cr_size c =? 0); simpl.
    + by injection Hmap as -> ->.
    + by destruct Hmap as [_ ->].
  - destruct (_ =? MEM_TYPE_VIRTIO); [|done].
    eapply wpe_wpp; [apply register_zone|]. intros z' w' (-> & Hs & ->). done.
Qed.

Lemma pt_init_spec z cs w :
  ms_inv (w, z_gpm z) → (∀ c, c ∈ cs → mappable c) →
  wpe (pt_init z cs)
    (λ z' w', same_zone z z' ∧ ms_inv (w', z_gpm z') ∧
              ms_map (w', z_gpm z') = foldl add_region (ms_map (w, z_gpm z)) cs)
    (λ _ _, True) w.
Proof using GL.
  revert z w. induction cs as [|c cs IH]; intros z w Hinv Hcs; [done|]. simpl.
  apply wpe_bind. eapply wpe_mono; [apply pt_init_one_spec; [done|apply Hcs; set_solver]| |done].
  intros z1 w1 (Hs1 & Hinv1 & Hm1).
  eapply wpe_mono; [apply IH; [done|set_solver]| |done].
  intros z2 w2 (Hs2 & Hinv2 & Hm2). split; [by eapply same_zone_trans|]. split; [done|].
  by rewrite Hm2, Hm1.
Qed.

End pt_init.

(** ** The steps of [zone_create] *)

Section steps.
  Context {PT S E : Type}.
  Implicit Types (z : Zone PT) (s : S).

Lemma slice_to_take {A} (l : list A) n s :
  wpp (E:=E) (slice_to l n) (λ l' s', s' = s ∧ l' = take (Z.to_nat n) l) s.
Proof. unfold slice_to. by destruct (n <=? _). Qed.

Lemma memory_regions_take c s :
  wpp (E:=E) (memory_regions c)
    (λ l s', s' = s ∧ l = take (Z.to_nat (num_memory_regions c)) (cfg_memory_regions c)) s.
Proof. unfold memory_regions. destruct (_ <? _); [done|apply slice_to_take]. Qed.

Lemma interrupts_take c s :
  wpp (E:=E) (interrupts c)
    (λ l s', s' = s ∧ l = take (Z.to_nat (num_interrupts c)) (cfg_interrupts c)) s.
Proof. unfold interrupts. destruct (_ <? _); [done|apply slice_to_take]. Qed.

(** The zone keeps everything but its interrupts. *)
Definition same_but_irqs z z' : Prop :=
  z_id z' = z_id z ∧ z_cpu_set z' = z_cpu_set z ∧ z_gpm z' = z_gpm z.

Lemma irq_bitmap_init_spec z irqs s :
  bitmap_wf (z_irq_bitmap z) → (∀ i, i ∈ irqs → 0 ≤ i) →
  wpp (E:=E) (irq_bitmap_init z irqs)
    (λ z' s', s' = s ∧ same_but_irqs z z' ∧ bitmap_wf (z_irq_bitmap z') ∧
       ∀ i, 0 ≤ i < 1024 →
         irq_bit (z_irq_bitmap z') i = irq_bit (z_irq_bitmap z) i || bool_decide (i ∈ irqs)) s.
Proof.
  revert z. induction irqs as [|irq irqs IH]; intros z Hwf Hirqs.
  { apply wpp_ret. split_and!; try done. intros i _. by rewrite orb_false_r. }
  simpl. apply wpp_bind. destruct (Z.lt_ge_cases irq 1024) as [Hlt|Hge].
  - destruct (insert_irq_eq (E:=E) z irq s Hwf) as (z1 & Hz1 & Hwf1 & Hb1 & Hid1 & Hg1 & _ & Hc1).
    { split; [apply Hirqs; set_solver|done]. }
    unfold wpp at 1. rewrite Hz1. eapply wpp_mono; [apply IH; [done|set_solver]|].
    intros z' s' (-> & (Hid & Hc & Hg) & Hwf' & Hb). split; [done|].
    split; [unfold same_but_irqs; intuition congruence|]. split; [done|].
    intros i Hi. rewrite Hb, Hb1, <- orb_assoc by done. f_equal.
    destruct (Z.eqb_spec i irq) as [->|Hne]; simpl.
    + symmetry. apply bool_decide_true. set_solver.
    + apply bool_decide_ext. set_solver.
  - unfold insert_irq_to_bitmap. apply wpp_bind, wpp_assert. intros H%Z.ltb_lt. lia.
Qed.

(** The CPU set after the loop over the configured CPUs. *)
Lemma set_cpus_of_spec z ids s :
  cpuset_wf (z_cpu_set z) → (∀ i, i ∈ ids → 0 ≤ i) →
  wpp (E:=E) (set_cpus_of z ids)
    (λ z' s', s' = s ∧ z_id z' = z_id z ∧ z_gpm z' = z_gpm z ∧ z_irq_bitmap z' = z_irq_bitmap z ∧
       cpuset_wf (z_cpu_set z') ∧
       ∀ i, i ∈ cpus_of (z_cpu_set z') ↔ i ∈ cpus_of (z_cpu_set z) ∨ i ∈ ids) s.
Proof.
  revert z. induction ids as [|id ids IH]; intros z Hwf Hids.
  { apply wpp_ret. split_and!; try done. intros i. rewrite elem_of_nil. tauto. }
  simpl. apply wpp_bind. destruct (Z.le_gt_cases id (max_cpu_id (z_cpu_set z))) as [Hle|Hgt].
  - assert (0 ≤ id) as H0 by (apply Hids, elem_of_cons; by left).
    destruct (set_bit_spec (S:=S) (E:=E) _ Hwf id s) as (cs & Hcs & Hwf' & Hmax & Hbit); [done|].
    unfold wpp at 1. rewrite Hcs.
    eapply wpp_mono; [apply IH; [done|intros i Hi; apply Hids, elem_of_cons; by right]|].
    intros z' s' (-> & Hid & Hg & Hi & Hwf2 & Hel). split_and!; try done.
    intros i. rewrite Hel. simpl. rewrite elem_of_cons, !cpus_of_elem, Hmax.
    assert (0 ≤ i → Z.testbit (bitmap cs) i = true ↔ Z.testbit (bitmap (z_cpu_set z)) i = true ∨ i = id)
      as Hb by (intros Hi0; rewrite Hbit, orb_true_iff, Z.eqb_eq by done; done).
    split.
    + intros [[Hr Hb']|?]; [|tauto]. apply Hb in Hb'; [tauto|lia].
    + intros [[Hr Hb']|[->|?]]; [left; split; [done|]; apply Hb; [lia|tauto]| |tauto].
      left. split; [lia|]. apply Hb; tauto.
  - unfold set_bit. apply wpp_bind, wpp_assert. intros H%Z.leb_le. lia.
Qed.

End steps.

Section global.
  Context {W PT D E : Type}.
  Abbreviation sys := (sys W PT D).
  Implicit Types (s : sys) (z : Zone PT).

(** The zones of the list that have the id. *)
Definition has_id s (zid p : Z) : Prop := ∃ z, s_heap s !! p = Some z ∧ z_id z = zid.

Lemma find_zone_spec zid s :
  wpp (E:=E) (find_zone zid)
    (λ o s', s' = s ∧ match o with
                      | Some p => p ∈ s_zone_list s ∧ has_id s zid p
                      | None => ∀ p, p ∈ s_zone_list s → ¬ has_id s zid p
                      end) s.
Proof.
  apply wpp_bind, wpp_gets. induction (s_zone_list s) as [|p l IH]; simpl.
  { apply wpp_ret. set_solver. }
  apply wpp_bind, wpp_bind, wpp_gets. destruct (s_heap s !! p) as [z|] eqn:Hp; [|apply wpp_panic].
  apply wpp_ret. destruct (Z.eqb_spec (z_id z) zid) as [Heq|Hne].
  - apply wpp_ret. split; [done|]. split; [set_solver|]. by exists z.
  - eapply wpp_mono; [apply IH|]. intros [q|] s' [-> Hq]; split; try done.
    + split; [set_solver|tauto].
    + intros q [->|Hin]%elem_of_cons; [|by apply Hq]. intros (z' & Hz' & Hid). congruence.
Qed.

Lemma reader_host_gicd_base : reader (S:=sys) (E:=E) host_gicd_base.
Proof. unfold host_gicd_base, gic. solve_reader. Qed.
Lemma reader_host_gicd_size : reader (S:=sys) (E:=E) host_gicd_size.
Proof. unfold host_gicd_size, gic. solve_reader. Qed.
Lemma reader_host_gicr_base id : reader (S:=sys) (E:=E) (host_gicr_base id).
Proof. unfold host_gicr_base, gic, umul, uadd. solve_reader. Qed.
#[local] Hint Resolve reader_host_gicd_base reader_host_gicd_size reader_host_gicr_base : hv.

(** [mmio_init] changes nothing but the zone's MMIO regions. *)
Lemma register_gicrs_zone z base cpus s :
  wpp (E:=E) (register_gicrs z base cpus) (λ z' s', s' = s ∧ same_zone z z' ∧ z_gpm z' = z_gpm z) s.
Proof.
  revert z. induction cpus as [|cpu cpus IH]; intros z; [by apply wpp_ret|]. simpl.
  apply wpp_bind, wpp_reader; [unfold umul; solve_reader|]. intros o.
  apply wpp_bind, wpp_reader; [unfold uadd; solve_reader|]. intros b.
  apply wpp_bind. eapply wpp_mono; [apply register_zone|]. intros z1 s' (-> & Hs1 & Hg1).
  eapply wpp_mono; [apply IH|]. intros z2 s' (-> & Hs2 & Hg2). split; [done|].
  split; [by eapply same_zone_trans|congruence].
Qed.

Lemma mmio_init_zone z arch s :
  wpp (E:=E) (mmio_init z arch) (λ z' s', s' = s ∧ same_zone z z' ∧ z_gpm z' = z_gpm z) s.
Proof.
  unfold mmio_init, vgicv3_mmio_init.
  apply wpp_bind, wpp_reader; [solve_reader|]. intros db.
  apply wpp_bind, wpp_reader; [destruct (_ =? _); eauto 1 with hv|]. intros rb.
  apply wpp_bind, wpp_reader; [solve_reader|]. intros ds.
  apply wpp_bind. eapply wpp_mono; [apply register_zone|]. intros z1 s' (-> & Hs1 & Hg1).
  eapply wpp_mono; [apply register_gicrs_zone|]. intros z2 s' (-> & Hs2 & Hg2). split; [done|].
  split; [by eapply same_zone_trans|congruence].
Qed.

Lemma reader_find_dtb_ipa dtb ipa regions : reader (S:=sys) (E:=E) (find_dtb_ipa dtb ipa regions).
Proof.
  revert ipa. induction regions as [|r regions IH]; intros ipa; simpl; [apply reader_ret|].
  apply reader_bind; [|apply IH]. unfold uadd, usub. solve_reader.
Qed.

(** The address does not depend on the state. *)
Lemma find_dtb_ipa_state dtb ipa regions s s' a :
  find_dtb_ipa (E:=E) dtb ipa regions s = ROk a s → find_dtb_ipa (E:=E) dtb ipa regions s' = ROk a s'.
Proof.
  revert ipa. induction regions as [|r regions IH]; intros ipa; simpl; [by intros [= <-]|].
  unfold hbind, uadd, usub.
  destruct (physical_start r <=? dtb); [|apply IH].
  destruct (physical_start r + cr_size r <? U64); [simpl|done].
  destruct (dtb <? physical_start r + cr_size r); [|apply IH].
  destruct (virtual_start r + dtb <? U64); [simpl|done].
  destruct (physical_start r <=? virtual_start r + dtb); [apply IH|done].
Qed.

(** A new heap cell is not in use. *)
Lemma fresh_ptr_gt (h : gmap Z (Zone PT)) p z : h !! p = Some z → p < fresh_ptr h.
Proof.
  unfold fresh_ptr. revert p z.
  apply (map_fold_weak_ind (λ m h, ∀ p (z : Zone PT), h !! p = Some z → p < m)); [done|].
  intros i x m r Hi IH p z [[-> _]|[_ Hp]]%lookup_insert_Some; [lia|]. apply IH in Hp. lia.
Qed.

Lemma fresh_ptr_free (h : gmap Z (Zone PT)) : h !! fresh_ptr h = None.
Proof.
  destruct (h !! fresh_ptr h) eqn:Hf; [|done]. apply fresh_ptr_gt in Hf. lia.
Qed.

(** *** Giving CPUs to a zone *)

(** What [zone_create] leaves in the data of a CPU of the zone. *)
Definition assigned (p first entry ipa cpuid : Z) (c : PerCpu) : PerCpu :=
  mkPerCpu (pc_id c) entry ipa (psci_on c) (Some p) (boot_cpu c || (cpuid =? first)).

Lemma wpp_mod_cpu id f Q s :
  (∀ c, s_cpus s !! id = Some c → Q tt (set_cpus (<[id := f c]> (s_cpus s)) s)) →
  wpp (E:=E) (mod_cpu_data id f) Q s.
Proof.
  intros HQ. apply wpp_bind, wpp_bind, wpp_gets. destruct (s_cpus s !! id) as [c|] eqn:Hc; [|done].
  apply wpp_ret, wpp_modify. by apply HQ.
Qed.

Lemma assign_cpu_spec p cs entry ipa id s :
  cpuset_wf cs →
  wpp (E:=E) (assign_cpu p cs entry ipa id)
    (λ _ s', ∃ first c, head (cpus_of cs) = Some first ∧ s_cpus s !! id = Some c ∧
       s' = set_cpus (<[id := assigned p first entry ipa id c]> (s_cpus s)) s) s.
Proof.
  intros Hcs. apply wpp_bind, wpp_mod_cpu. intros c Hc.
  apply wpp_bind. unfold wpp at 1. rewrite first_cpu_eq by done.
  apply wpp_bind, wpp_unwrap_opt. intros first Hf. apply wpp_bind.
  assert (∀ c1, wpp (E:=E) (mod_cpu_data id (set_cpu_on_entry entry) ;;; mod_cpu_data id (set_dtb_ipa ipa))
    (λ _ s', s' = set_cpus (<[id := set_dtb_ipa ipa (set_cpu_on_entry entry c1)]> (s_cpus s)) s)
    (set_cpus (<[id := c1]> (s_cpus s)) s)) as Hrest.
  { intros c1. apply wpp_bind, wpp_mod_cpu. simpl. intros c2. rewrite lookup_insert_eq. intros [= <-].
    apply wpp_mod_cpu. simpl. intros c3. rewrite lookup_insert_eq. intros [= <-].
    by rewrite !insert_insert_eq. }
  destruct (Z.eqb_spec id first) as [->|Hne].
  - apply wpp_mod_cpu. simpl. intros c1. rewrite lookup_insert_eq. intros [= <-].
    rewrite insert_insert_eq. eapply wpp_mono; [apply Hrest|]. intros _ s' ->.
    exists first, c. split; [done|]. split; [done|]. unfold assigned. rewrite Z.eqb_refl, orb_true_r. done.
  - apply wpp_ret. eapply wpp_mono; [apply Hrest|]. intros _ s' ->. exists first, c.
    split; [done|]. split; [done|]. unfold assigned. by rewrite (proj2 (Z.eqb_neq _ _) Hne), orb_false_r.
Qed.

(** All of them: the CPUs in [ids] change, the others do not. *)
Definition assigned_all (p first entry ipa : Z) (ids : list Z) (cpus cpus' : gmap Z PerCpu) : Prop :=
  ∀ i, cpus' !! i = if decide (i ∈ ids) then assigned p first entry ipa i <$> cpus !! i else cpus !! i.

Lemma assign_all_spec p cs entry ipa ids s :
  cpuset_wf cs → NoDup ids →
  wpp (E:=E) (for_each (assign_cpu p cs entry ipa) ids)
    (λ _ s', ∃ cpus', s' = set_cpus cpus' s ∧
       (ids ≠ [] → is_Some (head (cpus_of cs))) ∧ (∀ i, i ∈ ids → is_Some (s_cpus s !! i)) ∧
       assigned_all p (default 0 (head (cpus_of cs))) entry ipa ids (s_cpus s) cpus') s.
Proof.
  intros Hcs. revert s. induction ids as [|id ids IH]; intros s Hnd.
  { apply wpp_ret. exists (s_cpus s). split_and!; [by destruct s|done|set_solver|done]. }
  simpl. apply NoDup_cons in Hnd as [Hni Hnd]. apply wpp_bind.
  eapply wpp_mono; [by apply assign_cpu_spec|]. intros _ s1 (first & c & Hf & Hc & ->).
  eapply wpp_mono; [by apply IH|]. intros _ s2 (cpus' & -> & _ & Hsome & Hall). simpl in *.
  exists cpus'. split; [done|]. split; [by rewrite Hf|]. rewrite Hf in *. simpl in *. split.
  - intros i [->|Hin]%elem_of_cons; [by rewrite Hc|]. destruct (Hsome i Hin) as [x Hx].
    rewrite lookup_insert_ne in Hx by set_solver. by exists x.
  - intros i. rewrite Hall. destruct (decide (i = id)) as [->|Hne].
    + rewrite decide_False, decide_True by set_solver. by rewrite lookup_insert_eq, Hc.
    + rewrite lookup_insert_ne by done. by apply decide_ext; set_solver.
Qed.

(** The end of [zone_create]: the zone is put on the heap, its CPUs are pointed to it
    and it is listed last. *)
Lemma publish_exact dtb ipa0 regions entry z s :
  cpuset_wf (z_cpu_set z) →
  wpp (E:=E)
    (let* dtb_ipa := find_dtb_ipa dtb ipa0 regions in
     let cpu_set := z_cpu_set z in
     let* p := arc_new z in
     let* ids := cpu_iter cpu_set in
     for_each (assign_cpu p cpu_set entry dtb_ipa) ids ;;;
     add_zone p ;;;
     hret p)
    (λ p s', ∃ ipa cpus', find_dtb_ipa (E:=E) dtb ipa0 regions s = ROk ipa s ∧ p = fresh_ptr (s_heap s) ∧
       assigned_all p (default 0 (head (cpus_of (z_cpu_set z)))) entry ipa
         (cpus_of (z_cpu_set z)) (s_cpus s) cpus' ∧
       s' = set_zone_list (s_zone_list s ++ [p])
              (set_cpus cpus' (set_heap (<[p := z]> (s_heap s)) s))) s.
Proof.
  intros Hcs. apply wpp_bind. pose proof (reader_find_dtb_ipa dtb ipa0 regions s) as Hr.
  unfold wpp in Hr. unfold wpp at 1.
  destruct (find_dtb_ipa dtb ipa0 regions s) as [ipa s1| | |] eqn:Hipa; try done. subst s1.
  cbv zeta. apply wpp_bind, wpp_bind, wpp_gets, wpp_bind, wpp_modify, wpp_ret.
  apply wpp_bind. unfold wpp at 1. rewrite cpu_iter_eq by done.
  apply wpp_bind. eapply wpp_mono; [apply assign_all_spec; [done|apply cpus_of_nodup]|].
  intros _ s2 (cpus' & -> & _ & _ & Hall). apply wpp_bind, wpp_modify, wpp_ret.
  by exists ipa, cpus'.
Qed.

End global.

(** ** [zone_create] *)

Section create.
  Context {T : Type} {HB : BitAlloc T} {HL : BitAllocLaws T}.
  Context {P : GenericPTE} {PL : GenericPTELaws P} {D : Type}.
  Context (n : Z) (L : nat) (HL34 : L = 3%nat ∨ L = 4%nat) (psci_invalid_address : Z).
  Abbreviation sys := (sys (world T) HvPageTable D).

#[local] Instance create_laws : GenericPageTableLaws (world T) HvPageTable := hv_gpt_laws n L HL34.

Definition config_regions (c : HvZoneConfig) : list HvConfigMemoryRegion :=
  take (Z.to_nat (num_memory_regions c)) (cfg_memory_regions c).
Definition config_irqs (c : HvZoneConfig) : list Z :=
  take (Z.to_nat (num_interrupts c)) (cfg_interrupts c).

(** The zone a configuration describes, in the memory [w]. *)
Record zone_matches (c : HvZoneConfig) (w : world T) (z : Zone HvPageTable) : Prop := {
  zm_id : z_id z = zone_id c;
  zm_cpus : ∀ i, i ∈ cpus_of (z_cpu_set z) ↔ i ∈ cpus c;
  zm_irqs : ∀ i, 0 ≤ i < 1024 → irq_bit (z_irq_bitmap z) i = bool_decide (i ∈ config_irqs c);
  zm_inv : ms_inv (w, z_gpm z);
  zm_regions : ms_map (w, z_gpm z) = foldl add_region ∅ (config_regions c)
}.

Lemma zone_new_spec zid (s : sys) :
  fa_inv n (w_fa (s_w s)) → has_free (s_w s) →
  (∀ b s', is_s2_pt_level3 (E:=HvError) s = ROk b s' → (if b then 3 else 4) = Z.of_nat L) →
  wpe (zone_new zid)
    (λ z s', ∃ w', s' = set_w w' s ∧ ms_inv (w', z_gpm z) ∧ ms_map (w', z_gpm z) = ∅ ∧
       z = mkZone zid [] (mkCpuSet MAX_CPU_NUM 0) (replicate 32 0) (z_gpm z))
    (λ _ _, False) s.
Proof using PL.
  intros Hfa Hfree Hlev. apply wpe_bind, wpe_bind. apply wpe_reader.
  { unfold is_s2_pt_level3, get_parange_bits. solve_reader. }
  intros b Hb. rewrite (Hlev b s Hb). apply wpe_zoom, wpe_wp.
  eapply wp_mono; [by apply (ms_new_spec n L)| |done].
  intros ms w' (Hinv & Hmap & _). unfold wpe. simpl. by exists w'.
Qed.

(** Everything [zone_create] did when it returns the pointer [p]. *)
Definition created (c : HvZoneConfig) (s : sys) (p : Z) (s' : sys) : Prop :=
  ∃ z w' cpus' ipa,
    s_heap s !! p = None ∧ (∀ q, q ∈ s_zone_list s → ¬ has_id s (zone_id c) q) ∧
    zone_matches c w' z ∧
    find_dtb_ipa (E:=HvError) (dtb_load_paddr c) psci_invalid_address (config_regions c) s = ROk ipa s ∧
    assigned_all p (default 0 (head (cpus_of (z_cpu_set z)))) (entry_point c) ipa
      (cpus_of (z_cpu_set z)) (s_cpus s) cpus' ∧
    s' = set_zone_list (s_zone_list s ++ [p])
           (set_cpus cpus' (set_heap (<[p := z]> (s_heap s)) (set_w w' s))).

(** The part of [zone_create] after the zone is filled in. *)
Lemma publish_spec c z w' (s : sys) :
  zone_matches c w' z → cpuset_wf (z_cpu_set z) →
  (∀ q, q ∈ s_zone_list s → ¬ has_id s (zone_id c) q) →
  wpp (E:=HvError)
    (let* dtb_ipa := find_dtb_ipa (dtb_load_paddr c) psci_invalid_address (config_regions c) in
     let cpu_set := z_cpu_set z in
     let* p := arc_new z in
     let* ids := cpu_iter cpu_set in
     for_each (assign_cpu p cpu_set (entry_point c) dtb_ipa) ids ;;;
     add_zone p ;;;
     hret p)
    (λ p s', created c s p s') (set_w w' s).
Proof.
  intros Hz Hcs Hnew. eapply wpp_mono; [by apply publish_exact|].
  intros p s2 (ipa & cpus' & Hipa & -> & Hall & ->). exists z, w', cpus', ipa.
  split; [apply fresh_ptr_free|]. split; [done|]. split; [done|].
  split; [by eapply find_dtb_ipa_state|]. split; [exact Hall|]. done.
Qed.

Lemma cpus_nonneg c i : i ∈ cpus c → 0 ≤ i.
Proof. rewrite cpus_elem. lia. Qed.

(** The part before: an empty zone, filled in from the configuration. *)
Lemma fill_spec c (s : sys) :
  fa_inv n (w_fa (s_w s)) → has_free (s_w s) →
  (∀ b s', is_s2_pt_level3 (E:=HvError) s = ROk b s' → (if b then 3 else 4) = Z.of_nat L) →
  (∀ r, r ∈ config_regions c → mappable r) → (∀ i, i ∈ config_irqs c → 0 ≤ i) →
  (∀ q, q ∈ s_zone_list s → ¬ has_id s (zone_id c) q) →
  wpe (let* z := zone_new (zone_id c) in
       let* regions := memory_regions c in
       let* z := hunwrap (with_w (pt_init z regions)) in
       let* z := mmio_init z (arch c) in
       let* irqs := interrupts c in
       let* z := irq_bitmap_init z irqs in
       let* z := set_cpus_of z (cpus c) in
       let* dtb_ipa := find_dtb_ipa (dtb_load_paddr c) psci_invalid_address regions in
       let cpu_set := z_cpu_set z in
       let* p := arc_new z in
       let* ids := cpu_iter cpu_set in
       for_each (assign_cpu p cpu_set (entry_point c) dtb_ipa) ids ;;;
       add_zone p ;;;
       hret p)
    (λ p s', created c s p s') (λ _ _, False) s.
Proof using PL.
  intros Hfa Hfree Hlev Hregs Hirqs Hnew. apply wpe_bind.
  eapply wpe_mono; [by apply zone_new_spec| |done]. intros z0 s0 (w0 & -> & Hinv0 & Hmap0 & Hz0).
  apply wpe_bind. eapply wpe_wpp; [apply memory_regions_take|]. intros regions s1 (-> & ->).
  fold (config_regions c). apply wpe_bind, wpe_unwrap, wpe_zoom.
  change (s_w (set_w w0 s)) with w0.
  eapply wpe_mono; [exact (pt_init_spec z0 (config_regions c) w0 Hinv0 Hregs)| |intros; exact I].
  intros z1 w1 ((Hid1 & Hcs1 & Hirq1) & Hinv1 & Hmap1). rewrite Hmap0 in Hmap1.
  apply wpe_bind. eapply wpe_wpp; [apply mmio_init_zone|].
  intros z2 s2 (-> & (Hid2 & Hcs2 & Hirq2) & Hg2).
  apply wpe_bind. eapply wpe_wpp; [apply interrupts_take|]. intros irqs s3 (-> & ->).
  fold (config_irqs c). assert (bitmap_wf (replicate 32 0)) as Hbw.
  { split; [done|]. intros w [-> _]%elem_of_replicate. done. }
  apply wpe_bind. eapply wpe_wpp.
  { apply irq_bitmap_init_spec; [|done]. rewrite Hirq2, Hirq1, Hz0. exact Hbw. }
  intros z3 s3 (-> & (Hid3 & Hcs3 & Hg3) & Hwf3 & Hbits3).
  apply wpe_bind. eapply wpe_wpp.
  { apply set_cpus_of_spec; [|apply cpus_nonneg]. rewrite Hcs3, Hcs2, Hcs1, Hz0. split; split; done. }
  intros z4 s4 (-> & Hid4 & Hg4 & Hirq4 & Hwf4 & Hel4).
  eapply wpe_wpp; [apply (publish_spec c z4 w1 s)|done]; [|done|done].
  assert (cpus_of (mkCpuSet MAX_CPU_NUM 0) = []) as Hemp by reflexivity.
  split.
  - rewrite Hid4, Hid3, Hid2, Hid1, Hz0. done.
  - intros i. rewrite Hel4, Hcs3, Hcs2, Hcs1, Hz0. simpl.
    rewrite Hemp, elem_of_nil. tauto.
  - intros i Hi. rewrite Hirq4, Hbits3, Hirq2, Hirq1, Hz0 by done.
    cbn [z_irq_bitmap].
    unfold irq_bit. rewrite lookup_replicate_2; [by rewrite Z.bits_0|].
    destruct (irq_index_lt i Hi). lia.
  - by rewrite Hg4, Hg3, Hg2.
  - by rewrite Hg4, Hg3, Hg2.
Qed.


End create.

Lemma ok_value {S E A} (m : M S E A) s a b s' : m s = ROk a s → m s = ROk b s' → b = a.
Proof. congruence. Qed.

Lemma cold_level b s' : is_s2_pt_level3 (E:=HvError) cold_sys = ROk b s' → b = true.
Proof. apply (ok_value is_s2_pt_level3). reflexivity. Qed.


(** ** Stopping a zone *)

Section stop.
  Context {W PT D E : Type}.
  Abbreviation sys := (sys W PT D).
  Implicit Types (s : sys).

(** The events after one more for [cpu]; unknown CPUs get none. *)
Definition added (em : list (list Z)) (cpu ev : Z) : list (list Z) :=
  default em (EventManager_add_event em cpu ev).

Lemma send_event_spec cpu ipi ev s :
  wpp (E:=E) (send_event cpu ipi ev)
    (λ _ s', ∃ em, s_events s = Some em ∧
       s' = set_regs (s_regs s') (set_events (Some (added em cpu ev)) s)) s.
Proof.
  apply wpp_bind, wpp_bind, wpp_gets, wpp_bind, wpp_unwrap_opt. intros em Hem. unfold added.
  destruct (EventManager_add_event em cpu ev) as [em'|] eqn:Ha.
  - apply wpp_bind, wpp_modify, wpp_ret. unfold with_regs, zoom, arch_send_event, wpp.
    destruct (cpu <? 64); [|done]. exists em. by rewrite Ha.
  - apply wpp_ret. unfold with_regs, zoom, arch_send_event, wpp.
    destruct (cpu <? 64); [|done]. exists em. split; [done|]. rewrite Ha.
    destruct s; simpl in *. by subst.
Qed.

Lemma added_queue em cpu ev i :
  0 ≤ cpu → 0 ≤ i → (Z.to_nat i < length em)%nat →
  length (added em cpu ev) = length em ∧
  queue (added em cpu ev) i = queue em i ++ (if decide (i = cpu) then [ev] else []).
Proof.
  intros Hc Hi Hl. unfold added. destruct (EventManager_add_event em cpu ev) as [em'|] eqn:Ha.
  - simpl. apply add_event_queue in Ha as (Hlen & Hq & Hne). split; [done|].
    destruct (decide (i = cpu)) as [->|Hneq]; [done|]. rewrite app_nil_r. apply Hne. lia.
  - simpl. split; [done|]. unfold EventManager_add_event in Ha.
    destruct (em !! Z.to_nat cpu) eqn:Hcpu; [done|]. apply lookup_ge_None in Hcpu.
    rewrite decide_False by (intros ->; lia). by rewrite app_nil_r.
Qed.

(** A CPU taken out of its zone. *)
Definition released (c : PerCpu) : PerCpu :=
  mkPerCpu (pc_id c) INVALID_ADDRESS (dtb_ipa c) (psci_on c) None (boot_cpu c).

(** The CPUs of [ids] are released and told to shut down; no other CPU is. *)
Definition released_all (ids : list Z) s s' : Prop :=
  ∃ cpus' em em' r, s_events s = Some em ∧
    s' = set_regs r (set_events (Some em') (set_cpus cpus' s)) ∧
    (∀ i, cpus' !! i = if decide (i ∈ ids) then released <$> s_cpus s !! i else s_cpus s !! i) ∧
    length em' = length em ∧
    (∀ i, 0 ≤ i → (Z.to_nat i < length em)%nat →
       queue em' i = queue em i ++ (if decide (i ∈ ids) then [IPI_EVENT_SHUTDOWN] else [])).

Lemma release_cpu_spec id s :
  wpp (E:=E) (release_cpu id)
    (λ _ s', ∃ c em r, s_cpus s !! id = Some c ∧ s_events s = Some em ∧
       s' = set_regs r (set_events (Some (added em id IPI_EVENT_SHUTDOWN))
              (set_cpus (<[id := released c]> (s_cpus s)) s))) s.
Proof.
  apply wpp_bind, wpp_mod_cpu. intros c Hc. apply wpp_bind, wpp_mod_cpu. simpl. intros c1.
  rewrite lookup_insert_eq. intros [= <-]. rewrite insert_insert_eq.
  eapply wpp_mono; [apply send_event_spec|]. intros _ s' (em & Hem & Hs').
  exists c, em, (s_regs s'). done.
Qed.

Lemma release_all_spec ids s :
  s_events s ≠ None → NoDup ids → (∀ i, i ∈ ids → 0 ≤ i) →
  wpp (E:=E) (for_each release_cpu ids) (λ _ s', released_all ids s s') s.
Proof.
  revert s. induction ids as [|id ids IH]; intros s Hev Hnd Hpos.
  { apply wpp_ret. destruct (s_events s) as [em|] eqn:Hem; [|done].
    exists (s_cpus s), em, em, (s_regs s). split_and!; try done.
    - destruct s; simpl in *. by subst.
    - intros i _ _. by rewrite app_nil_r. }
  simpl. apply NoDup_cons in Hnd as [Hni Hnd]. apply wpp_bind.
  eapply wpp_mono; [apply release_cpu_spec|]. intros _ s1 (c & em & r & Hc & Hem & ->).
  eapply wpp_mono; [apply IH; [done|done|]|].
  { intros i Hi. apply Hpos, elem_of_cons. by right. }
  intros _ s2 (cpus' & em1 & em' & r' & [= <-] & -> & Hcpus & Hlen & Hq). simpl in *.
  assert (0 ≤ id) as H0 by (apply Hpos, elem_of_cons; by left).
  assert (∀ i, 0 ≤ i → (Z.to_nat i < length em)%nat → _) as Hadd
    by exact (λ i, added_queue em id IPI_EVENT_SHUTDOWN i H0).
  exists cpus', em, em', r'. split_and!; try done.
  - intros i. rewrite Hcpus. destruct (decide (i = id)) as [->|Hne].
    + rewrite decide_False, decide_True by (done || apply elem_of_cons; by left).
      by rewrite lookup_insert_eq, Hc.
    + rewrite lookup_insert_ne by done. apply decide_ext. rewrite elem_of_cons. tauto.
  - rewrite Hlen. unfold added, EventManager_add_event.
    destruct (em !! Z.to_nat id); [apply length_insert|done].
  - intros i Hi Hl. destruct (Hadd i Hi Hl) as [Hl' Hqi]. rewrite Hq, Hqi by (done || by rewrite Hl').
    rewrite <- app_assoc. f_equal. destruct (decide (i = id)) as [->|Hne]; simpl.
    + rewrite decide_False, decide_True by (done || apply elem_of_cons; by left). done.
    + apply decide_ext. rewrite elem_of_cons. tauto.
Qed.

End stop.

(** *** The first zone with an id, and the list without it *)

Fixpoint first_with {PT} (h : gmap Z (Zone PT)) (zid : Z) (l : list Z) : option (Z * list Z) :=
  match l with
  | [] => None
  | p :: l' =>
      if bool_decide (z_id <$> h !! p = Some zid) then Some (p, l')
      else (λ x, (x.1, p :: x.2)) <$> first_with h zid l'
  end.

Section shutdown.
  Context {W PT D : Type} {G : GenericPageTable W PT} {GL : GenericPageTableLaws W PT} {B : Bus D}.
  Abbreviation sys := (sys W PT D).
  Implicit Types (s : sys).

Lemma find_zone_first {E} zid s :
  wpp (E:=E) (find_zone zid)
    (λ o s', s' = s ∧ o = fst <$> first_with (s_heap s) zid (s_zone_list s)) s.
Proof using.
  apply wpp_bind, wpp_gets. induction (s_zone_list s) as [|p l IH]; simpl; [done|].
  apply wpp_bind, wpp_bind, wpp_gets. destruct (s_heap s !! p) as [z|]; [|apply wpp_panic].
  apply wpp_ret. simpl. destruct (Z.eqb_spec (z_id z) zid) as [->|Hne].
  - by rewrite bool_decide_true.
  - rewrite bool_decide_false by congruence. eapply wpp_mono; [apply IH|]. intros o s' [-> ->].
    split; [done|]. by destruct (first_with _ _ _).
Qed.

Lemma remove_first_spec {E} zid l s :
  wpp (E:=E) (remove_first zid l) (λ o s', s' = s ∧ o = first_with (s_heap s) zid l) s.
Proof using.
  induction l as [|p l IH]; simpl; [done|].
  apply wpp_bind, wpp_bind, wpp_gets. destruct (s_heap s !! p) as [z|]; [|apply wpp_panic].
  apply wpp_ret. simpl. destruct (Z.eqb_spec (z_id z) zid) as [->|Hne].
  - by rewrite bool_decide_true.
  - rewrite bool_decide_false by congruence. apply wpp_bind. eapply wpp_mono; [apply IH|].
    intros o s' [-> ->]. apply wpp_ret. split; [done|]. by destruct (first_with _ _ _) as [[]|].
Qed.

(** No reference is left. *)
Definition unreferenced s (p : Z) : Prop :=
  (p ∉ s_zone_list s) ∧ ∀ i c, s_cpus s !! i = Some c → pc_zone c ≠ Some p.

Lemma zone_refs_0 s p : zone_refs s p = 0 → unreferenced s p.
Proof using.
  unfold zone_refs. intros H0. split.
  - intros Hin. assert (p ∈ filter (λ q, q = p) (s_zone_list s)) as Hf
      by (by apply list_elem_of_filter).
    destruct (filter (λ q, q = p) (s_zone_list s)); [by apply not_elem_of_nil in Hf|simpl in H0; lia].
  - intros i c Hc Hz. set (l := filter _ (map_to_list (s_cpus s))) in H0.
    assert ((i, c) ∈ l) as Hf by (apply list_elem_of_filter; split; [done|by apply elem_of_map_to_list]).
    destruct l; [by apply not_elem_of_nil in Hf|simpl in H0; lia].
Qed.

Lemma reset_words_total {E} base idx words (d : D) :
  wpp (E:=E) (reset_words base idx words) (λ _ _, True) d.
Proof using.
  revert idx d. induction words as [|w words IH]; intros idx d; [done|]. simpl.
  apply wpp_bind. destruct (idx =? 0); [apply wpp_ret, IH|]. unfold uadd.
  apply wpp_bind. destruct (_ <? _); [apply wpp_ret|done].
  apply wpp_bind. destruct (_ <? _); [apply wpp_ret|done]. apply wpp_bind, wpp_modify.
  apply wpp_bind. destruct (_ <? _); [apply wpp_ret|done].
  apply wpp_bind. destruct (_ <? _); [apply wpp_ret|done]. apply wpp_modify, IH.
Qed.

Lemma irqchip_reset_spec {E} (z : Zone PT) s :
  wpp (E:=E) (arch_irqchip_reset z) (λ _ s', s' = set_bus (s_bus s') s) s.
Proof using.
  apply wpp_bind, wpp_reader; [apply reader_host_gicd_base|]. intros base.
  pose proof (reset_words_total (E:=E) base 0 (z_irq_bitmap z) (s_bus s)) as Hr.
  unfold wpp, with_bus, zoom in *. by destruct (reset_words _ _ _ _).
Qed.

Lemma ms_drop_total (ms : MemorySet PT) w : ms_inv (w, ms) → wpp ms_drop (λ _ _, True) (w, ms).
Proof using GL.
  intros Hinv. apply wpp_bind. pose proof (ms_clear_spec _ Hinv) as Hc. unfold wp in Hc. unfold wpp at 1.
  destruct (ms_clear (w, ms)) as [[] [w' ms']| | |]; try done. apply wpp_bind, wpp_gets.
  pose proof (gpt_drop_law w' (ms_pt ms')) as Hd. unfold wpp, zoom in *. simpl.
  by destruct (gpt_drop (ms_pt ms') w').
Qed.

(** The state after the zone at [p] is gone. *)
Definition without_zone s (p : Z) (l : list Z) s' : Prop :=
  ∃ w', s' = set_heap (delete p (s_heap s)) (set_w w' (set_zone_list l s)).

Lemma remove_zone_spec zid s :
  (∀ p l z, first_with (s_heap s) zid (s_zone_list s) = Some (p, l) → s_heap s !! p = Some z →
            ms_inv (s_w s, z_gpm z)) →
  wpp (remove_zone zid)
    (λ _ s', ∃ p l, first_with (s_heap s) zid (s_zone_list s) = Some (p, l) ∧
       unreferenced s' p ∧ without_zone s p l s') s.
Proof using GL.
  intros Hinv. apply wpp_bind, wpp_gets, wpp_bind. eapply wpp_mono; [apply remove_first_spec|].
  intros o s' [-> ->]. apply wpp_bind, wpp_unwrap_opt. intros [p l] Hf.
  apply wpp_bind, wpp_modify, wpp_bind, wpp_gets, wpp_bind, wpp_assert. intros Hrefs%Z.eqb_eq.
  assert (unreferenced (set_zone_list l s) p) as Hun by (apply zone_refs_0; lia).
  unfold zone_drop. apply wpp_bind, wpp_bind, wpp_gets. simpl.
  destruct (s_heap s !! p) as [z|] eqn:Hz; [|apply wpp_panic]. apply wpp_ret, wpp_bind.
  pose proof (ms_drop_total _ _ (Hinv p l z Hf Hz)) as Hd. unfold wpp, with_w, zoom, with_gpm in *. simpl.
  destruct (ms_drop (s_w s, z_gpm z)) as [[] [w' ms']| | |]; try done. simpl.
  exists p, l. split; [done|]. split; [exact Hun|]. by exists w'.
Qed.

(** Everything [hv_zone_shutdown] did when it returns. *)
Definition shut_down s (zid : Z) s' : Prop :=
  ∃ p l z s1 s2,
    first_with (s_heap s) zid (s_zone_list s) = Some (p, l) ∧ s_heap s !! p = Some z ∧
    released_all (cpus_of (z_cpu_set z)) s s1 ∧
    arch_irqchip_reset (E:=HvError) z s1 = ROk tt s2 ∧
    without_zone s2 p l s' ∧ unreferenced s' p.

(** C17: [hv_zone_shutdown] answers EPERM to a guest that is not the root zone,
    EINVAL for the root zone and EEXIST for an unknown id, each with an unchanged
    state. Otherwise, when it returns (it panics if another zone's CPU still refers
    to the zone), each CPU of the zone has been released and told to shut down
    exactly once, no other CPU has, the zone's interrupts have been reset, the first
    zone with the id is gone from the list and from memory, nothing refers to it,
    and everything else is as before. *)
Theorem hv_zone_shutdown_correct s zid root :
  is_this_root_zone (E:=HvError) s = ROk root s → s_events s ≠ None →
  (∀ p l z, first_with (s_heap s) zid (s_zone_list s) = Some (p, l) → s_heap s !! p = Some z →
            cpuset_wf (z_cpu_set z) ∧ ms_inv (s_w s, z_gpm z)) →
  wpe (hv_zone_shutdown zid)
    (λ r s', r = 0 ∧ root = true ∧ zid ≠ 0 ∧ shut_down s zid s')
    (λ e s', s' = s ∧
       ((num e = EPERM ∧ root = false) ∨ (num e = EINVAL ∧ root = true ∧ zid = 0) ∨
        (num e = EEXIST ∧ root = true ∧ zid ≠ 0 ∧
         first_with (s_heap s) zid (s_zone_list s) = None))) s.
Proof using GL.
  intros Hroot Hev Hz. unfold hv_zone_shutdown. apply wpe_bind. unfold wpe at 1. rewrite Hroot.
  destruct root; simpl; [|by split; [|left]].
  destruct (Z.eqb_spec zid 0) as [->|Hnz]; [split; [done|]; right; by left|].
  apply wpe_bind. eapply wpe_wpp; [apply find_zone_first|]. intros o s' [-> ->].
  destruct (first_with (s_heap s) zid (s_zone_list s)) as [[p l]|] eqn:Hf; simpl.
  2:{ split; [done|]. right. by right. }
  eapply wpe_wpp; [|intros a s'; exact id]. apply wpp_bind, wpp_bind, wpp_gets.
  destruct (s_heap s !! p) as [z|] eqn:Hp; [|apply wpp_panic]. apply wpp_ret, wpp_bind.
  destruct (Hz p l z eq_refl Hp) as [Hcs Hinv]. unfold wpp at 1. rewrite cpu_iter_eq by done.
  apply wpp_bind. eapply wpp_mono.
  { apply release_all_spec; [done|apply cpus_of_nodup|]. intros i. rewrite cpus_of_elem. lia. }
  intros [] s1 Hrel. apply wpp_bind. eapply wpp_mono; [apply wpp_run, irqchip_reset_spec|].
  intros [] s2 [Hreset Hs2]. apply wpp_bind.
  pose proof Hrel as (cpus' & em & em' & r & _ & Hs1 & _).
  assert (s_heap s2 = s_heap s ∧ s_zone_list s2 = s_zone_list s ∧ s_w s2 = s_w s) as (Hh & Hl & Hw)
    by (by rewrite Hs2, Hs1).
  eapply wpp_mono.
  { apply remove_zone_spec. rewrite Hh, Hl, Hw, Hf. intros p' l' z' H1 H2. by destruct (Hz p' l' z' H1 H2). }
  rewrite Hh, Hl, Hf. intros _ s3 (p' & l' & [= <- <-] & Hun & Hwo). apply wpp_ret.
  split_and!; try done. by exists p, l, z, s1, s2.
Qed.

End shutdown.

(** A running guest: zone 1 on CPU 2 with an (empty) address space of its own. *)
Definition live_sys : dsys :=
  set_w demo_ms.1 (set_heap (<[1 := root_z]> (<[2 := set_gpm demo_ms.2 guest_z]> ∅)) (demo_sys 0)).

Lemma live_zone z : s_heap live_sys !! 2 = Some z → z = set_gpm demo_ms.2 guest_z.
Proof.
  intros H. enough (Some z = Some (set_gpm demo_ms.2 guest_z)) as [=]; [done|].
  rewrite <- H. reflexivity.
Qed.

Lemma hv_zone_shutdown_correct_witness :
  wpe (hv_zone_shutdown 1)
    (λ r s', r = 0 ∧ true = true ∧ 1 ≠ 0 ∧ shut_down live_sys 1 s')
    (λ e s', s' = live_sys ∧
       ((num e = EPERM ∧ true = false) ∨ (num e = EINVAL ∧ true = true ∧ 1 = 0) ∨
        (num e = EEXIST ∧ true = true ∧ 1 ≠ 0 ∧
         first_with (s_heap live_sys) 1 (s_zone_list live_sys) = None))) live_sys.
Proof.
  apply (hv_zone_shutdown_correct live_sys 1 true).
  - reflexivity.
  - discriminate.
  - intros p l z Hf Hp. assert (p = 2) as -> by (vm_compute in Hf; congruence).
    apply live_zone in Hp as ->. split; [split; split; done|]. exact demo_ms_inv.
Defined.

(** [hv_zone_start] for a CPU that is on answers EBUSY, but only after the zone
    has been created: the zone stays listed, and CPU 1, which runs the root zone,
    has been moved to it. *)
Theorem zone_start_busy_keeps_zone :
  match hv_zone_start 0xffff (demo_config 5 2 0x40000000 0x50000000) (demo_sys 0) with
  | RErr e s' =>
      num e = EBUSY ∧ s_zone_list s' = [1; 2; 3] ∧ z_id <$> s_heap s' !! 3 = Some 5 ∧
      pc_zone <$> s_cpus (demo_sys 0) !! 1 = Some (Some 1) ∧
      pc_zone <$> s_cpus s' !! 1 = Some (Some 3) ∧ cpus_of (z_cpu_set root_z) = [0; 1]
  | _ => False
  end.
Proof. vm_compute. repeat split; reflexivity. Qed.
