(* ===== verification/Spaces.v ===== *)
(** * The address spaces of the machine and the frame pool

    Every second-stage address space of the hypervisor (one per zone, and the one CPUs
    park in) takes the frames of its page table from one pool
    (src/src/memory/frame.rs). [spaces_ok w l] says that the address spaces [l] are in
    order together: each keeps its invariant, no two share a frame, and every frame of
    the pool is either free or held by one of them. Making, filling and dropping an
    address space keep this, and so does any store outside the pool. *)

From S2P Require Import Prelude PhysMem HvError Addr Frame Region Pte PtIface Paging PagingWf.
From S2P Require Import PagingSpec PagingLoop PtInstance Stable FramePool PtAccount BTreeMap MemorySet.
From S2P Require Import MemoryProps.

(** ** Lists of frames *)

Section apart.
  Implicit Types (b : Z) (v : list Frame).

Lemma hold_any_app b v1 v2 j : hold_any b (v1 ++ v2) j = hold_any b v1 j || hold_any b v2 j.
Proof. apply existsb_app. Qed.

Lemma hold_any_elem b v j : hold_any b v j = true ↔ ∃ f, f ∈ v ∧ holds b f j = true.
Proof. unfold hold_any. rewrite existsb_exists. by setoid_rewrite list_elem_of_In. Qed.

Lemma apart_app b v1 v2 :
  apart b (v1 ++ v2) ↔
  apart b v1 ∧ apart b v2 ∧ ∀ j, hold_any b v1 j = true → hold_any b v2 j = true → False.
Proof.
  split.
  - intros H. split_and!.
    + intros i j f g k Hi Hj. apply (H i j f g k); by apply lookup_app_l_Some.
    + intros i j f g k Hi Hj H1 H2.
      assert (length v1 + i = length v1 + j)%nat; [|lia].
      apply (H _ _ f g k); try done; rewrite lookup_app_r by lia;
        (replace (_ + _ - _)%nat with i by lia) || (replace (_ + _ - _)%nat with j by lia); done.
    + intros j (f & Hf & H1)%hold_any_elem (g & Hg & H2)%hold_any_elem.
      apply list_elem_of_lookup in Hf as [x Hx], Hg as [y Hy].
      assert (x = length v1 + y)%nat; [|apply lookup_lt_Some in Hx; lia].
      apply (H _ _ f g j); try done; [by apply lookup_app_l_Some|].
      rewrite lookup_app_r by lia. by replace (_ + _ - _)%nat with y by lia.
  - intros (H1 & H2 & H3) i j f g k Hi Hj Hf Hg.
    apply lookup_app_Some in Hi as [Hi|[Hi1 Hi]], Hj as [Hj|[Hj1 Hj]].
    + by eapply H1.
    + exfalso. apply (H3 k); apply hold_any_elem; eauto using list_elem_of_lookup_2.
    + exfalso. apply (H3 k); apply hold_any_elem; eauto using list_elem_of_lookup_2.
    + assert (i - length v1 = j - length v1)%nat; [by eapply H2|lia].
Qed.

#[global] Instance apart_perm b : Proper ((≡ₚ) ==> iff) (apart b).
Proof.
  assert (∀ v1 v2, v1 ≡ₚ v2 → apart b v2 → apart b v1) as H.
  { intros v1 v2 (_ & g & Hinj & Hg)%Permutation_inj Ha i j f f' k Hi Hj Hf Hf'.
    rewrite Hg in Hi, Hj. eapply (inj g), Ha; eassumption. }
  intros v1 v2 Hp. split; apply H; by rewrite Hp.
Qed.

#[global] Instance hold_any_perm b : Proper ((≡ₚ) ==> (=) ==> (=)) (hold_any b).
Proof.
  intros v1 v2 Hp j ? <-. apply eq_true_iff_eq. rewrite !hold_any_elem. by setoid_rewrite Hp.
Qed.

End apart.

Section spaces.
  Context {T : Type} {HB : BitAlloc T} {HL : BitAllocLaws T}.
  Context {P : GenericPTE} {PL : GenericPTELaws P}.
  Context (n : Z) (L : nat) (HL34 : L = 3%nat ∨ L = 4%nat) (pool : Z).
  Abbreviation mset := (MemorySet HvPageTable).
  Implicit Types (w : world T) (ms : mset) (l : list mset).

#[local] Instance spaces_laws : GenericPageTableLaws (world T) HvPageTable := hv_gpt_laws n L HL34.

(** The frames that hold the page tables of [l]. *)
Definition space_frames l : list Frame := l ≫= (frames_of ∘ ms_pt).

Lemma space_frames_cons ms l : space_frames (ms :: l) = frames_of (ms_pt ms) ++ space_frames l.
Proof. done. Qed.

Record spaces_ok w l : Prop := {
  sp_fa : fa_inv n (w_fa w);
  sp_base : base w = pool;
  sp_inv : Forall (λ ms, ms_inv (w, ms)) l;
  sp_taken : Forall (taken n w) (space_frames l);
  sp_apart : apart (base w) (space_frames l);
  sp_all j : 0 ≤ j < n → free w j || hold_any (base w) (space_frames l) j = true
}.

#[global] Instance spaces_ok_perm w : Proper ((≡ₚ) ==> iff) (spaces_ok w).
Proof.
  assert (∀ l l', l ≡ₚ l' → spaces_ok w l' → spaces_ok w l) as H.
  { intros l l' Hp [H1 H0 H2 H3 H4 H5].
    assert (space_frames l ≡ₚ space_frames l') as Hf by (unfold space_frames; by rewrite Hp).
    split; [done|done|by rewrite Hp|by rewrite Hf|by rewrite Hf|]. intros j. rewrite Hf. auto. }
  intros l l' Hp. split; apply H; by rewrite Hp.
Qed.

(** Held frames are not free. *)
Lemma held_not_free w l j :
  spaces_ok w l → hold_any (base w) (space_frames l) j = true → free w j = false.
Proof.
  intros H (f & Hf & Hj)%hold_any_elem. pose proof (sp_taken _ _ H) as Ht.
  rewrite Forall_forall in Ht. destruct (Ht f Hf) as (i & _ & _ & _ & _ & Hfree). auto.
Qed.

(** The frame at the head of each table the object owns. *)
Lemma owned_held w pt t :
  Forall (taken n w) (frames_of pt) → t ∈ owned pt →
  ∃ i, t = base w + i * PAGE_SIZE ∧ 0 ≤ i < n ∧ hold_any (base w) (frames_of pt) i = true.
Proof.
  intros Hf Ht. assert (∃ f, f ∈ frames_of pt ∧ start_paddr f = t) as (f & Hin & <-).
  { unfold owned, frames_of in *. apply elem_of_cons in Ht as [->|Ht].
    - exists (root (inner pt)). split; [by left|done].
    - apply list_elem_of_fmap in Ht as (f & -> & Hf'). exists f. split; [by right|done]. }
  rewrite Forall_forall in Hf. destruct (Hf f Hin) as (i & Hi & H0 & Hc & Hn & _).
  exists i. split_and!; [done|done|lia|]. apply hold_any_elem. exists f. split; [done|].
  destruct f as [a c]; simpl in *. subst a. rewrite holds_index. apply bool_decide_eq_true. lia.
Qed.

Lemma apart_disjoint w pt1 pt2 :
  Forall (taken n w) (frames_of pt1) → Forall (taken n w) (frames_of pt2) →
  (∀ j, hold_any (base w) (frames_of pt1) j = true → hold_any (base w) (frames_of pt2) j = true → False) →
  disjoint_pts pt1 pt2.
Proof.
  intros H1 H2 Hd t Ht1 Ht2. destruct (owned_held _ _ _ H1 Ht1) as (i & Hi & _ & Hh1).
  destruct (owned_held _ _ _ H2 Ht2) as (j & Hj & _ & Hh2).
  assert (i = j) as -> by (unfold PAGE_SIZE in *; lia). by apply (Hd j).
Qed.

Lemma space_frames_elem l ms f : ms ∈ l → f ∈ frames_of (ms_pt ms) → f ∈ space_frames l.
Proof. intros Hms Hf. apply list_elem_of_bind. by exists ms. Qed.

Lemma space_frames_sub w l ms :
  ms ∈ l → Forall (taken n w) (space_frames l) → Forall (taken n w) (frames_of (ms_pt ms)).
Proof.
  rewrite !Forall_forall. intros Hms H f Hf. by eapply H, space_frames_elem.
Qed.

Lemma hold_space b l ms j :
  ms ∈ l → hold_any b (frames_of (ms_pt ms)) j = true → hold_any b (space_frames l) j = true.
Proof.
  intros Hms (f & Hf & Hj)%hold_any_elem. apply hold_any_elem. exists f.
  split; [by eapply space_frames_elem|done].
Qed.

(** ** Transfer of one address space's invariant *)

Lemma ms_inv_frame w w' ms :
  ms_inv (w, ms) → pt_ok n L (w', ms_pt ms) →
  (∀ va, in_range L va → translate L (w', ms_pt ms) va = translate L (w, ms_pt ms) va) →
  ms_inv (w', ms).
Proof using All.
  intros [H1 H2 H3 H4] Hok Htr. split; [done|done|done|].
  intros va Hva. destruct (H4 va Hva) as [Hin Hout]. split.
  - intros k r Hk Hr. eapply region_view_ext; [reflexivity|reflexivity|by apply Htr|by eapply Hin].
  - intros Hno. etrans; [by apply Htr|by apply Hout].
Qed.

(** The other spaces when the bytes of their frames and their frames are kept. *)
Lemma ms_inv_keep w w' ms :
  ms_inv (w, ms) → fa_inv n (w_fa w') → base w' = base w →
  Forall (taken n w') (frames_of (ms_pt ms)) →
  (∀ t b, t ∈ owned (ms_pt ms) → t ≤ b < t + PAGE_SIZE → rd8 (w_mem w') b = rd8 (w_mem w) b) →
  ms_inv (w', ms).
Proof using All.
  intros Hinv Hfa Hb Ht Hm. pose proof (ms_ok _ Hinv) as [tb [I1 I2 I3 I4 I5 I6]]. simpl in *.
  destruct (mem_wf_frame L _ (w_mem w') _ tb I3) as [Hwf Htr].
  { intros a t b Ha. apply Hm. by eapply I4. }
  eapply ms_inv_frame; [done| |exact Htr]. exists tb. split; simpl; try done.
  intros t Ho. destruct (owned_held _ _ _ Ht Ho) as (i & -> & Hi & Hh). exists i. split_and!; try done; try lia.
  apply hold_any_elem in Hh as (f & Hf & Hh). rewrite Forall_forall in Ht.
  destruct (Ht f Hf) as (k & _ & _ & _ & _ & Hfree). by apply Hfree.
Qed.

(** ** One space changes within its own account *)

(** The pool as it would be without the space: it exists because the frames can be
    dropped. *)
Lemma space_account w ms l :
  spaces_ok w (ms :: l) →
  ∃ w0, accounted n w0 (w, ms_pt ms) ∧ ∀ j, free w0 j = free w j || hold_any (base w) (frames_of (ms_pt ms)) j.
Proof using All.
  intros [H1 H0 H2 H3 H4 H5]. rewrite space_frames_cons in H3, H4.
  apply Forall_app in H3 as [H3 _]. apply apart_app in H4 as (H4 & _ & _).
  pose proof (drop_frames_spec (E:=HvError) n (frames_of (ms_pt ms)) w H1 H3 H4) as Hd. unfold wp in Hd.
  destruct (drop_frames (frames_of (ms_pt ms)) w) as [[] w0| | |]; try done.
  destruct Hd as (_ & Hb & _ & Hf). exists w0. split; [|done]. by split.
Qed.

Lemma space_change w ms w' ms' l :
  spaces_ok w (ms :: l) → ms_inv (w', ms') → pt_step n (w, ms_pt ms) (w', ms_pt ms') →
  (∀ w0, accounted n w0 (w, ms_pt ms) → accounted n w0 (w', ms_pt ms')) →
  spaces_ok w' (ms' :: l).
Proof using All.
  intros Hok Hinv' Hstep Hacc. destruct (space_account _ _ _ Hok) as (w0 & Hw0 & Hf0).
  pose proof Hok as [H1 H0 H2 H3 H4 H5]. pose proof (acc_base _ _ _ Hw0) as Hb0. simpl in Hb0.
  apply Hacc in Hw0 as [A1 A2 A3 A4 A5]. cbn [fst snd] in *.
  rewrite space_frames_cons in H3, H4. setoid_rewrite space_frames_cons in H5.
  apply Forall_app in H3 as [H3 H3']. apply apart_app in H4 as (H4 & H4' & Hdis).
  assert (base w' = base w) as Hb by congruence.
  assert (∀ j, hold_any (base w) (space_frames l) j = true →
               free w' j = false ∧ hold_any (base w') (frames_of (ms_pt ms')) j = false) as Hl.
  { intros j Hj. apply orb_false_iff. rewrite A5, Hf0. apply orb_false_iff. split.
    - eapply held_not_free; [done|]. rewrite space_frames_cons.
      by rewrite hold_any_app, Hj, orb_true_r.
    - apply not_true_iff_false. intros Hj'. by apply (Hdis j). }
  assert (Forall (taken n w') (space_frames l)) as Htl.
  { apply (taken_mono n w); [done| |done]. intros j Hj _. by apply Hl. }
  apply Forall_cons in H2 as [Hms H2]. split.
  - done.
  - congruence.
  - apply Forall_cons. split; [done|]. rewrite Forall_forall in H2 |- *. intros o Ho.
    assert (disjoint_pts (ms_pt ms) (ms_pt o)) as Hd.
    { apply (apart_disjoint w); [done|by eapply space_frames_sub|]. intros j Hj1 Hj2.
      apply (Hdis j Hj1). by eapply hold_space. }
    by destruct (step_untouched n L HL34 w ms o (w', ms') (H2 o Ho) Hd (ms_ok _ Hinv') Hstep) as (? & _).
  - rewrite space_frames_cons. apply Forall_app. by split.
  - rewrite space_frames_cons. apply apart_app. rewrite Hb. split_and!; [by rewrite <- Hb|done|].
    intros j Hj1 Hj2. apply Hl in Hj2 as [_ Hj2]. rewrite Hb in Hj2. congruence.
  - intros j Hj. rewrite space_frames_cons, hold_any_app, orb_assoc, A5, Hf0, Hb.
    specialize (H5 j Hj). rewrite hold_any_app, orb_assoc in H5. done.
Qed.

(** ** The operations keep the account *)

Section ops.
  Context (w0 : world T).
  Abbreviation acc := (λ s : world T * mset, accounted n w0 (pt_part s)).

Lemma stable_with_pt {E A} (m : M (world T * HvPageTable) E A) :
  stable (accounted n w0) m → stable acc (with_pt m).
Proof using.
  intros Hm. apply stable_zoom. intros s Hs. specialize (Hm _ Hs).
  destruct (m (pt_part s)); rewrite ?pt_part_set; done.
Qed.

Lemma stable_overlap {S E} (I : S → Prop) r r' : stable (E:=E) I (is_overlap_with r r').
Proof using. unfold is_overlap_with. solve_stable. Qed.
#[local] Hint Resolve stable_overlap : stable.

Lemma stable_set_regions {E} t : stable acc (set_regions (E:=E) t).
Proof using. apply stable_modify. by intros s. Qed.

Lemma stable_ms_insert r : stable acc (ms_insert r).
Proof using HL.
  unfold ms_insert, test_free_area. pose proof @stable_set_regions.
  pose proof (stable_with_pt _ (stable_map n w0 r)). solve_stable.
Qed.

Lemma stable_unmap_all rs : stable acc (unmap_all rs).
Proof using HL.
  induction rs as [|r rs IH]; simpl; [apply stable_ret|]. apply stable_bind; [|done].
  apply stable_unwrap, stable_with_pt, stable_unmap.
Qed.

Lemma stable_ms_clear : stable acc ms_clear.
Proof using HL.
  unfold ms_clear. pose proof @stable_set_regions. pose proof stable_unmap_all. solve_stable.
Qed.

End ops.

(** ** Making, filling and dropping a space *)

Lemma new_has_free {E} w w' pt lvl :
  fa_inv n (w_fa w) → unlocked_new (E:=E) lvl w = ROk pt w' → has_free w.
Proof using All.
  intros Hfa Hnew. pose proof (new_accounted n lvl w w' pt Hfa Hnew) as [_ Hb Ht _ Hf]. simpl in *.
  apply Forall_cons in Ht as [(i & Hs & _ & Hc & _) _]. exists i. unfold free in Hf. rewrite <- Hf.
  apply orb_true_iff. right. apply orb_true_iff. left.
  destruct (root (inner pt)) as [a c]; simpl in *. subst a.
  rewrite holds_index. apply bool_decide_eq_true. lia.
Qed.

(** Without a free frame [new] panics. *)
Lemma new_total {E} w lvl : fa_inv n (w_fa w) → wpp (E:=E) (unlocked_new lvl) (λ _ _, True) w.
Proof using HL.
  intros Hfa. unfold unlocked_new, immut_new. apply wpp_bind, wpp_bind, wpp_assert. intros _. apply wpp_bind.
  pose proof (frame_new_zero_exact n w Hfa) as Hn. unfold wp in Hn. unfold wpp, hunwrap.
  by destruct (frame_new_zero w).
Qed.

Lemma spaces_new w l :
  spaces_ok w l →
  wpp (ms_new (PT:=HvPageTable) (Z.of_nat L))
    (λ ms w', spaces_ok w' (ms :: l) ∧ ms_map (w', ms) = ∅) w.
Proof using All.
  intros Hok. pose proof (sp_fa _ _ Hok) as Hfa. apply wpp_bind.
  pose proof (new_total (E:=HvError) w (Z.of_nat L) Hfa) as Htot. unfold wpp in Htot. unfold wpp at 1. simpl.
  destruct (unlocked_new (Z.of_nat L) w) as [pt w'| | |] eqn:Hnew; try done.
  pose proof (new_has_free w w' pt _ Hfa Hnew) as Hfree.
  pose proof (new_accounted n _ w w' pt Hfa Hnew) as [A1 A2 A3 A4 A5]. cbn [fst snd] in *.
  pose proof (unlocked_new_spec (E:=HvError) n L HL34 w Hfa Hfree) as Hs. unfold wp in Hs. rewrite Hnew in Hs.
  destruct Hs as (Hpt & (_ & _ & Hext & Hu & Hnu) & Hintr & Htr & Hm).
  apply wpp_ret. split; [|done]. set (ms := mkMS bt_empty pt).
  assert (∀ j, hold_any (base w) (space_frames l) j = true →
               free w' j = false ∧ hold_any (base w') (frames_of pt) j = false) as Hl.
  { intros j Hj. apply orb_false_iff. rewrite A5. by eapply held_not_free. }
  destruct Hok as [H1 H0 H2 H3 H4 H5].
  assert (Forall (taken n w') (space_frames l)) as Htl.
  { apply (taken_mono n w); [done| |done]. intros j Hj _. by apply Hl. }
  assert (ms_inv (w', ms)) as Hnewinv.
  { split; [constructor|exact Hpt|by split|]. intros va Hva. split; [done|]. intros _. by apply Htr. }
  assert (pt_step n (w, pt) (w', pt)) as Hstep.
  { split; simpl; auto. intros b Hb. apply Hm. apply Hb. by left. }
  split.
  - done.
  - congruence.
  - apply Forall_cons. split; [done|]. rewrite Forall_forall in H2 |- *. intros o Ho.
    assert (disjoint_pts pt (ms_pt o)) as Hd.
    { intros t Ht Hto. destruct (ms_ok _ (H2 o Ho)) as [tb I]. apply (inv_used _ _ _ _ I) in Hto. simpl in Hto.
      unfold owned in Ht. rewrite Hintr in Ht. apply list_elem_of_singleton in Ht as ->. done. }
    by destruct (step_untouched n L HL34 w ms o (w', ms) (H2 o Ho) Hd Hpt Hstep) as (? & _).
  - rewrite space_frames_cons. apply Forall_app. by split.
  - rewrite space_frames_cons. apply apart_app. rewrite A2. split_and!; [by rewrite <- A2|done|].
    intros j Hj1 Hj2. apply Hl in Hj2 as [_ Hj2]. rewrite A2 in Hj2. unfold ms in Hj1. cbn [ms_pt] in Hj1. congruence.
  - intros j Hj. rewrite space_frames_cons, hold_any_app, orb_assoc. unfold ms. cbn [ms_pt]. by rewrite A5, A2, H5.
Qed.

Lemma spaces_insert w ms l r :
  spaces_ok w (ms :: l) → region_mappable pte_format (va_limit L) r →
  wlp (ms_insert r)
    (λ _ s', spaces_ok s'.1 (s'.2 :: l) ∧
       ms_map s' = if size r =? 0 then ms_map (w, ms) else <[start r := r]> (ms_map (w, ms))) (w, ms).
Proof using All.
  intros Hok Hr. pose proof (sp_inv _ _ Hok) as [Hms _]%Forall_cons.
  pose proof (ms_insert_spec (w, ms) r Hms Hr) as Hs.
  assert (∀ w0 : world T, accounted n w0 (w, ms_pt ms) →
    match ms_insert r (w, ms) with
    | ROk _ s' => accounted n w0 (pt_part s')
    | _ => True
    end) as Hacc.
  { intros w0 Hw0. pose proof (stable_ms_insert w0 r (w, ms) Hw0). by destruct (ms_insert r (w, ms)). }
  unfold wlp, wp in *. destruct (ms_insert r (w, ms)) as [[] [w' ms']| | |]; try done.
  destruct Hs as (Hinv' & Hst & Hmap). split; [by eapply space_change|].
  destruct (size r =? 0); [by injection Hmap as -> ->|]. by destruct Hmap as [_ ->].
Qed.

(** Dropping a space gives back what it held; no other space notices. *)
Lemma spaces_drop w ms l :
  spaces_ok w (ms :: l) →
  wpp ms_drop (λ _ s', spaces_ok s'.1 l ∧
    ∀ j, free s'.1 j = free w j || hold_any (base w) (frames_of (ms_pt ms)) j) (w, ms).
Proof using All.
  intros Hok. pose proof (sp_inv _ _ Hok) as [Hms _]%Forall_cons.
  destruct (space_account _ _ _ Hok) as (w0 & Hw0 & Hf0).
  apply wpp_bind. pose proof (ms_clear_spec (w, ms) Hms) as Hc. unfold wp in Hc.
  assert (∀ w0 : world T, accounted n w0 (w, ms_pt ms) →
    match ms_clear (w, ms) with ROk _ s' => accounted n w0 (pt_part s') | _ => True end) as Hacc.
  { intros w1 Hw1. pose proof (stable_ms_clear w1 (w, ms) Hw1). by destruct (ms_clear (w, ms)). }
  unfold wpp at 1. destruct (ms_clear (w, ms)) as [[] [w1 ms1]| | |]; try done.
  destruct Hc as (Hinv1 & Hst & _ & _). pose proof (space_change _ _ _ _ _ Hok Hinv1 Hst Hacc) as Hok1.
  apply Hacc in Hw0. clear Hacc. apply wpp_bind, wpp_gets. unfold wpp, zoom. simpl.
  pose proof (pt_drop_spec (E:=HvError) n w0 (w1, ms_pt ms1) Hw0) as Hd. unfold wp in Hd. simpl in Hd.
  destruct (pt_drop (ms_pt ms1) w1) as [[] w2| | |]; try done. simpl.
  destruct Hd as (Hb & Hfa & Hf & Hm). split; [|intros j; by rewrite Hf, Hf0].
  destruct Hw0 as [A1 A2 A3 A4 A5]. unfold pt_part in *. cbn [fst snd] in *. destruct Hok1 as [H1 H0 H2 H3 H4 H5].
  rewrite space_frames_cons in H3, H4. setoid_rewrite space_frames_cons in H5.
  apply Forall_cons in H2 as [_ H2]. apply Forall_app in H3 as [_ H3]. apply apart_app in H4 as (_ & H4 & Hdis).
  assert (Forall (taken n w2) (space_frames l)) as Htl.
  { apply (taken_mono n w1); [by rewrite Hb, A2| |done]. intros j Hj Hfj. rewrite Hf, <- A5, Hfj. simpl.
    apply not_true_iff_false. intros Hj'. by apply (Hdis j). }
  split.
  - done.
  - by rewrite Hb, <- A2.
  - rewrite Forall_forall in H2 |- *. intros o Ho. eapply ms_inv_keep; [by apply H2|done|by rewrite Hb, A2| |].
    + by eapply space_frames_sub.
    + intros t b _ _. by rewrite Hm.
  - done.
  - by rewrite Hb, <- A2.
  - intros j Hj. specialize (H5 j Hj). rewrite hold_any_app, orb_assoc, A5 in H5. by rewrite Hf, Hb, <- A2.
Qed.

(** ** Stores outside the pool *)

Definition in_pool (b : Z) : Prop := pool ≤ b < pool + n * PAGE_SIZE.

Lemma spaces_store w l b v : spaces_ok w l → ¬ in_pool b → spaces_ok (set_mem (wr8 (w_mem w) b v) w) l.
Proof using All.
  intros [H1 H0 H2 H3 H4 H5] Hb. split; try done. rewrite Forall_forall in H2 |- *. intros o Ho.
  pose proof (space_frames_sub _ _ _ Ho H3) as Ht.
  eapply ms_inv_keep; [by apply H2|done|done|exact Ht|].
  intros t c Hto Hc. destruct (owned_held _ _ _ Ht Hto) as (i & -> & Hi & _). simpl. rewrite rd8_wr8.
  rewrite decide_False; [done|]. intros <-. apply Hb. unfold in_pool, PAGE_SIZE in *. lia.
Qed.

(** Such a store changes no translation. *)
Lemma store_translate w l ms b v va :
  spaces_ok w l → ms ∈ l → ¬ in_pool b → in_range L va →
  hw_translate (wr8 (w_mem w) b v) L (root_paddr (inner (ms_pt ms))) va =
  hw_translate (w_mem w) L (root_paddr (inner (ms_pt ms))) va.
Proof using All.
  intros [H1 H0 H2 H3 H4 H5] Hms Hb Hva. rewrite Forall_forall in H2.
  pose proof (space_frames_sub _ _ _ Hms H3) as Ht.
  pose proof (ms_ok _ (H2 _ Hms)) as [tb [I1 I2 I3 I4 I5 I6]]. simpl in *.
  apply (mem_wf_frame L (w_mem w) (wr8 (w_mem w) b v) _ tb I3); [|done].
  intros a t c Ha Hc. apply I4 in Ha. destruct (owned_held _ _ _ Ht Ha) as (i & -> & Hi & _). rewrite rd8_wr8.
  rewrite decide_False; [done|]. intros <-. apply Hb. unfold in_pool, PAGE_SIZE in *. lia.
Qed.

(** An empty pool of spaces: every frame is free. *)
Lemma spaces_nil w : fa_inv n (w_fa w) → base w = pool → (∀ j, 0 ≤ j < n → free w j = true) → spaces_ok w [].
Proof.
  intros Hfa Hb Hf. split; try done. intros j Hj. by rewrite Hf.
Qed.

End spaces.
