(* ===== verification/Robust.v ===== *)
(** * What the handlers of guest exits may change

    Most of a guest's exits are served without touching the zones, the page tables or
    the registers that decide which table a CPU translates with. [robust I] lists the
    changes those handlers make: devices, the guest's registers, the virtio rings, other
    system registers, new events, and the fields of a CPU's data other than its id and
    zone. An invariant that survives each of these survives the handlers. *)

From S2P Require Import Prelude HvError Addr PtIface BTreeMap MemorySet CpuSet Mmio Config.
From S2P Require Import Sys ZoneOps Gic Event Virtio Vgic Hypercall Trap Stable SysFrame.

(** The second-stage table of a CPU, and its id. *)
Definition protected_regs : list string := ["VTTBR_EL2.BADDR"; "MPIDR_EL1"]%string.

Ltac unprotected := apply (bool_decide_unpack _); vm_compute; exact I.

Section robust.
  Context {W PT D : Type} {G : GenericPageTable W PT} {B : Bus D}.
  Abbreviation sys := (sys W PT D).
  Implicit Types (s : sys) (I : sys → Prop).

Definition write_reg (k : string) (v : Z) (r : sysregs) : sysregs :=
  mkSysregs (<[k := v]> (sr_val r)) (sr_log r ++ [(k, v)]).

Record robust I : Prop := {
  rb_bus d s : I s → I (set_bus d s);
  rb_guest g s : I s → I (set_guest g s);
  rb_region r s : I s → I (set_region r s);
  rb_bridge b s : I s → I (set_bridge b s);
  rb_virtio v s : I s → I (set_virtio_irqs v s);
  rb_reg k v s : k ∉ protected_regs → I s → I (set_regs (write_reg k v (s_regs s)) s);
  rb_event cpu ev em em' s :
    s_events s = Some em → EventManager_add_event em cpu ev = Some em' → I s →
    I (set_events (Some em') s);
  rb_cpu i c c' s :
    s_cpus s !! i = Some c → pc_id c' = pc_id c → pc_zone c' = pc_zone c → I s →
    I (set_cpus (<[i := c']> (s_cpus s)) s)
}.

Context (I : sys → Prop) (HI : robust I).

(** ** Registers *)

Lemma set_regs_id s : set_regs (s_regs s) s = s.
Proof. by destruct s. Qed.

(** Code on the registers alone, in any surrounding state. *)
Abbreviation reg_stable m := (∀ s, stable (λ r, I (set_regs r s)) m).

Lemma stable_with_regs {E A} (m : M sysregs E A) : reg_stable m → stable I (with_regs m).
Proof using.
  intros Hm. apply stable_zoom. intros s Hs. specialize (Hm s (s_regs s)). cbv beta in Hm.
  rewrite set_regs_id in Hm. by apply Hm.
Qed.

Lemma stable_write_sysreg {E} k v : k ∉ protected_regs → reg_stable (write_sysreg (E:=E) k v).
Proof using HI. intros Hk s. apply stable_modify. intros r Hr. by apply (rb_reg _ HI k v (set_regs r s)). Qed.

Lemma stable_read_sysreg {E} k : reg_stable (read_sysreg (E:=E) k).
Proof using. intros s. apply stable_gets. Qed.

Lemma with_write {E} k v : k ∉ protected_regs → stable I (with_regs (write_sysreg (E:=E) k v)).
Proof using HI. intros Hk. by apply stable_with_regs, stable_write_sysreg. Qed.

Lemma with_read {E} k : stable I (with_regs (read_sysreg (E:=E) k)).
Proof using. apply stable_with_regs, stable_read_sysreg. Qed.

Lemma lr_unprotected i r : lr_names !! i = Some r → r ∉ protected_regs.
Proof using.
  intros Hr%list_elem_of_lookup_2.
  assert (Forall (λ k, k ∉ protected_regs) lr_names) as H
    by (apply (bool_decide_unpack _); by vm_compute).
  rewrite Forall_forall in H. auto.
Qed.

Lemma stable_inject_irq {E} irq hw : stable I (with_regs (inject_irq (E:=E) irq hw)).
Proof using HI.
  apply stable_with_regs. intros s. unfold inject_irq. pose proof (λ k, stable_read_sysreg (E:=E) k s).
  apply stable_bind; [done|intros elsr]. apply stable_bind; [done|intros vtr].
  apply stable_bind.
  - generalize (seqZ 0 (Z.land vtr 0xf + 1)) (@None Z). intros ids. induction ids as [|i ids IH]; intros free;
      simpl; unfold read_lr; solve_stable.
  - intros [[f|]|]; [|apply stable_panic|apply stable_ret]. unfold write_lr.
    destruct (lr_names !! Z.to_nat f) eqn:Hr; [|apply stable_hang].
    by apply stable_write_sysreg, (lr_unprotected (Z.to_nat f)).
Qed.

Lemma stable_deactivate {E} irq : stable I (with_regs (deactivate_irq (E:=E) irq)).
Proof using HI.
  apply stable_with_regs. intros s. unfold deactivate_irq.
  apply stable_bind; [apply stable_write_sysreg; unprotected|].
  intros _. destruct (_ <? _); [|apply stable_ret].
  apply stable_write_sysreg; unprotected.
Qed.

(** ** The state outside the registers *)

Lemma stable_with_bus {E A} (m : M D E A) : stable I (with_bus m).
Proof using HI. apply stable_zoom. intros s Hs. destruct (m (s_bus s)); try done; by apply rb_bus. Qed.

Lemma stable_set_guest {E} (g : sys → GeneralRegisters) : stable (E:=E) I (hmodify (λ s, set_guest (g s) s)).
Proof using HI. apply stable_modify. intros s. by apply rb_guest. Qed.

Lemma stable_set_region {E} (g : sys → VirtioBridge) : stable (E:=E) I (hmodify (λ s, set_region (g s) s)).
Proof using HI. apply stable_modify. intros s. by apply rb_region. Qed.

Lemma stable_set_virtio {E} (g : sys → btree (list Z)) :
  stable (E:=E) I (hmodify (λ s, set_virtio_irqs (g s) s)).
Proof using HI. apply stable_modify. intros s. by apply rb_virtio. Qed.

(** Writing fields of a CPU's data other than its id and zone. *)
Lemma stable_mod_cpu {E} i f :
  (∀ c, pc_id (f c) = pc_id c ∧ pc_zone (f c) = pc_zone c) → stable I (mod_cpu_data (E:=E) i f).
Proof using HI.
  intros Hf s Hs. unfold mod_cpu_data, get_cpu_data, hbind, hgets. simpl.
  destruct (s_cpus s !! i) as [c|] eqn:Hc; simpl; [|done]. destruct (Hf c). by eapply rb_cpu.
Qed.

Lemma stable_add_event {E} cpu ev : stable I (add_event (E:=E) cpu ev).
Proof using HI.
  intros s Hs. unfold add_event, hbind, hgets. simpl. destruct (s_events s) as [em|] eqn:Hem; simpl; [|done].
  destruct (EventManager_add_event em cpu ev) eqn:Ha; simpl; [|done]. by eapply rb_event.
Qed.

Lemma stable_send_event {E} cpu ipi ev : stable I (send_event (E:=E) cpu ipi ev).
Proof using HI.
  unfold send_event. apply stable_bind; [apply stable_add_event|]. intros _. apply stable_with_regs.
  intros s. unfold arch_send_event. destruct (_ <? _); [|apply stable_panic].
  apply stable_write_sysreg. unprotected.
Qed.

(** *** Reads *)

Lemma stable_get_cpu {E} i : stable I (get_cpu_data (E:=E) i).
Proof using. unfold get_cpu_data. solve_stable. Qed.

Lemma stable_read_zone {E} p : stable I (read_zone (E:=E) p).
Proof using. unfold read_zone. solve_stable. Qed.

Lemma stable_this_cpu_id {E} : stable I (this_cpu_id (E:=E)).
Proof using. unfold this_cpu_id. apply stable_bind; [apply with_read|intros; apply stable_ret]. Qed.

#[local] Hint Resolve stable_get_cpu stable_read_zone stable_this_cpu_id stable_with_bus stable_send_event
  with_read stable_set_guest stable_set_region stable_set_virtio stable_first_cpu stable_cpu_iter
  stable_inject_irq stable_deactivate : stable.

Lemma stable_this_cpu_data {E} : stable I (this_cpu_data (E:=E)).
Proof using. unfold this_cpu_data. solve_stable. Qed.
#[local] Hint Resolve stable_this_cpu_data : stable.

Lemma stable_this_zone {E} : stable I (this_zone (E:=E)).
Proof using. unfold this_zone. solve_stable. Qed.

Lemma stable_root_zone {E} : stable I (root_zone (E:=E)).
Proof using. unfold root_zone. solve_stable. Qed.
#[local] Hint Resolve stable_this_zone stable_root_zone : stable.

Lemma stable_is_root {E} : stable I (is_this_root_zone (E:=E)).
Proof using. unfold is_this_root_zone. solve_stable. Qed.

Lemma stable_this_zone_id {E} : stable I (this_zone_id (E:=E)).
Proof using. unfold this_zone_id. solve_stable. Qed.

Lemma stable_gicd_base {E} : stable I (host_gicd_base (E:=E)).
Proof using. unfold host_gicd_base, gic. solve_stable. Qed.

Lemma stable_gicr_base {E} i : stable I (host_gicr_base (E:=E) i).
Proof using. unfold host_gicr_base, gic. solve_stable. Qed.

Lemma stable_get_usr {E} i : stable I (get_usr (E:=E) i).
Proof using. unfold get_usr. solve_stable. Qed.
#[local] Hint Resolve stable_is_root stable_this_zone_id stable_gicd_base stable_gicr_base stable_get_usr
  stable_find_zone : stable.

Lemma stable_set_usr {E} i v : stable I (set_usr (E:=E) i v).
Proof using HI. apply stable_set_guest. Qed.

Lemma stable_skip {E} : stable I (arch_skip_instruction (E:=E)).
Proof using HI.
  unfold arch_skip_instruction. do 2 (apply stable_bind; [apply with_read|intros ?]).
  apply stable_bind; [apply stable_uadd|]. intros pc. apply with_write. unprotected.
Qed.
#[local] Hint Resolve stable_set_usr stable_skip : stable.

(** ** The virtio trampoline *)

Lemma stable_bridge {E} : stable I (bridge (E:=E)).
Proof using. unfold bridge. solve_stable. Qed.
#[local] Hint Resolve stable_bridge : stable.

Lemma stable_uadd32 {S E} (J : S → Prop) a b : stable (E:=E) J (uadd32 a b).
Proof using. unfold uadd32. solve_stable. Qed.
#[local] Hint Resolve stable_uadd32 : stable.

Lemma stable_cfg_at {E} f i : stable I (cfg_at (E:=E) f i).
Proof using. unfold cfg_at. solve_stable. Qed.
#[local] Hint Resolve stable_cfg_at : stable.

Lemma stable_wait_not_full {E} e : stable I (wait_not_full (E:=E) e).
Proof using HI.
  induction e as [|f e IH]; simpl; unfold is_req_list_full, env_step; solve_stable.
Qed.

Lemma stable_wait_cfg {E} i old e : stable I (wait_cfg (E:=E) i old e).
Proof using HI. induction e as [|f e IH]; simpl; unfold env_step; solve_stable. Qed.
#[local] Hint Resolve stable_wait_not_full stable_wait_cfg : stable.

Lemma stable_virtio_handler e mmio base : stable I (mmio_virtio_handler e mmio base).
Proof using HI.
  unfold mmio_virtio_handler, push_req, need_wakeup. solve_stable.
Qed.

Lemma stable_irq_slice {S E} (J : S → Prop) l : stable (E:=E) J (irq_slice l).
Proof using. unfold irq_slice. solve_stable. Qed.
#[local] Hint Resolve stable_irq_slice : stable.

Lemma stable_virtio_irq {E} : stable I (handle_virtio_irq (E:=E)).
Proof using HI.
  unfold handle_virtio_irq. apply stable_bind; [solve_stable|intros cpu].
  apply stable_bind; [solve_stable|intros m]. apply stable_bind; [solve_stable|intros il].
  apply stable_bind; [solve_stable|intros irqs]. apply stable_bind; [|intros _; apply stable_set_virtio].
  induction irqs as [|i irqs IH]; simpl; solve_stable.
Qed.

Lemma stable_inject_result {E} : stable I (inject_result (E:=E)).
Proof using HI. unfold inject_result. solve_stable. Qed.

Lemma stable_inject_results {E} fuel : stable I (inject_results (E:=E) fuel).
Proof using HI.
  pose proof (stable_inject_result (E:=E)). induction fuel as [|k IH]; simpl; unfold is_res_list_empty; solve_stable.
Qed.

(** ** The virtual interrupt controller *)

Lemma stable_access_mask {E} z i b : stable I (access_mask (E:=E) z i b).
Proof using.
  unfold access_mask. apply stable_bind; [apply stable_umul|]. intros first.
  generalize (seqZ 0 (32 / b)). intros l. generalize 0. induction l as [|irq l IH]; intros mask; simpl;
    [apply stable_ret|].
  unfold irq_in_zone, irq_word. solve_stable.
Qed.
#[local] Hint Resolve stable_access_mask : stable.

Lemma stable_dist_handler mmio a : stable I (vgicv3_dist_handler mmio a).
Proof using HI.
  unfold vgicv3_dist_handler, restrict_bitmask_access, vgicv3_handle_irq_ops, vgicv3_dist_misc_access,
    irq_in_zone, irq_word. solve_stable.
Qed.

Lemma stable_redist_handler mmio cpu : stable I (vgicv3_redist_handler mmio cpu).
Proof using HI. unfold vgicv3_redist_handler. solve_stable. Qed.

Lemma stable_irqchip_reset {E} z : stable I (arch_irqchip_reset (E:=E) z).
Proof using HI. unfold arch_irqchip_reset. solve_stable. Qed.

(** ** Guest exits that touch no zone *)

#[local] Hint Resolve stable_virtio_handler stable_dist_handler stable_redist_handler : stable.

Lemma stable_mmio_access e mmio : stable I (mmio_handle_access e mmio).
Proof using HI.
  unfold mmio_handle_access, find_mmio_region.
  apply stable_bind; [solve_stable|intros p]. apply stable_bind; [solve_stable|intros z].
  apply stable_bind.
  { induction (z_mmio z) as [|c l IH]; simpl; unfold contains_region; solve_stable. }
  intros [[[r h] a]|]; [|apply stable_err]. unfold call_handler. solve_stable.
Qed.

Lemma stable_try {E A} (m : M sys HvError A) : stable I m → stable (E:=E) I (try_hv m).
Proof using. intros Hm s Hs. specialize (Hm s Hs). unfold try_hv. by destruct (m s). Qed.

Lemma stable_dabt e : stable I (handle_dabt e).
Proof using HI.
  unfold handle_dabt, sign_extend. pose proof (λ m, stable_try (E:=leave) _ (stable_mmio_access e m)).
  solve_stable.
Qed.

Lemma stable_sysreg : stable I handle_sysreg.
Proof using HI.
  unfold handle_sysreg. solve_stable. apply with_write. unprotected.
Qed.

Lemma stable_cpu_on {E} : stable I (psci_emulate_cpu_on (E:=E)).
Proof using HI.
  pose proof (λ i e, stable_mod_cpu (E:=E) i (set_cpu_on_entry e) (λ c, conj eq_refl eq_refl)).
  pose proof (λ i b, stable_mod_cpu (E:=E) i (set_psci_on b) (λ c, conj eq_refl eq_refl)).
  unfold psci_emulate_cpu_on. solve_stable.
Qed.

Lemma stable_virtio_init a : stable I (hv_virtio_init a).
Proof using HI.
  unfold hv_virtio_init, set_base_addr. solve_stable. apply stable_modify. intros s. by apply rb_bridge.
Qed.

Lemma stable_virtio_inject : stable I hv_virtio_inject_irq.
Proof using HI. unfold hv_virtio_inject_irq. pose proof (stable_inject_results (E:=HvError)). solve_stable. Qed.

Lemma stable_for_each {E A} (g : A → M sys E unit) l : (∀ a, a ∈ l → stable I (g a)) → stable I (for_each g l).
Proof using.
  intros Hg. induction l as [|x l IH]; simpl; [apply stable_ret|].
  apply stable_bind; [apply Hg; by left|]. intros _. apply IH. intros a Ha. apply Hg. by right.
Qed.

(** [ArchCpu::reset] writes no protected register. *)
Lemma stable_cpu_reset {E} entry dtb : stable I (cpu_reset (E:=E) entry dtb).
Proof using HI.
  assert (∀ l v, Forall (λ k, k ∉ protected_regs) l →
    stable (E:=E) I (for_each (λ r, with_regs (write_sysreg r v)) l)) as Hw.
  { intros l v Hl. rewrite Forall_forall in Hl. apply stable_for_each. intros k Hk. by apply with_write, Hl. }
  unfold cpu_reset, reset_vm_regs, activate_vmm, clear_guest, get_parange, is_s2_pt_level3, get_parange_bits.
  repeat (apply stable_bind; [|intros ?]); try apply Hw; try (apply with_write); try unprotected;
    try (apply stable_modify; intros s; by apply rb_guest); solve_stable.
Qed.

End robust.

(** ** Steps without an error *)

Section noerr.
  Context {W PT D : Type} {G : GenericPageTable W PT} {E : Type}.
  Abbreviation sys := (sys W PT D).

Lemma noerr_this_cpu_id : noerr (S:=sys) (E:=E) this_cpu_id.
Proof. unfold this_cpu_id, with_regs, read_sysreg. solve_noerr. Qed.

Lemma noerr_get_cpu i : noerr (S:=sys) (E:=E) (get_cpu_data i).
Proof. unfold get_cpu_data. solve_noerr. Qed.

Lemma noerr_this_cpu_data : noerr (S:=sys) (E:=E) this_cpu_data.
Proof. unfold this_cpu_data. pose proof noerr_this_cpu_id. pose proof noerr_get_cpu. solve_noerr. Qed.

Lemma noerr_mod_cpu i f : noerr (S:=sys) (E:=E) (mod_cpu_data i f).
Proof. unfold mod_cpu_data. pose proof noerr_get_cpu. solve_noerr. Qed.

Lemma noerr_read_zone p : noerr (S:=sys) (E:=E) (read_zone p).
Proof. unfold read_zone. solve_noerr. Qed.

Lemma noerr_for_each {A} (g : A → M sys E unit) l : (∀ a, noerr (g a)) → noerr (for_each g l).
Proof. intros Hg. induction l; simpl; solve_noerr. Qed.

Lemma noerr_cpu_reset entry dtb : noerr (S:=sys) (E:=E) (cpu_reset entry dtb).
Proof.
  unfold cpu_reset, reset_vm_regs, activate_vmm, clear_guest, set_usr, get_parange, is_s2_pt_level3, get_parange_bits,
    with_regs, write_sysreg.
  solve_noerr; apply noerr_for_each; solve_noerr.
Qed.

End noerr.

#[export] Hint Resolve noerr_this_cpu_id noerr_get_cpu noerr_this_cpu_data noerr_mod_cpu noerr_read_zone
  noerr_cpu_reset : stable.

#[export] Hint Resolve stable_get_cpu stable_read_zone stable_this_cpu_id stable_with_bus stable_send_event
  with_read stable_set_guest stable_set_region stable_set_virtio stable_first_cpu stable_cpu_iter
  stable_inject_irq stable_deactivate stable_this_cpu_data stable_this_zone stable_root_zone stable_is_root
  stable_this_zone_id stable_get_usr stable_find_zone stable_set_usr stable_skip stable_virtio_irq
  stable_irqchip_reset stable_dabt stable_sysreg stable_cpu_on stable_virtio_init stable_virtio_inject
  stable_cpu_reset : stable.
