(* ===== verification/ZoneInv.v ===== *)
(** * The invariant of the running hypervisor

    [zones_ok] is what holds of the global state between any two guest exits: the zone
    list, the heap of zone objects and the CPUs agree, every zone is exactly what its
    configuration says, and the address spaces share the frame pool without overlap or
    loss. [cpu_inv] adds what is known while CPU [i] runs a handler: its own table
    register and those of the other CPUs point to a table that is theirs, or the CPU has
    been told to shut down and has not looked yet. *)

From S2P Require Import Prelude PhysMem HvError Addr Frame Region Pte PtIface Paging PagingWf.
From S2P Require Import PagingSpec PagingLoop PtInstance Stable FramePool BTreeMap MemorySet CpuSet Mmio.
From S2P Require Import Config Sys ZoneOps Gic Event Virtio Vgic Hypercall Trap SysFrame Robust Spaces.
From S2P Require Import ZoneProps MemoryProps RuntimeProps ZoneLife.

Section inv.
  Context {T : Type} {HB : BitAlloc T} {HL : BitAllocLaws T}.
  Context {P : GenericPTE} {PL : GenericPTELaws P} {D : Type} {B : Bus D}.
  Context (n : Z) (L : nat) (HL34 : L = 3%nat ∨ L = 4%nat) (pool : Z).
  Abbreviation sys := (sys (world T) HvPageTable D).
  Abbreviation zone := (Zone HvPageTable).
  Implicit Types (s : sys) (z : zone).

#[local] Instance inv_laws : GenericPageTableLaws (world T) HvPageTable := hv_gpt_laws n L HL34.

(** The configurations the root zone may pass to the hypervisor: their regions can be
    mapped, and interrupt numbers are not negative. *)
Definition config_ok (c : HvZoneConfig) : Prop :=
  (∀ r, r ∈ config_regions c → mappable r) ∧ (∀ i, i ∈ config_irqs c → 0 ≤ i).

(** The configurations that occur, and the physical address of the page CPUs park in. *)
Context (C : HvZoneConfig → Prop) (park : Z).

(** What [ArchCpu::idle] maps. *)
Definition park_region (pa : Z) : MemoryRegion :=
  new_with_offset_mapper 0 pa PAGE_SIZE (Z.lor (Z.lor READ WRITE) IO).

(** ** Definitions *)

(** [z] is the zone that [c] describes. *)
Record zone_of (c : HvZoneConfig) z : Prop := {
  zof_id : z_id z = zone_id c;
  zof_set : cpuset_wf (z_cpu_set z);
  zof_cpus i : i ∈ cpus_of (z_cpu_set z) ↔ i ∈ cpus c;
  zof_irqs i : 0 ≤ i < 1024 → irq_bit (z_irq_bitmap z) i = bool_decide (i ∈ config_irqs c);
  zof_regions : bt_map (ms_regions (z_gpm z)) = foldl add_region ∅ (config_regions c)
}.

(** The address spaces of the state. *)
Definition spaces s : list (MemorySet HvPageTable) :=
  (z_gpm ∘ snd <$> map_to_list (s_heap s)) ++ option_list (s_parking s).

(** The invariant of the statics; [x] are address spaces still under construction. *)
Record zones_ok (x : list (MemorySet HvPageTable)) s : Prop := {
  zo_nodup : NoDup (s_zone_list s);
  zo_listed p : p ∈ s_zone_list s ↔ is_Some (s_heap s !! p);
  zo_ids p q z z' :
    s_heap s !! p = Some z → s_heap s !! q = Some z' → z_id z = z_id z' → p = q;
  zo_zone p z : s_heap s !! p = Some z → ∃ c, C c ∧ zone_of c z;
  zo_cpu i c p :
    s_cpus s !! i = Some c → pc_zone c = Some p →
    ∃ z, s_heap s !! p = Some z ∧ i ∈ cpus_of (z_cpu_set z);
  zo_cpu_id i c : s_cpus s !! i = Some c → pc_id c = i ∧ 0 ≤ i < MAX_CPU_NUM;
  zo_events : ∃ em, s_events s = Some em ∧ length em = Z.to_nat MAX_CPU_NUM;
  zo_par bits : PARANGE_TABLE !! Z.to_nat (min_parange (s_par s)) = Some bits →
                (if bits <? 44 then 3%nat else 4%nat) = L;
  zo_spaces : spaces_ok n L HL34 pool (s_w s) (x ++ spaces s);
  zo_parking ms : s_parking s = Some ms → bt_map (ms_regions ms) = {[0 := park_region park]}
}.

(** CPU [j] has been told to shut down and has not taken the event yet. *)
Definition pending s (j : Z) : Prop :=
  ∃ em, s_events s = Some em ∧ IPI_EVENT_SHUTDOWN ∈ queue em j.

(** The table at [t] may be used by CPU [j]: it is that of a zone the CPU belongs to, or
    the one CPUs park in; or the CPU is about to shut down. *)
Definition serves s (j t : Z) : Prop :=
  (∃ p z, s_heap s !! p = Some z ∧ j ∈ cpus_of (z_cpu_set z) ∧
          t = gpt_root_paddr (W:=world T) (ms_pt (z_gpm z))) ∨
  (∃ ms, s_parking s = Some ms ∧ t = gpt_root_paddr (W:=world T) (ms_pt ms)) ∨
  pending s j.

Definition table_reg (r : sysregs) : option Z := sr_val r !! "VTTBR_EL2.BADDR"%string.

(** While CPU [i] is in the hypervisor; [others] are the tables of the other CPUs. When
    [own] is false the CPU's own table is gone. *)
Record cpu_inv (others : Z → option Z) (i : Z) (own : bool) (x : list (MemorySet HvPageTable)) s : Prop := {
  ci_zones : zones_ok x s;
  ci_others j t : 0 ≤ j → others j = Some t → j ≠ i → serves s j t;
  ci_own t : own = true → table_reg (s_regs s) = Some t → serves s i t;
  ci_id : mpidr_to_cpuid (default 0 (sr_val (s_regs s) !! "MPIDR_EL1"%string)) = i
}.

(** ** Changes that do not matter *)

(** The part of the state the invariant speaks of. *)
Definition core s :=
  (s_w s, s_heap s, s_zone_list s, s_cpus s, s_events s, s_par s, s_parking s).

Lemma zones_ok_core x s s' : core s' = core s → zones_ok x s → zones_ok x s'.
Proof.
  destruct s, s'. unfold core. simpl. intros [= -> -> -> -> -> -> ->] [H1 H2 H3 H4 H5 H6 H7 H8 H9 H10].
  by split.
Qed.

Lemma serves_core s s' j t : core s' = core s → serves s j t → serves s' j t.
Proof. destruct s, s'. unfold core. simpl. by intros [= -> -> -> -> -> -> ->]. Qed.

Lemma cpu_inv_core others i own x s s' :
  core s' = core s → s_regs s' = s_regs s → cpu_inv others i own x s → cpu_inv others i own x s'.
Proof.
  intros Hc Hr [H1 H2 H3 H4]. split.
  - by apply (zones_ok_core x s).
  - intros j t H0 Hj Hne. apply (serves_core s); [done|auto].
  - intros t Ho. rewrite Hr. intros Ht. apply (serves_core s); [done|auto].
  - by rewrite Hr.
Qed.

Lemma add_event_pending em em' cpu ev j s :
  s_events s = Some em → EventManager_add_event em cpu ev = Some em' → pending s j →
  pending (set_events (Some em') s) j.
Proof.
  intros Hem Ha (em1 & Hem1 & Hin). rewrite Hem in Hem1. injection Hem1 as <-. exists em'.
  split; [done|]. apply add_event_queue in Ha as (_ & Hq & Hne).
  destruct (decide (Z.to_nat j = Z.to_nat cpu)) as [He|He].
  - unfold queue in *. rewrite He in Hin |- *. rewrite Hq. apply elem_of_app. by left.
  - by rewrite Hne.
Qed.

Lemma serves_event em em' cpu ev j t s :
  s_events s = Some em → EventManager_add_event em cpu ev = Some em' → serves s j t →
  serves (set_events (Some em') s) j t.
Proof.
  intros Hem Ha [H|[H|H]]; [by left|by right; left|right; right]. by eapply add_event_pending.
Qed.

Lemma zones_ok_event x em em' cpu ev s :
  s_events s = Some em → EventManager_add_event em cpu ev = Some em' → zones_ok x s →
  zones_ok x (set_events (Some em') s).
Proof.
  intros Hem Ha [H1 H2 H3 H4 H5 H6 H7 H8 H9 H10]. split; try done. exists em'. split; [done|].
  destruct H7 as (em1 & Hem1 & Hl). apply add_event_queue in Ha as (-> & _). congruence.
Qed.

Lemma zones_ok_cpu x i c c' s :
  s_cpus s !! i = Some c → pc_id c' = pc_id c → (pc_zone c' = pc_zone c ∨ pc_zone c' = None) →
  zones_ok x s → zones_ok x (set_cpus (<[i := c']> (s_cpus s)) s).
Proof.
  intros Hc Hid Hz [H1 H2 H3 H4 H5 H6 H7 H8 H9 H10]. split; try done; simpl.
  - intros j c1 p [[<- <-]|[_ Hj]]%lookup_insert_Some Hp; [|by eapply H5].
    destruct Hz as [Hz|Hz]; [|congruence]. eapply H5; [done|congruence].
  - intros j c1 [[<- <-]|[_ Hj]]%lookup_insert_Some; [|by eapply H6].
    rewrite Hid. by eapply H6.
Qed.

Lemma cpu_inv_robust others i own x : robust (cpu_inv others i own x).
Proof.
  split.
  - intros d s. by apply cpu_inv_core.
  - intros g s. by apply cpu_inv_core.
  - intros r s. by apply cpu_inv_core.
  - intros b s. by apply cpu_inv_core.
  - intros v s. by apply cpu_inv_core.
  - intros k v s Hk [H1 H2 H3 H4]. unfold protected_regs in Hk.
    rewrite !not_elem_of_cons in Hk. destruct Hk as (Hk1 & Hk2 & _).
    split.
    + by apply (zones_ok_core x s).
    + intros j t H0 Hj Hne. apply (serves_core s); [done|auto].
    + intros t Ho. unfold table_reg. simpl. rewrite lookup_insert_ne by done. intros Ht.
      apply (serves_core s); [done|auto].
    + simpl. by rewrite lookup_insert_ne.
  - intros cpu ev em em' s Hem Ha [H1 H2 H3 H4]. split; try done.
    + eapply zones_ok_event; eauto.
    + intros j t H0 Hj Hne. eapply serves_event; eauto.
    + intros t Ho Ht. eapply serves_event; eauto.
  - intros j c c' s Hc Hid Hz [H1 H2 H3 H4]. split; try done.
    eapply zones_ok_cpu; eauto.
Qed.

(** ** Building a zone *)

Lemma cpu_inv_w others i own x x' w' s :
  cpu_inv others i own x s → spaces_ok n L HL34 pool w' (x' ++ spaces s) →
  cpu_inv others i own x' (set_w w' s).
Proof. intros [[H1 H2 H3 H4 H5 H6 H7 H8 H9 H10] Ho Hw Hi] Hsp. by split. Qed.

Lemma spaces_pt_init w z cs l :
  spaces_ok n L HL34 pool w (z_gpm z :: l) → (∀ c, c ∈ cs → mappable c) →
  wlp (pt_init z cs)
    (λ z' w', spaces_ok n L HL34 pool w' (z_gpm z' :: l) ∧ same_zone z z' ∧
       bt_map (ms_regions (z_gpm z')) = foldl add_region (bt_map (ms_regions (z_gpm z))) cs) w.
Proof using PL.
  revert z w. induction cs as [|c cs IH]; intros z w Hok Hcs; [done|]. simpl. apply wlp_bind.
  apply (wlp_mono _ (λ z' w', spaces_ok n L HL34 pool w' (z_gpm z' :: l) ∧ same_zone z z' ∧
    bt_map (ms_regions (z_gpm z')) = add_region (bt_map (ms_regions (z_gpm z))) c)).
  - assert (mappable c) as Hc by (apply Hcs; by left). unfold mappable in Hc.
    unfold pt_init_one, add_region. fold (is_memory c).
    destruct (is_memory c) eqn:Hm; simpl.
    + apply wlp_bind. fold (region_of c).
      pose proof (spaces_insert n L HL34 pool w (z_gpm z) l (region_of c) Hok (Hc eq_refl)) as Hins.
      unfold with_gpm, wlp in *.
      destruct (ms_insert (region_of c) (w, z_gpm z)) as [[] [w' g]| | |]; try done.
      destruct Hins as (Hok' & Hmap). simpl. split; [done|]. split; [done|].
      change (size (region_of c)) with (cr_size c) in Hmap.
      change (ms_map (w', g)) with (bt_map (ms_regions g)) in Hmap. rewrite Hmap.
      by destruct (cr_size c =? 0).
    + destruct (_ =? MEM_TYPE_VIRTIO); [|done].
      pose proof (register_zone (E:=HvError) z (physical_start c) (cr_size c) h_virtio (physical_start c) w) as Hr.
      unfold wlp, wpp in *. destruct (mmio_region_register _ _ _ _ _ _) as [z' w'| | |]; try done.
      by destruct Hr as (-> & Hs & ->).
  - intros z1 w1 (Hok1 & Hs1 & Hm1).
    eapply wlp_mono; [apply IH; [done|intros; apply Hcs; by right]|].
    intros z2 w2 (Hok2 & Hs2 & Hm2). split; [done|]. split; [by eapply same_zone_trans|]. by rewrite Hm2, Hm1.
Qed.

(** *** A new address space *)

Lemma new_space_keeps others i own s :
  cpu_inv others i own [] s →
  wpp new_s2_memory_set
    (λ ms s', ∃ w', s' = set_w w' s ∧ cpu_inv others i own [ms] s' ∧ bt_map (ms_regions ms) = ∅) s.
Proof using PL.
  intros Hs. unfold new_s2_memory_set, is_s2_pt_level3, get_parange_bits.
  do 2 apply wpp_bind. apply wpp_bind, wpp_gets, wpp_bind, wpp_assert. intros _.
  destruct (PARANGE_TABLE !! _) as [bits|] eqn:Hbits; [|apply wpp_panic]. apply wpp_ret, wpp_ret.
  pose proof (zo_par _ _ (ci_zones _ _ _ _ _ Hs) bits Hbits) as HLv.
  replace (if bits <? 44 then 3 else 4) with (Z.of_nat L) by (rewrite <- HLv; by destruct (bits <? 44)).
  pose proof (spaces_new n L HL34 pool (s_w s) (spaces s) (zo_spaces _ _ (ci_zones _ _ _ _ _ Hs))) as Hn.
  unfold with_w, zoom, wpp in *. destruct (ms_new (Z.of_nat L) (s_w s)) as [ms w'| | |]; try done.
  destruct Hn as [Hsp Hm]. exists w'. split; [done|]. split; [|exact Hm]. by eapply cpu_inv_w.
Qed.

(** No zone of the list has the id. *)
Definition no_id zid s : Prop := ∀ q, q ∈ s_zone_list s → ¬ has_id s zid q.

(** The new zone is listed, and its address space is no longer under construction. *)
Lemma publish_keeps others i own c z ipa entry cpus' s :
  C c → zone_of c z → no_id (zone_id c) s → cpu_inv others i own [z_gpm z] s →
  let p := fresh_ptr (s_heap s) in
  assigned_all p (default 0 (head (cpus_of (z_cpu_set z)))) entry ipa (cpus_of (z_cpu_set z)) (s_cpus s) cpus' →
  cpu_inv others i own []
    (set_zone_list (s_zone_list s ++ [p]) (set_cpus cpus' (set_heap (<[p := z]> (s_heap s)) s))).
Proof.
  intros HCc Hz Hno [[H1 H2 H3 H4 H5 H6 H7 H8 H9 H10] Ho Hw Hi] p Hall.
  assert (s_heap s !! p = None) as Hfresh by apply fresh_ptr_free.
  assert (∀ q z', s_heap s !! q = Some z' → z_id z' ≠ z_id z) as Hid.
  { intros q z' Hq Heq. apply (Hno q); [apply H2; by eexists|]. exists z'. split; [done|].
    by rewrite Heq, (zof_id _ _ Hz). }
  assert (∀ j t, serves s j t → serves (set_zone_list (s_zone_list s ++ [p])
            (set_cpus cpus' (set_heap (<[p := z]> (s_heap s)) s))) j t) as Hsv.
  { intros j t [(q & z' & Hq & Hr)|[H|H]]; [|by right; left|by right; right]. left. exists q, z'. simpl.
    rewrite lookup_insert_ne by congruence. done. }
  split; [split; simpl; try done|auto|auto|done].
  - apply NoDup_app. split; [done|]. split; [|apply NoDup_singleton].
    intros q Hq ->%list_elem_of_singleton. apply H2 in Hq as [z' Hq]. congruence.
  - intros q. rewrite elem_of_app, list_elem_of_singleton, H2. destruct (decide (q = p)) as [->|Hne].
    + rewrite lookup_insert_eq, Hfresh. split; [by intros _; eexists|by right].
    + rewrite lookup_insert_ne by done. tauto.
  - intros q q' z1 z2 [[<- <-]|[Hn1 Hq1]]%lookup_insert_Some [[<- <-]|[Hn2 Hq2]]%lookup_insert_Some Heq;
      [done|by destruct (Hid _ _ Hq2)|by destruct (Hid _ _ Hq1)|by eapply H3].
  - intros q z' [[<- <-]|[_ Hq]]%lookup_insert_Some; [by exists c|by eapply H4].
  - intros j cd q Hj Hq. rewrite Hall in Hj. destruct (decide (j ∈ cpus_of (z_cpu_set z))) as [Hin|Hin].
    + apply fmap_Some in Hj as (c0 & Hc0 & ->). simpl in Hq. injection Hq as <-. exists z.
      by rewrite lookup_insert_eq.
    + destruct (H5 _ _ _ Hj Hq) as (z' & Hz' & Hin'). exists z'. rewrite lookup_insert_ne by congruence. done.
  - intros j cd Hj. rewrite Hall in Hj. destruct (decide (j ∈ cpus_of (z_cpu_set z))).
    + apply fmap_Some in Hj as (c0 & Hc0 & ->). simpl. by eapply H6.
    + by eapply H6.
  - unfold spaces in *. simpl. rewrite (map_to_list_insert _ _ _ Hfresh). exact H9.
Qed.

(** *** [zone_create] *)

Section create.
  Context (others : Z → option Z) (i : Z) (own : bool) (c : HvZoneConfig).

(** [z] is being built for [c]. *)
Definition building z s : Prop := cpu_inv others i own [z_gpm z] s ∧ no_id (zone_id c) s.

Definition blank z : Prop :=
  z_id z = zone_id c ∧ z_cpu_set z = mkCpuSet MAX_CPU_NUM 0 ∧ z_irq_bitmap z = replicate 32 0.

Lemma zone_new_keeps :
  triple (λ s, cpu_inv others i own [] s ∧ no_id (zone_id c) s) (zone_new (zone_id c))
    (λ z s, building z s ∧ blank z ∧ bt_map (ms_regions (z_gpm z)) = ∅) (λ _ _, False).
Proof using PL.
  apply triple_wpp. intros s [Hs Hno]. apply wpp_bind. eapply wpp_mono; [by apply new_space_keeps|].
  intros ms s' (w' & -> & Hs' & Hm). by apply wpp_ret.
Qed.

Lemma pt_init_keeps {E} z regions :
  (∀ r, r ∈ regions → mappable r) →
  triple (E:=E) (building z) (hunwrap (with_w (pt_init z regions)))
    (λ z' s, building z' s ∧ same_zone z z' ∧
       bt_map (ms_regions (z_gpm z')) = foldl add_region (bt_map (ms_regions (z_gpm z))) regions)
    (λ _ _, False).
Proof using PL.
  intros Hr. apply triple_unwrap. intros s [Hs Hno].
  pose proof (spaces_pt_init (s_w s) z regions (spaces s) (zo_spaces _ _ (ci_zones _ _ _ _ _ Hs)) Hr) as Hp.
  unfold with_w, zoom, wlp in *. destruct (pt_init z regions (s_w s)) as [z' w'| | |]; try done.
  destruct Hp as (Hsp & Hsame & Hm). split_and!; [split; [by eapply cpu_inv_w|done]|done|done].
Qed.

Lemma create_keeps pia :
  C c → config_ok c →
  triple (cpu_inv others i own []) (zone_create pia c)
    (λ p s, cpu_inv others i own [] s) (λ _ s, cpu_inv others i own [] s).
Proof using PL.
  intros HCc [Hregs Hirqs]. unfold zone_create.
  eapply (triple_bind _ (λ o s, cpu_inv others i own [] s ∧ (o = None → no_id (zone_id c) s))).
  { apply triple_wpp. intros s Hs. eapply wpp_mono; [apply find_zone_spec|]. intros o s' [-> Ho].
    split; [done|]. intros ->. exact Ho. }
  intros [q|]; [by intros s [Hs _]|].
  eapply triple_bind; [eapply triple_conseq; [apply zone_new_keeps| |intros z s H; exact H|done]|].
  { intros s [Hs Hno]. auto. }
  intros z0. eapply (triple_bind _ (λ rs s, building z0 s ∧
    (blank z0 ∧ bt_map (ms_regions (z_gpm z0)) = ∅) ∧ rs = config_regions c)).
  { apply triple_wpp. intros s (? & ? & ?). eapply wpp_mono; [apply memory_regions_take|].
    by intros rs s' (-> & ->). }
  intros rs. apply triple_pure. intros [[Hbl0 Hm0] ->].
  eapply triple_bind; [eapply triple_conseq; [by apply pt_init_keeps|done|intros z s H; exact H|done]|].
  intros z1. apply triple_wpp. intros s ((Hinv & Hno) & (Hid1 & Hcs1 & Hirq1) & Hm1).
  destruct Hbl0 as (Hid0 & Hcs0 & Hirq0). rewrite Hm0 in Hm1.
  apply wpp_bind. eapply wpp_mono; [apply mmio_init_zone|]. intros z2 s2 (-> & (Hid2 & Hcs2 & Hirq2) & Hg2).
  apply wpp_bind. eapply wpp_mono; [apply interrupts_take|]. intros irqs s3 (-> & ->). fold (config_irqs c).
  assert (bitmap_wf (replicate 32 0)) as Hbw.
  { split; [done|]. intros w [-> _]%elem_of_replicate. done. }
  apply wpp_bind. eapply wpp_mono.
  { apply irq_bitmap_init_spec; [|done]. rewrite Hirq2, Hirq1, Hirq0. exact Hbw. }
  intros z3 s3 (-> & (Hid3 & Hcs3 & Hg3) & Hwf3 & Hbits3).
  apply wpp_bind. eapply wpp_mono.
  { apply set_cpus_of_spec; [|intros k; rewrite cpus_elem; lia]. rewrite Hcs3, Hcs2, Hcs1, Hcs0. split; split; done. }
  intros z4 s4 (-> & Hid4 & Hg4 & Hirq4 & Hwf4 & Hel4).
  assert (zone_of c z4) as Hz4.
  { split.
    - congruence.
    - done.
    - intros k. rewrite Hel4, Hcs3, Hcs2, Hcs1, Hcs0.
      change (cpus_of (mkCpuSet MAX_CPU_NUM 0)) with (@nil Z). rewrite elem_of_nil. tauto.
    - intros k Hk. rewrite Hirq4, Hbits3, Hirq2, Hirq1, Hirq0 by done.
      unfold irq_bit. rewrite lookup_replicate_2; [by rewrite Z.bits_0|]. destruct (irq_index_lt k Hk). lia.
    - by rewrite Hg4, Hg3, Hg2. }
  eapply wpp_mono; [by apply publish_exact|]. intros p s' (ipa & cpus' & _ & -> & Hall & ->).
  eapply publish_keeps; try done. by rewrite Hg4, Hg3, Hg2.
Qed.

End create.

(** ** Taking a zone down *)

(** The CPUs of [K] have been told to shut down. *)
Definition told (K : list Z) s : Prop := ∀ k, k ∈ K → pending s k.

Lemma told_robust K : robust (told K).
Proof.
  split; try done. intros cpu ev em em' s Hem Ha H k Hk. eapply add_event_pending; eauto.
Qed.

Lemma robust_and (I J : sys → Prop) : robust I → robust J → robust (λ s, I s ∧ J s).
Proof.
  intros [] []. split; naive_solver.
Qed.

Section down.
  Context (others : Z → option Z) (i : Z) (own : bool).
  Abbreviation inv := (cpu_inv others i own []).

Definition inv_told (K : list Z) s : Prop := inv s ∧ told K s.

Lemma inv_told_robust K : robust (inv_told K).
Proof. apply robust_and; [apply cpu_inv_robust|apply told_robust]. Qed.

Lemma unzone_keeps {E} K j : stable (inv_told K) (mod_cpu_data (E:=E) j (set_pc_zone None)).
Proof.
  intros s [[Hz Ho Hw Hi] Ht]. unfold mod_cpu_data, get_cpu_data, hbind, hgets. simpl.
  destruct (s_cpus s !! j) as [c|] eqn:Hc; simpl; [|done]. split; [|exact Ht]. split; try done.
  eapply zones_ok_cpu; eauto.
Qed.

(** Writing to a CPU's data shows that the CPU is there. *)
Lemma mod_cpu_there {E} j f :
  triple (E:=E) (λ _, True) (mod_cpu_data j f) (λ _ s, is_Some (s_cpus s !! j)) (λ _ _, False).
Proof.
  intros s _. unfold mod_cpu_data, get_cpu_data, hbind, hgets. simpl.
  destruct (s_cpus s !! j) as [c|] eqn:Hc; simpl; [|done]. by rewrite lookup_insert_eq; eexists.
Qed.

Lemma send_shutdown {E} K j :
  triple (E:=E) (λ s, inv_told K s ∧ is_Some (s_cpus s !! j)) (send_event j SGI_IPI_ID IPI_EVENT_SHUTDOWN)
    (λ _ s, inv_told (j :: K) s) (λ _ _, False).
Proof.
  apply triple_wpp. intros s [[Hinv Ht] [c Hc]].
  pose proof (stable_send_event _ (inv_told_robust K) (E:=E) j SGI_IPI_ID IPI_EVENT_SHUTDOWN s (conj Hinv Ht)) as Hst.
  pose proof (send_event_spec (E:=E) j SGI_IPI_ID IPI_EVENT_SHUTDOWN s) as Hs.
  unfold wpp in *. destruct (send_event j SGI_IPI_ID IPI_EVENT_SHUTDOWN s) as [[] s'| | |]; try done.
  destruct Hs as (em & Hem & Hs'). destruct Hst as [Hinv' Ht']. split; [done|].
  intros k [->|Hk]%elem_of_cons; [|by apply Ht'].
  exists (added em j IPI_EVENT_SHUTDOWN). split; [by rewrite Hs'|].
  destruct (zo_cpu_id _ _ (ci_zones _ _ _ _ _ Hinv) _ _ Hc) as [_ Hj].
  destruct (zo_events _ _ (ci_zones _ _ _ _ _ Hinv)) as (em1 & Hem1 & Hl).
  assert (em1 = em) as -> by congruence.
  destruct (added_queue em j IPI_EVENT_SHUTDOWN j) as [_ ->]; [lia..|].
  rewrite decide_True by done. apply elem_of_app. right. by left.
Qed.

(** Each of the two loops that stop CPUs. *)
Lemma told_loop {E} (g : Z → M sys E unit) ids K :
  (∀ j K, triple (inv_told K) (g j) (λ _, inv_told (j :: K)) (λ _ _, False)) →
  triple (inv_told K) (for_each g ids) (λ _ s, inv_told (ids ++ K) s) (λ _ _, False).
Proof.
  intros Hg. revert K. induction ids as [|j ids IH]; intros K; simpl; [by apply triple_ret|].
  eapply triple_bind; [apply Hg|]. intros []. eapply triple_conseq; [apply (IH (j :: K))|done| |done].
  intros _ s [Hs Ht]. split; [done|]. intros k Hk. apply Ht. revert Hk. rewrite !elem_of_cons, !elem_of_app, elem_of_cons. tauto.
Qed.

(** A step that keeps the invariant and shows that CPU [j] is there. *)
Lemma inv_there {E} K j f :
  stable (inv_told K) (mod_cpu_data (E:=E) j f) →
  triple (E:=E) (inv_told K) (mod_cpu_data j f) (λ _ s, inv_told K s ∧ is_Some (s_cpus s !! j)) (λ _ _, False).
Proof.
  intros Hst s Hs. specialize (Hst s Hs). pose proof (mod_cpu_there (E:=E) j f s I) as Hth.
  by destruct (mod_cpu_data j f s).
Qed.

Lemma release_keeps {E} K j :
  triple (E:=E) (inv_told K) (release_cpu j) (λ _ s, inv_told (j :: K) s) (λ _ _, False).
Proof.
  set (Q := λ (_ : unit) s, inv_told K s ∧ is_Some (s_cpus s !! j)).
  eapply (triple_bind _ Q); [apply inv_there, unzone_keeps|]. intros u.
  eapply (triple_bind _ Q); [|intros v; apply send_shutdown].
  eapply triple_conseq; [apply inv_there| |intros v s H; exact H|done].
  - by apply stable_mod_cpu; [apply inv_told_robust|].
  - by intros s [H _].
Qed.

Lemma stop_keeps {E} K j :
  triple (E:=E) (inv_told K) (stop_cpu j) (λ _ s, inv_told (j :: K) s) (λ _ _, False).
Proof.
  eapply (triple_bind _ (λ _ s, inv_told K s ∧ is_Some (s_cpus s !! j))); [apply inv_there, unzone_keeps|].
  intros u. apply send_shutdown.
Qed.

End down.

(** *** [remove_zone] *)

Lemma first_with_spec (h : gmap Z zone) zid l p l' :
  first_with h zid l = Some (p, l') → l ≡ₚ p :: l' ∧ z_id <$> h !! p = Some zid.
Proof.
  revert l'. induction l as [|q l IH]; intros l'; simpl; [done|]. case_bool_decide as Hq.
  - by intros [= <- <-].
  - destruct (first_with h zid l) as [[p1 l1]|]; [|done]. simpl. intros [= <- <-].
    destruct (IH _ eq_refl) as [Hp Hid]. split; [|done]. rewrite Hp. apply Permutation_swap.
Qed.

Lemma spaces_delete p z s :
  s_heap s !! p = Some z → spaces s ≡ₚ z_gpm z :: spaces (set_heap (delete p (s_heap s)) s).
Proof.
  intros Hp. unfold spaces. simpl. rewrite <- (map_to_list_delete _ _ _ Hp). done.
Qed.

(** The zone is gone: no CPU points to it, its address space has been dropped, and its
    CPUs no longer rely on its table. *)
Lemma gone_keeps others i own p z l w' s :
  cpu_inv others i own [] s → s_heap s !! p = Some z → s_zone_list s ≡ₚ p :: l →
  (∀ j c, s_cpus s !! j = Some c → pc_zone c ≠ Some p) →
  (∀ j, j ∈ cpus_of (z_cpu_set z) → (own = false ∧ j = i) ∨ pending s j) →
  spaces_ok n L HL34 pool w' (spaces (set_heap (delete p (s_heap s)) s)) →
  cpu_inv others i own [] (set_heap (delete p (s_heap s)) (set_w w' (set_zone_list l s))).
Proof.
  intros [[H1 H2 H3 H4 H5 H6 H7 H8 H9 H10] Ho Hw Hi] Hp Hl Hun Hpend Hsp.
  assert (NoDup (p :: l)) as [Hpl Hnd]%NoDup_cons by (by rewrite <- Hl).
  assert (∀ j t, (own = true ∨ j ≠ i) → serves s j t →
    serves (set_heap (delete p (s_heap s)) (set_w w' (set_zone_list l s))) j t) as Hsv.
  { intros j t Hj [(q & z' & Hq & Hin & Ht)|[H|H]]; [|by right; left|by right; right].
    destruct (decide (q = p)) as [->|Hne].
    - assert (z' = z) as -> by congruence. destruct (Hpend j Hin) as [[-> ->]|H]; [naive_solver|].
      by right; right.
    - left. exists q, z'. simpl. by rewrite lookup_delete_ne. }
  split; [split; simpl; try done| | |done].
  - intros q. destruct (decide (q = p)) as [->|Hne].
    + rewrite lookup_delete_eq. split; [done|by intros []].
    + rewrite lookup_delete_ne, <- H2, Hl, elem_of_cons by done. tauto.
  - intros q q' z1 z2 [_ Hq1]%lookup_delete_Some [_ Hq2]%lookup_delete_Some. by eapply H3.
  - intros q z' [_ Hq]%lookup_delete_Some. by eapply H4.
  - intros j c q Hj Hq. destruct (H5 j c q Hj Hq) as (z' & Hz' & Hin). exists z'.
    rewrite lookup_delete_ne; [done|]. intros <-. by eapply Hun.
  - intros j t H0 Hj Hne. apply Hsv; [by right|auto].
  - intros t Hown Ht. apply Hsv; [by left|auto].
Qed.

Lemma remove_keeps others i own zid :
  triple (λ s, cpu_inv others i own [] s ∧
            ∀ p z, s_heap s !! p = Some z → z_id z = zid →
                   ∀ j, j ∈ cpus_of (z_cpu_set z) → (own = false ∧ j = i) ∨ pending s j)
    (remove_zone zid) (λ _ s, cpu_inv others i own [] s) (λ _ _, False).
Proof using PL.
  apply triple_wpp. intros s [Hinv Hpend].
  apply wpp_bind, wpp_gets, wpp_bind. eapply wpp_mono; [apply remove_first_spec|].
  intros o s' [-> ->]. apply wpp_bind, wpp_unwrap_opt. intros [p l] Hf.
  apply first_with_spec in Hf as [Hl Hid].
  apply wpp_bind, wpp_modify, wpp_bind, wpp_gets, wpp_bind, wpp_assert. intros Hrefs%Z.eqb_eq.
  assert (unreferenced (set_zone_list l s) p) as [_ Hun] by (apply zone_refs_0; lia).
  unfold zone_drop. apply wpp_bind, wpp_bind, wpp_gets. simpl.
  destruct (s_heap s !! p) as [z|] eqn:Hp; [|apply wpp_panic]. apply wpp_ret, wpp_bind.
  pose proof (zo_spaces _ _ (ci_zones _ _ _ _ _ Hinv)) as Hsp. simpl in Hsp. rewrite (spaces_delete p z s Hp) in Hsp.
  pose proof (spaces_drop n L HL34 pool _ _ _ Hsp) as Hd. unfold wpp, with_w, zoom, with_gpm in *. simpl.
  destruct (ms_drop (s_w s, z_gpm z)) as [[] [w' ms']| | |]; try done. simpl in *. destruct Hd as [Hsp' _].
  injection Hid as Hid. eapply gone_keeps; eauto.
Qed.

End inv.

Arguments ci_zones {T HB HL P PL D n L HL34 pool C park others i own x s} _.
Arguments ci_others {T HB HL P PL D n L HL34 pool C park others i own x s} _ _ _ _ _ _.
Arguments ci_own {T HB HL P PL D n L HL34 pool C park others i own x s} _ _ _ _.
Arguments ci_id {T HB HL P PL D n L HL34 pool C park others i own x s} _.
Arguments zo_listed {T HB HL P PL D n L HL34 pool C park x s} _ _.
Arguments zo_ids {T HB HL P PL D n L HL34 pool C park x s} _ _ _ _ _ _ _ _.
Arguments zo_zone {T HB HL P PL D n L HL34 pool C park x s} _ _ _ _.
Arguments zo_cpu {T HB HL P PL D n L HL34 pool C park x s} _ _ _ _ _ _.
Arguments zo_cpu_id {T HB HL P PL D n L HL34 pool C park x s} _ _ _ _.
Arguments zo_events {T HB HL P PL D n L HL34 pool C park x s} _.
Arguments zo_spaces {T HB HL P PL D n L HL34 pool C park x s} _.
Arguments zo_parking {T HB HL P PL D n L HL34 pool C park x s} _ _ _.
