(* ===== verification/ExitInv.v ===== *)
(** * Every guest exit keeps the invariant

    The code that changes the table a CPU translates with ([ArchCpu::run],
    [ArchCpu::idle]), the events that lead to it, the hypercalls that make and remove
    zones and the PSCI calls; then [arch_handle_exit] as a whole. *)

From S2P Require Import Prelude PhysMem HvError Addr Frame Region Pte PtIface Paging PagingWf.
From S2P Require Import PagingSpec PagingLoop PtInstance Stable FramePool BTreeMap MemorySet CpuSet Mmio.
From S2P Require Import Config Sys ZoneOps Gic Event Virtio Vgic Hypercall Trap SysFrame Robust Spaces.
From S2P Require Import ZoneProps MemoryProps RuntimeProps ZoneLife ZoneInv.

Section exits.
  Context {T : Type} {HB : BitAlloc T} {HL : BitAllocLaws T}.
  Context {P : GenericPTE} {PL : GenericPTELaws P} {D : Type} {B : Bus D}.
  Context (n : Z) (L : nat) (HL34 : L = 3%nat ∨ L = 4%nat) (pool : Z).
  Abbreviation sys := (sys (world T) HvPageTable D).
  Implicit Types (s : sys).

#[local] Instance exits_laws : GenericPageTableLaws (world T) HvPageTable := hv_gpt_laws n L HL34.

Context (C : HvZoneConfig → Prop) (HC : ∀ c, C c → config_ok n L HL34 c).

(** The page CPUs park in, a static of the hypervisor, can be mapped. *)
Context (parking_page : Z).
Abbreviation park := (parking_page - PHYS_VIRT_OFFSET).
Context (Hpark : region_mappable pte_format (va_limit L) (park_region park)).

Context (others : Z → option Z) (i : Z).
Abbreviation inv own := (cpu_inv (D:=D) n L HL34 pool C park others i own []).

Lemma inv_robust own : robust (inv own).
Proof. apply cpu_inv_robust. Qed.

(** Losing track of the CPU's own table is a weakening. *)
Lemma inv_weaken own s : inv own s → inv false s.
Proof. intros [H1 H2 H3 H4]. by split. Qed.

(** ** This CPU *)

Lemma this_cpu_id_reader {E} : reader (S:=sys) (E:=E) this_cpu_id.
Proof.
  intros s. apply wpp_bind. unfold with_regs, read_sysreg, wpp, zoom, hgets. by rewrite set_regs_id.
Qed.

Lemma is_root_reader {E} : reader (S:=sys) (E:=E) is_this_root_zone.
Proof.
  unfold is_this_root_zone, this_zone, root_zone, this_cpu_data, get_cpu_data.
  pose proof (this_cpu_id_reader (E:=E)). solve_reader; done.
Qed.

Lemma this_cpu_there {E} own s :
  inv own s →
  wpp (E:=E) this_cpu_data (λ c s', s' = s ∧ s_cpus s !! i = Some c ∧ pc_id c = i ∧ 0 ≤ i < MAX_CPU_NUM) s.
Proof.
  intros Hinv. unfold this_cpu_data, this_cpu_id, with_regs, read_sysreg, get_cpu_data, wpp, hbind, zoom, hgets, hret.
  simpl. rewrite (ci_id Hinv), set_regs_id.
  destruct (s_cpus s !! i) as [c|] eqn:Hc; [|done].
  destruct (zo_cpu_id (ci_zones Hinv) _ _ Hc). done.
Qed.

(** ** The second-stage table of this CPU *)

Lemma activate_keeps {E} own (ms : MemorySet HvPageTable) s :
  inv own s → serves s i (gpt_root_paddr (W:=world T) (ms_pt ms)) →
  wpp (E:=E) (activate ms) (λ _ s', inv true s') s.
Proof.
  intros [Hz Ho Hw Hi] Hs. unfold activate, with_regs, zoom, write_sysreg, tlbi, hbind, hmodify, wpp.
  split.
  - by apply (zones_ok_core _ _ _ _ _ _ _ s).
  - intros j t H0 Hj Hne. apply (serves_core s); [done|auto].
  - intros t _. unfold table_reg. simpl. rewrite lookup_insert_eq. intros [= <-]. by apply (serves_core s).
  - simpl. by rewrite lookup_insert_ne.
Qed.

(** [PARKING_MEMORY_SET.call_once(..)] *)
Lemma parking_keeps {E} own :
  triple (E:=E) (inv own) (parking_init parking_page) (λ _ s, inv own s ∧ is_Some (s_parking s)) (λ _ _, False).
Proof using PL Hpark.
  unfold parking_init. eapply (triple_bind _ (λ o s, inv own s ∧ s_parking s = o)); [by intros s|].
  intros [ms|]; [intros s [Hs Hp]; split; [done|]; by rewrite Hp|].
  eapply (triple_bind _ (λ _ s, inv own s ∧ s_parking s = None)).
  { intros s [Hs Hp]. split; [by apply (cpu_inv_core _ _ _ _ _ _ _ _ _ _ s)|done]. }
  set (K := λ (x : gmap Z MemoryRegion) (ms : MemorySet HvPageTable) s,
    (cpu_inv n L HL34 pool C park others i own [ms] s ∧ s_parking s = None) ∧ bt_map (ms_regions ms) = x).
  intros u. eapply (triple_bind _ (K ∅)).
  { apply triple_unwrap, triple_wpp. intros s [Hs Hp]. eapply wpp_mono; [by apply new_space_keeps|].
    intros ms s' (w' & -> & Hs' & Hm). done. }
  intros ms. eapply (triple_bind _ (λ pa s, K ∅ ms s ∧ pa = park)).
  { apply triple_wpp. intros s Hs. unfold virt_to_phys, usub. by destruct (_ <=? _). }
  intros pa. apply triple_pure. intros ->. eapply (triple_bind _ (K {[0 := park_region park]})).
  { apply triple_unwrap. intros s [[Hs Hp] Hm].
    pose proof (spaces_insert n L HL34 pool (s_w s) ms (spaces s) (park_region park)
      (zo_spaces (ci_zones Hs)) Hpark) as Hi. fold (park_region park).
    unfold with_w, zoom, ms_exec, wlp in *.
    destruct (ms_insert (park_region park) (s_w s, ms)) as [[] [w' ms']| | |]; try done. simpl in *.
    destruct Hi as [Hi Hm']. change (bt_map (ms_regions ms') = <[0 := park_region park]> (bt_map (ms_regions ms))) in Hm'.
    split; [split; [by eapply cpu_inv_w|done]|]. by rewrite Hm', Hm. }
  intros ms'. intros s [[Hs Hp] Hm]. simpl. split; [|by eexists].
  destruct Hs as [[H1 H2 H3 H4 H5 H6 H7 H8 H9 H10] Ho Hw Hi].
  assert (∀ j t, serves s j t → serves (set_parking (Some ms') s) j t) as Hsv.
  { intros j t [H|[(m & Hm1 & _)|H]]; [by left|congruence|by right; right]. }
  split; [split; try done|auto|auto|done].
  - unfold spaces in *. simpl. rewrite Hp in H9. simpl in H9. rewrite app_nil_r in H9.
    rewrite <- Permutation_cons_append. exact H9.
  - intros ms0 [= <-]. exact Hm.
Qed.

(** ** Parking and running this CPU *)

(** Both leave by [vmreturn], so only the error case counts. *)
Lemma idle_keeps {A} own cpuid :
  triple (inv own) (cpu_idle (A:=A) parking_page cpuid) (λ _ _, False) (λ _ s, inv true s).
Proof using PL Hpark.
  apply (triple_conseq _ (inv false) _ (λ _ _, False) _ (λ _, inv true)); [|intros s; apply inv_weaken|done|done].
  pose proof (inv_robust false) as Hr. unfold cpu_idle.
  apply triple_step; [auto with stable..|]. intros id.
  apply triple_step; [auto with stable..|]. intros u.
  apply triple_step; [by apply stable_mod_cpu|auto with stable|]. intros v.
  eapply triple_bind; [eapply triple_conseq; [apply parking_keeps|done|intros ? s H; exact H|done]|]. simpl.
  intros _. apply (triple_conseq _ (inv false) _ (λ _ _, False) _ (λ _, inv true)); [|by intros s [H _]|done|done].
  apply triple_step; [auto with stable..|]. intros c.
  apply triple_step; [auto with stable..|]. intros u'.
  eapply (triple_bind _ (λ o s, inv false s ∧ s_parking s = o)); [by intros s|].
  intros [ms|]; [|by intros s].
  change (triple (λ s, inv false s ∧ s_parking s = Some ms) (activate ms ;;; vmreturn (A:=A))
    (λ _ _, False) (λ _, inv true)).
  eapply (triple_bind _ (λ _, inv true)); [|by intros v' s].
  apply triple_wpp. intros s [Hs Hp]. eapply activate_keeps; [done|]. right. left. by exists ms.
Qed.

Lemma run_keeps {A} own cpuid :
  triple (inv own) (cpu_run (A:=A) cpuid) (λ _ _, False) (λ _ s, inv true s).
Proof.
  apply (triple_conseq _ (inv false) _ (λ _ _, False) _ (λ _, inv true)); [|intros s; apply inv_weaken|done|done].
  pose proof (inv_robust false) as Hr. unfold cpu_run.
  apply triple_step; [auto with stable..|]. intros id.
  apply triple_step; [auto with stable..|]. intros u.
  eapply (triple_bind _ (λ _, inv true)).
  { apply triple_wpp. intros s Hs. unfold activate_gpm. apply wpp_bind.
    eapply wpp_mono; [by eapply this_cpu_there|]. intros c s' (-> & Hc & _).
    apply wpp_bind, wpp_unwrap_opt. intros p Hp.
    destruct (zo_cpu (ci_zones Hs) _ _ _ Hc Hp) as (z & Hz & Hin).
    apply wpp_bind, wpp_bind, wpp_gets. rewrite Hz. apply wpp_ret.
    eapply activate_keeps; [done|]. left. by exists p, z. }
  intros v. pose proof (inv_robust true) as Hr'.
  apply triple_seq; [auto with stable| |done]. intros c.
  apply triple_seq; [auto with stable| |done]. intros w.
  apply triple_seq; [by apply stable_mod_cpu| |done]. intros x. by intros s.
Qed.

(** ** Events and interrupts *)

(** Taking an event off this CPU's queue: unless it is the order to shut down, an order
    that is still waiting stays there. *)
Lemma fetch_keeps {E} s :
  inv true s →
  wpp (E:=E) (fetch_event i)
    (λ ev s', inv false s' ∧ (ev ≠ Some IPI_EVENT_SHUTDOWN → inv true s')) s.
Proof.
  intros [Hz Ho Hw Hi]. unfold fetch_event. apply wpp_bind, wpp_gets, wpp_bind, wpp_unwrap_opt. intros em Hem.
  destruct (EventManager_fetch_event em i) as [ev em'] eqn:Hf. apply wpp_bind, wpp_modify, wpp_ret.
  apply fetch_event_queue in Hf as (Hev & Htl & Hlen & Hne).
  assert (∀ j t, 0 ≤ j → j ≠ i → 0 ≤ i → serves s j t → serves (set_events (Some em') s) j t) as Hsv.
  { intros j t Hj Hji Hi0 [H|[H|(em1 & Hem1 & Hin)]]; [by left|by right; left|]. right; right.
    exists em'. split; [done|]. rewrite Hem in Hem1. injection Hem1 as <-. by rewrite Hne by lia. }
  assert (zones_ok n L HL34 pool C park [] (set_events (Some em') s)) as Hz'.
  { destruct Hz as [H1 H2 H3 H4 H5 H6 H7 H8 H9 H10]. split; try done. exists em'. split; [done|].
    destruct H7 as (em1 & Hem1 & Hl1). rewrite Hem in Hem1. injection Hem1 as <-. by rewrite Hlen. }
  assert (0 ≤ i) as Hi0.
  { rewrite <- Hi. unfold mpidr_to_cpuid. apply Z.land_nonneg. by right. }
  split; [by split; auto|]. intros Hns. split; [done|auto| |done].
  intros t _ Ht. destruct (Hw t eq_refl Ht) as [H|[H|(em1 & Hem1 & Hin)]]; [by left|by right; left|].
  right; right. exists em'. split; [done|]. rewrite Htl.
  assert (em1 = em) as -> by congruence. rewrite Hev in Hns.
  destruct (queue em i) as [|e q]; [by apply not_elem_of_nil in Hin|]. simpl in *.
  apply elem_of_cons in Hin as [Heq|Hin]; [by destruct Hns; rewrite Heq|done].
Qed.

Lemma events_keep : stable (inv true) (check_events parking_page).
Proof using PL Hpark.
  apply stable_triple. pose proof (inv_robust true) as Hr. unfold check_events.
  eapply (triple_bind _ (λ c s, inv true s ∧ pc_id c = i)).
  { apply triple_wpp. intros s Hs. eapply wpp_mono; [by eapply this_cpu_there|]. by intros c s' (-> & _ & Hid & _). }
  intros c. apply triple_pure. intros ->.
  eapply (triple_bind _ (λ ev s, inv false s ∧ (ev ≠ Some IPI_EVENT_SHUTDOWN → inv true s))).
  { apply triple_wpp. intros s Hs. by apply fetch_keeps. }
  intros [ev|]; [|intros s [_ Hs]; by apply Hs].
  destruct (ev =? IPI_EVENT_WAKEUP).
  { eapply triple_conseq; [apply (run_keeps (A:=bool) false)|by intros s [H _]|done|done]. }
  destruct (Z.eqb_spec ev IPI_EVENT_SHUTDOWN) as [->|Hne].
  { eapply triple_conseq; [apply (idle_keeps (A:=bool) false)|by intros s [H _]|done|done]. }
  apply (triple_conseq _ (inv true) _ (λ _, inv true) _ (λ _, inv true)); [|intros s [_ Hs]; apply Hs; congruence|done|done].
  apply triple_stable. solve_stable.
Qed.

Lemma irq_keeps : stable (inv true) (gicv3_handle_irq_el1 parking_page).
Proof using PL Hpark.
  pose proof (inv_robust true) as Hr. pose proof events_keep. unfold gicv3_handle_irq_el1.
  apply stable_bind; [apply stable_with_regs; intros s; unfold pending_irq; solve_stable|].
  intros [irq|]; solve_stable.
Qed.

(** ** Hypercalls *)

(** Taking CPUs out of their zones and sending events does not touch the zones. *)
Lemma heap_send {E} cpu ipi ev (h : gmap Z (Zone HvPageTable)) :
  stable (λ s : sys, s_heap s = h) (send_event (E:=E) cpu ipi ev).
Proof. apply stable_send_event. by split. Qed.

Lemma heap_mod {E} j f (h : gmap Z (Zone HvPageTable)) :
  stable (λ s : sys, s_heap s = h) (mod_cpu_data (E:=E) j f).
Proof.
  intros s Hs. unfold mod_cpu_data, get_cpu_data, hbind, hgets. simpl. by destruct (s_cpus s !! j).
Qed.

Lemma heap_release {E} j (h : gmap Z (Zone HvPageTable)) :
  stable (λ s : sys, s_heap s = h) (release_cpu (E:=E) j).
Proof.
  unfold release_cpu. repeat (apply stable_bind; [apply heap_mod|intros _]). apply heap_send.
Qed.

Lemma heap_stop {E} j (h : gmap Z (Zone HvPageTable)) :
  stable (λ s : sys, s_heap s = h) (stop_cpu (E:=E) j).
Proof. unfold stop_cpu. apply stable_bind; [apply heap_mod|intros _]. apply heap_send. Qed.

Context (psci_invalid_address : Z).

Lemma zone_start_keeps c : C c → stable (inv true) (hv_zone_start psci_invalid_address c).
Proof using PL HC.
  intros HCc. pose proof (inv_robust true) as Hr. unfold hv_zone_start.
  apply stable_bind; [auto with stable|]. intros root. destruct (negb root); [apply stable_err|].
  apply stable_bind; [apply stable_triple, create_keeps; auto|]. intros p. solve_stable.
Qed.

Lemma zone_shutdown_keeps zid : stable (inv true) (hv_zone_shutdown zid).
Proof using PL.
  apply stable_triple. pose proof (inv_robust true) as Hr. unfold hv_zone_shutdown.
  apply triple_seq; [auto with stable| |done]. intros root. destruct (negb root); [by intros s|].
  destruct (zid =? 0); [by intros s|].
  eapply (triple_bind _ (λ o s, inv true s ∧ ∀ p, o = Some p → has_id s zid p)).
  { apply triple_wpp. intros s Hs. eapply wpp_mono; [apply find_zone_spec|]. intros o s' [-> Ho].
    split; [done|]. intros p ->. by destruct Ho. }
  intros [p|]; [|by intros s [Hs _]].
  eapply (triple_bind _ (λ z s, inv_told n L HL34 pool C park others i true [] s ∧ s_heap s !! p = Some z ∧ z_id z = zid)).
  { apply triple_wpp. intros s [Hs Hp]. destruct (Hp p eq_refl) as (z & Hz & Hid). apply wpp_bind, wpp_gets.
    rewrite Hz. apply wpp_ret. split; [|done]. split; [done|]. by intros k Hk%not_elem_of_nil. }
  intros z.
  eapply (triple_bind _ (λ ids s, (inv_told n L HL34 pool C park others i true [] s ∧ s_heap s !! p = Some z ∧ z_id z = zid) ∧
    ids = cpus_of (z_cpu_set z))).
  { apply triple_wpp. intros s (Hs & Hz & Hid). unfold wpp.
    destruct (zo_zone (ci_zones (proj1 Hs)) _ _ Hz) as (c & _ & Hc).
    rewrite (cpu_iter_eq _ (zof_set _ _ Hc)). done. }
  intros ids. apply triple_pure. intros ->.
  set (K := λ (_ : unit) s, inv_told n L HL34 pool C park others i true (cpus_of (z_cpu_set z)) s ∧
    s_heap s !! p = Some z ∧ z_id z = zid).
  eapply (triple_bind _ K).
  { intros s (Hs & Hz & Hid).
    pose proof (told_loop n L HL34 pool C park others i true release_cpu (cpus_of (z_cpu_set z)) []
      (λ j K, release_keeps (E:=HvError) n L HL34 pool C park others i true K j) s Hs) as Hl.
    pose proof (stable_for_each (λ s', s_heap s' = s_heap s) (release_cpu (E:=HvError)) (cpus_of (z_cpu_set z))
      (λ j _, heap_release j (s_heap s)) s eq_refl) as Hh.
    rewrite app_nil_r in Hl.
    destruct (for_each release_cpu (cpus_of (z_cpu_set z)) s) as [[] s'| | |]; try done.
    split; [done|]. by rewrite Hh. }
  intros u. eapply (triple_bind _ K).
  { intros s (Hs & Hz & Hid).
    pose proof (irqchip_reset_spec (E:=HvError) z s) as Hi. unfold wpp in Hi.
    pose proof (stable_irqchip_reset _ (inv_told_robust n L HL34 pool C park others i true (cpus_of (z_cpu_set z)))
      (E:=HvError) z s Hs) as Hst.
    destruct (arch_irqchip_reset z s) as [[] s'| | |]; try done. rewrite Hi in Hst |- *. done. }
  intros v. eapply (triple_bind _ (λ _, inv true)); [|by intros w s].
  eapply triple_conseq; [exact (remove_keeps n L HL34 pool C park others i true zid)| |by intros w s|done].
  intros s ((Hs & Ht) & Hz & Hid). split; [done|]. intros q z' Hq Hid' j Hj. right. apply Ht.
  assert (q = p) as -> by (eapply (zo_ids (ci_zones Hs)); [done|done|congruence]).
  congruence.
Qed.

(** ** PSCI *)

(** The zone powers off: its other CPUs are told to stop, the zone is removed and this
    CPU parks. *)
Lemma system_off_keeps {A} :
  triple (inv true)
    (let* p := this_zone in
     let* z := read_zone p in
     let* is_root := is_this_root_zone in
     let* c := this_cpu_data in
     let* ids := cpu_iter_except (z_cpu_set z) (pc_id c) in
     for_each stop_cpu ids ;;;
     let* id := this_cpu_id in
     mod_cpu_data id (set_pc_zone None) ;;;
     hunwrap (remove_zone (z_id z)) ;;;
     (if is_root then hhang else hret tt) ;;;
     let* c := this_cpu_data in
     cpu_idle (A:=A) parking_page (pc_id c)) (λ _ _, False) (λ _ s, inv true s).
Proof using PL Hpark.
  pose proof (inv_robust true) as Hr. pose proof (inv_robust false) as Hr0.
  apply triple_seq; [auto with stable| |done]. intros p.
  eapply (triple_bind _ (λ z s, inv true s ∧ s_heap s !! p = Some z)).
  { apply triple_wpp. intros s Hs. apply wpp_bind, wpp_gets.
    destruct (s_heap s !! p) as [z|] eqn:Hz; [by apply wpp_ret|apply wpp_panic]. }
  intros z. set (K := λ s, inv true s ∧ s_heap s !! p = Some z).
  eapply (triple_bind _ (λ _, K)).
  { apply triple_wpp. intros s Hs. apply wpp_reader; [apply is_root_reader|done]. }
  intros root. eapply (triple_bind _ (λ c s, K s ∧ pc_id c = i)).
  { apply triple_wpp. intros s [Hs Hz]. eapply wpp_mono; [by eapply this_cpu_there|].
    by intros c s' (-> & _ & Hid & _). }
  intros c. apply triple_pure. intros ->.
  set (ids := filter (λ j, j ≠ i) (cpus_of (z_cpu_set z))).
  eapply (triple_bind _ (λ ids' s, K s ∧ ids' = ids)).
  { apply triple_wpp. intros s (Hs & Hz). unfold wpp.
    destruct (zo_zone (ci_zones Hs) _ _ Hz) as (c' & _ & Hc).
    by rewrite (cpu_iter_except_eq _ (zof_set _ _ Hc)). }
  intros ids'. apply triple_pure. intros ->.
  set (K' := λ s, inv_told n L HL34 pool C park others i true ids s ∧ s_heap s !! p = Some z).
  eapply (triple_bind _ (λ _, K')).
  { intros s (Hs & Hz).
    assert (inv_told n L HL34 pool C park others i true [] s) as Hs0 by (split; [done|by intros k Hk%not_elem_of_nil]).
    pose proof (told_loop n L HL34 pool C park others i true stop_cpu ids []
      (λ j K, stop_keeps (E:=leave) n L HL34 pool C park others i true K j) s Hs0) as Hl.
    pose proof (stable_for_each (λ s', s_heap s' = s_heap s) (stop_cpu (E:=leave)) ids
      (λ j _, heap_stop j (s_heap s)) s eq_refl) as Hh.
    rewrite app_nil_r in Hl.
    destruct (for_each stop_cpu ids s) as [[] s'| | |]; try done. split; [done|]. by rewrite Hh. }
  intros u. eapply (triple_bind _ (λ _, K')).
  { apply triple_wpp. intros s Hs. apply wpp_reader; [apply this_cpu_id_reader|done]. }
  intros id. eapply (triple_bind _ (λ _, K')).
  { intros s [Hs Hz]. pose proof (unzone_keeps (E:=leave) n L HL34 pool C park others i true ids id s Hs) as H1.
    pose proof (heap_mod (E:=leave) id (set_pc_zone None) (s_heap s) s eq_refl) as H2.
    pose proof (noerr_mod_cpu (E:=leave) id (set_pc_zone None) s) as H3.
    destruct (mod_cpu_data id (set_pc_zone None) s); try done. split; [done|]. by rewrite H2. }
  intros v. eapply (triple_bind _ (λ _, inv false)).
  { apply triple_unwrap. eapply triple_conseq; [exact (remove_keeps n L HL34 pool C park others i false (z_id z))| |by intros w s|done].
    intros s [[Hs Ht] Hz]. split; [by apply inv_weaken in Hs|]. intros q z' Hq Hid j Hj.
    assert (q = p) as -> by (by eapply (zo_ids (ci_zones Hs))).
    assert (z' = z) as -> by congruence. destruct (decide (j = i)) as [->|Hne]; [by left|right].
    apply Ht, list_elem_of_filter. done. }
  intros w. destruct root; [by intros s|].
  change (triple (inv false) (let* c := this_cpu_data in cpu_idle (A:=A) parking_page (pc_id c))
    (λ _ _, False) (λ _, inv true)).
  apply triple_step; [auto with stable..|]. intros c'. apply idle_keeps.
Qed.

Lemma psci_keeps code arg0 : stable (inv true) (handle_psci_smc parking_page code arg0).
Proof using PL Hpark.
  pose proof (inv_robust true) as Hr. pose proof irq_keeps. unfold handle_psci_smc.
  destruct (code =? PSCI_VERSION); [apply stable_ret|]. destruct (_ || _); [solve_stable|].
  destruct (_ || _); [apply stable_panic|]. destruct (_ || _); [solve_stable|].
  destruct (_ =? _); [apply stable_ret|]. destruct (_ =? _); [solve_stable|].
  destruct (_ || _); [auto with stable|]. destruct (_ =? _); [|apply stable_ret].
  apply stable_triple. eapply triple_conseq; [apply system_off_keeps|done|done|done].
Qed.

(** ** All exits *)

Context (config_at : Z → HvZoneConfig) (e : list (VirtioBridge → VirtioBridge)).
Context (Hconf : ∀ a, C (config_at a)).

Lemma hypercall_keeps code arg0 : stable (inv true) (hypercall psci_invalid_address config_at code arg0).
Proof using PL HC Hconf.
  pose proof (inv_robust true) as Hr. unfold hypercall. destruct (hypercall_code code) as [[]|]; [| | | |apply stable_ret].
  - auto with stable.
  - auto with stable.
  - by apply zone_start_keeps.
  - apply zone_shutdown_keeps.
Qed.

Lemma exit_keeps {A} :
  stable (inv true) (arch_handle_exit (A:=A) psci_invalid_address parking_page config_at e).
Proof using PL HC Hpark Hconf.
  pose proof (inv_robust true) as Hr. pose proof irq_keeps.
  assert (stable (inv true) (handle_hvc psci_invalid_address config_at)).
  { unfold handle_hvc. pose proof (λ c a, stable_try _ (E:=leave) _ (hypercall_keeps c a)). solve_stable. }
  assert (stable (inv true) (handle_smc parking_page)).
  { unfold handle_smc. pose proof psci_keeps. solve_stable. }
  unfold arch_handle_exit, arch_handle_trap_el1, handle_iabt, vmreturn. solve_stable.
Qed.

End exits.
