(* ===== verification/ExitPar.v ===== *)
(** * Guest exits and the physical address range

    [setup_parange] (src/src/arch/aarch64/mm.rs) is part of the boot; no guest exit
    changes its result or the count of CPUs that have taken part. *)

From S2P Require Import Prelude HvError Addr Region PtIface Stable BTreeMap MemorySet CpuSet Mmio Config.
From S2P Require Import Sys ZoneOps Gic Event Virtio Vgic Hypercall Trap SysFrame Robust.

Section par.
  Context {W PT D : Type} {G : GenericPageTable W PT} {B : Bus D}.
  Abbreviation sys := (sys W PT D).
  Context (x : parange).
  Abbreviation same := (λ s : sys, s_par s = x).

Lemma par_robust : robust same.
Proof. by split. Qed.

Lemma par_keeps : keeps (s_par (W:=W) (PT:=PT) (D:=D)).
Proof. by split. Qed.

#[local] Hint Resolve par_robust par_keeps : stable.

Lemma par_fetch {E} i : stable same (fetch_event (E:=E) i).
Proof. unfold fetch_event. solve_stable. by apply stable_modify. Qed.

Lemma par_irq parking_page : stable same (gicv3_handle_irq_el1 parking_page).
Proof.
  pose proof par_robust as Hr. pose proof par_keeps as Hk. pose proof @par_fetch.
  unfold gicv3_handle_irq_el1, check_events.
  apply stable_bind; [apply stable_with_regs; intros s; unfold pending_irq; solve_stable|].
  intros [irq|]; solve_stable.
Qed.

Lemma par_remove zid : stable same (remove_zone zid).
Proof. apply free_remove_zone. by split. Qed.

Lemma par_cpus {E} (g : Z → M sys E unit) l : (∀ i, stable same (g i)) → stable same (for_each g l).
Proof. intros Hg. apply stable_for_each. auto. Qed.

Lemma par_hypercall pia config_at code arg0 : stable same (hypercall pia config_at code arg0).
Proof.
  pose proof par_robust as Hr. pose proof par_keeps as Hk. pose proof par_remove.
  assert (∀ c, stable same (zone_create pia c)) by (intros c; by apply (zone_create_kept pia s_par)).
  assert (∀ i, stable (E:=HvError) same (release_cpu i)) by (intros i; unfold release_cpu; solve_stable).
  pose proof (λ l, par_cpus (E:=HvError) release_cpu l).
  unfold hypercall, hv_zone_start, hv_zone_shutdown. solve_stable.
Qed.

Lemma par_psci parking_page code arg0 : stable same (handle_psci_smc parking_page code arg0).
Proof.
  pose proof par_robust as Hr. pose proof par_keeps as Hk. pose proof par_irq. pose proof par_remove.
  assert (∀ i, stable (E:=leave) same (stop_cpu i)) by (intros i; unfold stop_cpu; solve_stable).
  pose proof (λ l, par_cpus (E:=leave) stop_cpu l).
  assert (∀ cs i, stable (E:=leave) same (cpu_iter_except cs i)).
  { intros cs i. unfold cpu_iter_except. generalize (all_ids cs). intros l.
    induction l as [|j l IH]; simpl; unfold contains_cpu, ushl1; solve_stable. }
  unfold handle_psci_smc. solve_stable.
Qed.

Lemma exit_par {A} pia parking_page config_at e :
  stable same (arch_handle_exit (A:=A) pia parking_page config_at e).
Proof.
  pose proof par_robust as Hr. pose proof par_irq.
  assert (stable same (handle_hvc pia config_at)).
  { unfold handle_hvc. pose proof (λ c a, stable_try _ (E:=leave) _ (par_hypercall pia config_at c a)). solve_stable. }
  assert (stable same (handle_smc parking_page)).
  { unfold handle_smc. pose proof par_psci. solve_stable. }
  unfold arch_handle_exit, arch_handle_trap_el1, handle_iabt, vmreturn. solve_stable.
Qed.

End par.
