(* ===== verification/ExitTlb.v ===== *)
(** * What an exit does to the order to shut down and to the TLB

    A CPU that has been told to shut down is free of the order only after it has left
    its table: [ArchCpu::idle] (src/src/arch/aarch64/cpu.rs) activates the parking table,
    and [S2PTInstr::activate] (src/src/arch/aarch64/s2pt.rs) invalidates what the CPU
    has cached of the old one. Orders to other CPUs stay. *)

From S2P Require Import Prelude PhysMem HvError Addr Frame Region Pte PtIface Paging PagingWf.
From S2P Require Import PagingSpec PagingLoop PtInstance Stable FramePool BTreeMap MemorySet CpuSet Mmio.
From S2P Require Import Config Sys ZoneOps Gic Event Virtio Vgic Hypercall Trap SysFrame Robust Spaces.
From S2P Require Import ZoneProps MemoryProps RuntimeProps ZoneLife ZoneInv ExitInv.

Lemma stable_and {S E A} (I J : S → Prop) (m : M S E A) :
  stable I m → stable J m → stable (λ s, I s ∧ J s) m.
Proof. intros HI HJ s [Hi Hj]. specialize (HI s Hi). specialize (HJ s Hj). by destruct (m s). Qed.

Lemma noerr_unwrap {S E E' A} (m : M S E A) : noerr (E:=E') (hunwrap m).
Proof. intros s. unfold hunwrap. by destruct (m s). Qed.

Section log.
  Context {T : Type} {HB : BitAlloc T} {D : Type}.
  Context {P : GenericPTE} {B : Bus D}.
  Abbreviation sys := (sys (world T) HvPageTable D).
  Implicit Types (s : sys).

(** The operations since the log was [l0]. *)
Definition logged (l0 : list (string * Z)) (r : sysregs) : Prop := l0 `prefix_of` sr_log r.

Definition STAGE_2_TLBI : string * Z := ("vmalls12e1is"%string, 0).

(** Whether the second-stage translations of the CPU have been invalidated since. *)
Definition invalidated (l0 : list (string * Z)) (r : sysregs) : bool :=
  bool_decide (STAGE_2_TLBI ∈ drop (length l0) (sr_log r)).

Lemma logged_app l0 r x : logged l0 r → l0 `prefix_of` sr_log r ++ x.
Proof. intros H. by apply prefix_app_r. Qed.

Lemma invalidated_app l0 r v x :
  logged l0 r → invalidated l0 r = true ∨ STAGE_2_TLBI ∈ x → invalidated l0 (mkSysregs v (sr_log r ++ x)) = true.
Proof.
  intros [k Hk] H. apply bool_decide_eq_true. simpl. unfold invalidated in H. rewrite Hk in *.
  rewrite <- app_assoc, !drop_app_length in *. apply elem_of_app. rewrite bool_decide_eq_true in H. naive_solver.
Qed.

Definition left_table (l0 : list (string * Z)) s : Prop :=
  logged l0 (s_regs s) ∧ invalidated l0 (s_regs s) = true.

Context (l0 : list (string * Z)).

Lemma logged_robust : robust (λ s, logged l0 (s_regs s)).
Proof. split; try done. intros k v s _ H. by apply logged_app. Qed.

Lemma left_robust : robust (left_table l0).
Proof.
  split; try done. intros k v s _ [H1 H2]. split; [by apply logged_app|]. by apply invalidated_app; [|left].
Qed.

(** ** Activating a table *)

Lemma activate_left {E} (ms : MemorySet HvPageTable) (I : sys → Prop) :
  (∀ r s, I s → I (set_regs r s)) →
  triple (E:=E) (λ s, logged l0 (s_regs s) ∧ I s) (activate ms) (λ _ s, left_table l0 s ∧ I s) (λ _ _, False).
Proof.
  intros HI s [Hs Hi]. unfold activate, with_regs, zoom, write_sysreg, tlbi, hbind, hmodify. simpl.
  split; [|by apply HI]. split; simpl.
  - rewrite <- app_assoc. by apply logged_app.
  - rewrite <- app_assoc. apply invalidated_app; [done|]. right. apply elem_of_app. right. by left.
Qed.

(** What [cpu_run] and [cpu_idle] may be asked to keep next to the log. *)
Record quiet (I : sys → Prop) : Prop := {
  q_robust : robust I;
  q_free : zone_free I;
  q_regs r s : I s → I (set_regs r s);
  q_page p s : I s → I (set_parking_page p s);
  q_parking p s : I s → I (set_parking p s)
}.

Context (I : sys → Prop) (HI : quiet I).
Abbreviation pre := (λ s, logged l0 (s_regs s) ∧ I s).
Abbreviation post := (λ s, left_table l0 s ∧ I s).

Lemma pre_robust : robust pre.
Proof using HI.
  destruct logged_robust, (q_robust _ HI). split; naive_solver.
Qed.

Lemma pre_free : zone_free pre.
Proof using HI. destruct (q_free _ HI). split; naive_solver. Qed.

Lemma post_robust : robust post.
Proof using HI. destruct left_robust, (q_robust _ HI). split; naive_solver. Qed.

Lemma parking_noerr {E} page : noerr (S:=sys) (E:=E) (parking_init page).
Proof using.
  pose proof @noerr_unwrap. unfold parking_init, virt_to_phys, usub. solve_noerr.
Qed.

Lemma parking_pre {E} page : stable (E:=E) pre (parking_init page).
Proof using HI.
  pose proof (λ E A (m : M (world T) E A), free_with_w _ pre_free m) as Hw.
  unfold parking_init, new_s2_memory_set, is_s2_pt_level3, get_parange_bits, virt_to_phys.
  solve_stable; try (apply stable_modify; intros s [H1 H2]; split; [done|]);
    [by apply (q_page _ HI)|by apply (q_parking _ HI)].
Qed.

(** Both leave by [vmreturn], so only the error case counts. *)
Lemma activate_leave {A} ms : triple pre (activate ms ;;; vmreturn (A:=A)) (λ _ _, False) (λ _, post).
Proof using HI.
  eapply (triple_bind _ (λ _, post)); [|by intros u s].
  eapply triple_conseq; [apply (activate_left ms I (q_regs _ HI))|done|done|done].
Qed.

Lemma idle_left {A} page cpuid : triple pre (cpu_idle (A:=A) page cpuid) (λ _ _, False) (λ _, post).
Proof using HI.
  pose proof pre_robust as Hr. unfold cpu_idle.
  apply triple_step; [auto with stable..|]. intros id.
  apply triple_step; [auto with stable..|]. intros u.
  apply triple_step; [by apply stable_mod_cpu|auto with stable|]. intros v.
  apply triple_step; [apply parking_pre|apply parking_noerr|]. intros w.
  apply triple_step; [auto with stable..|]. intros c.
  apply triple_step; [auto with stable..|]. intros u'.
  apply triple_step; [auto with stable..|]. intros o.
  apply triple_step; [auto with stable..|]. intros ms. apply activate_leave.
Qed.

Lemma run_left {A} cpuid : triple pre (cpu_run (A:=A) cpuid) (λ _ _, False) (λ _, post).
Proof using HI.
  pose proof pre_robust as Hr. pose proof post_robust as Hr'. unfold cpu_run.
  apply triple_step; [auto with stable..|]. intros id.
  apply triple_step; [auto with stable..|]. intros u.
  eapply (triple_bind _ (λ _, post)).
  { unfold activate_gpm. apply triple_step; [auto with stable..|]. intros c.
    apply triple_step; [auto with stable..|]. intros p.
    apply triple_step; [auto with stable..|]. intros z.
    eapply triple_conseq; [apply (activate_left (z_gpm z) I (q_regs _ HI))|done|done|done]. }
  intros v.
  apply triple_seq; [auto with stable| |done]. intros c.
  apply triple_seq; [auto with stable| |done]. intros w.
  apply triple_seq; [by apply stable_mod_cpu| |done]. intros x. by intros s.
Qed.

End log.

(** ** Orders *)

Section orders.
  Context {T : Type} {HB : BitAlloc T} {HL : BitAllocLaws T}.
  Context {P : GenericPTE} {PL : GenericPTELaws P} {D : Type} {B : Bus D}.
  Context (n : Z) (L : nat) (HL34 : L = 3%nat ∨ L = 4%nat) (pool : Z).
  Abbreviation sys := (sys (world T) HvPageTable D).
  Implicit Types (s : sys).

#[local] Instance orders_laws : GenericPageTableLaws (world T) HvPageTable := hv_gpt_laws n L HL34.

Context (i : Z) (J : Z → Prop) (HJ : ∀ j, J j → 0 ≤ j) (l0 : list (string * Z)).

(** The orders to the other CPUs stand. *)
Definition others_told s : Prop := ∀ j, J j → j ≠ i → pending s j.

(** All of them do, except this CPU's own once it has changed its table. *)
Definition orders s : Prop :=
  logged l0 (s_regs s) ∧ ∀ j, J j → pending s j ∨ (j = i ∧ invalidated l0 (s_regs s) = true).

Lemma others_quiet : quiet others_told.
Proof.
  split; try done; split; try done.
  intros cpu ev em em' s Hem Ha H j Hj Hne. eapply add_event_pending; eauto.
Qed.

Lemma orders_robust : robust orders.
Proof.
  split; try done.
  - intros k v s _ [H1 H2]. split; [by apply logged_app|]. intros j Hj.
    destruct (H2 j Hj) as [H|[-> H]]; [by left|right]. split; [done|]. by apply invalidated_app; [|left].
  - intros cpu ev em em' s Hem Ha [H1 H2]. split; [done|]. intros j Hj.
    destruct (H2 j Hj) as [H|H]; [left|by right]. by eapply add_event_pending.
Qed.

Lemma orders_free : zone_free orders.
Proof. by split. Qed.

Lemma orders_others s : orders s → logged l0 (s_regs s) ∧ others_told s.
Proof. intros [H1 H2]. split; [done|]. intros j Hj Hne. by destruct (H2 j Hj) as [H|[H _]]. Qed.

Lemma left_orders s : left_table l0 s ∧ others_told s → orders s.
Proof.
  intros [[H1 H2] Ho]. split; [done|]. intros j Hj. destruct (decide (j = i)); [by right|left; auto].
Qed.

Lemma run_orders {A} cpuid : stable orders (cpu_run (A:=A) cpuid).
Proof.
  apply stable_triple. eapply triple_conseq; [apply (run_left l0 others_told others_quiet)|apply orders_others|done|].
  intros e s. apply left_orders.
Qed.

Lemma idle_orders {A} page cpuid : stable orders (cpu_idle (A:=A) page cpuid).
Proof.
  apply stable_triple. eapply triple_conseq; [apply (idle_left l0 others_told others_quiet)|apply orders_others|done|].
  intros e s. apply left_orders.
Qed.

(** ** Events *)

Context (C : HvZoneConfig → Prop) (parking_page : Z).
Context (others : Z → option Z).
Abbreviation inv := (cpu_inv (D:=D) n L HL34 pool C (parking_page - PHYS_VIRT_OFFSET) others i true []).
Abbreviation both := (λ s, inv s ∧ orders s).

Lemma both_robust : robust both.
Proof. apply (robust_and L HL34); [apply cpu_inv_robust|apply orders_robust]. Qed.

Lemma fetch_orders {E} s :
  orders s → 0 ≤ i →
  wpp (E:=E) (fetch_event i)
    (λ ev s', (logged l0 (s_regs s') ∧ others_told s') ∧ (ev ≠ Some IPI_EVENT_SHUTDOWN → orders s')) s.
Proof.
  intros [Hl Ho] Hi. unfold fetch_event. apply wpp_bind, wpp_gets, wpp_bind, wpp_unwrap_opt. intros em Hem.
  destruct (EventManager_fetch_event em i) as [ev em'] eqn:Hf. apply wpp_bind, wpp_modify, wpp_ret.
  apply fetch_event_queue in Hf as (Hev & Htl & _ & Hne).
  assert (∀ j, 0 ≤ j → j ≠ i → pending s j → pending (set_events (Some em') s) j) as Hp.
  { intros j H0 Hji (em1 & Hem1 & Hin). exists em'. split; [done|]. rewrite Hem in Hem1. injection Hem1 as <-.
    by rewrite Hne by lia. }
  split; [split; [done|]|].
  - intros j Hj Hji. destruct (Ho j Hj) as [H|[H _]]; [auto|done].
  - intros Hns. split; [done|]. intros j Hj. destruct (Ho j Hj) as [H|H]; [left|by right].
    destruct (decide (j = i)) as [->|Hji]; [|auto]. destruct H as (em1 & Hem1 & Hin). exists em'. split; [done|].
    rewrite Hem in Hem1. injection Hem1 as <-. rewrite Htl. rewrite Hev in Hns.
    destruct (queue em i) as [|e q]; [by apply not_elem_of_nil in Hin|]. simpl in *.
    apply elem_of_cons in Hin as [Heq|Hin]; [by destruct Hns; rewrite Heq|done].
Qed.

(** Only taking the order to shut down ends an order, and then the CPU leaves its table. *)
Lemma events_orders : triple both (check_events parking_page) (λ _, orders) (λ _, orders).
Proof using HJ.
  pose proof orders_robust as Hr. unfold check_events.
  eapply (triple_bind _ (λ c s, orders s ∧ (pc_id c = i ∧ 0 ≤ i))).
  { apply triple_wpp. intros s [Hs Ho]. eapply wpp_mono; [by eapply this_cpu_there|].
    intros c s' (-> & _ & Hid & Hi & _). done. }
  intros c. apply triple_pure. intros [-> Hi].
  eapply (triple_bind _ (λ ev s, (logged l0 (s_regs s) ∧ others_told s) ∧
    (ev ≠ Some IPI_EVENT_SHUTDOWN → orders s))).
  { apply triple_wpp. intros s Hs. by apply fetch_orders. }
  intros [ev|]; [|intros s [_ Hs]; by apply Hs].
  destruct (Z.eqb_spec ev IPI_EVENT_WAKEUP) as [->|_].
  { eapply triple_conseq; [apply triple_stable, (run_orders (A:=bool))|intros s [_ H]; by apply H|done|done]. }
  destruct (Z.eqb_spec ev IPI_EVENT_SHUTDOWN) as [->|Hne].
  { eapply triple_conseq; [apply (idle_left l0 others_told others_quiet)|by intros s [H _]|done|].
    intros e s. apply left_orders. }
  apply (triple_conseq _ orders _ (λ _, orders) _ (λ _, orders)); [|intros s [_ Hs]; apply Hs; congruence|done|done].
  apply triple_stable. solve_stable.
Qed.

Context (Hpark : region_mappable pte_format (va_limit L) (park_region (parking_page - PHYS_VIRT_OFFSET))).

Lemma events_both : stable both (check_events parking_page).
Proof using PL HJ Hpark.
  intros s Hs. pose proof (events_orders s Hs) as H1.
  pose proof (events_keep n L HL34 pool C parking_page Hpark others i s (proj1 Hs)) as H2.
  by destruct (check_events parking_page s).
Qed.

Lemma irq_both : stable both (gicv3_handle_irq_el1 parking_page).
Proof using PL HJ Hpark.
  pose proof both_robust as Hr. pose proof events_both. unfold gicv3_handle_irq_el1.
  apply stable_bind; [apply stable_with_regs; intros s; unfold pending_irq; solve_stable|].
  intros [irq|]; solve_stable.
Qed.

(** ** Hypercalls and PSCI *)

Lemma release_orders {E} j : stable (E:=E) orders (release_cpu j).
Proof.
  pose proof orders_robust. pose proof (λ k g, free_mod_cpu (E:=E) _ orders_free k g). unfold release_cpu. solve_stable.
Qed.

Lemma stop_orders {E} j : stable (E:=E) orders (stop_cpu j).
Proof.
  pose proof orders_robust. pose proof (λ k g, free_mod_cpu (E:=E) _ orders_free k g). unfold stop_cpu. solve_stable.
Qed.

Context (HC : ∀ c, C c → config_ok n L HL34 c) (psci_invalid_address : Z).
Context (config_at : Z → HvZoneConfig) (e : list (VirtioBridge → VirtioBridge)).
Context (Hconf : ∀ a, C (config_at a)).

Lemma hypercall_orders code arg0 : stable orders (hypercall psci_invalid_address config_at code arg0).
Proof.
  pose proof orders_robust as Hr. pose proof (free_zone_create psci_invalid_address _ orders_free).
  pose proof (free_remove_zone _ orders_free).
  pose proof (λ l, free_for_each orders (release_cpu (E:=HvError)) l (release_orders)).
  unfold hypercall, hv_zone_start, hv_zone_shutdown. solve_stable.
Qed.

Lemma psci_both code arg0 : stable both (handle_psci_smc parking_page code arg0).
Proof using PL HJ Hpark.
  pose proof both_robust as Hr. pose proof irq_both as Hi. unfold handle_psci_smc.
  destruct (code =? PSCI_VERSION); [apply stable_ret|]. destruct (_ || _); [solve_stable|].
  destruct (_ || _); [apply stable_panic|]. destruct (_ || _); [solve_stable|].
  destruct (_ =? _); [apply stable_ret|]. destruct (_ =? _); [solve_stable|].
  destruct (_ || _); [auto with stable|]. destruct (_ =? _); [|apply stable_ret].
  apply stable_and.
  { apply stable_triple. eapply triple_conseq; [by apply system_off_keeps|done|done|done]. }
  pose proof orders_robust. pose proof (free_remove_zone _ orders_free).
  pose proof (λ E k g, free_mod_cpu (E:=E) _ orders_free k g). pose proof (λ A, idle_orders (A:=A) parking_page).
  pose proof (λ l, free_for_each orders (stop_cpu (E:=leave)) l (stop_orders)).
  assert (∀ cs j, stable (E:=leave) orders (cpu_iter_except cs j)).
  { intros cs j. unfold cpu_iter_except. generalize (all_ids cs). intros l.
    induction l as [|k l IH]; simpl; unfold contains_cpu, ushl1; solve_stable. }
  solve_stable.
Qed.

(** ** All exits *)

Lemma exit_orders {A} :
  stable both (arch_handle_exit (A:=A) psci_invalid_address parking_page config_at e).
Proof using PL HC HJ Hpark Hconf.
  pose proof both_robust as Hr. pose proof irq_both.
  assert (stable both (handle_hvc psci_invalid_address config_at)).
  { unfold handle_hvc. pose proof (λ c a, stable_try _ (E:=leave) _ (stable_and _ _ _
      (hypercall_keeps n L HL34 pool C HC parking_page others i psci_invalid_address config_at Hconf c a)
      (hypercall_orders c a))). solve_stable. }
  assert (stable both (handle_smc parking_page)).
  { unfold handle_smc. pose proof psci_both. solve_stable. }
  unfold arch_handle_exit, arch_handle_trap_el1, handle_iabt, vmreturn. solve_stable.
Qed.

End orders.
