(* ===== verification/Runtime.v ===== *)
(** * The running machine

    After the boot every CPU is in a guest. A step of the machine is a guest exit on
    one CPU, handled by [arch_handle_exit] (src/src/arch/aarch64/trap.rs), a store a
    guest makes to memory through the second-stage table its CPU translates with, or a
    change made by devices and by the root zone's virtio backend. Between exits a guest
    may change its registers in any way, except the two that only the hypervisor
    writes.

    One thing is assumed of the timing: a CPU that has been told to shut down makes no
    store before it takes the interrupt. [Shutdown] shows that without it the code is
    not safe. *)

From S2P Require Import Prelude PhysMem HvError Addr Frame Region Pte PtIface Paging PagingWf.
From S2P Require Import PagingSpec PagingLoop PtInstance Stable FramePool BTreeMap MemorySet CpuSet Mmio.
From S2P Require Import Config Sys ZoneOps Gic Event Virtio Vgic Hypercall Trap SysFrame BootSys Robust Spaces.
From S2P Require Import ZoneProps MemoryProps RuntimeProps ZoneLife ZoneInv ExitInv.

(** ** What configurations give a zone *)

(** The physical memory of a configured region. *)
Definition in_phys (r : HvConfigMemoryRegion) (pa : Z) : Prop :=
  physical_start r ≤ pa < physical_start r + cr_size r.

(** Every region an address space is built from stems from the configuration. *)
Lemma regions_from (m : gmap Z MemoryRegion) cs k rg :
  foldl add_region m cs !! k = Some rg →
  m !! k = Some rg ∨ ∃ r, r ∈ cs ∧ is_memory r = true ∧ rg = region_of r.
Proof.
  revert m. induction cs as [|c cs IH]; intros m; simpl; [by left|].
  intros [Hk|(r & Hr & H)]%IH; [|right; exists r; split; [by right|done]].
  unfold add_region in Hk. destruct (is_memory c) eqn:Hm; simpl in Hk; [|by left].
  destruct (negb (cr_size c =? 0)); [|by left].
  apply lookup_insert_Some in Hk as [[_ <-]|[_ Hk]]; [|by left]. right. exists c. split; [by left|done].
Qed.

Section runtime.
  Context {T : Type} {HB : BitAlloc T} {HL : BitAllocLaws T}.
  Context {P : GenericPTE} {PL : GenericPTELaws P} {D : Type} {B : Bus D}.
  Context (n : Z) (L : nat) (HL34 : L = 3%nat ∨ L = 4%nat) (pool : Z).
  Abbreviation sys := (sys (world T) HvPageTable D).
  Abbreviation machine := (machine (world T) HvPageTable D).
  Implicit Types (s : sys) (m : machine).

#[local] Instance runtime_laws : GenericPageTableLaws (world T) HvPageTable := hv_gpt_laws n L HL34.

(** The configurations the root zone starts zones with, the parking page and the crate
    constant of [zone_create]. *)
Context (C : HvZoneConfig → Prop) (parking_page psci_invalid_address : Z).
Abbreviation park := (parking_page - PHYS_VIRT_OFFSET).

(** A region of physical memory that a guest may be given: whole pages below 2^48 that
    are not in the hypervisor's frame pool. *)
Definition phys_safe (start size : Z) : Prop :=
  start mod PAGE_SIZE = 0 ∧ 0 ≤ start ∧ 0 ≤ size ∧ start + size ≤ 2 ^ 48 ∧
  ∀ b, start ≤ b < start + size → ¬ in_pool n pool b.

Definition config_safe (c : HvZoneConfig) : Prop :=
  config_ok n L HL34 c ∧
  ∀ r, r ∈ config_regions c → is_memory r = true → phys_safe (physical_start r) (cr_size r).

Context (HC : ∀ c, C c → config_safe c).
Context (Hpark : region_mappable pte_format (va_limit L) (park_region park)).
Context (Hparks : phys_safe park PAGE_SIZE).

(** ** Steps *)

(** A guest leaves the protected registers alone. *)
Definition guest_writes (r r' : sysregs) : Prop :=
  ∀ k, k ∈ protected_regs → sr_val r' !! k = sr_val r !! k.

Definition set_cpu_regs (i : nat) (x : sysregs * GeneralRegisters) m : machine :=
  mkMachine (m_sys m) (<[i := x]> (m_cpu m)) (m_config m).

Definition on_sys (f : sys → sys) m : machine := mkMachine (f (m_sys m)) (m_cpu m) (m_config m).

(** The byte [v] is stored at the physical address [pa]. *)
Definition store8 (pa v : Z) s : sys := set_w (set_mem (wr8 (w_mem (s_w s)) pa v) (s_w s)) s.

(** The table CPU [i] translates with; [None] before it first enters a guest. *)
Definition cpu_table (i : nat) m : option Z := table_reg (cpu_regs i m).1.

(** What the hardware makes of a guest's address on CPU [i]. *)
Definition cpu_translate (i : nat) m (va : Z) : option (Z * Z * PageSize) :=
  match cpu_table i m with
  | Some t => hw_translate (w_mem (s_w (m_sys m))) L t va
  | None => None
  end.

(** The steps of the guest on CPU [i], and of what is outside the CPUs. *)
Inductive rstep (i : nat) : machine → machine → Prop :=
| rstep_exit m r g config_at e m' :
    is_Some (cpu_table i m) → guest_writes (cpu_regs i m).1 r → (∀ a, C (config_at a)) →
    entered_guest (on_cpu i (arch_handle_exit (A:=unit) psci_invalid_address parking_page config_at e)
                     (set_cpu_regs i (r, g) m)) = Some m' →
    rstep i m m'
| rstep_store m va pa fl ps v :
    ¬ pending (m_sys m) (Z.of_nat i) → in_range L va → cpu_translate i m va = Some (pa, fl, ps) →
    rstep i m (on_sys (store8 pa v) m)
| rstep_env m d r : rstep i m (on_sys (λ s, set_region r (set_bus d s)) m).

(** ** The invariant *)

Record machine_ok m : Prop := {
  mo_zones : zones_ok n L HL34 pool C park [] (m_sys m);
  mo_tables i t : cpu_table i m = Some t → serves (m_sys m) (Z.of_nat i) t;
  mo_ids i : is_Some (cpu_table i m) →
             mpidr_to_cpuid (default 0 (sr_val (cpu_regs i m).1 !! "MPIDR_EL1"%string)) = Z.of_nat i
}.

Lemma cpu_regs_set i x m j : cpu_regs j (set_cpu_regs i x m) = if decide (i = j) then x else cpu_regs j m.
Proof. unfold cpu_regs. simpl. rewrite lookup_insert. by case_decide. Qed.

Lemma cpu_regs_save i s m j :
  cpu_regs j (save_cpu i s m) = if decide (i = j) then (s_regs s, s_guest s) else cpu_regs j m.
Proof. unfold cpu_regs. simpl. rewrite lookup_insert. by case_decide. Qed.

(** The tables of all CPUs, as the invariant of a handler sees them. *)
Definition tables m (j : Z) : option Z := cpu_table (Z.to_nat j) m.

Lemma cpu_table_save i s m j :
  cpu_table j (save_cpu i s m) = if decide (i = j) then table_reg (s_regs s) else cpu_table j m.
Proof. unfold cpu_table. rewrite cpu_regs_save. by case_decide. Qed.

(** The number of CPU [i], which the hypervisor reads from MPIDR_EL1, is [i]. *)
Definition numbered i m : Prop :=
  mpidr_to_cpuid (default 0 (sr_val (cpu_regs i m).1 !! "MPIDR_EL1"%string)) = Z.of_nat i.

(** CPU [i] enters the hypervisor. *)
Lemma loaded_inv i m :
  machine_ok m → numbered i m →
  cpu_inv n L HL34 pool C park (tables m) (Z.of_nat i) true [] (load_cpu i m).
Proof.
  intros [Hz Ht Hid] Hi. split.
  - by apply (zones_ok_core _ _ _ _ _ _ _ (m_sys m)).
  - intros j t H0 Hj Hne. apply (serves_core (m_sys m)); [done|]. unfold tables in Hj.
    apply Ht in Hj. by rewrite Z2Nat.id in Hj.
  - intros t _ Htab. apply (serves_core (m_sys m)); [done|by apply Ht].
  - exact Hi.
Qed.

(** It leaves again. *)
Lemma saved_ok i m s :
  machine_ok m → cpu_inv n L HL34 pool C park (tables m) (Z.of_nat i) true [] s →
  machine_ok (save_cpu i s m) ∧ ∀ j, numbered j m → numbered j (save_cpu i s m).
Proof.
  intros [_ _ Hid] [Hz Ho Hw Hi].
  assert (∀ j, numbered j m → numbered j (save_cpu i s m)) as Hnum.
  { intros j. unfold numbered. rewrite cpu_regs_save. by case_decide; [subst|]. }
  split; [|done]. split; [done| |].
  - intros j t. rewrite cpu_table_save. case_decide as Hij; [subst; by apply Hw|]. intros Hj.
    apply Ho; [lia| |lia]. unfold tables. by rewrite Nat2Z.id.
  - intros j. rewrite cpu_table_save, cpu_regs_save. case_decide as Hij; [by subst|apply Hid].
Qed.

(** A guest's own register writes. *)
Lemma guest_regs_ok i r g m :
  guest_writes (cpu_regs i m).1 r → machine_ok m →
  machine_ok (set_cpu_regs i (r, g) m) ∧ ∀ j, numbered j m → numbered j (set_cpu_regs i (r, g) m).
Proof.
  intros Hr [Hz Ht Hid].
  assert (∀ j, cpu_table j (set_cpu_regs i (r, g) m) = cpu_table j m) as Htab.
  { intros j. unfold cpu_table. rewrite cpu_regs_set. case_decide as Hij; [subst|done]. apply Hr. by left. }
  assert (∀ j, numbered j m → numbered j (set_cpu_regs i (r, g) m)) as Hnum.
  { intros j. unfold numbered. rewrite cpu_regs_set. case_decide as Hij; [subst|done].
    intros <-. do 2 f_equal. apply Hr. right. by left. }
  split; [|done]. split; [done|intros j t; rewrite Htab; apply Ht|].
  intros j. rewrite Htab. intros Hj. by apply Hnum, Hid.
Qed.

(** Handling an exit. *)
Lemma exit_step i m r g config_at e m' :
  machine_ok m → is_Some (cpu_table i m) → guest_writes (cpu_regs i m).1 r → (∀ a, C (config_at a)) →
  entered_guest (on_cpu i (arch_handle_exit (A:=unit) psci_invalid_address parking_page config_at e)
                   (set_cpu_regs i (r, g) m)) = Some m' →
  machine_ok m' ∧ ∀ j, numbered j m → numbered j m'.
Proof using PL HC Hpark.
  intros Hm Hsome Hr Hconf. pose proof (mo_ids _ Hm i Hsome) as Hi.
  destruct (guest_regs_ok i r g m Hr Hm) as [Hm1 Hn1]. set (m1 := set_cpu_regs i (r, g) m) in *.
  pose proof (exit_keeps n L HL34 pool C (λ c Hc, proj1 (HC c Hc)) parking_page Hpark (tables m1) (Z.of_nat i)
    psci_invalid_address config_at e Hconf (A:=unit) _ (loaded_inv i m1 Hm1 (Hn1 i Hi))) as Hk.
  unfold entered_guest, on_cpu, zoom.
  destruct (arch_handle_exit _ _ _ _ (load_cpu i m1)) as [|[] s'| |]; try done. intros [= <-].
  destruct (saved_ok i m1 s' Hm1 Hk) as [Hok Hnum]. eauto.
Qed.

(** ** Guests stay in their memory *)

(** A region built with an offset mapper over safe memory. *)
Lemma offset_region_view v p sz fl w va x :
  phys_safe p sz → v mod PAGE_SIZE = 0 →
  in_region (new_with_offset_mapper v p sz fl) va →
  region_view pte_format (new_with_offset_mapper v p sz fl) v (v + sz) w va →
  w va = Some x → x.1.1 = p + (va - v) ∧ p ≤ x.1.1 < p + sz.
Proof using PL HL34.
  intros (Hp & H0 & Hsz & H48 & _) Hv Hin Hview Hx. set (r := new_with_offset_mapper v p sz fl) in *.
  unfold in_region in Hin. simpl in Hin.
  assert (map_fn (mapper r) va = p + (va - v)) as Hmf.
  { apply offset_mapper_translates; unfold is_u64, U64; lia. }
  destruct (region_view_offset pte_format r v (v + sz) w va (wrapping_sub v p)) as [ps Hps];
    [apply pte_format_ok|done| | |done|].
  - unfold wrapping_sub. rewrite Z.mod_mod_divide by (by exists (2 ^ 52)).
    unfold PAGE_SIZE in *. Z.to_euclidean_division_equations. lia.
  - rewrite Hmf. lia.
  - rewrite Hps, Hmf in Hx. injection Hx as <-. cbn [fst]. lia.
Qed.

(** The address space was made from regions of safe memory, and gives nothing else. *)
Lemma space_translates w ms va pa fl ps :
  ms_inv (w, ms) → in_range L va →
  hw_translate (w_mem w) L (gpt_root_paddr (W:=world T) (ms_pt ms)) va = Some (pa, fl, ps) →
  ∃ k r, bt_map (ms_regions ms) !! k = Some r ∧ in_region r va ∧
    region_view pte_format r (start r) (start r + size r) (translate L (w, ms_pt ms)) va.
Proof using PL.
  intros Hinv Hva Htr. destruct (ms_exact _ Hinv va Hva) as [Hin Hout].
  destruct (decide (map_Exists (λ _ r, in_region r va) (bt_map (ms_regions ms)))) as [(k & r & Hk & Hr)|Hno].
  - exists k, r. split_and!; [done|done|by apply (Hin k)].
  - exfalso. assert (ms_view (w, ms) va = None) as Hv.
    { apply Hout. intros k r Hk Hr. apply Hno. by exists k, r. }
    unfold ms_view in Hv. simpl in Hv. unfold translate in Hv. simpl in Hv, Htr. congruence.
Qed.

(** What a guest on CPU [i] may reach at [va]: memory that a configuration gives to the
    CPU's zone at that address, or the parking page. *)
Definition permitted (i va pa : Z) : Prop :=
  (∃ c r, C c ∧ i ∈ cpus c ∧ r ∈ config_regions c ∧ is_memory r = true ∧
          virtual_start r ≤ va < virtual_start r + cr_size r ∧ in_phys r pa ∧
          pa = physical_start r + (va - virtual_start r)) ∨
  (0 ≤ va < PAGE_SIZE ∧ pa = park + va).

Lemma permitted_safe i va pa : permitted i va pa → ¬ in_pool n pool pa.
Proof using HC Hparks.
  intros [(c & r & Hc & _ & Hr & Hm & _ & Hp & _)|[Hva ->]].
  - destruct (HC c Hc) as [_ Hs]. destruct (Hs r Hr Hm) as (_ & _ & _ & _ & Hsafe). by apply Hsafe.
  - destruct Hparks as (_ & _ & _ & _ & Hsafe). apply Hsafe. lia.
Qed.

Lemma spaces_zone s p z : s_heap s !! p = Some z → z_gpm z ∈ spaces s.
Proof.
  intros Hp. unfold spaces. apply elem_of_app. left. apply list_elem_of_fmap. exists (p, z).
  split; [done|by apply elem_of_map_to_list].
Qed.

Lemma spaces_parking s ms : s_parking s = Some ms → ms ∈ spaces s.
Proof. intros Hp. unfold spaces. rewrite Hp. apply elem_of_app. right. by left. Qed.

Lemma spaces_inv s ms : zones_ok n L HL34 pool C park [] s → ms ∈ spaces s → ms_inv (s_w s, ms).
Proof.
  intros Hz Hms. pose proof (sp_inv _ _ _ _ _ _ (zo_spaces Hz)) as Hf.
  rewrite Forall_forall in Hf. by apply Hf.
Qed.

Lemma confined i m va pa fl ps :
  machine_ok m → ¬ pending (m_sys m) (Z.of_nat i) → in_range L va →
  cpu_translate i m va = Some (pa, fl, ps) → permitted (Z.of_nat i) va pa.
Proof using PL HC Hparks Hpark.
  intros [Hz Ht _] Hnp Hva. unfold cpu_translate. destruct (cpu_table i m) as [t|] eqn:Htab; [|done].
  intros Htr. destruct (Ht i t Htab) as [(p & z & Hp & Hcpu & ->)|[(ms & Hms & ->)|Hpend]]; [| |done].
  - destruct (zo_zone Hz p z Hp) as (c & Hc & Hzof).
    pose proof (spaces_inv _ _ Hz (spaces_zone _ _ _ Hp)) as Hinv.
    destruct (space_translates _ _ _ _ _ _ Hinv Hva Htr) as (k & rg & Hk & Hin & Hview).
    rewrite (zof_regions _ _ Hzof) in Hk.
    apply regions_from in Hk as [Hk|(r & Hr & Hm & ->)]; [by apply lookup_empty_Some in Hk|].
    destruct (HC c Hc) as [[Hmap _] Hsafe].
    destruct (Hmap r Hr Hm) as (_ & Hv & _).
    destruct (offset_region_view (virtual_start r) (physical_start r) (cr_size r) _ _ va (pa, fl, ps)
      (Hsafe r Hr Hm) Hv Hin Hview Htr) as [He Hb]. simpl in He, Hb.
    left. exists c, r. split_and!; try done; [by apply (zof_cpus _ _ Hzof)|apply Hin|apply Hin].
  - pose proof (spaces_inv _ _ Hz (spaces_parking _ _ Hms)) as Hinv.
    destruct (space_translates _ _ _ _ _ _ Hinv Hva Htr) as (k & rg & Hk & Hin & Hview).
    rewrite (zo_parking Hz _ Hms) in Hk. apply lookup_singleton_Some in Hk as [<- <-].
    destruct (offset_region_view 0 park PAGE_SIZE _ _ va (pa, fl, ps) Hparks eq_refl Hin Hview Htr) as [He Hb].
    simpl in He. right. split; [apply Hin|lia].
Qed.

(** No store of a guest changes what another guest's addresses mean. *)
Lemma store_keeps_translation i j m va pa fl ps v va' :
  machine_ok m → ¬ pending (m_sys m) (Z.of_nat i) → ¬ pending (m_sys m) (Z.of_nat j) → in_range L va →
  in_range L va' → cpu_translate i m va = Some (pa, fl, ps) →
  cpu_translate j (on_sys (store8 pa v) m) va' = cpu_translate j m va'.
Proof using PL HC Hparks Hpark.
  intros Hm Hi Hj Hva Hva' Htr.
  pose proof (permitted_safe _ _ _ (confined _ _ _ _ _ _ Hm Hi Hva Htr)) as Hsafe.
  destruct Hm as [Hz Ht _]. unfold cpu_translate in *.
  change (cpu_table j (on_sys (store8 pa v) m)) with (cpu_table j m).
  destruct (cpu_table j m) as [t|] eqn:Hj'; [|done].
  destruct (Ht j t Hj') as [(p & z & Hp & _ & ->)|[(ms & Hms & ->)|Hpend]]; [| |done].
  - apply (store_translate n L HL34 pool _ _ _ _ _ _ (zo_spaces Hz) (spaces_zone _ _ _ Hp) Hsafe Hva').
  - apply (store_translate n L HL34 pool _ _ _ _ _ _ (zo_spaces Hz) (spaces_parking _ _ Hms) Hsafe Hva').
Qed.

(** ** The invariant is kept *)

Lemma machine_ok_sys m s' :
  (∀ j t, serves (m_sys m) j t → serves s' j t) → zones_ok n L HL34 pool C park [] s' →
  machine_ok m → machine_ok (on_sys (λ _, s') m).
Proof. intros Hs Hz [_ Ht Hi]. split; [done|intros i t Hit; by apply Hs, Ht|done]. Qed.

(** A byte outside the frame pool changes. *)
Lemma store_outside m pa v : machine_ok m → ¬ in_pool n pool pa → machine_ok (on_sys (store8 pa v) m).
Proof using PL.
  intros Hm Hsafe. apply (machine_ok_sys m (store8 pa v (m_sys m))); [by intros j t H| |done].
  destruct Hm as [[H1 H2 H3 H4 H5 H6 H7 H8 H9 H10] _ _]. split; try done. by apply spaces_store.
Qed.

Lemma store_step i m va pa fl ps v :
  machine_ok m → ¬ pending (m_sys m) (Z.of_nat i) → in_range L va →
  cpu_translate i m va = Some (pa, fl, ps) → machine_ok (on_sys (store8 pa v) m).
Proof using PL HC Hparks Hpark.
  intros Hm Hnp Hva Htr. apply store_outside; [done|]. eapply permitted_safe, confined; done.
Qed.

(** Changes made by devices and by the virtio backend. *)
Lemma devices_step m d r : machine_ok m → machine_ok (on_sys (λ s, set_region r (set_bus d s)) m).
Proof.
  intros Hm. apply (machine_ok_sys m (set_region r (set_bus d (m_sys m)))); [| |done].
  - intros j t. by apply serves_core.
  - by apply (zones_ok_core _ _ _ _ _ _ _ (m_sys m)), Hm.
Qed.

Lemma rstep_ok i m m' :
  rstep i m m' → machine_ok m → machine_ok m' ∧ ∀ j, numbered j m → numbered j m'.
Proof using PL HC Hparks Hpark.
  intros [m0 r g cat e m1 Hs Hr Hc He|m0 va pa fl ps v Hnp Hva Htr|m0 d r] Hm.
  - by eapply exit_step.
  - split; [by eapply store_step|done].
  - split; [by apply devices_step|done].
Qed.

End runtime.
