(* ===== verification/BootPhase.v ===== *)
(** * The boot and the guests together

    CPUs do not enter their guests at the same time: while one CPU is still in
    [rust_main] (src/src/main.rs) another may already be handling the exits of a guest.
    [hv_step] is the machine of [Boot] with such steps added. What holds of the shared
    state goes through three phases: until CPU 0 has cleared .bss, until it has done the
    early initialisation, and from then on. *)

From stdpp Require Import relations.
From S2P Require Import Prelude Addr Boot BootInv.

Section phases.
  Context {S : Type} (act : actions S) (guest : nat → S → S → Prop).
  Implicit Types (b : boot S) (s : S) (i : nat).

(** A CPU goes on with its boot, or a CPU that is in a guest makes a step there. *)
Inductive hv_step : boot S → boot S → Prop :=
| hv_boot i b b' : step_cpu act i b = Some b' → hv_step b b'
| hv_guest i b c s : b_cpus b !! i = Some c → c_pc c = PcGuest → guest i (b_sys b) s → hv_step b (set_sys s b).

(** A boot on its own. *)
Lemma steps_system n b b' : steps act n b b' → rtc hv_step b b'.
Proof using. induction 1 as [|n i b b1 b2 _ IH Hs]; [done|]. eapply rtc_r; [exact IH|by eapply hv_boot]. Qed.

(** The protocol itself does not depend on what the guests do. *)
Context (HA : actions_ok act (λ _, True) (λ _, True)).
Context (HG : ∀ i s s', guest i s s' → a_par act s' = a_par act s).
Abbreviation inv := (inv act (λ _, True) (λ _, True)).

Lemma inv_hv_step b b' : hv_step b b' → inv b → inv b'.
Proof using HA HG.
  intros [i b0 b1 Hs|i b0 c s Hi Hc Hg] I; [by apply (inv_step _ _ _ HA b0 b1 i)|].
  destruct I as [I1 I2 I3 I4 I5 I6 I7 I8 I9 I10 I11 I12 I13 I14 I15 I16 I17]. split; simpl; try done.
  intros Hr. rewrite (HG _ _ _ Hg). auto.
Qed.

(** The three phases. *)
Context (A A0 A1 : S → Prop).
Context (Hclear : ∀ s, A s → A0 (a_clear_bss act s)).
Context (Hnew : ∀ i s, (i < NCPU)%nat → A0 s → A0 (a_new act i s)).
Context (Hparange : ∀ i s, (i < NCPU)%nat → A0 s → A0 (a_parange act i s)).
Context (Hearly : ∀ s s', A0 s → a_early act 0 s = Some s' → A1 s').
Context (Hpercpu : ∀ i s s', (i < NCPU)%nat → A1 s → a_percpu act i s = Some s' → A1 s').
Context (Hlate : ∀ i s s', (i < NCPU)%nat → A1 s → a_late act i s = Some s' → A1 s').
Context (Hrun : ∀ i s s', (i < NCPU)%nat → A1 s → a_run act i s = Some s' → A1 s').
Context (Hguest : ∀ i s s', A1 s → guest i s s' → A1 s').

Definition phase (r : nat) s : Prop :=
  if (r <=? 1)%nat then A s else if (r <=? 15)%nat then A0 s else A1 s.

Definition phased b : Prop := phase (rk (b_cpus b) 0) (b_sys b).

Lemma phase_0 r s : (1 < r)%nat → (r ≤ 15)%nat → phase r s = A0 s.
Proof using. intros H1 H2. unfold phase. by rewrite (proj2 (Nat.leb_gt _ _)), (proj2 (Nat.leb_le _ _)). Qed.

Lemma phase_1 r s : (15 < r)%nat → phase r s = A1 s.
Proof using. intros H. unfold phase. rewrite !(proj2 (Nat.leb_gt _ _)) by lia. done. Qed.

(** A step of CPU [i]; the rest of the state is that of [b']. *)
Lemma phased_go b b' i c p :
  b_cpus b !! i = Some c → b_cpus b' = b_cpus b →
  (i ≠ 0%nat → phase (rk (b_cpus b) 0) (b_sys b')) → (i = 0%nat → phase (rank p) (b_sys b')) →
  phased (go i p b').
Proof using.
  intros Hi He H1 H2. unfold phased, go. rewrite He, Hi. simpl.
  rewrite He, rk_insert by (by eapply lookup_lt_Some). simpl. destruct (decide (0%nat = i)); auto.
Qed.

(** A step that leaves the shared state alone and crosses no border. *)
Lemma phased_same b b' i c p :
  b_cpus b !! i = Some c → b_cpus b' = b_cpus b → b_sys b' = b_sys b → phased b →
  (i = 0%nat → (1 < rank (c_pc c))%nat ∧ (1 < rank p)%nat ∧ (rank (c_pc c) ≤ 15 ↔ rank p ≤ 15)%nat) →
  phased (go i p b').
Proof using.
  intros Hi He Hs Hp H0. eapply (phased_go b b'); [done..| |]; rewrite Hs; [done|].
  intros ->. unfold phased in Hp. rewrite (rk_some _ _ _ Hi) in Hp.
  destruct (H0 eq_refl) as (H1 & H2 & H3). destruct (decide (rank p ≤ 15)%nat).
  - rewrite phase_0 in Hp |- *; [done|lia..].
  - rewrite phase_1 in Hp |- * by lia. done.
Qed.

(** Before the early initialisation. *)
Lemma phased_before b i c :
  inv b → b_cpus b !! i = Some c → (1 < rank (c_pc c) ≤ 13)%nat → phased b →
  (1 < rk (b_cpus b) 0 ≤ 15)%nat ∧ A0 (b_sys b).
Proof using.
  intros I Hi Hr Hp. pose proof (inv_before_root _ _ _ _ _ _ I Hi ltac:(lia)) as Hle.
  assert (1 < rk (b_cpus b) 0)%nat as Hlt.
  { destruct (inv_started _ _ _ b i I) as [->|?]; rewrite ?(rk_some _ _ _ Hi); lia. }
  split; [lia|]. unfold phased in Hp. rewrite phase_0 in Hp; done || lia.
Qed.

(** After it. *)
Lemma phased_after b i c :
  inv b → b_cpus b !! i = Some c → (15 < rank (c_pc c))%nat → phased b →
  (15 < rk (b_cpus b) 0)%nat ∧ A1 (b_sys b).
Proof using.
  intros I Hi Hr Hp. assert (15 < rk (b_cpus b) 0)%nat as H.
  { apply (i_bar3 _ _ _ _ I i). by rewrite (rk_some _ _ _ Hi). }
  split; [done|]. unfold phased in Hp. by rewrite phase_1 in Hp.
Qed.

(** An action of the late part, which may not come back. *)
Lemma phased_attempt b i c r o p (k : boot S → boot S) :
  inv b → b_cpus b !! i = Some c → (15 < rank (c_pc c))%nat → (15 < r)%nat → (15 < rank p)%nat → phased b →
  (∀ s, o = Some s → A1 s) → (∀ b, b_cpus (k b) = b_cpus b ∧ b_sys (k b) = b_sys b) →
  phased (attempt i r o (λ b, go i p (k b)) b).
Proof using.
  intros I Hi Hr Hr' Hp' Hp Ho Hk. destruct (phased_after _ _ _ I Hi Hr Hp) as [H0 H1].
  unfold attempt. destruct o as [s|].
  - destruct (Hk (set_sys s b)) as [Hc Hs]. unfold phased, go. rewrite Hc. simpl. rewrite Hi. simpl.
    rewrite Hc, Hs. simpl. rewrite rk_insert by (by eapply lookup_lt_Some). rewrite phase_1; [by apply Ho|].
    by case_decide.
  - eapply (phased_same b); [done..|]. intros ->. simpl. lia.
Qed.

Lemma wake_sys (k : nat) p b : b_sys (go 0 p (start_cpu k b)) = b_sys b.
Proof using.
  unfold start_cpu, go. repeat (case_match; simpl); done.
Qed.

Lemma wake_rk (k : nat) p b c :
  b_cpus b !! 0%nat = Some c → k ≠ 0%nat → rk (b_cpus (go 0 p (start_cpu k b))) 0 = rank p.
Proof using.
  intros Hc Hk. assert (b_cpus (start_cpu k b) !! 0%nat = Some c) as H.
  { unfold start_cpu, go. repeat (case_match; simpl); try done; by rewrite list_lookup_insert_ne. }
  unfold go. rewrite H. simpl. rewrite rk_insert by (by eapply lookup_lt_Some). done.
Qed.

Lemma phased_step b b' i : inv b → phased b → step_cpu act i b = Some b' → phased b'.
Proof using Hclear Hnew Hparange Hearly Hpercpu Hlate Hrun.
  intros I Hp Hs. unfold step_cpu in Hs. destruct (b_cpus b !! i) as [c|] eqn:Hi; [|done].
  pose proof (inv_bound _ _ _ _ _ _ I Hi) as Hb. pose proof (i_shape _ _ _ _ I _ _ Hi) as Hshape.
  assert (∀ p, b' = go i p b → (1 < rank (c_pc c))%nat → (rank (c_pc c) ≤ 15 ↔ rank p ≤ 15)%nat →
    (1 < rank p)%nat → phased b') as Hsame by (intros p ->; intros; by eapply phased_same).
  pose proof (phased_before b i c I Hi) as Hbefore. pose proof (phased_after b i c I Hi) as Hafter.
  destruct (c_pc c) as [| | | | |k| | | | | | | | | | | |] eqn:Hc; simpl in *; try done.
  - injection Hs as <-. destruct i as [|i]; simpl.
    + unfold phased in *. rewrite (rk_some _ _ _ Hi), Hc in Hp. unfold go. simpl. rewrite Hi. simpl.
      rewrite rk_insert by (by eapply lookup_lt_Some). by apply Hclear.
    + eapply (phased_same b); done.
  - injection Hs as Hs. eapply Hsame; [by symmetry in Hs; exact Hs|..]; destruct (b_master b =? -1)%Z; simpl; lia.
  - injection Hs as <-. subst i. unfold phased. simpl. rewrite rk_insert by (by eapply lookup_lt_Some).
    simpl. by apply Hbefore; [lia|].
  - injection Hs as <-. destruct (Hbefore ltac:(lia) Hp) as [Hr HA0].
    eapply (phased_go b); [done..| |]; intros _; rewrite phase_0; simpl; auto; destruct (c_primary c); simpl; lia.
  - destruct Hshape as [-> Hk]. destruct (Hbefore ltac:(unfold NCPU, MAX_CPU_NUM in Hk; lia) Hp) as [Hr HA0].
    unfold NCPU, MAX_CPU_NUM in Hk. destruct (k <? NCPU)%nat eqn:Hlt; injection Hs as <-;
      [|by eapply (phased_same b); [..|rewrite Hc; simpl; lia]].
    apply Nat.ltb_lt in Hlt. destruct (k =? 0)%nat eqn:Hk0.
    { eapply (phased_same b); [done..|]. rewrite Hc. simpl. unfold NCPU, MAX_CPU_NUM in Hlt. lia. }
    apply Nat.eqb_neq in Hk0. unfold phased. rewrite (wake_rk _ _ _ c), wake_sys by done.
    rewrite phase_0; [done|simpl; unfold NCPU, MAX_CPU_NUM in Hlt; lia..].
  - injection Hs as Hs. destruct (Hbefore ltac:(lia) Hp) as [Hr HA0]. rewrite <- Hs.
    by eapply (phased_same b); [..|rewrite Hc; simpl; lia].
  - destruct (b_entered b <? MAX_CPU_NUM)%Z; [done|]. injection Hs as Hs. apply (Hsame PcCheck); simpl; done || lia.
  - injection Hs as Hs. destruct (b_entered b =? MAX_CPU_NUM)%Z; [apply (Hsame PcParange)|apply (Hsame (PcDead 12))];
      simpl; done || lia.
  - injection Hs as <-. destruct (Hbefore ltac:(lia) Hp) as [Hr HA0].
    eapply (phased_go b); [done..| |]; intros _; rewrite phase_0; simpl; auto; lia.
  - destruct (a_par act (b_sys b) <? MAX_CPU_NUM)%Z; [done|]. injection Hs as Hs. apply (Hsame PcEarly); simpl; done || lia.
  - destruct (c_primary c) eqn:Hprim.
    + apply (i_prim _ _ _ _ I _ _ Hi) in Hprim as [-> _]. injection Hs as <-. unfold attempt.
      destruct (a_early act 0 (b_sys b)) as [s|] eqn:Ha.
      * eapply (phased_go b); [done..|]. intros _. rewrite phase_1 by (simpl; lia).
        unfold phased in Hp. rewrite (rk_some _ _ _ Hi), Hc, phase_0 in Hp by (simpl; lia). eauto.
      * by eapply (phased_same b); [..|rewrite Hc; simpl; lia].
    + destruct (b_early b <? 1)%Z; [done|]. injection Hs as Hs. rewrite <- Hs. eapply (phased_same b); [done..|].
      intros ->. pose proof (proj2 (i_prim _ _ _ _ I _ _ Hi)) as Hpr. rewrite Hc, Hprim in Hpr. simpl in Hpr.
      discriminate Hpr. split; [done|lia].
  - injection Hs as <-. destruct (Hafter ltac:(lia) Hp) as [Hr HA1].
    apply (phased_attempt b i c 16 _ PcWaitInited inc_inited); rewrite ?Hc; simpl; try done; try lia. eauto.
  - destruct (b_inited b <? MAX_CPU_NUM)%Z; [done|]. injection Hs as Hs. apply (Hsame PcLate); simpl; done || lia.
  - destruct (Hafter ltac:(lia) Hp) as [Hr HA1]. destruct (c_primary c) eqn:Hprim.
    + injection Hs as <-. apply (phased_attempt b i c 18 _ PcRun store_late); rewrite ?Hc; simpl; try done; try lia. eauto.
    + destruct (b_late b <? 1)%Z; [done|]. injection Hs as Hs. apply (Hsame PcRun); simpl; done || lia.
  - injection Hs as <-. destruct (Hafter ltac:(lia) Hp) as [Hr HA1].
    apply (phased_attempt b i c 19 _ PcGuest (λ b, b)); rewrite ?Hc; simpl; try done; try lia. eauto.
Qed.

Lemma phased_hv_step b b' : hv_step b b' → inv b → phased b → phased b'.
Proof using Hclear Hnew Hparange Hearly Hpercpu Hlate Hrun Hguest.
  intros [i b0 b1 Hs|i b0 c s Hi Hc Hg] I Hp; [by eapply phased_step|].
  destruct (phased_after _ _ _ I Hi ltac:(rewrite Hc; simpl; lia) Hp) as [Hr H1].
  unfold phased. simpl. rewrite phase_1 by done. eauto.
Qed.

(** From reset, with CPU 0 as the only CPU the firmware starts. *)
Lemma phased_reachable s e1 e2 e3 e4 b :
  A s → rtc hv_step (reset_state s e1 e2 e3 e4 [0%nat]) b → inv b ∧ phased b.
Proof using All.
  intros Hs Hr. assert (inv (reset_state s e1 e2 e3 e4 [0%nat]) ∧ phased (reset_state s e1 e2 e3 e4 [0%nat])) as H
    by (split; [apply inv_reset|done]).
  induction Hr as [b0|b0 b1 b2 Hst _ IH]; [done|]. destruct H as [I Hp]. apply IH.
  split; [by eapply inv_hv_step|by eapply phased_hv_step].
Qed.

End phases.
