(* ===== verification/BootRun.v ===== *)
(** * From reset to the running machine

    The actions of [BootSys] and the guest steps of [Runtime] go through the phases of
    [BootPhase]: a machine that starts with no zones ([cold]) satisfies [machine_ok] as
    soon as CPU 0 has done the early initialisation, and from then on for ever. *)

From S2P Require Import Prelude PhysMem HvError Addr Frame FramePool Region Pte PtIface Paging PagingWf.
From S2P Require Import PtInstance Stable BTreeMap MemorySet CpuSet Mmio Config Platform Sys ZoneOps Gic Event.
From S2P Require Import Virtio Vgic Hypercall Trap SysFrame Robust Spaces ZoneLife ZoneInv ExitInv ExitPar.
From S2P Require Import Boot BootInv BootSys BootPhase Runtime.

(** The levels of second-stage tables for the range of physical addresses. *)
Definition levels (p : parange) : nat :=
  match PARANGE_TABLE !! Z.to_nat (min_parange p) with
  | Some bits => if bits <? 44 then 3 else 4
  | None => 4
  end.

Lemma levels_34 p : levels p = 3%nat ∨ levels p = 4%nat.
Proof. unfold levels. destruct (_ !! _) as [bits|]; [destruct (bits <? 44)|]; auto. Qed.

Section boot_run.
  Context {T : Type} {HB : BitAlloc T} {HL : BitAllocLaws T}.
  Context {P : GenericPTE} {PL : GenericPTELaws P} {D : Type} {B : Bus D}.
  Context (plat : platform) (core_end parking_page psci_invalid_address : Z) (poll : nat).
  Abbreviation sys := (sys (world T) HvPageTable D).
  Abbreviation machine := (machine (world T) HvPageTable D).
  Abbreviation acts := (boot_actions (PT:=HvPageTable) (D:=D) plat core_end parking_page psci_invalid_address poll).
  Abbreviation pool := (core_end + 0x200000).
  Abbreviation park := (parking_page - PHYS_VIRT_OFFSET).
  Implicit Types (s : sys) (m : machine) (i : nat).

(** The configurations zones are made from. *)
Context (C : HvZoneConfig → Prop).

(** The steps of the guest on CPU [i]. *)
Definition guest_step i m m' : Prop :=
  rstep (levels (s_par (m_sys m))) C parking_page psci_invalid_address i m m'.

(** The system, as it runs from reset. *)
Abbreviation system := (hv_step acts guest_step).

(** ** The cold machine *)

(** No zone exists, no CPU has a table, and the CPUs have their numbers. *)
Record cold (F : world T → Prop) m : Prop := {
  cd_heap : s_heap (m_sys m) = ∅;
  cd_list : s_zone_list (m_sys m) = [];
  cd_cpus (i : Z) c : s_cpus (m_sys m) !! i = Some c → pc_id c = i ∧ 0 ≤ i < MAX_CPU_NUM ∧ pc_zone c = None;
  cd_world : F (s_w (m_sys m));
  cd_tables i : cpu_table i m = None;
  cd_numbered i : (i < NCPU)%nat → numbered i m
}.

Definition untouched_pool (w : world T) : Prop := w_fa w = FrameAllocator_empty.

Definition full_pool (w : world T) : Prop :=
  fa_inv 4096 (w_fa w) ∧ fa_base (w_fa w) = pool ∧
  ∀ j, ba_test (fa_inner (w_fa w)) j = bool_decide (0 ≤ j < 4096).

Definition cleared m : Prop :=
  cold untouched_pool m ∧ s_parking (m_sys m) = None ∧ boot_pre plat m.

(** The machine with its zones, at the levels that [p] gives. *)
Definition running_at (p : parange) m : Prop :=
  machine_ok 4096 (levels p) (levels_34 p) pool C parking_page m ∧
  (∀ i, (i < NCPU)%nat → numbered i m) ∧ s_par (m_sys m) = p.

Definition running m : Prop := running_at (s_par (m_sys m)) m.

(** Code that leaves the zones and the registers alone. *)
Definition idle_step s s' : Prop :=
  s_heap s' = s_heap s ∧ s_zone_list s' = s_zone_list s ∧ s_cpus s' = s_cpus s ∧
  s_parking s' = s_parking s ∧ s_regs s' = s_regs s.

Lemma cold_saved F F' i s m :
  cold F m → idle_step (load_cpu i m) s → F' (s_w s) →
  cold F' (save_cpu i s m) ∧ s_parking (m_sys (save_cpu i s m)) = s_parking (m_sys m).
Proof.
  intros [H1 H2 H3 H4 H5 H6] (E1 & E2 & E3 & E4 & E5) HF. split; [|done]. split; simpl.
  - by rewrite E1.
  - by rewrite E2.
  - rewrite E3. apply H3.
  - done.
  - intros j. rewrite cpu_table_save. case_decide; [|apply H5]. subst. rewrite E5. apply (H5 j).
  - intros j Hj. unfold numbered. rewrite cpu_regs_save. case_decide; [|by apply H6]. subst. simpl.
    rewrite E5. by apply H6.
Qed.

Lemma cold_step {E A} F (F' : world T → Prop) i (g : M sys E A) m :
  cold F m → wlp g (λ _ s, idle_step (load_cpu i m) s ∧ F' (s_w s)) (load_cpu i m) →
  wlp (on_cpu i g) (λ _ m', cold F' m' ∧ s_parking (m_sys m') = s_parking (m_sys m)) m.
Proof.
  intros Hm Hg. apply wlp_zoom. eapply wlp_mono; [exact Hg|]. intros a s [Hs HF]. by eapply cold_saved.
Qed.

Lemma cold_with_w {E A} F (F' : world T → Prop) i (g : M (world T) E A) m :
  cold F m → wlp g (λ _, F') (s_w (m_sys m)) →
  wlp (on_cpu i (with_w g)) (λ _ m', cold F' m' ∧ s_parking (m_sys m') = s_parking (m_sys m)) m.
Proof.
  intros Hm Hg. eapply cold_step; [done|]. apply wlp_zoom. eapply wlp_mono; [exact Hg|].
  intros a w HF. by split; [|].
Qed.

(** ** The early part *)

Lemma clear_phase m : cold untouched_pool m → cleared (sys_clear_bss m).
Proof.
  intros [H1 H2 H3 H4 H5 H6]. split; [by split|]. split; [done|]. split_and!; by left.
Qed.

Lemma new_phase i m : (i < NCPU)%nat → cleared m → cleared (sys_percpu_new i m).
Proof.
  intros Hi ([H1 H2 H3 H4 H5 H6] & Hp & Hb). split; [|by split]. split; try done. simpl.
  intros j c [[<- <-]|[_ Hj]]%lookup_insert_Some; [|by apply H3]. split; [done|]. split; [unfold NCPU, MAX_CPU_NUM in *; lia|done].
Qed.

Lemma parange_phase i m : cleared m → cleared (default m (returned (on_cpu (E:=HvError) i setup_parange_begin m))).
Proof.
  intros (Hc & Hp & Hb).
  assert (wlp (E:=HvError) (on_cpu i setup_parange_begin) (λ _ m',
    (cold untouched_pool m' ∧ s_parking (m_sys m') = s_parking (m_sys m)) ∧ boot_pre plat m') m) as H.
  { apply wlp_and; [|apply wlp_zoom, Hb]. eapply cold_step; [done|]. split; [done|apply Hc]. }
  unfold wlp in H. destruct (on_cpu i setup_parange_begin m) as [[] m'| | |]; simpl; [|done..].
  destruct H as ([Hc' Hp'] & Hb'). split_and!; [done|congruence|done].
Qed.

Context (Hce1 : core_end mod PAGE_SIZE = 0) (Hce2 : 0 ≤ core_end) (Hce3 : core_end + 0x1200000 ≤ 2 ^ 48).

Lemma full_pool_init {E} w : untouched_pool w → wlp (E:=E) (frame_init core_end) (λ _, full_pool) w.
Proof using HL Hce1 Hce2 Hce3.
  intros Hw. pose proof (frame_init_spec (E:=E) w core_end Hce1 Hce2 Hce3 Hw) as H. unfold wlp, wp in *.
  destruct (frame_init core_end w) as [[] w'| | |]; try done. by destruct H as (_ & Hb & Hi & Hf).
Qed.

Lemma full_pool_test {E} w : full_pool w → wlp (E:=E) frame_test (λ _, full_pool) w.
Proof using HL.
  intros (Hi & Hb & Hf). pose proof (frame_test_spec (E:=E) 4096 w Hi (full_pool_count w Hf)) as H.
  unfold wlp, wp in *. destruct (frame_test w) as [[] w'| | |]; try done.
  destruct H as (_ & Hb' & Hi' & Hf'). unfold base, free in *. split_and!; [done|congruence|].
  intros j. by rewrite Hf'.
Qed.

(** With no zones, the full pool is in order. *)
Lemma cold_machine_ok p m em :
  cold full_pool m → s_parking (m_sys m) = None → s_events (m_sys m) = Some em →
  length em = Z.to_nat MAX_CPU_NUM → s_par (m_sys m) = p →
  machine_ok 4096 (levels p) (levels_34 p) pool C parking_page m.
Proof.
  intros [H1 H2 H3 (F1 & F2 & F3) H5 H6] Hpark Hem Hlen Hp. split.
  - split; rewrite ?H1, ?H2.
    + constructor.
    + intros q. rewrite lookup_empty. split; [by intros ?%not_elem_of_nil|by intros [? ?]].
    + done.
    + done.
    + intros i c q Hc Hq. destruct (H3 i c Hc) as (_ & _ & Hz). congruence.
    + intros i c Hc. by destruct (H3 i c Hc) as (? & ? & _).
    + by exists em.
    + intros bits Hbits. rewrite Hp in Hbits. unfold levels. by rewrite Hbits.
    + unfold spaces. rewrite H1, Hpark. simpl. rewrite map_to_list_empty. apply spaces_nil; [done|done|].
      intros j Hj. unfold free. rewrite F3. by apply bool_decide_eq_true.
    + intros ms. by rewrite Hpark.
  - intros i t. by rewrite H5.
  - intros i. rewrite H5. by intros [? ?].
Qed.

Context (Hfits : platform_fits plat = true).
Context (Hroot : C (root_config plat)).
Context (HC : ∀ L HL34 c, C c → config_safe (T:=T) 4096 L HL34 pool c).

(** The cold machine with the statics set so far. *)
Definition stage F par g e c m : Prop :=
  (cold F m ∧ s_parking (m_sys m) = None) ∧ statics_are par g e c m.

Lemma stage_w {E A} F F' par g e c i (x : M (world T) E A) m :
  stage F par g e c m → (∀ w, F w → wlp x (λ _, F') w) →
  wlp (on_cpu i (with_w x)) (λ _, stage F' par g e c) m.
Proof using.
  intros [[Hc Hp] Hs] Hx. apply wlp_and.
  - eapply wlp_mono; [eapply cold_with_w; [done|apply Hx, Hc]|]. intros a m' [Hc' ->]. done.
  - eapply wlp_stable; [|exact Hs|by intros]. apply on_cpu_kept; [apply statics_kept|apply kept_with_w, statics_kept].
Qed.

Lemma stage_idle {E A} F par g e c g' e' i (x : M sys E A) m :
  stage F par g e c m →
  wlp x (λ _ s, idle_step (load_cpu i m) s ∧ s_w s = s_w (load_cpu i m)) (load_cpu i m) →
  wlp (on_cpu i x) (λ _, statics_are par g' e' c) m → wlp (on_cpu i x) (λ _, stage F par g' e' c) m.
Proof using.
  intros [[Hc Hp] Hs] Hi Hx. apply wlp_and; [|done].
  eapply wlp_mono; [eapply cold_step; [done|]|].
  - eapply wlp_mono; [exact Hi|]. intros a s [Hs1 Hw]. split; [done|]. rewrite Hw. apply Hc.
  - intros a m' [Hc' ->]. done.
Qed.

Lemma stage_config {E} F par g e c m :
  stage F par g e c m → unset_or (root_config plat) c →
  wlp (E:=E) (on_config (root_zone_config plat))
    (λ r m', r = root_config plat ∧ stage F par g e (Some (root_config plat)) m') m.
Proof using Hfits.
  intros [[Hc Hp] Hs] Hu. pose proof (config_step (E:=E) plat Hfits par g e c m Hs Hu) as Hx.
  unfold on_config, wlp, zoom in *. destruct (root_zone_config plat (m_config m)) as [r c'| | |]; try done.
  destruct Hx as [-> Hs']. split; [done|]. split; [|done]. split; [|done]. by destruct Hc.
Qed.

(** Everything before [zone_create], with what comes after it. *)
Lemma early_statics {A} i (k : HvZoneConfig → M machine HvError A) Q m :
  cleared m →
  (∀ m', stage full_pool (s_par (m_sys m)) (Some (root_gic plat)) (Some (EventManager_new MAX_CPU_NUM))
           (Some (root_config plat)) m' → wlp (k (root_config plat)) Q m') →
  wlp (on_cpu i (with_w (frame_init core_end)) ;;;
       on_cpu i (with_w frame_test) ;;;
       on_cpu i (event_init MAX_CPU_NUM) ;;;
       let* root_config := on_config (root_zone_config plat) in
       on_cpu i (gic_init_early (arch root_config)) ;;;
       let* config := on_config (root_zone_config plat) in
       k config) Q m.
Proof using HL Hce1 Hce2 Hce3 Hfits.
  intros (Hc & Hp & Hcf & Hg & He) Hk.
  assert (stage untouched_pool (s_par (m_sys m)) (s_gic (m_sys m)) (s_events (m_sys m)) (m_config m) m) as H0 by done.
  eapply wlp_bind, wlp_mono; [eapply stage_w; [exact H0|apply full_pool_init]|]. intros u1 m1 H1.
  eapply wlp_bind, wlp_mono; [eapply stage_w; [exact H1|apply full_pool_test]|]. intros u2 m2 H2.
  eapply wlp_bind, wlp_mono; [eapply stage_idle; [exact H2| |eapply event_init_step; [apply H2|done]]|].
  { unfold wlp, event_init, hbind, hgets. simpl. destruct (s_events (m_sys m2)); by repeat split. }
  intros u3 m3 H3. eapply wlp_bind, wlp_mono; [eapply stage_config; [exact H3|done]|]. intros r m4 [-> H4].
  eapply wlp_bind, wlp_mono; [eapply stage_idle; [exact H4| |eapply gic_init_step; [apply H4|done]]|].
  { unfold wlp, gic_init_early, hbind, hgets. simpl. destruct (s_gic (m_sys m4)); by repeat split. }
  intros u5 m5 H5. eapply wlp_bind, wlp_mono; [eapply stage_config; [exact H5|by right]|]. intros r m6 [-> H6]. auto.
Qed.

Lemma early_phase i m m' :
  (i < NCPU)%nat → cleared m → returned (primary_init_early plat core_end psci_invalid_address i m) = Some m' →
  running m'.
Proof using All.
  intros Hi Hm Hr. apply returned_some in Hr as [u Hr].
  assert (wlp (primary_init_early plat core_end psci_invalid_address i) (λ _, running) m) as H;
    [|unfold wlp in H; by rewrite Hr in H].
  clear Hr. apply early_statics; [done|]. set (p := s_par (m_sys m)).
  intros m1 [[Hc Hp] [[= Hpar Hg He] _]].
  pose proof (cold_machine_ok p m1 _ Hc Hp He eq_refl Hpar) as Hok.
  pose proof (loaded_inv _ _ _ _ _ _ i m1 Hok (cd_numbered _ _ Hc i Hi)) as Hinv.
  pose proof (create_keeps 4096 (levels p) (levels_34 p) pool C park (tables m1) (Z.of_nat i) true
    (root_config plat) psci_invalid_address Hroot (proj1 (HC _ (levels_34 p) _ Hroot)) _ Hinv) as Hk.
  pose proof (zone_create_kept psci_invalid_address s_par p (root_config plat) par_keeps (λ _ _, eq_refl)
    (λ _ _, eq_refl) (load_cpu i m1) Hpar) as Hkp.
  apply wlp_bind, wlp_unwrap, wlp_zoom. unfold wlp.
  destruct (zone_create psci_invalid_address (root_config plat) (load_cpu i m1)) as [q s| | |]; try done.
  destruct (saved_ok _ _ _ _ _ _ i m1 s Hok Hk) as [Hok' Hnum].
  unfold running, running_at. simpl. rewrite Hkp. split_and!; [done| |done].
  intros j Hj. by apply Hnum, Hc.
Qed.

(** ** The late part *)

(** Code of CPU [i] that keeps the invariant and the address range. *)
Lemma running_step i m s :
  (i < NCPU)%nat → running m →
  (∀ p others, cpu_inv 4096 (levels p) (levels_34 p) pool C park others (Z.of_nat i) true [] (load_cpu i m) →
     cpu_inv 4096 (levels p) (levels_34 p) pool C park others (Z.of_nat i) true [] s) →
  s_par s = s_par (m_sys m) → running (save_cpu i s m).
Proof using.
  intros Hi (Hok & Hn & _) Hg Hp.
  destruct (saved_ok _ _ _ _ _ _ i m s Hok (Hg _ _ (loaded_inv _ _ _ _ _ _ i m Hok (Hn i Hi)))) as [Hok' Hnum].
  unfold running, running_at. simpl. rewrite Hp. split_and!; [done| |done]. intros j Hj. by apply Hnum, Hn.
Qed.

(** Code that keeps every robust invariant. *)
Lemma robust_phase {A} i (g : M sys HvError A) m m' :
  (i < NCPU)%nat → running m → returned (on_cpu i g m) = Some m' →
  (∀ I, robust I → stable I g) → running m'.
Proof using.
  intros Hi Hm Hr Hg. apply returned_some in Hr as [a Hr]. unfold on_cpu, zoom in Hr.
  pose proof (Hg _ (par_robust (s_par (m_sys m))) (load_cpu i m) eq_refl) as Hp.
  destruct (g (load_cpu i m)) as [b s| | |] eqn:Hs; [|done..]. injection Hr as _ <-.
  apply running_step; [done|done| |done]. intros p others Hinv.
  pose proof (Hg _ (cpu_inv_robust 4096 _ (levels_34 p) pool C park others (Z.of_nat i) true []) _ Hinv) as Hk.
  by rewrite Hs in Hk.
Qed.

Lemma gicc_init_robust (I : sys → Prop) : robust I → stable (E:=HvError) I (with_regs gicc_init).
Proof using.
  intros HI. apply stable_with_regs. intros s. unfold gicc_init, gicv3_clear_pending_irqs.
  pose proof (λ k v Hk, stable_write_sysreg (E:=HvError) I HI k v Hk s) as Hw.
  pose proof (λ k, stable_read_sysreg (E:=HvError) I k s) as Hr.
  assert (∀ l, stable (E:=HvError) (λ r, I (set_regs r s)) (clear_lrs l)).
  { induction l as [|j l IH]; simpl; [apply stable_ret|]. apply stable_bind; [|done]. unfold write_lr.
    destruct (lr_names !! _) eqn:Hj; [|apply stable_hang]. by eapply Hw, lr_unprotected. }
  solve_stable; apply Hw; unprotected.
Qed.

Lemma percpu_robust (I : sys → Prop) : robust I → stable (E:=HvError) I (irqchip_percpu_init poll).
Proof using.
  intros HI. unfold irqchip_percpu_init, enable_ipi. apply stable_bind; [by apply gicc_init_robust|].
  intros _. pose proof (stable_gicr_base (E:=HvError) I). solve_stable.
Qed.

Lemma late_robust (I : sys → Prop) : robust I → stable (E:=HvError) I irqchip_primary_init_late.
Proof using.
  intros HI. unfold irqchip_primary_init_late, enable_gic_are_ns. pose proof (stable_gicd_base (E:=HvError) I). solve_stable.
  apply with_write; [done|]. unprotected.
Qed.

Context (Hpark : ∀ L : nat, L = 3%nat ∨ L = 4%nat → region_mappable pte_format (va_limit L) (park_region park)).

Lemma run_phase i m m' :
  (i < NCPU)%nat → running m → entered_guest (on_cpu i (run_vm parking_page (Z.of_nat i)) m) = Some m' → running m'.
Proof using PL Hpark.
  intros Hi Hm. unfold entered_guest, on_cpu, zoom.
  assert (stable (λ s : sys, s_par s = s_par (m_sys m)) (run_vm parking_page (Z.of_nat i))) as Hp.
  { unfold run_vm. pose proof (par_keeps (W:=world T) (PT:=HvPageTable) (D:=D)). solve_stable. }
  specialize (Hp (load_cpu i m) eq_refl).
  assert (∀ p others, triple (cpu_inv 4096 (levels p) (levels_34 p) pool C park others (Z.of_nat i) true [])
    (run_vm (D:=D) parking_page (Z.of_nat i)) (λ _ _, False)
    (λ _, cpu_inv 4096 (levels p) (levels_34 p) pool C park others (Z.of_nat i) true [])) as Hk.
  { intros p others. unfold run_vm. apply triple_step; [auto with stable..|]. intros c.
    destruct (boot_cpu c).
    - apply run_keeps.
    - eapply (triple_bind _ (λ _ _, False)); [apply idle_keeps; auto using levels_34|by intros u s]. }
  destruct (run_vm parking_page (Z.of_nat i) (load_cpu i m)) as [|[] s| |] eqn:Hr; try done. intros [= <-].
  apply running_step; [done|done| |done]. intros p others Hinv. specialize (Hk p others _ Hinv). by rewrite Hr in Hk.
Qed.

Context (Hparks : phys_safe 4096 pool park PAGE_SIZE).

Lemma rstep_par L i m m' : rstep L C parking_page psci_invalid_address i m m' → s_par (m_sys m') = s_par (m_sys m).
Proof using.
  intros [m0 r g cat e m1 Hs Hr Hc He|m0 va pa fl ps v Hnp Hva Htr|m0 d r]; [|done..].
  unfold entered_guest, on_cpu, zoom in He.
  pose proof (exit_par (A:=unit) (s_par (m_sys m0)) psci_invalid_address parking_page cat e
    (load_cpu i (set_cpu_regs i (r, g) m0)) eq_refl) as Hp.
  destruct (arch_handle_exit _ _ _ _ _) as [|[] s| |]; try done. by injection He as <-.
Qed.

Lemma guest_phase i m m' : running m → guest_step i m m' → running m'.
Proof using PL HC Hpark Hparks.
  intros (Hok & Hn & _) Hs. pose proof (rstep_par _ _ _ _ Hs) as Hp.
  destruct (rstep_ok 4096 _ (levels_34 (s_par (m_sys m))) pool C parking_page psci_invalid_address
    (HC _ _) (Hpark _ (levels_34 _)) Hparks i m m' Hs Hok) as [Hok' Hnum].
  unfold running, running_at. rewrite Hp. split_and!; [done| |done]. intros j Hj. by apply Hnum, Hn.
Qed.

(** The protocol's counter is only touched by [setup_parange]. *)
Lemma par_on_cpu {E A} i (g : M sys E A) x :
  stable (λ s, s_par s = x) g → stable (λ m, s_par (m_sys m) = x) (on_cpu i g).
Proof using. intros Hg. apply stable_zoom. intros m Hm. specialize (Hg (load_cpu i m) Hm). by destruct (g _). Qed.

Lemma early_par i m m' :
  returned (primary_init_early plat core_end psci_invalid_address i m) = Some m' →
  s_par (m_sys m') = s_par (m_sys m).
Proof using.
  intros [a Hr]%returned_some. set (x := s_par (m_sys m)). pose proof (par_keeps (W:=world T) (PT:=HvPageTable) (D:=D)) as Hk.
  assert (stable (λ m, s_par (m_sys m) = x) (primary_init_early plat core_end psci_invalid_address i)) as H.
  { pose proof (λ E A (g : M sys E A), par_on_cpu i g x) as Ho. unfold primary_init_early.
    assert (∀ E, stable (E:=E) (λ m : machine, s_par (m_sys m) = x) (on_config (root_zone_config plat))).
    { intros E. apply stable_zoom. intros m0 Hm0. by destruct (root_zone_config _ _). }
    assert (∀ E n, stable (E:=E) (λ s : sys, s_par s = x) (event_init n))
      by (intros; unfold event_init; solve_stable; by apply stable_modify).
    assert (∀ E c, stable (E:=E) (λ s : sys, s_par s = x) (gic_init_early c))
      by (intros; unfold gic_init_early; solve_stable; by apply stable_modify).
    assert (∀ c, stable (λ s : sys, s_par s = x) (zone_create psci_invalid_address c))
      by (intros; by apply (zone_create_kept _ s_par)).
    solve_stable; apply Ho; solve_stable. }
  specialize (H m eq_refl). by rewrite Hr in H.
Qed.

Lemma acts_ok : actions_ok acts (λ _, True) (λ _, True).
Proof using.
  assert (∀ A i (g : M sys HvError A) m m',
    returned (on_cpu i g m) = Some m' → (∀ I, robust I → stable I g) → s_par (m_sys m') = s_par (m_sys m)) as Hrob.
  { intros A i g m m' [a Hr]%returned_some Hg.
    pose proof (par_on_cpu i g _ (Hg _ (par_robust (s_par (m_sys m)))) m eq_refl) as H. by rewrite Hr in H. }
  split; simpl.
  - done.
  - done.
  - done.
  - intros i m m' Hr _. by rewrite (early_par i m m' Hr).
  - intros i m m' Hr _. by rewrite (Hrob _ _ _ _ _ Hr percpu_robust).
  - intros i m m' Hr _. by rewrite (Hrob _ _ _ _ _ Hr late_robust).
  - intros i m m' Hr _. split_and!; [|done..]. f_equal. unfold entered_guest in Hr.
    pose proof (par_keeps (W:=world T) (PT:=HvPageTable) (D:=D)).
    assert (stable (λ s : sys, s_par s = s_par (m_sys m)) (run_vm parking_page (Z.of_nat i))) as Hp
      by (unfold run_vm; solve_stable).
    pose proof (par_on_cpu i _ _ Hp m eq_refl) as H1.
    destruct (on_cpu i (run_vm parking_page (Z.of_nat i)) m) as [|[] s| |]; simplify_eq. done.
Qed.

(** From reset, in every interleaving of the boot and of guests that already run. *)
Lemma system_running m e1 e2 e3 e4 b :
  cold untouched_pool m → rtc system (reset_state m e1 e2 e3 e4 [0%nat]) b →
  inv acts (λ _, True) (λ _, True) b ∧ ((15 < rk (b_cpus b) 0)%nat → running (b_sys b)).
Proof using All.
  intros Hm Hr.
  destruct (phased_reachable acts guest_step acts_ok (λ i m1 m2 Hs, f_equal _ (rstep_par _ _ m1 m2 Hs))
    (cold untouched_pool) cleared running) with (s:=m) (e1:=e1) (e2:=e2) (e3:=e3) (e4:=e4) (b:=b) as [I Hp]; try done.
  - apply clear_phase.
  - apply new_phase.
  - intros i s _. apply parange_phase.
  - intros s s'. apply early_phase. unfold NCPU, MAX_CPU_NUM. lia.
  - intros i s s' Hi Hs H. eapply robust_phase; [done|done|exact H|apply percpu_robust].
  - intros i s s' Hi Hs H. eapply robust_phase; [done|done|exact H|apply late_robust].
  - apply run_phase.
  - apply guest_phase.
  - split; [done|]. intros H15. unfold phased in Hp. by rewrite phase_1 in Hp.
Qed.

(** A CPU that is in a guest is past the initialisation. *)
Lemma guest_running m e1 e2 e3 e4 b i c :
  cold untouched_pool m → rtc system (reset_state m e1 e2 e3 e4 [0%nat]) b →
  b_cpus b !! i = Some c → c_pc c = PcGuest → running (b_sys b).
Proof using All.
  intros Hm Hr Hi Hc. destruct (system_running _ _ _ _ _ _ Hm Hr) as [I H]. apply H.
  apply (i_bar3 _ _ _ _ I i). rewrite (rk_some _ _ _ Hi), Hc. simpl. lia.
Qed.

End boot_run.

(** ** A board *)

Section board.
  Context {T : Type} {HB : BitAlloc T} {HL : BitAllocLaws T}.
  Context {P : GenericPTE} {PL : GenericPTELaws P} {D : Type} {B : Bus D}.
  Context (plat : platform) (core_end parking_page psci_invalid_address : Z) (poll : nat).
  Context (C : HvZoneConfig → Prop).
  Abbreviation pool := (core_end + 0x200000).
  Abbreviation park := (parking_page - PHYS_VIRT_OFFSET).
  Abbreviation machine := (machine (world T) HvPageTable D).
  Abbreviation acts := (boot_actions (PT:=HvPageTable) (D:=D) plat core_end parking_page psci_invalid_address poll).
  Abbreviation system := (hv_step acts (guest_step parking_page psci_invalid_address C)).

(** What is asked of the board, the linker script and the root zone: the hypervisor's
    memory ends at a page and lies below 2^48, the platform's tables fit, and neither
    the configurations nor the parking page overlap the frame pool. *)
Record board_ok : Prop := {
  bo_end : core_end mod PAGE_SIZE = 0 ∧ 0 ≤ core_end ∧ core_end + 0x1200000 ≤ 2 ^ 48;
  bo_fits : platform_fits plat = true;
  bo_root : C (root_config plat);
  bo_configs L HL34 c : C c → config_safe (T:=T) 4096 L HL34 pool c;
  bo_park (L : nat) : L = 3%nat ∨ L = 4%nat → region_mappable pte_format (va_limit L) (park_region park);
  bo_park_safe : phys_safe 4096 pool park PAGE_SIZE
}.

Context (HBo : board_ok) (m : machine) (e1 e2 e3 e4 : Z).
Context (Hm : cold untouched_pool m).
Abbreviation reset := (reset_state m e1 e2 e3 e4 [0%nat]).

Lemma board_running b :
  rtc system reset b →
  inv acts (λ _, True) (λ _, True) b ∧ ((15 < rk (b_cpus b) 0)%nat → running core_end parking_page C (b_sys b)).
Proof using All.
  intros Hr. destruct HBo as [(H1 & H2 & H3) H4 H5 H6 H7 H8].
  by apply (system_running plat core_end parking_page psci_invalid_address poll C H1 H2 H3 H4 H5 H6 H7 H8 m e1 e2 e3 e4).
Qed.

Lemma board_guest_running b i c :
  rtc system reset b → b_cpus b !! i = Some c → c_pc c = PcGuest → running core_end parking_page C (b_sys b).
Proof using All.
  intros Hr Hi Hc. destruct HBo as [(H1 & H2 & H3) H4 H5 H6 H7 H8].
  by apply (guest_running plat core_end parking_page psci_invalid_address poll C H1 H2 H3 H4 H5 H6 H7 H8 m e1 e2 e3 e4 b i c).
Qed.

End board.
