(* ===== verification/Tlb.v ===== *)
(** * The machine with translation lookaside buffers

    A CPU may use a second-stage translation it has cached instead of walking the table
    again, until [S2PTInstr::activate] (src/src/arch/aarch64/s2pt.rs) has invalidated
    it. This is the machine of [BootRun] with such a cache for every CPU: it holds
    anything at reset, walks of the current table may add to it at any time, entries may
    disappear at any time, and guests store through it. The code's [tlbi] clears the
    cache of the CPU that executes it; on the other CPUs nothing is assumed of it, since
    the [dsb nsh] that follows does not wait for them. *)

From stdpp Require Import functions relations.
From S2P Require Import Prelude PhysMem HvError Addr Frame FramePool Region Pte PtIface Paging PagingWf.
From S2P Require Import PagingSpec PtInstance Stable BTreeMap MemorySet CpuSet Mmio Config Platform Sys ZoneOps Gic Event.
From S2P Require Import Virtio Vgic Hypercall Trap SysFrame Robust Spaces ZoneLife ZoneInv ExitInv ExitPar ExitTlb.
From S2P Require Import Boot BootInv BootSys BootPhase Runtime BootRun.

(** The cached translations of a CPU. *)
Definition tlb : Type := Z → option (Z * Z * PageSize).

Section tlb.
  Context {T : Type} {HB : BitAlloc T} {HL : BitAllocLaws T}.
  Context {P : GenericPTE} {PL : GenericPTELaws P} {D : Type} {B : Bus D}.
  Context (plat : platform) (core_end parking_page psci_invalid_address : Z) (poll : nat).
  Context (C : HvZoneConfig → Prop).
  Abbreviation sys := (sys (world T) HvPageTable D).
  Abbreviation machine := (machine (world T) HvPageTable D).
  Abbreviation tmachine := (machine * (nat → tlb))%type.
  Abbreviation acts := (boot_actions (PT:=HvPageTable) (D:=D) plat core_end parking_page psci_invalid_address poll).
  Abbreviation pool := (core_end + 0x200000).
  Abbreviation park := (parking_page - PHYS_VIRT_OFFSET).
  Abbreviation lv m := (levels (s_par (m_sys m))).
  Implicit Types (s : sys) (m : machine) (Ts : nat → tlb) (i j : nat).

(** ** Steps *)

(** The caches after CPU [i] has run from [m] to [m']. *)
Definition after i m m' Ts : nat → tlb :=
  if invalidated (sr_log (cpu_regs i m).1) (cpu_regs i m').1 then <[i := λ _, None]> Ts else Ts.

Definition lift_step i (x : tmachine) (o : option machine) : option tmachine :=
  (λ m', (m', after i x.1 m' x.2)) <$> o.

Definition tlb_actions : actions tmachine := {|
  a_clear_bss x := (a_clear_bss acts x.1, x.2);
  a_new i x := (a_new acts i x.1, x.2);
  a_parange i x := (a_parange acts i x.1, x.2);
  a_par x := a_par acts x.1;
  a_early i x := lift_step i x (a_early acts i x.1);
  a_percpu i x := lift_step i x (a_percpu acts i x.1);
  a_late i x := lift_step i x (a_late acts i x.1);
  a_run i x := lift_step i x (a_run acts i x.1)
|}.

Inductive tstep i : tmachine → tmachine → Prop :=
| tstep_exit m Ts r g config_at e m' :
    is_Some (cpu_table i m) → guest_writes (cpu_regs i m).1 r → (∀ a, C (config_at a)) →
    entered_guest (on_cpu i (arch_handle_exit (A:=unit) psci_invalid_address parking_page config_at e)
                     (set_cpu_regs i (r, g) m)) = Some m' →
    tstep i (m, Ts) (m', after i (set_cpu_regs i (r, g) m) m' Ts)
| tstep_walk m Ts f :
    (∀ va x, f va = Some x → Ts i va = Some x ∨ (in_range (lv m) va ∧ cpu_translate (lv m) i m va = Some x)) →
    tstep i (m, Ts) (m, <[i := f]> Ts)
| tstep_store m Ts va pa fl ps v :
    is_Some (cpu_table i m) → ¬ pending (m_sys m) (Z.of_nat i) → Ts i va = Some (pa, fl, ps) →
    tstep i (m, Ts) (on_sys (store8 pa v) m, Ts)
| tstep_env m Ts d r : tstep i (m, Ts) (on_sys (λ s, set_region r (set_bus d s)) m, Ts).

Abbreviation tsystem := (hv_step tlb_actions tstep).

(** ** The invariant *)

(** What a CPU with a table has cached is allowed to it. *)
Definition tlb_ok (x : tmachine) : Prop :=
  ∀ i, is_Some (cpu_table i x.1) → ¬ pending (m_sys x.1) (Z.of_nat i) →
  ∀ va pa fl ps, x.2 i va = Some (pa, fl, ps) → permitted C parking_page (Z.of_nat i) va pa.

(** A step of CPU [i] that keeps the orders to shut down, except its own if it
    invalidates. *)
Lemma tlb_ok_after i m m1 m' Ts :
  (∀ j, j ≠ i → cpu_table j m' = cpu_table j m) →
  (invalidated (sr_log (cpu_regs i m1).1) (cpu_regs i m').1 = true ∨
   (is_Some (cpu_table i m') → is_Some (cpu_table i m))) →
  (∀ j, pending (m_sys m) (Z.of_nat j) → pending (m_sys m') (Z.of_nat j) ∨
     (j = i ∧ invalidated (sr_log (cpu_regs i m1).1) (cpu_regs i m').1 = true)) →
  tlb_ok (m, Ts) → tlb_ok (m', after i m1 m' Ts).
Proof.
  intros Htab Hown Hp Hok j Hj Hnp va pa fl ps. unfold after. simpl in *.
  destruct (decide (j = i)) as [->|Hji].
  - destruct (invalidated _ _) eqn:Hi; [by rewrite fn_lookup_insert|]. intros Hva.
    apply (Hok i) with fl ps; simpl; [destruct Hown as [?|H]; [done|by apply H]| |done].
    intros Hpe. destruct (Hp i Hpe) as [H|[_ H]]; done.
  - assert ((if invalidated (sr_log (cpu_regs i m1).1) (cpu_regs i m').1
             then <[i := λ _, None]> Ts else Ts) j = Ts j) as ->.
    { destruct (invalidated _ _); [by rewrite fn_lookup_insert_ne|done]. }
    intros Hva. apply (Hok j) with fl ps; simpl; [by rewrite <- Htab| |done].
    intros Hpe. destruct (Hp j Hpe) as [H|[H _]]; done.
Qed.

(** *** Code of one CPU *)

(** What is seen of the machine after code on CPU [i] that ended in [s]. *)
Lemma saved_tables i j s m : j ≠ i → cpu_table j (save_cpu i s m) = cpu_table j m.
Proof. intros Hji. rewrite cpu_table_save. by case_decide. Qed.

Lemma saved_regs i s m : (cpu_regs i (save_cpu i s m)).1 = s_regs s.
Proof. rewrite cpu_regs_save. by case_decide. Qed.

Lemma loaded_regs i m : s_regs (load_cpu i m) = (cpu_regs i m).1.
Proof. done. Qed.

(** The orders in force when CPU [i] starts. *)
Abbreviation given m := (λ j : Z, 0 ≤ j ∧ pending (m_sys m) j).

Lemma given_orders i m : orders (Z.of_nat i) (given m) (sr_log (cpu_regs i m).1) (load_cpu i m).
Proof. split; [by exists []; rewrite app_nil_r|]. intros j [_ Hj]. by left. Qed.

Lemma saved_tlb_ok i m m1 s Ts :
  m_sys m1 = m_sys m → (∀ j, cpu_table j m1 = cpu_table j m) →
  orders (Z.of_nat i) (given m) (sr_log (cpu_regs i m1).1) s →
  (invalidated (sr_log (cpu_regs i m1).1) (s_regs s) = true ∨
   (is_Some (table_reg (s_regs s)) → is_Some (cpu_table i m))) →
  tlb_ok (m, Ts) → tlb_ok (save_cpu i s m1, after i m1 (save_cpu i s m1) Ts).
Proof.
  intros Hs Ht [_ Ho] Hown. apply tlb_ok_after.
  - intros j Hji. by rewrite saved_tables, Ht.
  - rewrite saved_regs, cpu_table_save. by case_decide.
  - intros j Hj. rewrite saved_regs. destruct (Ho (Z.of_nat j)) as [H|[H1 H2]]; [split; [lia|done]|by left|].
    right. split; [lia|done].
Qed.

Lemma table_robust t : robust (λ s, table_reg (s_regs s) = t).
Proof.
  split; try done. intros k v s Hk. unfold table_reg. simpl. rewrite lookup_insert_ne; [done|].
  intros ->. apply Hk. by left.
Qed.

(** Code that touches no zone and no table. *)
Lemma robust_tlb {A} i (g : M sys HvError A) m m' Ts :
  returned (on_cpu i g m) = Some m' → (∀ I, robust I → stable I g) →
  tlb_ok (m, Ts) → tlb_ok (m', after i m m' Ts).
Proof.
  intros Hr Hg Hok. apply returned_some in Hr as [a Hr]. unfold on_cpu, zoom in Hr.
  pose proof (Hg _ (table_robust (cpu_table i m)) (load_cpu i m) eq_refl) as Ht.
  pose proof (Hg _ (orders_robust (Z.of_nat i) (given m) (sr_log (cpu_regs i m).1)) _ (given_orders i m)) as Ho.
  destruct (g (load_cpu i m)) as [b s| | |]; [|done..]. injection Hr as _ <-.
  eapply saved_tlb_ok; try done. right. by rewrite Ht.
Qed.

(** [run_vm] activates a table. *)
Lemma run_tlb i m m' Ts :
  entered_guest (on_cpu i (run_vm parking_page (Z.of_nat i)) m) = Some m' →
  tlb_ok (m, Ts) → tlb_ok (m', after i m m' Ts).
Proof.
  intros Hr Hok. unfold entered_guest, on_cpu, zoom in Hr. set (l0 := sr_log (cpu_regs i m).1).
  pose proof (others_quiet (T:=T) (D:=D) (Z.of_nat i) (given m)) as Hq.
  assert (triple (λ s, logged l0 (s_regs s) ∧ others_told (Z.of_nat i) (given m) s)
    (run_vm (D:=D) parking_page (Z.of_nat i)) (λ _ _, False)
    (λ _ s, left_table l0 s ∧ others_told (Z.of_nat i) (given m) s)) as Hk.
  { pose proof (pre_robust l0 _ Hq) as Hrob. unfold run_vm. apply triple_step; [auto with stable..|]. intros c.
    destruct (boot_cpu c).
    - apply (run_left l0 _ Hq).
    - eapply (triple_bind _ (λ _ _, False)); [apply (idle_left l0 _ Hq)|by intros u s]. }
  specialize (Hk (load_cpu i m) (orders_others _ _ _ _ (given_orders i m))).
  destruct (run_vm parking_page (Z.of_nat i) (load_cpu i m)) as [|[] s| |]; try done. injection Hr as <-.
  eapply saved_tlb_ok; try done; [by apply left_orders|]. left. apply Hk.
Qed.

(** Before any CPU has a table there is nothing to show. *)
Lemma no_tables_tlb_ok x : (∀ i, cpu_table i x.1 = None) → tlb_ok x.
Proof. intros H i. rewrite H. by intros [? ?]. Qed.

Lemma tables_on_cpu {E A} i (g : M sys E A) :
  stable (λ s, table_reg (s_regs s) = None) g → stable (λ m, ∀ j, cpu_table j m = None) (on_cpu i g).
Proof.
  intros Hg. apply stable_zoom. intros m Hm. specialize (Hg (load_cpu i m) (Hm i)).
  destruct (g _); try done; intros j; rewrite cpu_table_save; by case_decide.
Qed.

Lemma early_tables i m m' :
  returned (primary_init_early plat core_end psci_invalid_address i m) = Some m' →
  (∀ j, cpu_table j m = None) → ∀ j, cpu_table j m' = None.
Proof.
  intros [a Hr]%returned_some Hm. set (I := λ s : sys, table_reg (s_regs s) = None).
  assert (zone_free I) as Hf by by split.
  assert (stable (λ m, ∀ j, cpu_table j m = None) (primary_init_early plat core_end psci_invalid_address i)) as H.
  { pose proof (λ E A (g : M sys E A), tables_on_cpu i g) as Ho. unfold primary_init_early.
    assert (∀ E, stable (E:=E) (λ m : machine, ∀ j, cpu_table j m = None) (on_config (root_zone_config plat))).
    { intros E. apply stable_zoom. intros m0 Hm0. by destruct (root_zone_config _ _). }
    assert (∀ E n, stable (E:=E) I (event_init n))
      by (intros; unfold event_init; solve_stable; by apply stable_modify).
    assert (∀ E c, stable (E:=E) I (gic_init_early c))
      by (intros; unfold gic_init_early; solve_stable; by apply stable_modify).
    pose proof (free_zone_create psci_invalid_address I Hf). pose proof (λ E A (g : M (world T) E A), free_with_w I Hf g).
    solve_stable; apply Ho; auto. }
  specialize (H m Hm). by rewrite Hr in H.
Qed.

(** ** The machine without caches *)

Abbreviation system := (hv_step acts (guest_step parking_page psci_invalid_address C)).

Definition with_tlbs Ts (b : boot machine) : boot tmachine :=
  mkBoot (b_sys b, Ts) (b_master b) (b_entered b) (b_early b) (b_inited b) (b_late b) (b_cpus b).

Lemma go_tlbs Ts i p b : go i p (with_tlbs Ts b) = with_tlbs Ts (go i p b).
Proof. unfold go. simpl. by destruct (b_cpus b !! i). Qed.

Lemma start_tlbs Ts k b : start_cpu k (with_tlbs Ts b) = with_tlbs Ts (start_cpu k b).
Proof.
  unfold start_cpu. simpl. destruct (b_cpus b !! k) as [c|]; [|done].
  destruct (c_pc c); try done. apply go_tlbs.
Qed.

Lemma attempt_tlbs Ts i r o (f : ∀ S, boot S → boot S) b :
  (∀ Ts b, f _ (with_tlbs Ts b) = with_tlbs Ts (f _ b)) →
  ∃ Ts', attempt i r (lift_step i (b_sys b, Ts) o) (f _) (with_tlbs Ts b) = with_tlbs Ts' (attempt i r o (f _) b).
Proof.
  intros Hf. unfold attempt. destruct o as [m'|]; simpl; [|exists Ts; apply go_tlbs].
  exists (after i (b_sys b) m' Ts). apply (Hf _ (set_sys m' b)).
Qed.

(** A step of the boot is one of the machine with caches. *)
Lemma step_tlbs Ts i b b' :
  step_cpu acts i b = Some b' → ∃ Ts', step_cpu tlb_actions i (with_tlbs Ts b) = Some (with_tlbs Ts' b').
Proof.
  unfold step_cpu. simpl. destruct (b_cpus b !! i) as [c|]; [|done].
  assert (∀ p b0, Some (go i p b0) = Some b' → ∃ Ts', Some (go i p (with_tlbs Ts b0)) = Some (with_tlbs Ts' b')) as Hgo.
  { intros p b0 [= <-]. exists Ts. by rewrite go_tlbs. }
  destruct (c_pc c); try done.
  - destruct (i =? 0)%nat; apply (Hgo PcLoad).
  - apply Hgo.
  - intros [= <-]. by exists Ts.
  - apply (Hgo _ (set_sys _ b)).
  - destruct (k <? NCPU)%nat; [|apply Hgo]. destruct (k =? i)%nat; [apply Hgo|]. rewrite start_tlbs. apply Hgo.
  - apply (Hgo _ (inc_entered b)).
  - destruct (b_entered b <? MAX_CPU_NUM); [done|apply Hgo].
  - apply Hgo.
  - apply (Hgo _ (set_sys _ b)).
  - destruct (_ <? MAX_CPU_NUM); [done|apply Hgo].
  - destruct (c_primary c); [|destruct (b_early b <? 1); [done|apply Hgo]]. intros [= <-].
    destruct (attempt_tlbs Ts i 15 (returned (primary_init_early plat core_end psci_invalid_address i (b_sys b)))
      (λ S b, go i PcPerCpu (store_early b)) b) as [Ts' ->]; [|by exists Ts'].
    intros Ts0 b0. apply (go_tlbs Ts0 i PcPerCpu (store_early b0)).
  - intros [= <-].
    destruct (attempt_tlbs Ts i 16 (returned (on_cpu (E:=HvError) i (irqchip_percpu_init poll) (b_sys b)))
      (λ S b, go i PcWaitInited (inc_inited b)) b) as [Ts' ->]; [|by exists Ts'].
    intros Ts0 b0. apply (go_tlbs Ts0 i PcWaitInited (inc_inited b0)).
  - destruct (b_inited b <? MAX_CPU_NUM); [done|apply Hgo].
  - destruct (c_primary c); [|destruct (b_late b <? 1); [done|apply Hgo]]. intros [= <-].
    destruct (attempt_tlbs Ts i 18 (returned (on_cpu (E:=HvError) i irqchip_primary_init_late (b_sys b)))
      (λ S b, go i PcRun (store_late b)) b) as [Ts' ->]; [|by exists Ts'].
    intros Ts0 b0. apply (go_tlbs Ts0 i PcRun (store_late b0)).
  - intros [= <-].
    destruct (attempt_tlbs Ts i 19 (entered_guest (on_cpu i (run_vm parking_page (Z.of_nat i)) (b_sys b)))
      (λ S, go i PcGuest) b) as [Ts' ->]; [|by exists Ts'].
    intros Ts0 b0. apply go_tlbs.
Qed.

Lemma translates_table (L : nat) i m va x : cpu_translate L i m va = Some x → is_Some (cpu_table i m).
Proof. unfold cpu_translate. by destruct (cpu_table i m). Qed.

(** Everything the machine without caches does, this one does too: a store is a walk and
    a store through the cache. *)
Lemma guest_tlbs Ts i b c m' :
  b_cpus b !! i = Some c → c_pc c = PcGuest → guest_step parking_page psci_invalid_address C i (b_sys b) m' →
  ∃ Ts', rtc tsystem (with_tlbs Ts b) (with_tlbs Ts' (set_sys m' b)).
Proof.
  intros Hi Hc Hg. unfold guest_step in Hg.
  assert (∀ Ts y Ts1 b1, b_cpus b1 = b_cpus b → tstep i (b_sys b1, Ts) (y, Ts1) →
    tsystem (with_tlbs Ts b1) (with_tlbs Ts1 (set_sys y b1))) as Hone.
  { intros Ts0 y Ts1 b1 Hb1 Hs. apply (hv_guest _ _ i (with_tlbs Ts0 b1) c (y, Ts1)); [by simpl; rewrite Hb1|done|done]. }
  inversion Hg as [m0 r g cat e m1 Hs Hr Hcf He|m0 va pa fl ps v Hnp Hva Htr|m0 d r]; subst.
  - exists (after i (set_cpu_regs i (r, g) (b_sys b)) m' Ts). apply rtc_once, Hone; [done|].
    by apply (tstep_exit i (b_sys b) Ts r g cat e m').
  - set (f := λ a, if decide (a = va) then Some (pa, fl, ps) else Ts i a). exists (<[i := f]> Ts).
    apply (rtc_l _ _ (with_tlbs (<[i := f]> Ts) (set_sys (b_sys b) b))).
    + apply Hone; [done|]. apply tstep_walk. intros a x. unfold f. case_decide; [subst|by left].
      intros [= <-]. by right.
    + apply rtc_once. apply (Hone _ (on_sys (store8 pa v) (b_sys b)) _ (set_sys (b_sys b) b)); [done|]. simpl.
      apply (tstep_store i (b_sys b) _ va pa fl ps v).
      * by eapply translates_table.
      * done.
      * rewrite fn_lookup_insert. unfold f. by rewrite decide_True.
  - exists Ts. apply rtc_once, Hone; [done|]. apply tstep_env.
Qed.

Lemma tlbs_simulate b b' Ts : rtc system b b' → ∃ Ts', rtc tsystem (with_tlbs Ts b) (with_tlbs Ts' b').
Proof.
  intros Hr. revert Ts. induction Hr as [b|b b1 b2 Hs _ IH]; intros Ts; [by exists Ts|].
  assert (∃ Ts1, rtc tsystem (with_tlbs Ts b) (with_tlbs Ts1 b1)) as [Ts1 H1].
  { destruct Hs as [i b0 b1 Hs|i b0 c m' Hi Hc Hg].
    - destruct (step_tlbs Ts i b0 b1 Hs) as [Ts1 H]. exists Ts1. by apply rtc_once, (hv_boot _ _ i).
    - by eapply guest_tlbs. }
  destruct (IH Ts1) as [Ts2 H2]. exists Ts2. by etrans.
Qed.

(** A guest's address that its table translates can be in the cache. *)
Lemma tlbs_walked b b' Ts i c va x :
  rtc system b b' → b_cpus b' !! i = Some c → c_pc c = PcGuest → in_range (lv (b_sys b')) va →
  cpu_translate (lv (b_sys b')) i (b_sys b') va = Some x →
  ∃ Ts', rtc tsystem (with_tlbs Ts b) (with_tlbs Ts' b') ∧ Ts' i va = Some x.
Proof.
  intros Hr Hi Hc Hva Htr. destruct (tlbs_simulate b b' Ts Hr) as [Ts1 H1].
  exists (<[i := λ a, if decide (a = va) then Some x else None]> Ts1). split.
  - eapply rtc_r; [exact H1|]. apply (hv_guest _ _ i (with_tlbs Ts1 b') c (b_sys b', _)); [done|done|].
    apply tstep_walk. intros a y. case_decide; [subst|done]. intros [= <-]. by right.
  - by rewrite fn_lookup_insert, decide_True.
Qed.

(** ** Guests *)

Context (HBo : board_ok (T:=T) plat core_end parking_page C).
Abbreviation running := (running core_end parking_page C).

Definition tlb_running (x : tmachine) : Prop := running x.1 ∧ tlb_ok x.

Lemma exit_tlb i m Ts r g config_at e m' :
  running m → is_Some (cpu_table i m) → guest_writes (cpu_regs i m).1 r → (∀ a, C (config_at a)) →
  entered_guest (on_cpu i (arch_handle_exit (A:=unit) psci_invalid_address parking_page config_at e)
                   (set_cpu_regs i (r, g) m)) = Some m' →
  tlb_ok (m, Ts) → tlb_ok (m', after i (set_cpu_regs i (r, g) m) m' Ts).
Proof using PL HBo.
  intros (Hm & _ & _) Hsome Hr Hconf He Hok. pose proof (mo_ids _ _ _ _ _ _ _ Hm i Hsome) as Hi.
  destruct (guest_regs_ok _ _ _ _ _ _ i r g m Hr Hm) as [Hm1 Hn1].
  assert (∀ j, cpu_table j (set_cpu_regs i (r, g) m) = cpu_table j m) as Htab.
  { intros j. unfold cpu_table. rewrite cpu_regs_set. case_decide as Hij; [subst|done]. apply Hr. by left. }
  set (m1 := set_cpu_regs i (r, g) m) in *. destruct HBo as [_ _ _ Hcs Hpk _].
  pose proof (exit_orders 4096 (lv m) (levels_34 _) pool (Z.of_nat i) (given m1) (λ (k : Z) Hk, proj1 Hk)
    (sr_log (cpu_regs i m1).1) C parking_page (tables m1) (Hpk _ (levels_34 _))
    (λ c Hc, proj1 (Hcs _ (levels_34 _) c Hc)) psci_invalid_address config_at e Hconf (A:=unit) (load_cpu i m1)
    (conj (loaded_inv _ _ _ _ _ _ i m1 Hm1 (Hn1 i Hi)) (given_orders i m1))) as Hk.
  unfold entered_guest, on_cpu, zoom in He.
  destruct (arch_handle_exit _ _ _ _ (load_cpu i m1)) as [|[] s'| |]; try done. injection He as <-.
  destruct Hk as [_ Hk].
  apply (saved_tlb_ok i m m1 s' Ts eq_refl Htab Hk); [by right|exact Hok].
Qed.

(** What a CPU reaches at a guest's address, from its cache or by a walk. *)
Definition reaches i (x : tmachine) (va pa : Z) : Prop :=
  ∃ fl ps, x.2 i va = Some (pa, fl, ps) ∨
           (in_range (lv x.1) va ∧ cpu_translate (lv x.1) i x.1 va = Some (pa, fl, ps)).

Lemma reaches_permitted i x va pa :
  tlb_running x → is_Some (cpu_table i x.1) → ¬ pending (m_sys x.1) (Z.of_nat i) →
  reaches i x va pa → permitted C parking_page (Z.of_nat i) va pa.
Proof using PL HBo.
  intros [(Hm & _) Hok] Hs Hnp (fl & ps & [Ht|[Hva Htr]]); [by eapply Hok|]. destruct HBo as [_ _ _ Hcs Hpk Hps].
  by apply (confined 4096 (lv x.1) (levels_34 _) pool C parking_page (Hcs _ _) (Hpk _ (levels_34 _)) Hps
    i x.1 va pa fl ps).
Qed.

Lemma permitted_outside (k va pa : Z) : permitted C parking_page k va pa → ¬ in_pool 4096 pool pa.
Proof using HBo.
  destruct HBo as [_ _ _ Hcs _ Hps]. by apply (permitted_safe 4096 3 (or_introl eq_refl) pool C parking_page (Hcs _ _) Hps).
Qed.

Lemma tstep_running i x x' : tlb_running x → tstep i x x' → tlb_running x'.
Proof using PL HBo.
  intros [Hrun Hok] Hst. pose proof HBo as [_ _ _ Hcs Hpk Hps].
  destruct Hst as [m Ts r g cat e m' Hs Hr Hc He|m Ts f Hf|m Ts va pa fl ps v Hsome Hnp Ht|m Ts d r]; simpl in *.
  - split; [|by eapply exit_tlb].
    eapply (guest_phase core_end parking_page psci_invalid_address C Hcs Hpk Hps i m); [done|].
    by eapply rstep_exit.
  - split; [done|]. intros j Hj Hnp va pa fl ps. simpl in *. destruct (decide (j = i)) as [->|Hji].
    + rewrite fn_lookup_insert. intros Hx. eapply (reaches_permitted i (m, Ts)); [by split|done|done|].
      exists fl, ps. simpl. by apply Hf.
    + rewrite fn_lookup_insert_ne by done. by apply Hok.
  - pose proof (Hok i Hsome Hnp va pa fl ps Ht) as Hpe. split; [|exact Hok].
    destruct Hrun as (Hm & Hn & Hp). split_and!; [|done..].
    apply store_outside; [done|]. by eapply permitted_outside.
  - split; [|exact Hok]. destruct Hrun as (Hm & Hn & Hp). split_and!; [|done..]. by apply devices_step.
Qed.

(** ** From reset *)

Lemma tstep_par i x x' : tstep i x x' → s_par (m_sys x'.1) = s_par (m_sys x.1).
Proof using.
  intros [m Ts r g cat e m' Hs Hr Hc He|m Ts f Hf|m Ts va pa fl ps v Hsome Hnp Ht|m Ts d r]; [|done..].
  by apply (rstep_par (D:=D) parking_page psci_invalid_address C (lv m) i), (rstep_exit _ _ _ _ i m r g cat e m').
Qed.

Lemma lifted i x o y : lift_step i x o = Some y → ∃ m', o = Some m' ∧ y = (m', after i x.1 m' x.2).
Proof using. intros (m' & H & ->)%fmap_Some. eauto. Qed.

Lemma tlb_acts_ok : actions_ok tlb_actions (λ _, True) (λ _, True).
Proof using.
  destruct (acts_ok (D:=D) plat core_end parking_page psci_invalid_address poll) as [H1 H2 H3 H4 H5 H6 H7].
  split; simpl; [|intros i x; apply (H2 i x.1)|intros i x; apply (H3 i x.1)|..];
    [intros x; apply (H1 x.1)|..]; intros i x y (m' & Hr & ->)%lifted _; simpl.
  - by apply (H4 i).
  - by apply (H5 i).
  - by apply (H6 i).
  - by apply (H7 i).
Qed.

(** In every interleaving of the boot and of guests that already run, with any caches at
    reset, once a CPU has a table. *)
Lemma tlb_reachable m Ts e1 e2 e3 e4 b i :
  cold untouched_pool m → rtc tsystem (reset_state (m, Ts) e1 e2 e3 e4 [0%nat]) b →
  is_Some (cpu_table i (b_sys b).1) → tlb_running (b_sys b).
Proof using All.
  intros Hm Hr [t Ht]. pose proof HBo as [(E1 & E2 & E3) E4 E5 E6 E7 E8].
  destruct (phased_reachable tlb_actions tstep tlb_acts_ok (λ i x x' Hs, f_equal parange_ok_cpus (tstep_par i x x' Hs))
    (λ x, cold untouched_pool x.1) (λ x, cleared plat x.1) tlb_running)
    with (s:=(m, Ts)) (e1:=e1) (e2:=e2) (e3:=e3) (e4:=e4) (b:=b) as [I Hp]; try done; simpl.
  - intros x. apply clear_phase.
  - intros k x. apply new_phase.
  - intros k x _. apply parange_phase.
  - intros x y Hx (m' & Ha & ->)%lifted. split; simpl.
    + eapply (early_phase plat core_end parking_page psci_invalid_address poll C); [done..| |exact Hx|exact Ha].
      unfold NCPU, MAX_CPU_NUM. lia.
    + apply no_tables_tlb_ok. simpl. eapply early_tables; [exact Ha|]. apply Hx.
  - intros k x y Hk [Hx Hok] (m' & Ha & ->)%lifted. destruct x as [m0 Ts0]. split; simpl in *.
    + eapply robust_phase; [exact Hk|exact Hx|exact Ha|apply percpu_robust].
    + eapply robust_tlb; [exact Ha|apply percpu_robust|exact Hok].
  - intros k x y Hk [Hx Hok] (m' & Ha & ->)%lifted. destruct x as [m0 Ts0]. split; simpl in *.
    + eapply robust_phase; [exact Hk|exact Hx|exact Ha|apply late_robust].
    + eapply robust_tlb; [exact Ha|apply late_robust|exact Hok].
  - intros k x y Hk [Hx Hok] (m' & Ha & ->)%lifted. destruct x as [m0 Ts0]. split; simpl in *.
    + eapply run_phase; [exact E7|exact Hk|exact Hx|exact Ha].
    + eapply run_tlb; [exact Ha|exact Hok].
  - apply tstep_running.
  - clear I. unfold phased, phase in Hp. destruct (_ <=? 1)%nat; [by rewrite (cd_tables _ _ Hp) in Ht|].
    destruct (_ <=? 15)%nat; [|done]. destruct Hp as [Hc _]. by rewrite (cd_tables _ _ Hc) in Ht.
Qed.

End tlb.
