(* ===== verification/DemoBoot.v ===== *)
(** * A machine that boots the QEMU platform

    The frame pool's bitmap is one number, with the laws the allocator relies on; the
    machine before reset, the actions and a schedule that boots it. *)

From S2P Require Import Prelude PhysMem HvError Addr Frame Region Pte S2pt PtIface Paging.
From S2P Require Import PtInstance BTreeMap MemorySet CpuSet Mmio Config Platform Sys ZoneOps Gic Event.
From S2P Require Import Vgic Hypercall Demo DemoSys Stable SysFrame Boot BootInv BootSys.

(** A bitmap as one number, searched from bit 0. *)
Definition first_bit (s : Z) : option Z := if s =? 0 then None else Some (Z.log2 (Z.land s (- s))).

Definition run_at (n al i s : Z) : bool :=
  (i mod 2 ^ al =? 0) && (Z.land (Z.shiftr s i) (Z.ones n) =? Z.ones n).

#[global] Instance bit_mask : BitAlloc Z := {
  ba_default := 0;
  ba_insert lo hi s := if lo <? hi then Z.lor (Z.shiftl (Z.ones (hi - lo)) lo) s else s;
  ba_alloc s := match first_bit s with Some i => (Some i, Z.clearbit s i) | None => (None, s) end;
  ba_alloc_contiguous n al s :=
    match find (λ i, run_at n al i s) (seqZ 0 (Z.log2 s)) with
    | Some i => (Some i, Z.ldiff s (Z.shiftl (Z.ones n) i))
    | None => (None, s)
    end;
  ba_dealloc i s := if Z.testbit s i then None else Some (Z.setbit s i);
  ba_test s i := Z.testbit s i
}.

(** The bits of a run. *)
Lemma run_bits lo n j : 0 ≤ lo → 0 ≤ n → Z.testbit (Z.shiftl (Z.ones n) lo) j = bool_decide (lo ≤ j < lo + n).
Proof.
  intros Hlo Hn. destruct (decide (j < 0)) as [Hj|Hj].
  - rewrite Z.testbit_neg_r by done. symmetry. apply bool_decide_eq_false. lia.
  - rewrite Z.shiftl_spec by lia. destruct (decide (lo ≤ j)) as [H1|H1].
    + rewrite Z.testbit_ones_nonneg by lia. apply eq_true_iff_eq. rewrite Z.ltb_lt, bool_decide_eq_true. lia.
    + rewrite Z.testbit_neg_r by lia. symmetry. apply bool_decide_eq_false. lia.
Qed.

Lemma low_bit_nonzero s : s ≠ 0 → 0 < Z.land s (- s).
Proof.
  assert (∀ a, 0 < a → 0 < Z.land a (- a)) as Hpos.
  { intros a Ha. assert (Z.land a (- a) = Z.ldiff a (a - 1)) as ->.
    { rewrite Z.ldiff_land. f_equal. unfold Z.lnot. lia. }
    assert (0 ≤ Z.ldiff a (a - 1)) as H0 by (apply Z.ldiff_nonneg; lia).
    destruct (decide (Z.ldiff a (a - 1) = 0)) as [He|He]; [|lia].
    apply Z.ldiff_le in He; lia. }
  intros Hs. destruct (decide (0 < s)) as [H|H]; [by apply Hpos|].
  rewrite Z.land_comm. rewrite <- (Z.opp_involutive s) at 2. apply Hpos. lia.
Qed.

Lemma first_bit_some s i : first_bit s = Some i → Z.testbit s i = true ∧ 0 ≤ i.
Proof.
  unfold first_bit. destruct (s =? 0) eqn:Hs; [done|]. apply Z.eqb_neq in Hs. intros [= <-].
  pose proof (Z.bit_log2 _ (low_bit_nonzero s Hs)) as H. rewrite Z.land_spec in H.
  apply andb_true_iff in H as [H _]. split; [done|apply Z.log2_nonneg].
Qed.

#[global] Instance bit_mask_laws : BitAllocLaws Z.
Proof.
  split; cbn.
  - apply Z.bits_0.
  - intros lo hi s j Hlo _. destruct (lo <? hi) eqn:H.
    + apply Z.ltb_lt in H. rewrite Z.lor_spec, run_bits by lia. f_equal. apply bool_decide_ext. lia.
    + apply Z.ltb_ge in H. rewrite bool_decide_eq_false_2 by lia. done.
  - intros s i s'. destruct (first_bit s) as [k|] eqn:E; [|done]. intros [= -> <-].
    apply first_bit_some in E as [Hi H0]. split; [done|]. intros j. rewrite Z.clearbit_eqb by done. f_equal.
    apply eq_true_iff_eq. rewrite negb_true_iff, Z.eqb_neq, bool_decide_eq_true. done.
  - intros s s'. unfold first_bit. destruct (s =? 0) eqn:H; [|done]. apply Z.eqb_eq in H as ->.
    intros [= <-]. split; [apply Z.bits_0|done].
  - intros n al s i s' Hn Hal. destruct (find _ _) as [k|] eqn:E; [|done]. intros [= -> <-].
    apply find_some in E as [Hk [E1 E2]%andb_true_iff]. apply list_elem_of_In, elem_of_seqZ in Hk.
    apply Z.eqb_eq in E1, E2. split; [done|]. split.
    + intros j Hj. assert (Z.testbit (Z.land (Z.shiftr s i) (Z.ones n)) (j - i) = true) as H.
      { rewrite E2. rewrite Z.testbit_ones_nonneg by lia. lia. }
      rewrite Z.land_spec, Z.shiftr_spec in H by lia. apply andb_true_iff in H as [H _]. by rewrite <- H; f_equal; lia.
    + intros j. rewrite Z.ldiff_spec, run_bits by lia. done.
  - intros n al s s'. destruct (find _ _); [done|]. by intros [= <-].
  - intros i s Hi Ht. rewrite Ht. eexists. split; [done|]. intros j. rewrite Z.setbit_eqb by lia.
    rewrite orb_comm. f_equal. apply eq_true_iff_eq. rewrite Z.eqb_eq, bool_decide_eq_true. lia.
Qed.

(** Before reset: memory and the bus hold zeros, no frame is free yet; each CPU
    has its number in MPIDR_EL1 and supports 40-bit physical addresses. *)
Definition qemu_regs (i : Z) : sysregs * GeneralRegisters :=
  (regs_of [("MPIDR_EL1"%string, i); ("ID_AA64MMFR0_EL1"%string, 2)], mkRegs 0 (replicate 31 0)).

Definition qemu_machine : machine (world (Z)) HvPageTable mem :=
  mkMachine
    (mkSys (mkW ∅ FrameAllocator_empty) ∅ ∅ [] ∅ None (mkBridgeRegion 0 false) demo_bridge bt_empty None
       (mkPar 7 0) (mkSysregs ∅ []) (mkRegs 0 (replicate 31 0)) (replicate 4096 0) None)
    (<[0%nat := qemu_regs 0]> (<[1%nat := qemu_regs 1]> (<[2%nat := qemu_regs 2]>
       (<[3%nat := qemu_regs 3]> ∅)))) None.

Definition qemu_actions : actions (machine (world (Z)) HvPageTable mem) :=
  boot_actions qemu_aarch64 0x40500000 0x40480000 0xffff 8.

Definition qemu_reset : boot (machine (world (Z)) HvPageTable mem) :=
  reset_state qemu_machine 7 7 7 7 [0%nat].

(** Round robin; a CPU that waits is passed over. *)
Definition rounds (n : nat) : list nat := concat (replicate n [0%nat; 1%nat; 2%nat; 3%nat]).

Definition qemu_end : boot (machine (world Z) HvPageTable mem) :=
  run_schedule qemu_actions (rounds 23) qemu_reset.

Lemma qemu_boots :
  b_cpus qemu_end =
  [mkCpuState PcGuest true; mkCpuState PcGuest false; mkCpuState PcGuest false; mkCpuState PcGuest false].
Proof. vm_compute. reflexivity. Qed.
