(* ===== verification/Shutdown.v ===== *)
(** * What a shut down zone leaves behind

    A run of the booted QEMU machine: the root zone starts a zone on CPU 2, shuts it
    down again and starts another one on CPU 3 before CPU 2 has taken the interrupt that
    tells it to leave. *)

From S2P Require Import Prelude PhysMem HvError Addr Frame Region Pte S2pt PtIface Paging PagingWf.
From S2P Require Import PtInstance BTreeMap MemorySet CpuSet Mmio Config Platform Sys ZoneOps Gic Event.
From S2P Require Import Virtio Vgic Hypercall Trap Robust Spaces ZoneLife ZoneInv Demo DemoSys Boot BootInv BootSys.
From S2P Require Import BootPhase Runtime BootRun DemoBoot.

Abbreviation qmachine := (machine (world Z) HvPageTable mem).

(** 4M of memory each, for CPU 2 and for CPU 3. *)
Definition zone_a : HvZoneConfig := demo_config 1 0x4 0x50000000 0xd0000000.
Definition zone_b : HvZoneConfig := demo_config 2 0x8 0x50000000 0xe0000000.

Definition config_at (a : Z) : HvZoneConfig := if a =? 1 then zone_a else zone_b.

(** *** The board *)

Definition qemu_configs (c : HvZoneConfig) : Prop := c ∈ [root_config qemu_aarch64; zone_a; zone_b].

(** A region of whole pages, below both limits and outside the pool of the QEMU board. *)
Definition region_check (r : HvConfigMemoryRegion) : bool :=
  (virtual_start r mod PAGE_SIZE =? 0) && (cr_size r mod PAGE_SIZE =? 0) && (physical_start r mod PAGE_SIZE =? 0) &&
  (0 <=? virtual_start r) && (0 <=? cr_size r) && (0 <=? physical_start r) &&
  (virtual_start r + cr_size r <=? 2 ^ 39) && (physical_start r + cr_size r <=? 2 ^ 48) &&
  ((physical_start r + cr_size r <=? 0x40700000) || (0x41700000 <=? physical_start r)).

Definition config_check (c : HvZoneConfig) : bool :=
  forallb (λ r, negb (is_memory r) || region_check r) (config_regions c) && forallb (Z.leb 0) (config_irqs c).

Lemma qemu_mappable L v p sz fl :
  L = 3%nat ∨ L = 4%nat → v mod PAGE_SIZE = 0 → sz mod PAGE_SIZE = 0 → 0 ≤ v → 0 ≤ sz → v + sz ≤ 2 ^ 39 →
  region_mappable (pte_format (P:=s2_pte)) (va_limit L) (new_with_offset_mapper v p sz fl).
Proof.
  intros HL H1 H2 H3 H4 H5. assert (2 ^ 39 ≤ va_limit L) by (by destruct HL as [->| ->]).
  split_and!; try done; [apply mapper_ok_offset|simpl; lia].
Qed.

Lemma qemu_safe start size :
  start mod PAGE_SIZE = 0 → 0 ≤ start → 0 ≤ size → start + size ≤ 2 ^ 48 →
  start + size ≤ 0x40700000 ∨ 0x41700000 ≤ start → phys_safe 4096 0x40700000 start size.
Proof. intros. split_and!; try done. intros b Hb. unfold in_pool, PAGE_SIZE. lia. Qed.

Lemma region_check_ok r :
  region_check r = true →
  (virtual_start r mod PAGE_SIZE = 0 ∧ cr_size r mod PAGE_SIZE = 0 ∧ 0 ≤ virtual_start r ∧ 0 ≤ cr_size r ∧
   virtual_start r + cr_size r ≤ 2 ^ 39) ∧ phys_safe 4096 0x40700000 (physical_start r) (cr_size r).
Proof.
  unfold region_check. rewrite !andb_true_iff, orb_true_iff.
  intros ((((((((H1 & H2) & H3) & H4) & H5) & H6) & H7) & H8) & H9). split; [lia|apply qemu_safe; lia].
Qed.

Lemma config_check_safe L HL34 c : config_check c = true → config_safe (T:=Z) (P:=s2_pte) 4096 L HL34 0x40700000 c.
Proof.
  unfold config_check. rewrite andb_true_iff, !forallb_forall. setoid_rewrite <- list_elem_of_In. intros [H1 H2].
  assert (∀ r, r ∈ config_regions c → is_memory r = true → region_check r = true) as H.
  { intros r Hr Hm. specialize (H1 r Hr). by rewrite Hm in H1. }
  split; [split|].
  - intros r Hr Hm. destruct (region_check_ok r (H r Hr Hm)) as [(? & ? & ? & ? & ?) _]. by apply qemu_mappable.
  - intros i Hi. by apply Z.leb_le, H2.
  - intros r Hr Hm. by apply region_check_ok, H.
Qed.

Lemma qemu_board : board_ok (T:=Z) (P:=s2_pte) qemu_aarch64 0x40500000 0x40480000 qemu_configs.
Proof.
  split.
  - done.
  - done.
  - by left.
  - intros L HL34 c Hc. apply config_check_safe. unfold qemu_configs in Hc.
    repeat (apply elem_of_cons in Hc as [->|Hc]; [reflexivity|]). by apply not_elem_of_nil in Hc.
  - intros L HL. by apply qemu_mappable.
  - apply qemu_safe; done || (left; done).
Qed.

Lemma qemu_cold : cold untouched_pool qemu_machine.
Proof.
  split; try done.
  - intros i. do 4 (destruct i as [|i]; [done|]). unfold cpu_table, cpu_regs. simpl.
    by rewrite !lookup_insert_ne, lookup_empty by done.
  - intros i Hi. unfold NCPU, MAX_CPU_NUM in Hi. do 4 (destruct i as [|i]; [done|]). lia.
Qed.

(** The system of the properties, on this board. *)
Abbreviation qemu_system :=
  (hv_step qemu_actions (guest_step (P:=s2_pte) 0x40480000 0xffff qemu_configs)).

Lemma qemu_end_reachable : rtc qemu_system qemu_reset qemu_end.
Proof. eapply steps_system, run_steps. Qed.

(** *** Exits *)

(** The guest on CPU [i] exits with these values in its registers. *)
Definition exit_with (kvs : list (string * Z)) (x : sysregs) : sysregs :=
  foldr (λ kv, write_reg kv.1 kv.2) x kvs.

Definition guest_exit (i : nat) (kvs : list (string * Z)) (g : GeneralRegisters) (m : qmachine) : option qmachine :=
  match cpu_table i m with
  | Some _ =>
      entered_guest (on_cpu i (arch_handle_exit (A:=unit) 0xffff 0x40480000 config_at [])
        (set_cpu_regs i (exit_with kvs (cpu_regs i m).1, g) m))
  | None => None
  end.

(** A hypercall, and an inter-processor interrupt. *)
Definition hvc (i : nat) (code arg : Z) : qmachine → option qmachine :=
  guest_exit i [("ESR_EL2"%string, Z.shiftl EC_HVC64 26)] (mkRegs EXIT_REASON_EL1_ABORT (code :: arg :: replicate 29 0)).
Definition ipi (i : nat) : qmachine → option qmachine :=
  guest_exit i [("icc_iar1_el1"%string, SGI_IPI_ID)] (mkRegs EXIT_REASON_EL1_IRQ (replicate 31 0)).

(** Exits one after the other, as long as the hypervisor returns to the guest. *)
Fixpoint run_exits (l : list (qmachine → option qmachine)) (m : qmachine) : option qmachine :=
  match l with
  | [] => Some m
  | f :: l' => match f m with Some m' => run_exits l' m' | None => None end
  end.

(** The root zone on CPU 0 starts zone 1, CPU 2 is woken, the root zone shuts zone 1 down
    and starts zone 2. *)
Definition calls : list (qmachine → option qmachine) := [hvc 0 2 1; ipi 2; hvc 0 3 1; hvc 0 2 2].

(** Each exit is a step of the system. *)
Definition steps_guest (f : qmachine → option qmachine) : Prop :=
  ∀ m m', f m = Some m' → ∃ i, (i < 4)%nat ∧ guest_step (P:=s2_pte) 0x40480000 0xffff qemu_configs i m m'.

Lemma exit_steps i kvs g :
  (i < 4)%nat → Forall (λ k, k ∉ protected_regs) kvs.*1 → steps_guest (guest_exit i kvs g).
Proof.
  intros Hi Hk m m'. unfold guest_exit. destruct (cpu_table i m) as [t|] eqn:Ht; [|done]. intros He.
  exists i. split; [done|]. eapply rstep_exit; [by eexists| |intros a|exact He].
  - clear He Ht. intros k Hin. unfold exit_with. induction kvs as [|[k' v] kvs IH]; simpl in *; [done|].
    apply Forall_cons in Hk as [Hne Hk]. rewrite lookup_insert_ne by (by intros ->). by apply IH.
  - unfold config_at, qemu_configs. destruct (a =? 1); [right; by left|right; right; by left].
Qed.

Lemma run_exits_reachable (Q : qmachine → Prop) l b0 b :
  rtc qemu_system b0 b → (∀ i, (i < 4)%nat → ∃ c, b_cpus b !! i = Some c ∧ c_pc c = PcGuest) →
  Forall steps_guest l → match run_exits l (b_sys b) with Some m => Q m | None => False end →
  ∃ b', rtc qemu_system b0 b' ∧ b_cpus b' = b_cpus b ∧ Q (b_sys b').
Proof.
  intros Hb Hc Hl. revert b Hb Hc. induction Hl as [|f l Hf0 Hl IH]; intros b Hb Hc Hm; cbn [run_exits] in Hm.
  - by exists b.
  - destruct (f (b_sys b)) as [m1|] eqn:Hf; [|done]. destruct (Hf0 _ _ Hf) as (i & Hi & Hs).
    destruct (Hc i Hi) as (c & Hci & Hpc).
    apply (IH (set_sys m1 b)); [|done..]. eapply rtc_r; [exact Hb|]. by eapply hv_guest.
Qed.

Lemma hvc_steps i code arg : (i < 4)%nat → steps_guest (hvc i code arg).
Proof.
  intros Hi. unfold hvc. apply exit_steps; [done|]. constructor; [unprotected|constructor].
Qed.

Lemma ipi_steps i : (i < 4)%nat → steps_guest (ipi i).
Proof.
  intros Hi. unfold ipi. apply exit_steps; [done|]. constructor; [unprotected|constructor].
Qed.

Lemma qemu_guests i : (i < 4)%nat → ∃ c, b_cpus qemu_end !! i = Some c ∧ c_pc c = PcGuest.
Proof.
  intros Hi. rewrite qemu_boots. do 4 (destruct i as [|i]; [by eexists|]). lia.
Qed.

Lemma calls_step : Forall steps_guest calls.
Proof.
  unfold calls. apply Forall_cons_2; [apply hvc_steps; lia|]. apply Forall_cons_2; [apply ipi_steps; lia|].
  do 2 (apply Forall_cons_2; [apply hvc_steps; lia|]). apply Forall_nil_2.
Qed.

(** How the run ends. *)
Definition window (m : qmachine) : Prop :=
  s_events (m_sys m) = Some [[]; []; [IPI_EVENT_SHUTDOWN]; [IPI_EVENT_WAKEUP]] ∧
  cpu_translate (P:=s2_pte) 3 2 m 0x50000000 = Some (0xe0000000, 3, Size2M) ∧
  levels (s_par (m_sys m)) = 3%nat.

Lemma calls_end : match run_exits calls (b_sys qemu_end) with Some m => window m | None => False end.
Proof. vm_compute. split_and!; reflexivity. Qed.

(** The memory at 0xe0000000 is not for CPU 2. *)
Lemma not_for_cpu_2 va : ¬ permitted qemu_configs 0x40480000 2 va 0xe0000000.
Proof.
  intros [(c & r & Hc & Hi & Hr & _ & _ & Hp & _)|[Hva He]]; [|unfold PHYS_VIRT_OFFSET, PAGE_SIZE in *; lia].
  unfold qemu_configs in Hc. rewrite !elem_of_cons, elem_of_nil in Hc.
  destruct Hc as [->|[->|[->|[]]]]; apply cpus_elem in Hi as [_ Hi]; try done.
  apply list_elem_of_singleton in Hr as ->. unfold in_phys in Hp. simpl in Hp. lia.
Qed.

(** C36: Why the properties of running guests exclude a CPU that has been told to shut
    down: on the QEMU board, after zone [zone_a] with CPU 2 has been started, shut down,
    and [zone_b] started, CPU 2 has a pending shutdown event, still runs its guest, and
    the table it translates with has been freed and reused for [zone_b]: it reaches
    memory at 0xe0000000 that no configuration gives to CPU 2. *)
Theorem shutdown_window :
  ∃ b fl ps, rtc qemu_system qemu_reset b ∧
    (∃ c, b_cpus b !! 2%nat = Some c ∧ c_pc c = PcGuest) ∧
    pending (m_sys (b_sys b)) 2 ∧
    cpu_translate (P:=s2_pte) (levels (s_par (m_sys (b_sys b)))) 2 (b_sys b) 0x50000000 = Some (0xe0000000, fl, ps) ∧
    ¬ permitted qemu_configs 0x40480000 2 0x50000000 0xe0000000.
Proof.
  destruct (run_exits_reachable window calls qemu_reset qemu_end qemu_end_reachable qemu_guests calls_step calls_end)
    as (b & Hb & Hc & Hev & Htr & Hlv).
  exists b, 3, Size2M. split; [exact Hb|]. split_and!.
  - rewrite Hc. apply qemu_guests. lia.
  - eexists. split; [exact Hev|]. apply elem_of_cons. left. reflexivity.
  - rewrite Hlv. exact Htr.
  - apply not_for_cpu_2.
Qed.
