(* ===== verification/SystemSafe.v ===== *)
(** * The whole hypervisor, from reset on

    Properties of every state the machine can reach when the CPUs boot, guests run,
    store to their memory and exit, and the root zone starts and stops zones, in any
    interleaving. *)

From S2P Require Import Prelude PhysMem HvError Addr Frame FramePool Region Pte S2pt PtIface Paging PagingWf.
From S2P Require Import PagingSpec PtInstance Stable PtAccount BTreeMap MemorySet CpuSet Mmio Config Platform Sys ZoneOps.
From S2P Require Import Gic Event Virtio Vgic Hypercall Trap SysFrame Robust Spaces ZoneLife ZoneInv ExitInv.
From S2P Require Import Boot BootInv BootSys BootPhase Runtime BootRun Tlb Demo DemoSys DemoBoot Shutdown.

Section safe.
  Context {T : Type} {HB : BitAlloc T} {HL : BitAllocLaws T}.
  Context {P : GenericPTE} {PL : GenericPTELaws P} {D : Type} {B : Bus D}.
  Context (plat : platform) (core_end parking_page psci_invalid_address : Z) (poll : nat).
  Context (C : HvZoneConfig → Prop).
  Abbreviation pool := (core_end + 0x200000).
  Abbreviation park := (parking_page - PHYS_VIRT_OFFSET).
  Abbreviation machine := (machine (world T) HvPageTable D).
  Abbreviation acts := (boot_actions (PT:=HvPageTable) (D:=D) plat core_end parking_page psci_invalid_address poll).
  Abbreviation system := (hv_step acts (guest_step parking_page psci_invalid_address C)).
  Abbreviation board := (board_ok (T:=T) plat core_end parking_page C).
  Abbreviation tsystem := (hv_step (tlb_actions plat core_end parking_page psci_invalid_address poll)
    (tstep parking_page psci_invalid_address C)).
  Context (m : machine) (e1 e2 e3 e4 : Z).
  Abbreviation reset := (reset_state m e1 e2 e3 e4 [0%nat]).
  Abbreviation lv b := (levels (s_par (m_sys (b_sys b)))).

(** In every reachable state with a guest, and after the early initialisation. *)
Lemma reachable_guest b i c :
  board → cold untouched_pool m → rtc system reset b → b_cpus b !! i = Some c → c_pc c = PcGuest →
  machine_ok 4096 (lv b) (levels_34 _) pool C parking_page (b_sys b).
Proof using PL HL.
  intros HBo Hm Hr Hi Hc.
  apply (board_guest_running plat core_end parking_page psci_invalid_address poll C HBo m e1 e2 e3 e4 Hm b i c Hr Hi Hc).
Qed.

Lemma reachable_early b :
  board → cold untouched_pool m → rtc system reset b → (rank PcEarly < rk (b_cpus b) 0)%nat →
  machine_ok 4096 (lv b) (levels_34 _) pool C parking_page (b_sys b).
Proof using PL HL.
  intros HBo Hm Hr Hrk.
  by apply (board_running plat core_end parking_page psci_invalid_address poll C HBo m e1 e2 e3 e4 Hm b Hr).
Qed.

(** What [Runtime] says of such a state. *)
Lemma reachable_permitted b i c va pa fl ps :
  board → cold untouched_pool m → rtc system reset b → b_cpus b !! i = Some c → c_pc c = PcGuest →
  ¬ pending (m_sys (b_sys b)) (Z.of_nat i) → in_range (lv b) va →
  cpu_translate (lv b) i (b_sys b) va = Some (pa, fl, ps) → permitted C parking_page (Z.of_nat i) va pa.
Proof using PL HL.
  intros HBo Hm Hr Hi Hc. pose proof (reachable_guest _ _ _ HBo Hm Hr Hi Hc) as Hok. destruct HBo as [_ _ _ H6 H7 H8].
  by apply (confined 4096 (lv b) (levels_34 _) pool C parking_page (H6 _ _) (H7 _ (levels_34 _)) H8).
Qed.


(** Confinement: in every reachable state, a CPU in a guest that has not been told to
    shut down reaches, at any guest address the hardware translates, exactly the memory
    that the configuration of a zone with this CPU places there, or the parking page;
    never the frame pool that holds the page tables. *)
Theorem guest_memory_confined b i c va pa fl ps :
  board → cold untouched_pool m → rtc system reset b → b_cpus b !! i = Some c → c_pc c = PcGuest →
  ¬ pending (m_sys (b_sys b)) (Z.of_nat i) → in_range (lv b) va →
  cpu_translate (lv b) i (b_sys b) va = Some (pa, fl, ps) →
  permitted C parking_page (Z.of_nat i) va pa ∧ ¬ in_pool 4096 pool pa.
Proof using PL HL.
  intros HBo Hm Hr Hi Hc Hp Hva Htr. assert (permitted C parking_page (Z.of_nat i) va pa) as Hpe
    by (by eapply reachable_permitted).
  split; [done|]. by eapply permitted_safe; [apply (bo_configs _ _ _ _ HBo _ (levels_34 (mkPar 0 0)))|apply HBo|].
Qed.





End safe.

(** ** The booted QEMU machine *)

Lemma qemu_events : s_events (m_sys (b_sys qemu_end)) = Some [[]; []; []; []].
Proof. vm_compute. reflexivity. Qed.

Lemma qemu_levels : levels (s_par (m_sys (b_sys qemu_end))) = 3%nat.
Proof. vm_compute. reflexivity. Qed.

Lemma qemu_translate :
  cpu_translate (P:=s2_pte) 3 0 (b_sys qemu_end) 0x50001234 = Some (0x50001234, 3, Size2M).
Proof. vm_compute. reflexivity. Qed.

Lemma qemu_not_pending j : ¬ pending (m_sys (b_sys qemu_end)) j.
Proof.
  intros (em & He & Hin). rewrite qemu_events in He. injection He as <-. unfold queue in Hin.
  destruct (Z.to_nat j) as [|[|[|[|k]]]]; by apply not_elem_of_nil in Hin.
Qed.

(** CPU [i] of it. *)
Definition in_guest (i : nat) : cpu_state := mkCpuState PcGuest (i =? 0)%nat.

Lemma qemu_cpu i : (i < 4)%nat → b_cpus qemu_end !! i = Some (in_guest i).
Proof. intros Hi. rewrite qemu_boots. do 4 (destruct i as [|i]; [reflexivity|]). lia. Qed.

Lemma qemu_rank : (rank PcEarly < rk (b_cpus qemu_end) 0)%nat.
Proof. rewrite (rk_some _ _ _ (qemu_cpu 0 ltac:(lia))). simpl. lia. Qed.

Lemma qemu_range va : 0 ≤ va < 2 ^ 39 → in_range (levels (s_par (m_sys (b_sys qemu_end)))) va.
Proof. rewrite qemu_levels. by intros H. Qed.

Lemma qemu_translates :
  cpu_translate (P:=s2_pte) (levels (s_par (m_sys (b_sys qemu_end)))) 0 (b_sys qemu_end) 0x50001234 =
  Some (0x50001234, 3, Size2M).
Proof. rewrite qemu_levels. exact qemu_translate. Qed.

Abbreviation on_qemu th := (th qemu_aarch64 0x40500000 0x40480000 0xffff 8%nat qemu_configs qemu_machine 7 7 7 7).


Lemma guest_memory_confined_witness :
  permitted qemu_configs 0x40480000 0 0x50001234 0x50001234 ∧ ¬ in_pool 4096 (0x40500000 + 0x200000) 0x50001234.
Proof.
  exact (on_qemu (guest_memory_confined (T:=Z) (P:=s2_pte) (D:=mem)) qemu_end 0%nat (in_guest 0) 0x50001234 0x50001234
    3 Size2M qemu_board qemu_cold qemu_end_reachable (qemu_cpu 0 ltac:(lia)) eq_refl (qemu_not_pending _)
    (qemu_range 0x50001234 ltac:(lia)) qemu_translates).
Defined.

(** CPUs 1 and 2 are parked. *)
Lemma qemu_parked :
  cpu_translate (P:=s2_pte) 3 1 (b_sys qemu_end) 0x10 = Some (0x40480010, 19, Size4K) ∧
  cpu_translate (P:=s2_pte) 3 2 (b_sys qemu_end) 0x10 = Some (0x40480010, 19, Size4K).
Proof. vm_compute. split; reflexivity. Qed.

Abbreviation qemu_lv := (levels (s_par (m_sys (b_sys qemu_end)))).

Lemma qemu_parked_1 : cpu_translate (P:=s2_pte) qemu_lv 1 (b_sys qemu_end) 0x10 = Some (0x40480010, 19, Size4K).
Proof. rewrite qemu_levels. exact (proj1 qemu_parked). Qed.

Lemma qemu_parked_2 : cpu_translate (P:=s2_pte) qemu_lv 2 (b_sys qemu_end) 0x10 = Some (0x40480010, 19, Size4K).
Proof. rewrite qemu_levels. exact (proj2 qemu_parked). Qed.




Lemma qemu_table : is_Some (cpu_table 0 (b_sys qemu_end)).
Proof. exact (translates_table (P:=s2_pte) _ _ _ _ _ qemu_translates). Qed.

