(* ===== verification/LowProps.v ===== *)
(** * Properties of the lowest layer: guest registers, stacks, the console *)

From S2P Require Import Prelude PhysMem HvError Addr Mmio Sys Asm Console.

(** C29: A guest's registers survive an exit: the trap entry hands [arch_handle_exit] a
    [GeneralRegisters] with the exit reason and x0 to x30 as the guest had them, in the
    256 bytes below the CPU's stack top; and when the handler is done, [vmreturn] loads
    x0 to x30 from what the handler has left there and leaves the stack pointer where it
    was before the exit. *)
Theorem guest_registers_roundtrip c r c2 g :
  u64_regs c → is_u64 r → 256 ≤ sp c < U64 → length (usr g) = 31%nat →
  let c1 := exec (handle_vmexit r) c in
  x c2 0%nat = x c1 0%nat → stored (ram c2) (x c1 0%nat) (reg_words g) →
  (x c1 0%nat = sp c - 256 ∧ sp c1 = sp c - 256 ∧ stored (ram c1) (x c1 0%nat) (reg_words (mkRegs r (all_x c)))) ∧
  (∀ i v, usr g !! i = Some v → x (exec vmreturn_code c2) i = v) ∧ sp (exec vmreturn_code c2) = sp c.
Proof.
  intros Hu Hr Hsp Hl. destruct (vmexit_saves c r Hu Hr Hsp) as (H1 & H2 & _ & H4).
  pose proof (exit_then_return c r c2 g Hu Hr Hsp Hl) as He. revert H1 H2 H4 He. cbv zeta.
  generalize (exec (handle_vmexit r) c). intros c1 H1 H2 H4 He Hx Hs.
  rewrite H2, <- H1 in Hs. rewrite H2 in Hx |- *. rewrite H1 in H4.
  split; [by split_and!|]. apply He; [by rewrite H2|exact Hs].
Qed.

(** A guest with 31 different registers, on the stack of CPU 0 of the QEMU board. *)
Definition some_guest : core :=
  mkCore (λ i, Z.of_nat (i mod 32) + 0x100) (stack_top 0x40500000 0) (mkSysregs ∅ []) ∅.

Lemma some_guest_u64 : u64_regs some_guest.
Proof.
  intros i. unfold some_guest. cbn [x]. pose proof (Nat.mod_upper_bound i 32 ltac:(lia)). unfold is_u64, U64. lia.
Qed.

Lemma guest_registers_roundtrip_witness :
  (∀ i v, all_x some_guest !! i = Some v → x (exec vmreturn_code (exec (handle_vmexit 2) some_guest)) i = v) ∧
  sp (exec vmreturn_code (exec (handle_vmexit 2) some_guest)) = stack_top 0x40500000 0.
Proof.
  assert (is_u64 2) as H2 by (unfold is_u64, U64; lia).
  assert (256 ≤ sp some_guest < U64) as Hsp by (unfold some_guest, stack_top, PER_CPU_SIZE, U64; cbn [sp]; lia).
  destruct (vmexit_saves some_guest 2 some_guest_u64 H2 Hsp) as (H1 & H3 & _ & H4).
  refine (proj2 (guest_registers_roundtrip some_guest 2 (exec (handle_vmexit 2) some_guest)
    (mkRegs 2 (all_x some_guest)) some_guest_u64 H2 Hsp eq_refl eq_refl _)).
  rewrite H3, <- H1. exact H4.
Defined.


Definition some_record : LogRecord := mkRecord LInfo (Some 82) (chars "hvisor") (chars "Logging is enabled.").

