(* ===== verification/SystemProps.v ===== *)
(** * Properties of hypercalls and traps *)

From S2P Require Import Prelude PhysMem HvError Addr Frame Region Pte S2pt PtIface Paging.
From S2P Require Import PtInstance BTreeMap MemorySet CpuSet Mmio Config Sys ZoneOps Gic Event.
From S2P Require Import Virtio Vgic Hypercall Trap ZoneProps RuntimeProps ZoneLife Demo DemoSys.

Section traps.
  Context {W PT D : Type} {G : GenericPageTable W PT} {B : Bus D}.
  Context (psci_invalid_address : Z) (config_at : Z → HvZoneConfig).
  Abbreviation sys := (sys W PT D).
  Implicit Types (s : sys).

(** ** Hypercalls *)

(** The guest's registers after register [i] is set. *)
Definition with_usr (i v : Z) s : sys :=
  set_guest (mkRegs (exit_reason (s_guest s)) (<[Z.to_nat i := v]> (usr (s_guest s)))) s.

Lemma get_usr_eq {E} i v s : usr (s_guest s) !! Z.to_nat i = Some v → get_usr (E:=E) i s = ROk v s.
Proof. intros H. unfold get_usr, hbind, hgets. by rewrite H. Qed.

Lemma this_cpu_data_eq {E} s :
  this_cpu_data (E:=E) s =
  match s_cpus s !! mpidr_to_cpuid (default 0 (sr_val (s_regs s) !! "MPIDR_EL1"%string)) with
  | Some c => ROk c s
  | None => RPanic PUndef
  end.
Proof.
  destruct s. unfold this_cpu_data, this_cpu_id, get_cpu_data, with_regs, zoom, hbind, read_sysreg, hgets.
  simpl. by destruct (s_cpus !! _).
Qed.

Lemma is_root_cpu {E} s b :
  is_this_root_zone (E:=HvError) s = ROk b s → ∃ c, this_cpu_data (E:=E) s = ROk c s.
Proof.
  unfold is_this_root_zone, this_zone, hbind. rewrite !this_cpu_data_eq.
  destruct (s_cpus s !! _); [by eexists|done].
Qed.

Lemma hypercall_not_root code arg0 s :
  is_this_root_zone (E:=HvError) s = ROk false s →
  hypercall psci_invalid_address config_at code arg0 s =
  match hypercall_code code with
  | Some _ => RErr (hv_err EPERM) s
  | None => ROk 0 s
  end.
Proof.
  intros H. unfold hypercall. destruct (hypercall_code code) as [[]|]; [..|done];
    unfold hv_virtio_init, hv_virtio_inject_irq, hv_zone_start, hv_zone_shutdown, hbind; by rewrite H.
Qed.


(** ** Powering on a CPU *)


(** ** Trapped writes of ICC_SGI1R_EL1 *)

(** The value of a system register, and the state after a write. *)
Definition reg (r : string) s : Z := default 0 (sr_val (s_regs s) !! r).
Definition wrote (r : string) (v : Z) s : sys :=
  set_regs (mkSysregs (<[r := v]> (sr_val (s_regs s))) (sr_log (s_regs s) ++ [(r, v)])) s.

Lemma read_sysreg_eq {E} r s : with_regs (E:=E) (read_sysreg r) s = ROk (reg r s) s.
Proof. by destruct s. Qed.
Lemma write_sysreg_eq {E} r v s : with_regs (E:=E) (write_sysreg r v) s = ROk tt (wrote r v s).
Proof. done. Qed.

Lemma skip_instruction_eq {E} s :
  esr_il (reg "ESR_EL2" s) = 1 → reg "ELR_EL2" s + 4 < U64 →
  arch_skip_instruction (E:=E) s = ROk tt (wrote "ELR_EL2" (reg "ELR_EL2" s + 4) s).
Proof.
  intros Hil Hpc. unfold arch_skip_instruction, hbind. rewrite !read_sysreg_eq, Hil.
  unfold uadd. simpl. by rewrite (proj2 (Z.ltb_lt _ _) Hpc).
Qed.

(** The trapped write of ICC_SGI1R_EL1: the guest's value goes to the physical
    register unfiltered when the CPU is on, is dropped when it is off, and the
    instruction is skipped; but with the zero register as source (field 31, which
    names no element of [usr]) the hypervisor panics. *)
Theorem sysreg_trap_correct s c rt :
  this_cpu_data (E:=leave) s = ROk c s → length (usr (s_guest s)) = 31%nat →
  rt = Z.land (Z.shiftr (reg "ESR_EL2" s) 5) 0x1f →
  esr_il (reg "ESR_EL2" s) = 1 → reg "ELR_EL2" s + 4 < U64 →
  (rt = 31 → handle_sysreg s = RPanic PIndex) ∧
  (rt ≠ 31 → ∃ v, usr (s_guest s) !! Z.to_nat rt = Some v ∧
     handle_sysreg s =
     ROk tt (wrote "ELR_EL2" (reg "ELR_EL2" s + 4)
               (if psci_on c then wrote "icc_sgi1r_el1" v s else s))).
Proof.
  intros Hc Hl Hrt Hil Hpc. unfold handle_sysreg, hbind. rewrite read_sysreg_eq, <- Hrt. split.
  - intros ->. unfold get_usr, hbind, hgets. rewrite lookup_ge_None_2; [done|]. simpl. lia.
  - intros Hne. assert (0 ≤ rt < 2 ^ 5) as Hr.
    { rewrite Hrt. change 0x1f with (Z.ones 5). rewrite Z.land_ones by lia. by apply Z.mod_pos_bound. }
    destruct (lookup_lt_is_Some_2 (usr (s_guest s)) (Z.to_nat rt)) as [v Hv]; [lia|].
    exists v. split; [done|]. rewrite (get_usr_eq rt v) by done. rewrite Hc.
    destruct (psci_on c).
    + cbn [negb]. rewrite write_sysreg_eq.
      assert (∀ r, r ≠ "icc_sgi1r_el1"%string → reg r (wrote "icc_sgi1r_el1" v s) = reg r s) as Hreg.
      { intros r Hr'. unfold reg, wrote. simpl. by rewrite lookup_insert_ne. }
      rewrite skip_instruction_eq; by rewrite !Hreg.
    + cbn [negb]. unfold hret. by apply skip_instruction_eq.
Qed.

End traps.

(** ** Emulated loads *)

(** C37: the sign extension of an emulated byte load is wrong for every byte with
    its sign bit set: the register gets bits 8 to 39 set instead of 8 to 31 or 8 to
    63, because the last shift works on an unsigned value. An emulated 8-byte load
    with sign extension panics. *)
Theorem load_sign_extension_wrong {S E} (s : S) v :
  0x80 ≤ v < 0x100 →
  sign_extend (E:=E) v 1 s = ROk (v + (2 ^ 40 - 2 ^ 8)) s ∧
  v + (2 ^ 40 - 2 ^ 8) ≠ v + (2 ^ 32 - 2 ^ 8) ∧ v + (2 ^ 40 - 2 ^ 8) ≠ v + (2 ^ 64 - 2 ^ 8) ∧
  sign_extend (E:=E) v 8 s = RPanic POverflow.
Proof.
  intros Hv. split; [|split; [lia|split; [lia|done]]].
  unfold sign_extend, hbind, usub. change (8 * 1 <=? 32) with true.
  cbv beta iota. unfold hret. f_equal. change (32 - 8 * 1) with 24.
  rewrite Z.shiftl_mul_pow2, Z.shiftr_div_pow2 by lia.
  rewrite (Z.mod_small _ U64) by (unfold U64; lia). unfold as_i32_usize.
  rewrite Z.mod_small by (unfold U32; lia). rewrite (proj2 (Z.ltb_ge _ _)) by lia.
  unfold U64, U32. Z.div_mod_to_equations. lia.
Qed.

Lemma load_sign_extension_wrong_witness :
  sign_extend (E:=HvError) 0xff 1 tt = ROk (0xff + (2 ^ 40 - 2 ^ 8)) tt ∧
  0xff + (2 ^ 40 - 2 ^ 8) ≠ 0xff + (2 ^ 32 - 2 ^ 8) ∧ 0xff + (2 ^ 40 - 2 ^ 8) ≠ 0xff + (2 ^ 64 - 2 ^ 8) ∧
  sign_extend (E:=HvError) 0xff 8 tt = RPanic POverflow.
Proof. apply (load_sign_extension_wrong (E:=HvError) tt 0xff). lia. Defined.

(** ** CPU numbers *)

(** A zone's CPU set admits CPU [MAX_CPU_NUM]: a configuration that names CPU 4
    passes the check, although the memory for the data of CPU 4 is the start of the
    frame pool and no CPU was set up there; CPU 5 is refused. *)
Theorem cpu_beyond_last_admitted core_end :
  core_end + MAX_CPU_NUM * PER_CPU_SIZE < U64 →
  mem_pool_start (E:=HvError) core_end tt = ROk (core_end + MAX_CPU_NUM * PER_CPU_SIZE) tt ∧
  set_bit (E:=HvError) (mkCpuSet MAX_CPU_NUM 0) MAX_CPU_NUM tt = ROk (mkCpuSet MAX_CPU_NUM 0x10) tt ∧
  zone_create 0xffff (demo_config 1 0x10 0x40000000 0x50000000) cold_sys = RPanic PUndef ∧
  zone_create 0xffff (demo_config 1 0x20 0x40000000 0x50000000) cold_sys = RPanic PAssert.
Proof.
  intros Hc. split; [|split; [done|split; vm_compute; reflexivity]].
  unfold mem_pool_start, hbind. unfold umul. simpl. unfold uadd. by rewrite (proj2 (Z.ltb_lt _ _) Hc).
Qed.

Lemma cpu_beyond_last_admitted_witness :
  mem_pool_start (E:=HvError) 0x40400000 tt = ROk (0x40400000 + MAX_CPU_NUM * PER_CPU_SIZE) tt ∧
  set_bit (E:=HvError) (mkCpuSet MAX_CPU_NUM 0) MAX_CPU_NUM tt = ROk (mkCpuSet MAX_CPU_NUM 0x10) tt ∧
  zone_create 0xffff (demo_config 1 0x10 0x40000000 0x50000000) cold_sys = RPanic PUndef ∧
  zone_create 0xffff (demo_config 1 0x20 0x40000000 0x50000000) cold_sys = RPanic PAssert.
Proof. apply (cpu_beyond_last_admitted 0x40400000). reflexivity. Defined.

(** ** Witnesses: CPU 2 runs the guest zone *)

Definition demo_guest (l : list (string * Z)) (x : list Z) : dsys :=
  set_regs (regs_of (("MPIDR_EL1"%string, 2) :: l)) (set_guest (mkRegs 2 (x ++ replicate 28 0)) (demo_sys 2)).



(** [msr ICC_SGI1R_EL1, xzr] *)
Lemma sysreg_trap_correct_witness :
  handle_sysreg (demo_guest [("ESR_EL2"%string, Z.lor (Z.shiftl 1 25) (Z.shiftl 31 5))] [0; 0; 0]) =
  RPanic PIndex.
Proof.
  apply (sysreg_trap_correct
    (demo_guest [("ESR_EL2"%string, Z.lor (Z.shiftl 1 25) (Z.shiftl 31 5))] [0; 0; 0])
    (mkPerCpu 2 0x50000000 0 true (Some 2) true) 31); reflexivity.
Defined.
