(* ===== verification/RvCpuProps.v ===== *)
(** * Properties of the riscv64 CPU and trap code

    The handlers of [RvCpu], then the assembly of [RvAsm] composed with them: what the
    guest finds when its call to the SBI returns, and how it finds its registers the
    first time. *)

From S2P Require Import Prelude PhysMem Addr Stable RvCpu RvAsm.
Import RvCpu.

(** ** Well-typed CPU structures *)

(** 32 registers, every field a [usize]. *)
Record cpu_wf (c : ArchCpu) : Prop := {
  wf_len : length (x c) = 32%nat;
  wf_x : Forall is_u64 (x c);
  wf_hstatus : is_u64 (hstatus c);
  wf_sstatus : is_u64 (sstatus c);
  wf_sepc : is_u64 (sepc c);
  wf_top : is_u64 (stack_top c);
  wf_id : is_u64 (cpuid c)
}.

Definition rv_wf (s : rv) : Prop := cpu_wf (r_cpu s).

Lemma new_wf id : is_u64 id → cpu_wf (ArchCpu_new id).
Proof. intros H. split; try done. by apply Forall_replicate. Qed.

Lemma stable_csrs {E} (g : gmap Z Z → gmap Z Z) :
  stable (E:=E) rv_wf (hmodify (λ s, set_csrs (g (r_csr s)) s)).
Proof. by apply stable_modify. Qed.

Lemma stable_get_x {E} i : stable (E:=E) rv_wf (get_x i).
Proof. intros s Hs. unfold get_x. by destruct (_ !! i). Qed.

Lemma stable_put_x {E} i v : is_u64 v → stable (E:=E) rv_wf (put_x i v).
Proof.
  intros Hv s [H1 H2 H3 H4 H5 H6 H7]. unfold put_x. destruct (_ !! i) eqn:Hi; [|done].
  split; simpl; try done; [by rewrite length_insert|by apply Forall_insert].
Qed.

Lemma stable_add_sepc {E} n : 0 ≤ n → stable (E:=E) rv_wf (add_sepc n).
Proof.
  intros Hn s Hs. pose proof Hs as [H1 H2 H3 H4 H5 H6 H7]. unfold add_sepc, hbind, hgets, uadd.
  destruct (Z.ltb_spec (sepc (r_cpu s) + n) U64); [|done]. simpl.
  split; simpl; try done. unfold is_u64 in *. lia.
Qed.

Section typing.
  Context (ecall : Z → Z → Z → Z → Z → Z → Z → Z * Z) (hlvxhu : Z → Z).
  (** The firmware returns register values. *)
  Hypothesis ecall_u64 : ∀ a b c d e f g,
    is_u64 (ecall a b c d e f g).1 ∧ is_u64 (ecall a b c d e f g).2.

(** The pair a call answers is a pair of register values. *)
Lemma sbi_call_5_stable {E} a b c d e f g (k : Z * Z → M rv E unit) :
  (∀ r, is_u64 r.1 → is_u64 r.2 → stable rv_wf (k r)) →
  stable rv_wf (let* r := sbi_call_5 ecall a b c d e f g in k r).
Proof using ecall_u64.
  intros Hk. unfold sbi_call_5. destruct (a =? SET_TIMER).
  - intros s Hs. unfold set_timer, clear_vstip, set_stimer, clear_csr, set_csr, hbind, hmodify. simpl.
    by apply Hk.
  - intros s Hs. unfold hbind, hret. by apply Hk; [apply ecall_u64..|].
Qed.

Lemma sbi_vs_handler_stable {E} : stable (E:=E) rv_wf (sbi_vs_handler ecall).
Proof using ecall_u64.
  unfold sbi_vs_handler. do 7 (apply stable_bind; [apply stable_get_x|intros ?]).
  apply sbi_call_5_stable. intros r H1 H2.
  apply stable_bind; [by apply stable_add_sepc|intros _].
  apply stable_bind; [by apply stable_put_x|intros _]. by apply stable_put_x.
Qed.


End typing.

(** ** The system call *)

Section ecall.
  Context (ecall : Z → Z → Z → Z → Z → Z → Z → Z * Z) (hlvxhu : Z → Z).

(** The registers a call from the guest leaves. *)
Definition after_call (c : ArchCpu) (r : Z * Z) : list Z := <[11%nat := r.2]> (<[10%nat := r.1]> (x c)).

Lemma put_x_ok {E} i v s :
  (i < length (x (r_cpu s)))%nat → put_x (E:=E) i v s = ROk tt (set_cpu (with_x i v (r_cpu s)) s).
Proof. intros H. unfold put_x. by destruct (lookup_lt_is_Some_2 _ _ H) as [? ->]. Qed.

Lemma add_sepc_ok {E} n s :
  sepc (r_cpu s) + n < U64 →
  add_sepc (E:=E) n s = ROk tt (set_cpu (with_sepc (sepc (r_cpu s) + n) (r_cpu s)) s).
Proof. intros H. unfold add_sepc, hbind, hgets, uadd. by rewrite (proj2 (Z.ltb_lt _ _)). Qed.

(** Register [i] of a well-formed CPU. *)
Definition reg (s : rv) (i : nat) : Z := default 0 (x (r_cpu s) !! i).

Lemma reg_some s i : rv_wf s → (i < 32)%nat → x (r_cpu s) !! i = Some (reg s i).
Proof.
  intros [Hl _ _ _ _ _ _] Hi. unfold reg.
  destruct (lookup_lt_is_Some_2 (x (r_cpu s)) i) as [v ->]; [lia|done].
Qed.

Lemma get_x_wf {E B} i (k : Z → M rv E B) s :
  rv_wf s → (i < 32)%nat → hbind (get_x i) k s = k (reg s i) s.
Proof. intros Hwf Hi. unfold hbind, get_x. by rewrite (reg_some s i Hwf Hi). Qed.

Lemma bind_ok {S E A B} (m : M S E A) (k : A → M S E B) s a s' :
  m s = ROk a s' → hbind m k s = k a s'.
Proof. intros H. unfold hbind. by rewrite H. Qed.

(** What the call does besides returning: the timer call arms the timer and clears
    the guest's pending timer interrupt. *)
Definition call_csrs (s : rv) : gmap Z Z * list Z * (Z * Z) :=
  if reg s 17 =? SET_TIMER then
    let m := <[CSR_HVIP := Z.land (csr CSR_HVIP (r_csr s)) (unot64 (Z.shiftl 1 6))]> (r_csr s) in
    (<[CSR_SIE := Z.lor (csr CSR_SIE m) (Z.shiftl 1 5)]> m, reg s 10 :: r_timer s, (0, 0))
  else
    (r_csr s, r_timer s,
     ecall (reg s 17) (reg s 16) (reg s 10) (reg s 11) (reg s 12) (reg s 13) (reg s 14)).

Lemma sbi_vs_handler_ok {E} s :
  rv_wf s → sepc (r_cpu s) + 4 < U64 →
  let '(m, t, r) := call_csrs s in
  let c := r_cpu s in
  sbi_vs_handler ecall (E:=E) s =
  ROk tt (mkRv (mkCpu (after_call c r) (hstatus c) (sstatus c) (sepc c + 4) (stack_top c) (cpuid c))
               m t).
Proof.
  intros Hwf Hpc. unfold call_csrs, sbi_vs_handler. rewrite !get_x_wf by (done || lia).
  set (call := sbi_call_5 ecall (E:=E) _ _ _ _ _ _ _).
  assert (∀ m t r, call s = ROk r (mkRv (r_cpu s) m t) →
            hbind call (λ r, add_sepc 4 ;;; put_x 10 r.1 ;;; put_x 11 r.2) s =
            ROk tt (mkRv (mkCpu (after_call (r_cpu s) r) (hstatus (r_cpu s)) (sstatus (r_cpu s))
              (sepc (r_cpu s) + 4) (stack_top (r_cpu s)) (cpuid (r_cpu s))) m t)) as Hend.
  { intros m t r Hc. erewrite bind_ok by exact Hc. erewrite bind_ok by (by apply add_sepc_ok).
    pose proof (wf_len _ Hwf) as Hl.
    erewrite bind_ok by (apply put_x_ok; simpl; lia).
    rewrite put_x_ok; [done|]. simpl. rewrite length_insert. lia. }
  assert (call s = let '(m, t, r) := call_csrs s in ROk r (mkRv (r_cpu s) m t)) as Hcall.
  { unfold call, sbi_call_5, call_csrs. destruct (reg s 17 =? SET_TIMER); [done|by destruct s]. }
  unfold call_csrs in Hcall. destruct (reg s 17 =? SET_TIMER); by apply Hend.
Qed.

(** A call from the guest's supervisor mode to the SBI is answered: the timer
    extension is emulated (the timer is armed, the guest's pending timer interrupt
    cleared and the hart's timer interrupt enabled, the answer is (0, 0)), every
    other call goes to the firmware unchanged; a0 and a1 receive the answer and no
    other register changes. The guest however resumes 8 bytes further on, past the
    instruction after the [ecall]: both [sbi_vs_handler] and the trap handler add 4. *)
Theorem rv_vs_ecall_effect s :
  rv_wf s → sepc (r_cpu s) + 8 < U64 → csr CSR_SCAUSE (r_csr s) = ECALL_VS →
  Z.land (csr CSR_HSTATUS (r_csr s)) (Z.shiftl 1 7) ≠ 0 →
  let '(m, t, r) := call_csrs s in
  let c := r_cpu s in
  sync_exception_handler ecall hlvxhu (E:=unit) s =
  ROk tt (mkRv (mkCpu (after_call c r) (hstatus c) (sstatus c) (sepc c + 8) (stack_top c) (cpuid c))
               m t).
Proof.
  intros Hwf Hpc Hcause Hspv. pose proof (sbi_vs_handler_ok (E:=unit) s Hwf ltac:(lia)) as Hs.
  destruct (call_csrs s) as [[m t] r]. cbv zeta in Hs |- *. unfold sync_exception_handler.
  unfold read_csr, hgets, hbind. rewrite Hcause, (proj2 (Z.eqb_neq _ _) Hspv).
  change (ECALL_VS =? ECALL_VU) with false. change (ECALL_VS =? ECALL_VS) with true. cbv iota beta.
  rewrite Hs, add_sepc_ok by (simpl; lia). cbn.
  by replace (sepc (r_cpu s) + 4 + 4) with (sepc (r_cpu s) + 8) by lia.
Qed.

End ecall.

(** ** Stacks *)

(** The stack of a CPU ends 8 bytes below the pointer [arch_entry] starts with, and
    lies in the CPU's own area of [PER_CPU_SIZE] bytes. *)
Lemma stack_in_area {S E} core_end id (s : S) :
  0 ≤ core_end → 0 ≤ id → core_end + (id + 1) * PER_CPU_SIZE < U64 →
  ∃ top, stack_top_of (E:=E) core_end id s = ROk top s ∧ top + 8 = arch_entry_sp core_end id ∧
         core_end + id * PER_CPU_SIZE ≤ top ∧ top + 8 ≤ core_end + (id + 1) * PER_CPU_SIZE.
Proof.
  intros H0 Hi Htop. unfold stack_top_of, uadd, umul, usub, hbind, PER_CPU_SIZE in *.
  rewrite (proj2 (Z.ltb_lt (id + 1) _)) by lia. cbn -[Z.mul Z.add Z.ltb Z.leb].
  rewrite (proj2 (Z.ltb_lt ((id + 1) * _) _)) by lia. cbn -[Z.mul Z.add Z.ltb Z.leb].
  rewrite (proj2 (Z.ltb_lt (core_end + _) _)) by lia. cbn -[Z.mul Z.add Z.ltb Z.leb].
  rewrite (proj2 (Z.leb_le 8 _)) by lia. eexists. split; [done|]. split; [|lia].
  unfold arch_entry_sp, PER_CPU_SIZE. cbv zeta.
  rewrite (Z.mod_small (id * _)) by lia. rewrite (Z.mod_small (_ + id * _)) by lia.
  rewrite Z.mod_small by lia. lia.
Qed.

(** ** Reading an instruction *)

(** With 16-bit loads, [read_inst] returns the 16 bits of a compressed instruction
    and 32 bits, low half first, of any other. *)
Lemma read_inst_value {S E} hlvxhu addr (s : S) :
  (∀ a, 0 ≤ hlvxhu a < 2 ^ 16) → addr + 2 < U64 →
  read_inst (E:=E) hlvxhu addr s =
  ROk (if hlvxhu addr mod 4 =? 3 then hlvxhu addr + hlvxhu (addr + 2) * 2 ^ 16 else hlvxhu addr) s.
Proof.
  intros Hh Ha. pose proof (Hh addr) as H1. pose proof (Hh (addr + 2)) as H2.
  unfold read_inst, u32, uadd, hbind.
  rewrite (Z.mod_small (hlvxhu addr)) by lia. change 3 with (2 ^ 2 - 1) at 1.
  rewrite land_ones_mod by lia. change (2 ^ 2) with 4. destruct (_ =? 3); [|done].
  rewrite (proj2 (Z.ltb_lt _ _)) by done. cbn [hret]. f_equal.
  rewrite (Z.mod_small (hlvxhu (addr + 2))) by lia. rewrite Z.shiftl_mul_pow2 by lia.
  rewrite (Z.mod_small (_ * _)) by lia.
  rewrite (Z.add_nocarry_lor (hlvxhu addr)); [done|].
  apply Z.bits_inj'. intros i Hi. rewrite Z.land_spec, Z.bits_0.
  destruct (Z.lt_ge_cases i 16).
  - rewrite Z.mul_pow2_bits_low by lia. apply andb_false_r.
  - by rewrite (testbit_small (hlvxhu addr) 16).
Qed.

(** ** Witnesses: a guest that sets the timer *)

(** A firmware that refuses every call (SBI_ERR_NOT_SUPPORTED), and memory of
    32-bit no-ops. *)
Definition demo_ecall (a b c d e f g : Z) : Z * Z := (U64 - 2, 0).
Definition demo_hlvxhu (a : Z) : Z := if a mod 4 =? 0 then 0x13 else 0.

Definition demo_regs : list Z := <[10%nat := 5000]> (<[17%nat := SET_TIMER]> (replicate 32 0)).

Definition demo_rv_cpu : rv :=
  mkRv (mkCpu demo_regs HSTATUS_INIT SSTATUS_INIT 0x90000000 0 0)
    {[CSR_SCAUSE := 10; CSR_HSTATUS := HSTATUS_INIT; CSR_HVIP := 0x40]} [].

Lemma demo_rv_wf : rv_wf demo_rv_cpu.
Proof.
  assert (is_u64 0) as H0 by (by split).
  split; [done| |by split..]. repeat (apply Forall_insert; [|by split]). by apply Forall_replicate.
Qed.


Lemma rv_vs_ecall_effect_witness :
  let '(m, t, r) := call_csrs demo_ecall demo_rv_cpu in
  let c := r_cpu demo_rv_cpu in
  sync_exception_handler demo_ecall demo_hlvxhu (E:=unit) demo_rv_cpu =
  ROk tt (mkRv (mkCpu (after_call c r) (hstatus c) (sstatus c) (sepc c + 8) (stack_top c) (cpuid c))
               m t).
Proof.
  apply (rv_vs_ecall_effect demo_ecall demo_hlvxhu demo_rv_cpu);
    [exact demo_rv_wf|vm_compute; done|vm_compute; done|vm_compute; done].
Defined.

(** ** A trap as a whole *)

Import RvAsm.

(** A guest runs on the hart: sscratch has the address of the CPU structure, whose stack
    and number are 64-bit values, as the registers are. *)
Record guest_runs (c : hart) (p : Z) : Prop := {
  gr_u64 : u64_hart c;
  gr_space : in_space p;
  gr_scratch : hcsr c !! CSR_SSCRATCH = Some p;
  gr_top : is_u64 (word (hram c) p 35);
  gr_id : is_u64 (word (hram c) p 36)
}.

(** The structure and the CSRs the handler works on. *)
Definition trapped (c : hart) (p : Z) (timer : list Z) : rv :=
  mkRv (mkCpu (guest_x c) (csr CSR_HSTATUS (hcsr c)) (csr CSR_SSTATUS (hcsr c)) (csr CSR_SEPC (hcsr c))
          (word (hram c) p 35) (word (hram c) p 36)) (hcsr c) timer.

Lemma guest_x_lookup c i : (i < 32)%nat → guest_x c !! i = Some (rx c i).
Proof. intros Hi. unfold guest_x. by rewrite list_lookup_fmap, lookup_seq_lt. Qed.

Lemma trapped_wf c p timer : guest_runs c p → rv_wf (trapped c p timer).
Proof.
  intros [Hu _ _ Ht Hi]. split; [done| |by apply csr_u64|by apply csr_u64|by apply csr_u64|done|done].
  cbn [trapped r_cpu x]. unfold guest_x. apply Forall_fmap, Forall_seq. intros i Hi'. apply Hu. lia.
Qed.

Lemma wf_cpu_u64 c : cpu_wf c → cpu_u64 c.
Proof. intros [? ? ? ? ? ? ?]. split; [done|]. unfold cpu_words. apply Forall_app. split; [done|]. by rewrite !Forall_cons, Forall_nil. Qed.

(** ** The CSRs of a call *)

(** A call leaves sscratch alone and 64-bit values in the CSRs. *)
Lemma call_csrs_u64 ecall c p timer :
  guest_runs c p →
  let '(m, _, _) := call_csrs ecall (trapped c p timer) in
  m !! CSR_SSCRATCH = Some p ∧ ∀ n v, m !! n = Some v → is_u64 v.
Proof.
  intros [[_ Hu] _ Hp _ _]. unfold call_csrs. destruct (_ =? SET_TIMER); [|done]. cbn [r_csr trapped].
  set (q := <[CSR_HVIP := _]> _).
  assert (∀ n v, q !! n = Some v → is_u64 v) as Hq.
  { intros n v [[_ <-]|[_ H]]%lookup_insert_Some; [|by eapply Hu]. apply land_u64_r. split; by vm_compute. }
  split; [rewrite lookup_insert_ne by done; unfold q; by rewrite lookup_insert_ne|]. intros n v [[_ <-]|[_ H]]%lookup_insert_Some; [|by eapply Hq].
  apply lor_u64; [|split; by vm_compute]. unfold csr. destruct (q !! _) eqn:E; [by eapply Hq|split; by vm_compute].
Qed.

(** ** The call *)

Section trap.
  Context (ecall : Z → Z → Z → Z → Z → Z → Z → Z * Z) (hlvxhu : Z → Z).
  (** The firmware returns register values. *)
  Hypothesis ecall_u64 : ∀ a b c d e f g,
    is_u64 (ecall a b c d e f g).1 ∧ is_u64 (ecall a b c d e f g).2.

(** The machine after a trap, from what is left in the structure and the CSRs. *)
Lemma runs_again c' p s :
  in_space p → rv_wf s → r_csr s !! CSR_SSCRATCH = Some p → (∀ n v, r_csr s !! n = Some v → is_u64 v) →
  guest_x c' = <[0%nat := 0]> (x (r_cpu s)) → load_cpu (hram c') p = r_cpu s →
  hcsr c' = <[CSR_SEPC := sepc (r_cpu s)]> (<[CSR_SSTATUS := sstatus (r_cpu s)]>
              (<[CSR_HSTATUS := hstatus (r_cpu s)]> (r_csr s))) →
  guest_runs c' p.
Proof.
  intros Hs [Hl Hx H1 H2 H3 H4 H5] Hp Hm Hg Hld Hc.
  split; [|done| |by rewrite <- (f_equal stack_top Hld) in H4|by rewrite <- (f_equal cpuid Hld) in H5].
  - split.
    + intros i Hi. assert (Forall is_u64 (guest_x c')) as HF by (rewrite Hg; by apply Forall_insert).
      rewrite Forall_lookup in HF. by apply (HF i), guest_x_lookup.
    + intros n v. rewrite Hc. rewrite !lookup_insert_Some. naive_solver.
  - rewrite Hc. by rewrite !lookup_insert_ne.
Qed.

(** The answer consists of register values. *)
Lemma call_answer_u64 c p timer :
  let '(_, _, r) := call_csrs ecall (trapped c p timer) in is_u64 r.1 ∧ is_u64 r.2.
Proof using ecall_u64. unfold call_csrs. destruct (_ =? SET_TIMER); [split; split; by vm_compute|apply ecall_u64]. Qed.

(** hstatus and sstatus are not changed by a call, and are what was saved. *)
Lemma call_csrs_status c p timer :
  let '(m, _, _) := call_csrs ecall (trapped c p timer) in
  csr CSR_HSTATUS m = csr CSR_HSTATUS (hcsr c) ∧ csr CSR_SSTATUS m = csr CSR_SSTATUS (hcsr c).
Proof. unfold call_csrs. destruct (_ =? SET_TIMER); [|done]. unfold csr. by rewrite !lookup_insert_ne. Qed.

Lemma csr_restored n pc ss hs m :
  n ≠ CSR_SEPC → csr CSR_SSTATUS m = ss → csr CSR_HSTATUS m = hs →
  csr n (<[CSR_SEPC := pc]> (<[CSR_SSTATUS := ss]> (<[CSR_HSTATUS := hs]> m))) = csr n m.
Proof.
  intros Hn <- <-. unfold csr at 1. rewrite lookup_insert_ne by done.
  destruct (decide (n = CSR_SSTATUS)) as [->|H1]; [by rewrite lookup_insert_eq|]. rewrite lookup_insert_ne by done.
  destruct (decide (n = CSR_HSTATUS)) as [->|H2]; [by rewrite lookup_insert_eq|]. by rewrite lookup_insert_ne.
Qed.

(** C30: a call to the SBI from the guest's supervisor mode, from the guest's [ecall] to
    the [sret] that returns to it: the trap vector saves every register and CSR it
    clobbers in the CPU structure, whatever the compiled handler leaves in the registers
    ([junk]), and the guest continues with the answer in a0 and a1, with every other
    register, hstatus and sstatus as they were, with the CSRs the emulated timer call
    changes, and 8 bytes past the call; the hart is ready for the next trap. *)
Theorem rv_ecall_roundtrip junk timer c p :
  guest_runs c p → csr CSR_SCAUSE (hcsr c) = ECALL_VS →
  Z.land (csr CSR_HSTATUS (hcsr c)) (Z.shiftl 1 7) ≠ 0 → csr CSR_SEPC (hcsr c) + 8 < U64 →
  let '(m, t, r) := call_csrs ecall (trapped c p timer) in
  ∃ c', hyp_trap_vector (sync_exception_handler (E:=unit) ecall hlvxhu) interrupts_arch_handle junk timer c =
          ROk tt (c', t) ∧
    rx c' 10 = r.1 ∧ rx c' 11 = r.2 ∧
    (∀ i, (i < 32)%nat → i ≠ 10%nat → i ≠ 11%nat → rx c' i = rx c i) ∧
    (∀ n, n ≠ CSR_SEPC → csr n (hcsr c') = csr n m) ∧
    csr CSR_HSTATUS m = csr CSR_HSTATUS (hcsr c) ∧ csr CSR_SSTATUS m = csr CSR_SSTATUS (hcsr c) ∧
    csr CSR_SEPC (hcsr c') = csr CSR_SEPC (hcsr c) + 8 ∧
    guest_runs c' p.
Proof using ecall_u64.
  intros Hg Hcause Hspv Hpc. pose proof (trapped_wf c p timer Hg) as Hwf.
  pose proof (rv_vs_ecall_effect ecall hlvxhu (trapped c p timer) Hwf Hpc Hcause Hspv) as He.
  pose proof (call_csrs_u64 ecall c p timer Hg) as Hm.
  pose proof (call_answer_u64 c p timer) as Hr. pose proof (call_csrs_status c p timer) as Hst.
  destruct (call_csrs ecall (trapped c p timer)) as [[m t] r]. cbv zeta in He. destruct Hm as [Hp Hm].
  destruct Hr as [Hr1 Hr2], Hst as [Hst1 Hst2]. set (s := mkRv _ m t) in He.
  assert (rv_wf s) as Hwf'.
  { destruct Hwf as [Hl Hx H1 H2 H3 H4 H5]. unfold s.
    split; cbn [r_cpu x hstatus sstatus sepc stack_top cpuid]; [| |done|done| |done|done]; unfold after_call.
    - by rewrite !length_insert.
    - by apply Forall_insert; [apply Forall_insert|].
    - destruct H3. unfold is_u64. cbn [trapped r_cpu sepc] in *. lia. }
  destruct (trap_returns (sync_exception_handler (E:=unit) ecall hlvxhu) interrupts_arch_handle junk timer c p s)
    as (c' & Hv & Hx & Hld & Hc); try apply Hg; [by rewrite Hcause|exact He|by apply wf_cpu_u64|done|].
  exists c'. pose proof (runs_again c' p s (gr_space _ _ Hg) Hwf' Hp Hm Hx Hld Hc) as Hg'.
  assert (∀ i, (i < 32)%nat → Some (rx c' i) = (<[0%nat := 0]> (x (r_cpu s))) !! i) as Hxi.
  { intros i Hi. by rewrite <- Hx, guest_x_lookup. }
  split_and!; try done.
  - by apply (inj Some), Hxi; lia.
  - by apply (inj Some), Hxi; lia.
  - intros i Hi H10 H11. apply (inj Some). rewrite Hxi by done. cbn [s r_cpu x]. unfold after_call.
    destruct (decide (i = 0%nat)) as [->|H0]; [done|].
    rewrite !list_lookup_insert_ne by done. by apply guest_x_lookup.
  - intros n Hn. rewrite Hc. by apply csr_restored.
  - rewrite Hc. unfold csr. by rewrite lookup_insert_eq.
Qed.

End trap.

(** ** The first entry *)

(** The structure [ArchCpu::init] leaves. *)
Definition initial_cpu (id top entry cpu_id dtb : Z) : ArchCpu :=
  mkCpu (<[11%nat := dtb]> (<[10%nat := cpu_id]> (replicate 32 0))) HSTATUS_INIT SSTATUS_INIT entry top id.

(** Writes to other CSRs leave the structure and sscratch. *)
Definition set_up (c : ArchCpu) (timer : list Z) (p : Z) (s : rv) : Prop :=
  r_cpu s = c ∧ r_timer s = timer ∧ r_csr s !! CSR_SSCRATCH = Some p.

Lemma set_up_insert c timer p n v s :
  n ≠ CSR_SSCRATCH → set_up c timer p s → set_up c timer p (set_csrs (<[n := v]> (r_csr s)) s).
Proof. intros Hn (H1 & H2 & H3). split_and!; [done|done|]. cbn. by rewrite lookup_insert_ne. Qed.

(** A computation that returns and keeps them. *)
Definition keeps_up {E A} (m : M rv E A) : Prop :=
  ∀ c timer p s, set_up c timer p s → wp m (λ _, set_up c timer p) (λ _ _, False) s.

Lemma keeps_write {E} n v : n ≠ CSR_SSCRATCH → keeps_up (E:=E) (write_csr n v).
Proof. intros Hn c timer p s Hs. by apply (wp_modify (E:=E)), set_up_insert. Qed.

Lemma keeps_set {E} n v : n ≠ CSR_SSCRATCH → keeps_up (E:=E) (set_csr n v).
Proof. intros Hn c timer p s Hs. by apply (wp_modify (E:=E)), set_up_insert. Qed.

Lemma keeps_seq {E B} (m : M rv E unit) (k : M rv E B) : keeps_up m → keeps_up k → keeps_up (m ;;; k).
Proof. intros Hm Hk c timer p s Hs. apply wp_bind. eapply wp_mono; [by apply Hm| |done]. intros [] s'. apply Hk. Qed.

Lemma cpu_init_ok {E} p core_end id entry cpu_id dtb csrs timer top :
  (∀ s : rv, stack_top_of (E:=E) core_end id s = ROk top s) →
  wp (cpu_init (E:=E) p core_end entry cpu_id dtb)
    (λ _, set_up (initial_cpu id top entry cpu_id dtb) timer p) (λ _ _, False) (mkRv (ArchCpu_new id) csrs timer).
Proof.
  intros Ht. unfold cpu_init. apply wp_bind, wp_modify, wp_bind, wp_gets, wp_bind. unfold wp at 1. rewrite Ht.
  apply wp_bind, wp_modify, wp_bind. unfold wp at 1. rewrite put_x_ok by (cbn; lia).
  apply wp_bind. unfold wp at 1. rewrite put_x_ok by (cbn; lia). cbn [r_cpu set_cpu].
  match goal with |- wp ?k _ _ _ => assert (keeps_up k) as Hk end.
  { repeat (apply keeps_seq; [by (apply keeps_write || apply keeps_set)|]). by apply keeps_write. }
  apply Hk. split_and!; [done|done|]. cbn. by rewrite lookup_insert_eq.
Qed.

(** The first entry of a guest: [ArchCpu::init] and [ArchCpu::run] start it at its entry
    point in virtual supervisor mode, with the CPU number in a0, the address of the device
    tree in a1 and 0 in every other register. *)
Lemma rv_first_entry {E} p core_end id entry cpu_id dtb csrs timer junk ram :
  in_space p → 0 ≤ core_end → 0 ≤ id → core_end + (id + 1) * PER_CPU_SIZE < U64 →
  is_u64 entry → is_u64 cpu_id → is_u64 dtb → is_u64 id →
  ∃ s, cpu_init (E:=E) p core_end entry cpu_id dtb (mkRv (ArchCpu_new id) csrs timer) = ROk tt s ∧
    let c := cpu_run (mkHart junk (r_csr s) (store_cpu ram p (r_cpu s))) in
    guest_x c = <[11%nat := dtb]> (<[10%nat := cpu_id]> (replicate 32 0)) ∧
    csr CSR_SEPC (hcsr c) = entry ∧ csr CSR_HSTATUS (hcsr c) = HSTATUS_INIT ∧
    csr CSR_SSTATUS (hcsr c) = SSTATUS_INIT ∧ hcsr c !! CSR_SSCRATCH = Some p.
Proof.
  intros Hs Hc0 Hi0 Htop He Hcp Hd Hid.
  set (top := arch_entry_sp core_end id - 8).
  assert (∀ s, stack_top_of (S:=rv) (E:=E) core_end id s = ROk top s) as Ht.
  { intros s. destruct (stack_in_area (E:=E) core_end id s Hc0 Hi0 Htop) as (t & -> & H & _). f_equal. unfold top. lia. }
  assert (is_u64 top) as Htu.
  { destruct (stack_in_area (E:=E) core_end id tt Hc0 Hi0 Htop) as (t & _ & H & H1 & H2).
    unfold is_u64, top, PER_CPU_SIZE in *. lia. }
  pose proof (cpu_init_ok (E:=E) p core_end id entry cpu_id dtb csrs timer top Ht) as Hinit. unfold wp in Hinit.
  destruct (cpu_init _ _ _ _ _ _) as [[] s|?|?|]; [|done..]. destruct Hinit as (Hcpu & _ & Hp).
  exists s. split; [done|]. rewrite Hcpu. cbv zeta. set (c := mkHart junk _ _).
  destruct (vm_entry_loads c p Hs Hp) as (H1 & _ & H3). cbv zeta in *.
  assert (load_cpu (hram c) p = initial_cpu id top entry cpu_id dtb) as Hl.
  { apply load_store_cpu, wf_cpu_u64. split; cbn [initial_cpu x hstatus sstatus sepc stack_top cpuid]; try done.
    by repeat (apply Forall_insert; [|done]); apply Forall_replicate. }
  rewrite Hl in *. unfold cpu_run, vcpu_arch_entry. rewrite H3. unfold csr. split_and!; [by rewrite H1|..].
  - by rewrite lookup_insert_eq.
  - rewrite !lookup_insert_ne by done. by rewrite lookup_insert_eq.
  - rewrite lookup_insert_ne by done. by rewrite lookup_insert_eq.
  - by rewrite !lookup_insert_ne.
Qed.

(** ** Witness: the same guest on a hart *)

Definition demo_ptr : Z := 0x80400000.

Definition demo_hart : hart :=
  mkHart (λ i, default 0 (demo_regs !! i))
    {[CSR_SCAUSE := 10; CSR_HSTATUS := HSTATUS_INIT; CSR_SSTATUS := SSTATUS_INIT; CSR_SEPC := 0x90000000;
      CSR_HVIP := 0x40; CSR_SSCRATCH := demo_ptr]}
    (store_cpu ∅ demo_ptr (mkCpu demo_regs 0 0 0 0x80600000 0)).

Lemma demo_hart_runs : guest_runs demo_hart demo_ptr.
Proof.
  split; [split|split; by vm_compute|done|split; by vm_compute|split; by vm_compute].
  - intros i Hi. unfold rx, demo_hart, hx. case_decide; [by split|].
    destruct (demo_regs !! i) as [v|] eqn:Hv; [|by split]. cbn [default].
    exact (Forall_lookup_1 _ _ _ _ (wf_x _ demo_rv_wf) Hv).
  - intros n v. unfold demo_hart, hcsr. rewrite !lookup_insert_Some, lookup_singleton_Some.
    intros H. repeat (destruct H as [[_ <-]|[_ H]]; [split; by vm_compute|]). destruct H as [_ <-]. split; by vm_compute.
Qed.

Lemma rv_ecall_roundtrip_witness :
  let '(m, t, r) := call_csrs demo_ecall (trapped demo_hart demo_ptr []) in
  ∃ c', hyp_trap_vector (sync_exception_handler (E:=unit) demo_ecall demo_hlvxhu) interrupts_arch_handle (λ _, 77)
          [] demo_hart = ROk tt (c', t) ∧
    rx c' 10 = r.1 ∧ rx c' 11 = r.2 ∧
    (∀ i, (i < 32)%nat → i ≠ 10%nat → i ≠ 11%nat → rx c' i = rx demo_hart i) ∧
    (∀ n, n ≠ CSR_SEPC → csr n (hcsr c') = csr n m) ∧
    csr CSR_HSTATUS m = csr CSR_HSTATUS (hcsr demo_hart) ∧ csr CSR_SSTATUS m = csr CSR_SSTATUS (hcsr demo_hart) ∧
    csr CSR_SEPC (hcsr c') = csr CSR_SEPC (hcsr demo_hart) + 8 ∧
    guest_runs c' demo_ptr.
Proof.
  apply (rv_ecall_roundtrip demo_ecall demo_hlvxhu).
  - intros. split; split; vm_compute; done.
  - exact demo_hart_runs.
  - reflexivity.
  - vm_compute. discriminate.
  - vm_compute. reflexivity.
Defined.
