(* ===== verification/RvProps.v ===== *)
(** * Properties of page tables: both ports, and the frames they hold

    Round trips of mapping, the equivalence of the riscv64 code with the aarch64
    code, the frames a table returns when it is dropped, and what [Frame::new_16]
    gives the root of a riscv64 table. *)

From S2P Require Import Prelude PhysMem HvError Addr Frame Region Pte PtIface Paging PagingWf.
From S2P Require Import PagingSpec PagingLoop PtInstance Sim Stable FramePool PtAccount.
From S2P Require Import BTreeMap MemorySet MemoryDrop.
From S2P Require Import RvPte RvS1pt RvS2pt RvPaging RvPagingSpec RvMm Demo.

Section trait.
  Context {W PT : Type} {G : GenericPageTable W PT} {GL : GenericPageTableLaws W PT}.

Lemma mapped_then_unmapped fmt lim r lo hi (v1 v2 v3 : view) va :
  mapped_range fmt lim r lo hi v1 v2 → unmapped_range lim lo hi v2 v3 → 0 ≤ va < lim → v3 va = v1 va.
Proof.
  intros Hm Hu Hva. destruct (Hm va Hva) as [M1 M2], (Hu va Hva) as [U1 U2].
  destruct (decide (lo ≤ va < hi)) as [Hin|Hout].
  - rewrite U1 by done. by destruct (M1 Hin) as [-> _].
  - by rewrite U2, M2.
Qed.


End trait.

Section riscv.
  Context {T : Type} {HB : BitAlloc T} {HL : BitAllocLaws T} {R : RvPTE} {RL : RvPTELaws R}.

(** C18: the page-table code of the riscv64 port and the three-level code of the
    aarch64 port are the same function on the entry format of the port: as long as
    the region does not contain [TEMPORARY_MAPPING_BASE], [map], [unmap], [update]
    and [query] return the same value or error, or panic or diverge alike, and
    leave the same memory, allocator and tracked tables. *)
Theorem rv_tables_simulated temp_base (s : Rv.pts (T:=T)) r va paddr fl :
  (∀ x, start r ≤ x < start r + size r → x ≠ temp_base) →
  sim_res abs eq (Rv.map temp_base r s) (map (P:=rv_as_pte R) r (abs s)) ∧
  sim_res abs eq (Rv.unmap r s) (unmap (P:=rv_as_pte R) r (abs s)) ∧
  sim_res abs eq (Rv.update va paddr fl s) (update (P:=rv_as_pte R) va paddr fl (abs s)) ∧
  Rv.query (Rv.inner s.2) va s.1 =
  query (P:=rv_as_pte R) (inner (abs s).2) va (abs s).1.
Proof using RL.
  intros Hx. split; [exact (sim_map temp_base r Hx s)|]. split; [exact (sim_unmap r s)|].
  split; [exact (sim_update va paddr fl s)|]. symmetry. apply rv_query.
Qed.

(** [Level3PageTable::new], which panics unless four contiguous frames are
    free, gives an empty table if the free frames hold zeroes. *)
Theorem rv_new_empty fuel n (w : world T) :
  fa_inv n (w_fa w) → (free_count n w < fuel)%nat → pool_clean w →
  match Rv.unlocked_new (E:=HvError) fuel w with
  | ROk pt w' =>
      rv_ok n (w', pt) ∧ Rv.intrm_tables pt = [] ∧ frame_count (Rv.root (Rv.inner pt)) = 4 ∧
      (∀ va, 0 ≤ va < va_limit 3 → rv_view (w', pt) va = None) ∧ pool_clean w'
  | RPanic p => p = PUnwrap
  | _ => False
  end.
Proof using HL RL. apply (rv_new_spec fuel n). Qed.


End riscv.

Section frames.
  Context {T : Type} {HB : BitAlloc T} {HL : BitAllocLaws T} {P : GenericPTE}.

(** C19: no frame leaks: after [HvPageTable::new] and any sequence of [map],
    [unmap] and [update] calls, each of which may have failed half way, dropping
    the table never panics and gives back exactly the frames taken since before
    [new]. *)
Theorem page_table_frames_returned n lvl (w w1 : world T) pt ops s2 :
  fa_inv n (w_fa w) → unlocked_new (E:=HvError) lvl w = ROk pt w1 →
  run_all (run_pt_op <$> ops) (w1, pt) = Some s2 →
  wp (E:=HvError) (pt_drop s2.2)
    (λ _ w3, base w3 = base w ∧ ∀ j, free w3 j = free w j) (λ _ _, False) s2.1.
Proof using HL.
  intros Hinv Hnew Hrun. pose proof (new_accounted n lvl w w1 pt Hinv Hnew) as Hacc.
  assert (accounted n w s2) as Hacc2.
  { eapply run_all_stable; [|exact Hacc|exact Hrun]. apply Forall_forall.
    intros m (o & -> & _)%list_elem_of_fmap. by apply stable_pt_op. }
  eapply wp_mono; [by apply (pt_drop_spec n w)| |done]. intros _ w3 (H1 & _ & H2 & _). done.
Qed.

(** [Frame::new_16] always returns: four contiguous frames that were free,
    every other frame back as it was, or ENOMEM with all of them back; it writes
    nothing but zeroes into frames that were free. *)
Theorem new_16_correct n fuel (w : world T) :
  fa_inv n (w_fa w) → (free_count n w < fuel)%nat →
  wp (frame_new_16 fuel)
    (λ f w', ∃ i, f = mkFrame (base w + i * PAGE_SIZE) 4 ∧
       (∀ j, i ≤ j < i + 4 → free w j = true) ∧ base w' = base w ∧ fa_inv n (w_fa w') ∧
       (∀ j, free w' j = free w j && negb (bool_decide (i ≤ j < i + 4))) ∧ scrubbed w w')
    (λ e w', num e = ENOMEM ∧ base w' = base w ∧ fa_inv n (w_fa w') ∧
             (∀ j, free w' j = free w j) ∧ scrubbed w w') w.
Proof using HL. apply frame_new_16_spec. Qed.

End frames.

(** ** The root table of Sv39x4 *)

(** Sv39x4 indexes a root of 2048 entries with bits 30..40 of the guest address. *)
Definition sv39x4_root_slot (root gpa : Z) : Z := root + 8 * ((gpa / 2 ^ 30) mod 2048).

(** A pool whose second frame still holds an old entry. *)
Definition stale_world : world (gset Z) :=
  mkW {[0x40201000 := 0x1f]} demo_fa.


(** ** Witnesses *)

Lemma demo_free_count : (free_count 64 demo_world < 100)%nat.
Proof. vm_compute. lia. Qed.

Lemma demo_clean : pool_clean demo_world.
Proof. by intros j b _ _. Qed.

(** The result of a computation that returned. *)
Definition ok_state {S A} (d : A) (s0 : S) (r : res S HvError A) : S * A :=
  match r with ROk a s => (s, a) | _ => (s0, d) end.
Definition returned {S E A} (r : res S E A) : bool :=
  match r with ROk _ _ => true | _ => false end.

Definition no_table : Rv.Level3PageTable := Rv.mkUnlocked (Rv.mkImmut (mkFrame 0 0)) [].

Definition new_rv (w : world (gset Z)) : world (gset Z) * Rv.Level3PageTable :=
  ok_state no_table w (Rv.unlocked_new 100 w).

Lemma new_rv_ok w :
  fa_inv 64 (w_fa w) → (free_count 64 w < 100)%nat → pool_clean w →
  returned (Rv.unlocked_new (E:=HvError) 100 w) = true →
  rv_ok (R:=RvS2PT.rv_s2_pte) 64 (new_rv w).
Proof.
  intros H1 H2 H3. unfold new_rv.
  pose proof (rv_new_spec (R:=RvS2PT.rv_s2_pte) (E:=HvError) 100 64 w H1 H2 H3) as H.
  destruct (Rv.unlocked_new 100 w); try done. by intros _; destruct H.
Qed.

Definition demo_rv : world (gset Z) * Rv.Level3PageTable := new_rv demo_world.

Lemma demo_rv_ok : rv_ok (R:=RvS2PT.rv_s2_pte) 64 demo_rv.
Proof.
  apply new_rv_ok; [exact demo_fa_inv|exact demo_free_count|exact demo_clean|].
  vm_compute. reflexivity.
Qed.

Lemma demo_temp : ¬ 0 ≤ 2 ^ 39 < va_limit 3.
Proof. unfold va_limit. simpl. lia. Qed.

Definition demo_rv_laws :
  @GenericPageTableLaws (world (gset Z)) Rv.Level3PageTable
    (rv_gpt (R:=RvS2PT.rv_s2_pte) 100 (2 ^ 39)) :=
  rv_gpt_laws (R:=RvS2PT.rv_s2_pte) 100 (2 ^ 39) 64 demo_temp.

(** A region both ports can map: 4M of RAM. *)
Lemma demo_rv_mappable : region_mappable (Sv39.format RvS2PT.norm_flags) (va_limit 3) demo_ram.
Proof. split; [apply mapper_ok_offset|]. split_and!; done. Qed.


Lemma rv_tables_simulated_witness :
  sim_res abs eq (Rv.map (R:=RvS2PT.rv_s2_pte) (2 ^ 39) demo_ram demo_rv)
    (map (P:=rv_as_pte RvS2PT.rv_s2_pte) demo_ram (abs demo_rv)) ∧
  sim_res abs eq (Rv.unmap (R:=RvS2PT.rv_s2_pte) demo_ram demo_rv)
    (unmap (P:=rv_as_pte RvS2PT.rv_s2_pte) demo_ram (abs demo_rv)) ∧
  sim_res abs eq (Rv.update (R:=RvS2PT.rv_s2_pte) 0x1000 0x50000000 READ demo_rv)
    (update (P:=rv_as_pte RvS2PT.rv_s2_pte) 0x1000 0x50000000 READ (abs demo_rv)) ∧
  Rv.query (R:=RvS2PT.rv_s2_pte) (Rv.inner demo_rv.2) 0x1000 demo_rv.1 =
  query (P:=rv_as_pte RvS2PT.rv_s2_pte) (inner (abs demo_rv).2) 0x1000 (abs demo_rv).1.
Proof.
  apply (rv_tables_simulated (2 ^ 39) demo_rv demo_ram 0x1000 0x50000000 READ).
  intros x Hx ->. simpl in Hx. lia.
Defined.

Lemma rv_new_empty_witness :
  match Rv.unlocked_new (E:=HvError) 100 demo_world with
  | ROk pt w' =>
      rv_ok (R:=RvS2PT.rv_s2_pte) 64 (w', pt) ∧ Rv.intrm_tables pt = [] ∧
      frame_count (Rv.root (Rv.inner pt)) = 4 ∧
      (∀ va, 0 ≤ va < va_limit 3 → rv_view (R:=RvS2PT.rv_s2_pte) (w', pt) va = None) ∧
      pool_clean w'
  | RPanic p => p = PUnwrap
  | _ => False
  end.
Proof.
  apply (rv_new_empty (R:=RvS2PT.rv_s2_pte) 100 64 demo_world);
    [exact demo_fa_inv|exact demo_free_count|exact demo_clean].
Defined.

Lemma new_16_correct_witness :
  wp (frame_new_16 100)
    (λ f w', ∃ i, f = mkFrame (base demo_world + i * PAGE_SIZE) 4 ∧
       (∀ j, i ≤ j < i + 4 → free demo_world j = true) ∧ base w' = base demo_world ∧
       fa_inv 64 (w_fa w') ∧
       (∀ j, free w' j = free demo_world j && negb (bool_decide (i ≤ j < i + 4))) ∧
       scrubbed demo_world w')
    (λ e w', num e = ENOMEM ∧ base w' = base demo_world ∧ fa_inv 64 (w_fa w') ∧
             (∀ j, free w' j = free demo_world j) ∧ scrubbed demo_world w') demo_world.
Proof. apply (new_16_correct 64 100 demo_world); [exact demo_fa_inv|exact demo_free_count]. Defined.

(** A new table, then a mapping of 4M that is refused half way, an unmapping of
    what is not mapped (an error) and an update. *)
Definition demo_ops : list pt_op :=
  [PtMap demo_ram; PtMap demo_io; PtMap demo_ram; PtUpdate 0x9000000 0x9000000 READ].

(** The states a computation and a run of operations end in. *)
Lemma run_new_ok w : returned (unlocked_new (E:=HvError) 3 w) = true →
  unlocked_new (E:=HvError) 3 w = ROk (run_new w).2 (run_new w).1.
Proof. unfold run_new. by destruct (unlocked_new 3 w). Qed.

Definition run_ops (ops : list pt_op) (s : world (gset Z) * HvPageTable) :=
  default s (run_all (run_pt_op (P:=s2_pte) <$> ops) s).

Lemma run_ops_ok ops s :
  match run_all (run_pt_op (P:=s2_pte) <$> ops) s with Some _ => true | None => false end = true →
  run_all (run_pt_op (P:=s2_pte) <$> ops) s = Some (run_ops ops s).
Proof. unfold run_ops. by destruct (run_all _ s). Qed.

Lemma page_table_frames_returned_witness :
  wp (E:=HvError) (pt_drop (run_ops demo_ops demo_s).2)
    (λ _ w3, base w3 = base demo_world ∧ ∀ j, free w3 j = free demo_world j)
    (λ _ _, False) (run_ops demo_ops demo_s).1.
Proof.
  refine (page_table_frames_returned (P:=s2_pte) 64 3 demo_world demo_s.1 demo_s.2 demo_ops
    (run_ops demo_ops demo_s) demo_fa_inv (run_new_ok demo_world _) _).
  - vm_compute. reflexivity.
  - rewrite <- surjective_pairing. apply run_ops_ok. vm_compute. reflexivity.
Defined.

(** A device tree with 64K of memory, a virtio device and a serial port. *)
Definition demo_fdt : Fdt :=
  mkFdt [(0x80000000, Some 0x10000)]
    (λ p, if decide (p = "/soc/virtio_mmio"%string) then [Some (0x10001000, Some 0x1000)]
          else if decide (p = "/soc/uart"%string) then [Some (0x10000000, Some 0x100)]
          else []).

Lemma demo_fdt_wf : fdt_wf demo_fdt.
Proof.
  split. intros p paddr sz. cbn. do 2 (case_decide; [intros Hin%list_elem_of_singleton; by simplify_eq|]).
  by intros ?%not_elem_of_nil.
Qed.

Lemma demo_fdt_mappable :
  Forall (region_mappable (Sv39.format RvS1PT.norm_flags) (va_limit 3)) (fdt_regions demo_fdt).
Proof.
  change (fdt_regions demo_fdt) with
    [identity_region 0x80000000 0x10000 RWX; identity_region 0x10001000 0x1000 RW;
     identity_region 0x10000000 0x1000 RW].
  assert (∀ a sz fl, a mod PAGE_SIZE = 0 → sz mod PAGE_SIZE = 0 → 0 ≤ a → 0 ≤ sz →
            a + sz ≤ va_limit 3 → Sv39.usable fl = true →
            region_mappable (Sv39.format RvS1PT.norm_flags) (va_limit 3) (identity_region a sz fl))
    as Hm by (intros; split; [apply mapper_ok_offset|by split_and!]).
  constructor; [by apply Hm|]. constructor; [by apply Hm|]. constructor; [by apply Hm|constructor].
Qed.

