(* ===== verification/BootProps.v ===== *)
(** * The boot of the hypervisor

    Properties of [rust_main] on all CPUs, for every interleaving, with the
    hypervisor's own actions; the witnesses are on the machine of [DemoBoot]. *)

From S2P Require Import Prelude PhysMem HvError Addr Frame Region Pte S2pt PtIface Paging.
From S2P Require Import PtInstance BTreeMap MemorySet CpuSet Mmio Config Platform Sys ZoneOps Gic Event.
From S2P Require Import Vgic Hypercall Demo DemoSys Stable SysFrame Boot BootInv BootSys DemoBoot.

(** ** Safety *)

Section boot.
  Context {T PT D : Type} {HB : BitAlloc T} {G : GenericPageTable (world T) PT} {B : Bus D}.
  Context (plat : platform) (core_end parking_page psci_invalid_address : Z) (poll : nat).
  Context (m : machine (world T) PT D) (e1 e2 e3 e4 : Z).
  Abbreviation acts := (boot_actions plat core_end parking_page psci_invalid_address poll).
  Abbreviation reset := (reset_state m e1 e2 e3 e4 [0%nat]).

Lemma boot_inv n b :
  platform_fits plat = true → steps acts n reset b → inv acts (boot_pre plat) (boot_root plat) b.
Proof.
  intros Hfits. eapply inv_steps; [by apply boot_actions_ok|apply inv_reset].
Qed.

(** C14: Booting with CPU 0, in every interleaving: when any CPU is about to run a guest
    or runs one, every CPU has set up its interrupt interface, the root zone of the
    platform is in the zone list, the event queues and the GIC's addresses are
    initialised, and CPU 0 is the one primary, recorded in MASTER_CPU. *)
Theorem boot_root_before_guest n b i c :
  platform_fits plat = true → steps acts n reset b →
  b_cpus b !! i = Some c → c_pc c = PcRun ∨ c_pc c = PcGuest →
  (∀ j d, b_cpus b !! j = Some d →
     (rank PcPerCpu < rank (c_pc d))%nat ∧ (c_primary d = true ↔ j = 0%nat)) ∧
  boot_root plat (b_sys b) ∧ b_master b = 0.
Proof.
  intros Hfits Hs Hi Hc. pose proof (boot_inv _ _ Hfits Hs) as I.
  destruct (inv_safe _ _ _ _ i I) as (Hall & HQ & Hm & Hp).
  { rewrite (rk_some _ _ _ Hi). by destruct Hc as [-> | ->]; simpl; lia. }
  split_and!; [|done..]. intros j d Hd. split; [|by apply Hp].
  rewrite <- (rk_some _ _ _ Hd). eapply Hall, inv_bound; eauto.
Qed.

(** C15: Booting with CPU 0, no interleaving has more than 158 steps, and one that has come
    to an end without a panic has every CPU in a guest: no CPU waits for ever at a
    barrier. *)
Theorem boot_reaches_guest n b :
  platform_fits plat = true → steps acts n reset b →
  (n ≤ 158)%nat ∧
  ((∀ i, step_cpu acts i b = None) → (∀ i c r, b_cpus b !! i = Some c → c_pc c ≠ PcDead r) →
   ∀ i c, b_cpus b !! i = Some c → c_pc c = PcGuest).
Proof.
  intros Hfits Hs. pose proof (boot_inv _ _ Hfits Hs) as I. split.
  - pose proof (steps_total _ _ _ (boot_actions_ok _ _ _ _ _ Hfits) _ _ _ (inv_reset _ _ _ _ _ _ _ _) Hs) as Ht.
    pose proof (total_bound _ _ _ _ I) as Hb. change (total reset) with 2%nat in Ht. lia.
  - by apply (inv_progress _ _ _ _ I).
Qed.

End boot.

Lemma boot_root_before_guest_witness :
  boot_root qemu_aarch64 (b_sys qemu_end) ∧ b_master qemu_end = 0.
Proof.
  refine (proj2 (boot_root_before_guest qemu_aarch64 0x40500000 0x40480000 0xffff 8 qemu_machine 7 7 7 7
    (taken qemu_actions (rounds 23) qemu_reset) qemu_end 2 (mkCpuState PcGuest false) _ (run_steps _ _ _) _ _)).
  - reflexivity.
  - rewrite qemu_boots. reflexivity.
  - right. reflexivity.
Defined.

Lemma qemu_stuck i : step_cpu qemu_actions i qemu_end = None.
Proof. unfold step_cpu. rewrite qemu_boots. by do 4 (destruct i as [|i]; [done|]). Qed.

Lemma boot_reaches_guest_witness :
  (taken qemu_actions (rounds 23) qemu_reset ≤ 158)%nat ∧
  ∀ i c, b_cpus qemu_end !! i = Some c → c_pc c = PcGuest.
Proof.
  destruct (boot_reaches_guest qemu_aarch64 0x40500000 0x40480000 0xffff 8 qemu_machine 7 7 7 7
    (taken qemu_actions (rounds 23) qemu_reset) qemu_end eq_refl (run_steps _ _ _)) as [Hn Hall].
  split; [exact Hn|]. apply Hall; [exact qemu_stuck|].
  intros i c r. rewrite qemu_boots. do 4 (destruct i as [|i]; [by intros [= <-]|]). done.
Defined.

(** ** What happens when the firmware starts other CPUs *)

(** Every CPU waits for the others to enter. *)
Definition all_waiting {S} (b : boot S) : bool :=
  forallb (λ c, match c_pc c with PcWaitEntered => true | _ => false end) (b_cpus b).

(** C39: MASTER_CPU is read and then written, not exchanged: with two CPUs started by the
    firmware there is an interleaving, whatever the actions do, in which both see -1
    and both become the primary. *)
Theorem master_race {S} (act : actions S) s e1 e2 e3 e4 :
  ∃ l, let b := run_schedule act l (reset_state s e1 e2 e3 e4 [0%nat; 1%nat]) in
    c_primary <$> b_cpus b !! 0%nat = Some true ∧ c_primary <$> b_cpus b !! 1%nat = Some true ∧
    b_master b = 1.
Proof. exists [0; 1; 0; 1; 0; 1]%nat. by split_and!. Qed.

(** C40: Only CPU 0 clears .bss, and it does so when it starts: with CPU 1 as the boot CPU
    there is an interleaving in which CPU 0 resets ENTERED_CPUS after the others have
    counted themselves, and all CPUs wait for ever. *)
Theorem other_boot_cpu_deadlock {S} (act : actions S) s :
  ∃ l, let b := run_schedule act l (reset_state s 0 0 0 0 [1%nat]) in
    all_waiting b = true ∧ b_entered b = 1 ∧ ∀ i, step_cpu act i b = None.
Proof.
  exists (replicate 10 1%nat ++ replicate 4 2%nat ++ replicate 4 3%nat ++ replicate 4 0%nat).
  split_and!; [done|done|]. by do 4 (intros [|i]; [done|revert i]).
Qed.
